(* ===== verification/_CoqProject ===== *)
-Q . S2P
Prelude.v
GoStd.v
GoPath.v
FileSecurity.v
UploadSpace.v
MutationError.v
PublicPaths.v
WorkerProtocol.v
GoEncoding.v
Verifier.v
GoWeb.v
Portal.v
UploadWorld.v
UploadSession.v
FileUpload.v
Keyring.v
Envelope.v
OAuthState.v
SyncMap.v
DownloadServer.v
SambaMount.v
SambaAccounts.v
