(* ===== verification/Prelude.v ===== *)
(** * ReCasaOS: a verification development

    ReCasaOS is the backend of a personal-cloud home server, written in Go. This
    library models the parts of it that carry the security and integrity
    decisions: which paths clients may reach, how uploads are assembled, what the
    public file portal serves and to whom, how SMB credentials are sealed, which
    account tools and mount calls are made. Each definition translates the Go
    code it names; the theorems state what makes that code correct.

    ** The program and the files

    The management API lets an administrator upload files into configured roots.
    [service/file_upload.go] receives chunks, keeps sessions and assembles the
    target; it asks [pkg/filesecurity] which paths are allowed and reserves disk
    space through it; errors carry whether a namespace changed.

    - FileSecurity.v models [pkg/filesecurity/filesecurity.go] and
      [managed_paths.go]: the lexical authorization of client paths
      ([ValidateRelativePath], [MatchManagementPath], [MatchManagementChild],
      [ParseManagementFileRoots], [ValidatePathComponent]) and the bounds on
      upload metadata.
    - UploadSpace.v models [pkg/filesecurity/upload_space.go]: the admission
      object with 64-bit counters and its release closures as tokens.
    - MutationError.v models [pkg/filesecurity/managed_copy.go] as far as error
      trees go: the bounded aggregation of "changed" and "durability unknown".
    - UploadWorld.v is the interface (a type class) between the upload service and
      the file system, clock and lock competition: an operation may answer
      anything, so the service's theorems hold in every environment.
    - UploadSession.v and FileUpload.v model [service/file_upload.go]: the session
      table and its critical sections, chunk validation, chunk writing,
      assembly, the handlers [UploadFile] and [TestChunk], and the interleaving
      of requests as a step relation over critical sections.

    The public portal is a separate process serving a read-only tree.

    - PublicPaths.v, Portal.v, GoWeb.v model [pkg/publicfiles/portal.go] and
      [storage.go]: names, configuration, authorization, routing, listing,
      downloads (with [http.ServeContent] and ranges), the slot channel and the
      deferred calls that close the file and release the slot, for every storage
      backend (class [StorageBackend]); a handler yields its effects in order, and
      concurrent requests interleave effect by effect.
    - Verifier.v models [verifier.go]: bearers and the stored verifier.
    - WorkerProtocol.v models [worker_protocol.go]: the frames between portal and
      storage worker; the four codecs are instances of one class with its laws.
    - DownloadServer.v models [server.go]: server limits and the writer that
      bounds downloads by progress (class [ResponseWorld] for clock and
      connection).

    SMB: the server mounts foreign shares and exports its own.

    - Keyring.v and Envelope.v model [pkg/smbcredentials/keyring.go] and
      [envelope.go]: key-encryption keys, their file format and rotation, and
      two-layer envelopes. SHA-256, the AEAD and UUID parsing are not part of the
      repository: they are parameters with laws as hypotheses.
    - SambaMount.v models [service/connections_validation.go] and
      [connections_linux.go]: connection fields, persisted rows, the mount call,
      the recognition of mount table entries.
    - SambaAccounts.v models [service/samba_user.go]: the share accounts, over a
      class [AccountWorld] of account tools.

    OAuthState.v models [pkg/oauthsecurity/state.go] and [pkce.go]: single-use
    authorization states. SyncMap.v models [pkg/generic_sync/generic_sync.go], a
    two-level map with shared entries. Prelude.v, GoStd.v, GoPath.v, GoEncoding.v
    and GoWeb.v hold the shared vocabulary: results, machine integers, bytes,
    sorting, histories, and the functions of Go's standard library the code
    calls (strings, unicode/utf8, path/filepath, strconv, hex, base64, net/url
    queries, net/http headers and content serving).

    ** Conventions

    A Go function that returns an error yields [result E A] (or an option of an
    error where there is nothing else to return); guards keep the order of the
    code's early returns. Go strings and byte slices are lists of bytes; [int64],
    [uint64] and [time.Duration] are [Z], with the wrap-around written out where
    the code computes ([u64], [s64]). Shared objects (upload sessions, map
    entries) live in stores and are reached by pointer. Code outside the
    repository is a class or a section variable; what it answers is arbitrary
    unless a law of its documentation is named as a hypothesis, and every such
    hypothesis has a witness with a concrete instance.

    ** What the theorems show

    - Paths: an accepted child path stays strictly below the selected base in the
      most specific configured root; the accepted texts are characterized exactly.
    - Space: a reservation is granted exactly when free space covers headroom,
      outstanding promises and the new bytes; the counter is the sum of the
      promises still held, whatever the order of releases.
    - Uploads: in every interleaving the table bounds hold and each session's
      counter, marks and digests agree; sessions keep their identity; a request
      records exactly its own chunk or completes the upload from the recorded ones,
      and a replay changes nothing; a target is published only from pieces with the
      recorded digests and the declared size; pruning evicts exactly as many
      completed sessions as it must, the oldest first. [UploadFile_steps] relates
      the handler run alone to the step relation.
    - Portal: storage is reached only for authorized, well-formed requests; every
      response carries the security headers; slots are never exceeded and never
      leaked, nor are files; bodies are exact; protocol frames and verifier texts are canonical; every write to the
      connection is guarded by a bounded deadline.
    - Credentials: formats parse exactly what they print; the authenticated data
      determines the context; rotation keeps every key and adds one new active key;
      what is sealed opens, after any number of rotations;
      rewrapping preserves the password.
    - OAuth: a state presented under a valid provider name is spent, the store is bounded, a begun
      authorization can be completed.
    - Samba: mount options cannot be injected, persisted rows are read exactly,
      only managed accounts are touched.
    - The two-level map gives the results of a plain map, [Count] and [Empty] apart.

    ** Fuel

    Recursion that is not structural runs on fuel computed from its input: the
    UTF-8 decoder on the length of the text (each step consumes a byte), trimming
    and JSON escaping likewise, the error traversal on the code's own budget
    (exhausting it is the code's behaviour and reported as such). No theorem is
    conditional on fuel.

    ** What is not modelled

    System calls and process management (the Linux half of [pkg/filesecurity]:
    pinned descriptors, copying, archives, recovery; the storage worker's parent
    and child processes; credential provisioning, audit and backup); SQL through
    gorm; HTTP routing glue in [route/]; configuration files; generated API
    code; cloud drives; the HTTP, SSH and outbound-request policies
    ([pkg/httpsecurity], [pkg/netsecurity], [pkg/sshsecurity]), SMB server
    identities, Samba shares and the credential cutover, whose logic is planned
    as further components. Concurrency is modelled at the granularity of critical
    sections (uploads) or of single effects (portal); one pruning pass over the
    upload table is a single step, so the locks of sessions do not change during
    it; account requests run one after the other; the two-level map is modelled
    without interference of other goroutines. Error trees are finite. *)

From Stdlib Require Import Strings.Byte ZArith Lia String.
From stdpp Require Import base list strings gmap sorting relations.

Open Scope Z_scope.

(** ** Fallible code

    A Go function returning [(T, error)] is modelled by [result E T]; [E] is the
    component's own type of errors. *)

Inductive result (E A : Type) : Type :=
| Ok (a : A)
| Err (e : E).
Arguments Ok {E A} a.
Arguments Err {E A} e.

Declare Scope go_scope.
Delimit Scope go_scope with go.
Open Scope go_scope.

(** [if err := c; err != nil { return err }; k] *)
Notation "'let!' x := c 'in' k" :=
  (match c with Ok x => k | Err e => Err e end)
  (at level 10, x pattern, c at level 100, k at level 200) : go_scope.

(** [if b { return err }; k] *)
Notation "'fail_if' b 'with' e 'in' k" :=
  (if b then Err e else k)
  (at level 10, b at level 100, e at level 100, k at level 200) : go_scope.

Lemma Ok_inj {E A} (a b : A) : @Ok E A a = Ok b -> a = b.
Proof. congruence. Qed.

Definition is_ok {E A} (r : result E A) : bool :=
  match r with Ok _ => true | Err _ => false end.

Lemma is_ok_true {E A} (r : result E A) : is_ok r = true <-> exists a, r = Ok a.
Proof. destruct r; split; try done; [eauto | intros [? [=]]]. Qed.

(** Break the first [if]/[match] a hypothesis is stuck on. *)
Ltac step_in H :=
  match type of H with
  | context [if ?b then _ else _] => destruct b eqn:?
  | context [match ?c with Ok _ => _ | Err _ => _ end] => destruct c eqn:?
  | context [match ?c with Some _ => _ | None => _ end] => destruct c eqn:?
  end; try discriminate H.

(** Walk a successful run of straight-line fallible code. *)
Ltac steps_in H := repeat step_in H; simplify_eq.

(** Turn boolean tests into the propositions they decide. *)
Ltac bools :=
  repeat match goal with
  | H : _ || _ = false |- _ => apply orb_false_iff in H as [? ?]
  | H : _ && _ = true |- _ => apply andb_true_iff in H as [? ?]
  | H : negb _ = true |- _ => apply negb_true_iff in H
  | H : negb _ = false |- _ => apply negb_false_iff in H
  | H : bool_decide _ = true |- _ => apply bool_decide_eq_true in H
  | H : bool_decide _ = false |- _ => apply bool_decide_eq_false in H
  | H : Z.eqb _ _ = true |- _ => apply Z.eqb_eq in H
  | H : Z.eqb _ _ = false |- _ => apply Z.eqb_neq in H
  | H : Z.ltb _ _ = true |- _ => apply Z.ltb_lt in H
  | H : Z.ltb _ _ = false |- _ => apply Z.ltb_ge in H
  | H : Z.leb _ _ = true |- _ => apply Z.leb_le in H
  | H : Z.leb _ _ = false |- _ => apply Z.leb_gt in H
  end.

(** ** Machine integers

    Go's [int] is 64 bits on every platform the portal and the service ship
    for (amd64, arm64, riscv64). *)

Definition wrap_u (w x : Z) : Z := x mod 2 ^ w.
Definition wrap_s (w x : Z) : Z := (x + 2 ^ (w - 1)) mod 2 ^ w - 2 ^ (w - 1).

Definition in_u (w x : Z) : Prop := 0 <= x < 2 ^ w.
Definition in_s (w x : Z) : Prop := - 2 ^ (w - 1) <= x < 2 ^ (w - 1).

Abbreviation u64 := (wrap_u 64).
Abbreviation s64 := (wrap_s 64).

Lemma wrap_u_id w x : in_u w x -> wrap_u w x = x.
Proof. intros H. apply Z.mod_small, H. Qed.

Lemma wrap_u_range w x : 0 <= w -> in_u w (wrap_u w x).
Proof. intros. apply Z.mod_pos_bound. lia. Qed.

Lemma wrap_s_id w x : 0 < w -> in_s w x -> wrap_s w x = x.
Proof.
  unfold in_s, wrap_s. intros Hw H.
  assert (2 ^ w = 2 * 2 ^ (w - 1)) by (rewrite <- Z.pow_succ_r by lia; f_equal; lia).
  rewrite Z.mod_small; lia.
Qed.

(** A signed value survives the conversion to unsigned and back. *)
Lemma wrap_s_wrap_u w x : 0 < w -> in_s w x -> wrap_s w (wrap_u w x) = x.
Proof.
  intros Hw H. rewrite <- (wrap_s_id w x) at 2 by done.
  unfold wrap_s, wrap_u. by rewrite Zplus_mod_idemp_l.
Qed.

Lemma wrap_s_range w x : 0 < w -> in_s w (wrap_s w x).
Proof.
  unfold in_s, wrap_s. intros Hw.
  assert (2 ^ w = 2 * 2 ^ (w - 1)) by (rewrite <- Z.pow_succ_r by lia; f_equal; lia).
  pose proof (Z.mod_pos_bound (x + 2 ^ (w - 1)) (2 ^ w)). lia.
Qed.

(** ** Bytes *)

Definition byte_val (b : byte) : Z := Z.of_N (Byte.to_N b).

Definition byte_of (z : Z) : byte :=
  default x00 (Byte.of_N (Z.to_N (z mod 256))).

#[export] Instance byte_eq_dec : EqDecision byte := Byte.byte_eq_dec.

#[export] Program Instance byte_countable : Countable byte :=
  inj_countable Byte.to_N Byte.of_N _.
Next Obligation. apply Byte.of_to_N. Qed.

Lemma byte_val_range b : 0 <= byte_val b < 256.
Proof. unfold byte_val. pose proof (Byte.to_N_bounded b). lia. Qed.

Lemma byte_val_inj a b : byte_val a = byte_val b -> a = b.
Proof.
  unfold byte_val. intros H. apply N2Z.inj in H.
  pose proof (Byte.of_to_N a). pose proof (Byte.of_to_N b). congruence.
Qed.

Lemma byte_val_of z : byte_val (byte_of z) = z mod 256.
Proof.
  unfold byte_of, byte_val.
  pose proof (Z.mod_pos_bound z 256 ltac:(lia)).
  destruct (Byte.of_N _) as [b|] eqn:E; simpl.
  - apply Byte.to_of_N in E. rewrite E. lia.
  - apply Byte.of_N_None_iff in E. lia.
Qed.

Lemma byte_of_val b : byte_of (byte_val b) = b.
Proof.
  apply byte_val_inj. rewrite byte_val_of. apply Z.mod_small, byte_val_range.
Qed.

(** Go strings and [[]byte] values are both byte sequences. [bs] reads a literal. *)
Abbreviation bytes := (list byte).

Definition bs (s : string) : bytes := String.list_byte_of_string s.

Definition Zlen {A} (l : list A) : Z := Z.of_nat (length l).

Lemma Zlen_nonneg {A} (l : list A) : 0 <= Zlen l.
Proof. unfold Zlen. lia. Qed.

Lemma Zlen_app {A} (l k : list A) : Zlen (l ++ k) = Zlen l + Zlen k.
Proof. unfold Zlen. rewrite length_app. lia. Qed.

(** [s[lo:hi]] *)
Definition slice {A} (lo hi : nat) (l : list A) : list A := take (hi - lo) (drop lo l).

Lemma length_slice {A} lo hi (l : list A) :
  (hi <= length l)%nat -> length (slice lo hi l) = (hi - lo)%nat.
Proof. intros. unfold slice. rewrite length_take, length_drop. lia. Qed.

Lemma drop_slice {A} lo hi (l : list A) :
  (lo <= hi)%nat -> drop lo l = slice lo hi l ++ drop hi l.
Proof.
  intros. unfold slice. rewrite <- (take_drop (hi - lo) (drop lo l)) at 1.
  rewrite drop_drop. do 2 f_equal. lia.
Qed.

(** Byte classes, written as the [switch] arms of the source write them. *)
Definition between (lo hi : byte) (b : byte) : bool :=
  (byte_val lo <=? byte_val b) && (byte_val b <=? byte_val hi).

Definition is_lower (b : byte) : bool := between "a" "z" b.
Definition is_upper (b : byte) : bool := between "A" "Z" b.
Definition is_digit (b : byte) : bool := between "0" "9" b.

(** ** Big-endian integers ([encoding/binary]) *)

Fixpoint be_put (n : nat) (z : Z) : bytes :=
  match n with
  | O => []
  | S n' => byte_of (z / 256 ^ Z.of_nat n') :: be_put n' z
  end.

Definition be_get (l : bytes) : Z := foldl (fun acc b => acc * 256 + byte_val b) 0 l.

Lemma length_be_put n z : length (be_put n z) = n.
Proof. induction n; simpl; congruence. Qed.

Lemma Zlen_be_put n z : Zlen (be_put n z) = Z.of_nat n.
Proof. unfold Zlen. by rewrite length_be_put. Qed.

Lemma foldl_be_get l acc :
  foldl (fun acc b => acc * 256 + byte_val b) acc l = acc * 256 ^ Zlen l + be_get l.
Proof.
  unfold be_get. revert acc. induction l as [|b l IH]; intros acc; cbn [foldl].
  - unfold Zlen. simpl. lia.
  - rewrite IH, (IH (0 * 256 + byte_val b)). unfold Zlen. simpl length.
    rewrite Nat2Z.inj_succ, Z.pow_succ_r by lia. nia.
Qed.

Lemma be_get_cons b l : be_get (b :: l) = byte_val b * 256 ^ Zlen l + be_get l.
Proof. unfold be_get at 1. cbn [foldl]. apply foldl_be_get. Qed.

Lemma be_get_range l : 0 <= be_get l < 256 ^ Zlen l.
Proof.
  induction l as [|b l IH]; [done|]. rewrite be_get_cons.
  pose proof (byte_val_range b). unfold Zlen in *. simpl length.
  rewrite Nat2Z.inj_succ, Z.pow_succ_r by lia. nia.
Qed.

Lemma be_get_put n z : be_get (be_put n z) = z mod 256 ^ Z.of_nat n.
Proof.
  induction n as [|n IH]; simpl be_put; [by rewrite Z.mod_1_r|].
  rewrite be_get_cons, IH, byte_val_of. unfold Zlen. rewrite length_be_put.
  rewrite Nat2Z.inj_succ, Z.pow_succ_r, (Z.mul_comm 256) by lia.
  rewrite Z.rem_mul_r by lia. lia.
Qed.

Lemma be_get_put_small n z : 0 <= z < 256 ^ Z.of_nat n -> be_get (be_put n z) = z.
Proof. intros. rewrite be_get_put. by apply Z.mod_small. Qed.

Lemma be_put_ext n x y :
  x mod 256 ^ Z.of_nat n = y mod 256 ^ Z.of_nat n -> be_put n x = be_put n y.
Proof.
  revert x y. induction n as [|n IH]; intros x y H; [done|]. cbn [be_put].
  rewrite Nat2Z.inj_succ, Z.pow_succ_r, (Z.mul_comm 256), !Z.rem_mul_r in H by lia.
  pose proof (Z.mod_pos_bound x (256 ^ Z.of_nat n) ltac:(lia)).
  pose proof (Z.mod_pos_bound y (256 ^ Z.of_nat n) ltac:(lia)).
  destruct (Z.div_mod_unique (256 ^ Z.of_nat n)
    ((x / 256 ^ Z.of_nat n) mod 256) ((y / 256 ^ Z.of_nat n) mod 256)
    (x mod 256 ^ Z.of_nat n) (y mod 256 ^ Z.of_nat n)) as [Hd Hm]; [lia..|].
  f_equal; [|by apply IH]. apply byte_val_inj. by rewrite !byte_val_of.
Qed.

Lemma be_put_get l : be_put (length l) (be_get l) = l.
Proof.
  induction l as [|b l IH]; [done|]. simpl length. cbn [be_put].
  pose proof (be_get_range l). rewrite be_get_cons. unfold Zlen in *. f_equal.
  - rewrite Z.div_add_l, Z.div_small, Z.add_0_r by lia. apply byte_of_val.
  - etransitivity; [apply be_put_ext | exact IH].
    by rewrite Z.add_comm, Z.mod_add by lia.
Qed.

Lemma be_put_get' n l : length l = n -> be_put n (be_get l) = l.
Proof. intros <-. apply be_put_get. Qed.

(** ** sort.Slice

    Insertion sort stands for [sort.Slice]. Where [less] is a strict total order
    the sorted permutation is unique, so any algorithm computes it; where it has
    ties (completion times of uploads) the theorems quantify over every order of
    the input, which lets ties come out in any order. *)

Fixpoint sort_insert {A} (less : A -> A -> bool) (x : A) (l : list A) : list A :=
  match l with
  | [] => [x]
  | y :: l' => if less x y then x :: l else y :: sort_insert less x l'
  end.

Definition sort_slice {A} (less : A -> A -> bool) (l : list A) : list A :=
  foldr (sort_insert less) [] l.

Section sorting.
Context {A : Type} (less : A -> A -> bool).

Lemma sort_insert_perm x l : sort_insert less x l ≡ₚ x :: l.
Proof.
  induction l as [|y l IH]; simpl; [done|]. destruct (less x y); [done|].
  by rewrite IH, Permutation_swap.
Qed.

Lemma sort_slice_perm l : sort_slice less l ≡ₚ l.
Proof. induction l as [|x l IH]; simpl; [done|]. by rewrite sort_insert_perm, IH. Qed.

(** No element is [less] than one before it. *)
Definition sorted_by : list A -> Prop := StronglySorted (fun x y => less y x = false).

Context (less_asym : forall x y, less x y = true -> less y x = false)
        (less_negtrans : forall x y z, less y x = false -> less z y = false -> less z x = false).

Lemma sort_insert_sorted x l : sorted_by l -> sorted_by (sort_insert less x l).
Proof using less_asym less_negtrans.
  induction 1 as [|y l Hs IH Hy]; simpl; [repeat constructor|].
  destruct (less x y) eqn:E.
  - constructor; [by constructor|]. constructor; [by apply less_asym|].
    eapply Forall_impl; [exact Hy|]. intros z Hz. eauto.
  - constructor; [done|]. rewrite sort_insert_perm. by constructor.
Qed.

Lemma sort_slice_sorted l : sorted_by (sort_slice less l).
Proof using less_asym less_negtrans.
  induction l; simpl; [constructor|]. by apply sort_insert_sorted.
Qed.
End sorting.

Lemma StronglySorted_impl {A} (R S : A -> A -> Prop) l :
  (forall x y, R x y -> S x y) -> StronglySorted R l -> StronglySorted S l.
Proof.
  intros HRS. induction 1 as [|x l Hl IH Hx]; constructor; [done|].
  eapply Forall_impl; [exact Hx|]. eauto.
Qed.

(** ** Induction and exhaustive checks *)

Lemma list_len_ind {A} (P : list A -> Prop) :
  (forall l, (forall k, (length k < length l)%nat -> P k) -> P l) -> forall l, P l.
Proof.
  intros H l. remember (length l) as n eqn:Hn. revert l Hn.
  induction (lt_wf n) as [n _ IH]. intros l ->. apply H. intros k Hk. by eapply IH.
Qed.

Definition all_bytes : bytes := byte_of <$> (Z.of_nat <$> seq 0 256).

(** A boolean property of bytes holds everywhere if it holds on the 256 values. *)
Lemma byte_all (P : byte -> bool) : forallb P all_bytes = true -> forall b, P b = true.
Proof.
  intros H b. rewrite forallb_forall in H. apply H. unfold all_bytes.
  rewrite <- (byte_of_val b). apply in_map, in_map_iff. pose proof (byte_val_range b).
  exists (Z.to_nat (byte_val b)). split; [lia|]. apply in_seq. lia.
Qed.

Definition small_nats (n : nat) : list Z := Z.of_nat <$> seq 0 n.

Lemma small_all (P : Z -> bool) n :
  forallb P (small_nats n) = true -> forall z, 0 <= z < Z.of_nat n -> P z = true.
Proof.
  intros H z Hz. rewrite forallb_forall in H. apply H. apply in_map_iff.
  exists (Z.to_nat z). split; [lia|]. apply in_seq. lia.
Qed.

(** ** Reachability *)

Lemma rtc_invariant {A} (R : relation A) (P : A -> Prop) x y :
  P x -> (forall a b, R a b -> P a -> P b) -> rtc R x y -> P y.
Proof. intros Hx Hs. induction 1; eauto. Qed.

(** ** Histories *)

(** Every element of a history satisfies [P] relative to what came before it. *)
Definition each_after {A} (P : list A -> A -> Prop) (l : list A) : Prop :=
  forall pre x post, l = pre ++ x :: post -> P pre x.

Lemma each_after_nil {A} (P : list A -> A -> Prop) : each_after P [].
Proof. by intros [] ? ?. Qed.

Lemma each_after_snoc {A} (P : list A -> A -> Prop) l x : each_after P l -> P l x -> each_after P (l ++ [x]).
Proof.
  intros Hl Hx pre y post. destruct post as [|z post _] using rev_ind.
  - by intros [<- <-]%app_inj_tail.
  - rewrite app_comm_cons, app_assoc. intros [-> _]%app_inj_tail. by eapply Hl.
Qed.

Create HintDb history.
#[export] Hint Resolve each_after_nil each_after_snoc : history.
