(* ===== verification/GoStd.v ===== *)
(** * The parts of Go's standard library the modelled packages call

    [strings], [unicode/utf8], [unicode], [path/filepath] (Unix flavour) and
    [strconv], as functions on byte sequences, with the lemmas the components
    share. *)

From Stdlib Require Import Strings.Byte ZArith Lia String DecimalString DecimalZ.
From stdpp Require Import base list strings gmap sorting.
From S2P Require Import Prelude.

(** ** Package strings *)

Definition has_prefix (p s : bytes) : bool := bool_decide (take (length p) s = p).
Definition has_suffix (p s : bytes) : bool :=
  bool_decide (length p ≤ length s)%nat && bool_decide (drop (length s - length p) s = p).
Definition trim_prefix (p s : bytes) : bytes := if has_prefix p s then drop (length p) s else s.
Definition trim_suffix (p s : bytes) : bytes :=
  if has_suffix p s then take (length s - length p) s else s.

(** [strings.IndexByte(s, c) >= 0] *)
Definition contains_byte (c : byte) (s : bytes) : bool := bool_decide (c ∈ s).

(** [strings.Contains(s, sub)] *)
Fixpoint contains_sub (sub s : bytes) : bool :=
  has_prefix sub s || match s with [] => false | _ :: s' => contains_sub sub s' end.

(** [strings.Split(s, c)] for a one-byte separator. *)
Fixpoint split_on (c : byte) (s : bytes) : list bytes :=
  match s with
  | [] => [[]]
  | b :: s' =>
      if bool_decide (b = c) then [] :: split_on c s'
      else match split_on c s' with
           | [] => [[b]]
           | w :: ws => (b :: w) :: ws
           end
  end.

(** [strings.Join(l, c)] *)
Fixpoint join_with (c : byte) (l : list bytes) : bytes :=
  match l with
  | [] => []
  | [w] => w
  | w :: ws => w ++ c :: join_with c ws
  end.

(** [s < t] on Go strings. *)
Fixpoint bytes_ltb (s t : bytes) : bool :=
  match s, t with
  | [], [] => false
  | [], _ :: _ => true
  | _ :: _, [] => false
  | a :: s', b :: t' =>
      if byte_val a <? byte_val b then true
      else if byte_val b <? byte_val a then false
      else bytes_ltb s' t'
  end.

Definition bytes_leb (s t : bytes) : bool := negb (bytes_ltb t s).

Lemma split_on_nonnil c s : split_on c s <> [].
Proof. destruct s; simpl; [done|]. case_bool_decide; [done|]. by case_match. Qed.

Lemma join_split c s : join_with c (split_on c s) = s.
Proof.
  induction s as [|b s IH]; [done|]. simpl. pose proof (split_on_nonnil c s).
  case_bool_decide; subst.
  - simpl. destruct (split_on c s) eqn:E; [done|]. by rewrite IH.
  - destruct (split_on c s) as [|w ws] eqn:E; [done|].
    destruct ws; simpl in *; by rewrite IH.
Qed.

Lemma split_on_no_sep c s : Forall (fun w => c ∉ w) (split_on c s).
Proof.
  induction s as [|b s IH]; simpl; [repeat constructor; set_solver|].
  case_bool_decide; [constructor; [set_solver|done]|].
  destruct (split_on c s) as [|w ws]; [repeat constructor; set_solver|].
  inversion IH; subst. constructor; [set_solver|done].
Qed.

Lemma split_on_word c w : c ∉ w -> split_on c w = [w].
Proof.
  induction w as [|b w IH]; [done|]. intros H. simpl.
  rewrite bool_decide_eq_false_2 by set_solver. rewrite IH by set_solver. done.
Qed.

Lemma split_on_app c w s : c ∉ w -> split_on c (w ++ c :: s) = w :: split_on c s.
Proof.
  induction w as [|b w IH]; intros H; simpl.
  - by rewrite bool_decide_eq_true_2.
  - rewrite bool_decide_eq_false_2 by set_solver. rewrite IH by set_solver. done.
Qed.

Lemma join_with_cons c w w' l :
  join_with c (w :: w' :: l) = w ++ c :: join_with c (w' :: l).
Proof. done. Qed.

Lemma split_join c l :
  l <> [] -> Forall (fun w => c ∉ w) l -> split_on c (join_with c l) = l.
Proof.
  induction l as [|w l IH]; [done|]. intros _ H. inversion H; subst.
  destruct l as [|w' l]; [by apply split_on_word|].
  rewrite join_with_cons, split_on_app, IH by done. done.
Qed.

Lemma bytes_ltb_irrefl s : bytes_ltb s s = false.
Proof. induction s; simpl; [done|]. by rewrite Z.ltb_irrefl. Qed.

Lemma bytes_ltb_trans s t u : bytes_ltb s t = true -> bytes_ltb t u = true -> bytes_ltb s u = true.
Proof.
  revert t u. induction s as [|a s IH]; intros [|b t] [|c u]; simpl; try done.
  destruct (Z.ltb_spec (byte_val a) (byte_val b)), (Z.ltb_spec (byte_val b) (byte_val c)),
    (Z.ltb_spec (byte_val a) (byte_val c)), (Z.ltb_spec (byte_val b) (byte_val a)),
    (Z.ltb_spec (byte_val c) (byte_val b)), (Z.ltb_spec (byte_val c) (byte_val a));
    try done; try lia; eauto.
Qed.

Lemma bytes_ltb_total s t : bytes_ltb s t = false -> bytes_ltb t s = false -> s = t.
Proof.
  revert t. induction s as [|a s IH]; intros [|b t]; simpl; try done.
  destruct (Z.ltb_spec (byte_val a) (byte_val b)), (Z.ltb_spec (byte_val b) (byte_val a)); try done.
  intros. f_equal; [apply byte_val_inj; lia | auto].
Qed.

Lemma bytes_leb_total s t : bytes_leb s t = true \/ bytes_leb t s = true.
Proof.
  unfold bytes_leb. destruct (bytes_ltb t s) eqn:E; [|auto]. right.
  destruct (bytes_ltb s t) eqn:E'; [|done].
  pose proof (bytes_ltb_trans _ _ _ E E') as H. by rewrite bytes_ltb_irrefl in H.
Qed.

Lemma bytes_leb_trans s t u : bytes_leb s t = true -> bytes_leb t u = true -> bytes_leb s u = true.
Proof.
  unfold bytes_leb. intros H1%negb_true_iff H2%negb_true_iff. apply negb_true_iff.
  destruct (bytes_ltb u s) eqn:E; [|done].
  destruct (bytes_ltb s t) eqn:Est.
  - by rewrite (bytes_ltb_trans _ _ _ E Est) in H2.
  - by rewrite <- (bytes_ltb_total _ _ Est H1), E in H2.
Qed.

Lemma bytes_leb_antisym s t : bytes_leb s t = true -> bytes_leb t s = true -> s = t.
Proof. unfold bytes_leb. intros ?%negb_true_iff ?%negb_true_iff. by apply bytes_ltb_total. Qed.

(** ** Package unicode/utf8 *)

Definition rune_error : Z := 65533.

Definition cont (b : byte) : bool := between x80 xbf b.
Definition low6 (b : byte) : Z := byte_val b mod 64.

(** [utf8.DecodeRune]: the rune and its width; [(RuneError, 1)] on an invalid
    encoding and [(RuneError, 0)] on the empty string. *)
Definition decode_rune (s : bytes) : Z * nat :=
  match s with
  | [] => (rune_error, 0%nat)
  | b0 :: r =>
      if byte_val b0 <? 128 then (byte_val b0, 1%nat)
      else if between xc2 xdf b0 then
        match r with
        | b1 :: _ => if cont b1 then ((byte_val b0 mod 32) * 64 + low6 b1, 2%nat) else (rune_error, 1%nat)
        | _ => (rune_error, 1%nat)
        end
      else if between xe0 xef b0 then
        match r with
        | b1 :: b2 :: _ =>
            let lo := if bool_decide (b0 = xe0) then xa0 else x80 in
            let hi := if bool_decide (b0 = xed) then x9f else xbf in
            if between lo hi b1 && cont b2
            then ((byte_val b0 mod 16) * 4096 + low6 b1 * 64 + low6 b2, 3%nat)
            else (rune_error, 1%nat)
        | _ => (rune_error, 1%nat)
        end
      else if between xf0 xf4 b0 then
        match r with
        | b1 :: b2 :: b3 :: _ =>
            let lo := if bool_decide (b0 = xf0) then x90 else x80 in
            let hi := if bool_decide (b0 = xf4) then x8f else xbf in
            if between lo hi b1 && cont b2 && cont b3
            then ((byte_val b0 mod 8) * 262144 + low6 b1 * 4096 + low6 b2 * 64 + low6 b3, 4%nat)
            else (rune_error, 1%nat)
        | _ => (rune_error, 1%nat)
        end
      else (rune_error, 1%nat)
  end.

(** [utf8.DecodeLastRune]: look back at most four bytes for a byte that can
    start a rune, and accept it only when it ends the string. *)
Definition rune_start (b : byte) : bool := negb (cont b).

Definition decode_last_rune (s : bytes) : Z * nat :=
  match last s with
  | None => (rune_error, 0%nat)
  | Some b =>
      if byte_val b <? 128 then (byte_val b, 1%nat)
      else
        let n := length s in
        let try k := match s !! (n - k)%nat with Some c => rune_start c | None => false end in
        let start := if bool_decide (2 <= n)%nat && try 2%nat then 2%nat
                     else if bool_decide (3 <= n)%nat && try 3%nat then 3%nat
                     else if bool_decide (4 <= n)%nat && try 4%nat then 4%nat
                     else (Nat.min n 5) in
        let '(r, size) := decode_rune (drop (n - start) s) in
        if bool_decide (size = start) then (r, size) else (rune_error, 1%nat)
  end.

(** [for _, r := range s]: the runes of a string, with their widths. *)
Fixpoint runes_fuel (fuel : nat) (s : bytes) : list (Z * nat) :=
  match fuel with
  | O => []
  | S f => match s with
           | [] => []
           | _ => let '(r, n) := decode_rune s in (r, n) :: runes_fuel f (drop n s)
           end
  end.
Definition runes (s : bytes) : list (Z * nat) := runes_fuel (length s) s.

Definition valid_rune (rn : Z * nat) : bool :=
  negb ((rn.1 =? rune_error) && bool_decide (rn.2 = 1%nat)).
Definition valid_string (s : bytes) : bool := forallb valid_rune (runes s).

(** ** Package unicode *)

Definition in_ranges (l : list (Z * Z)) (r : Z) : bool :=
  existsb (fun '(lo, hi) => (lo <=? r) && (r <=? hi)) l.

(** [unicode.IsSpace], the White_Space property. *)
Definition is_space (r : Z) : bool :=
  in_ranges [(9, 13); (32, 32); (133, 133); (160, 160); (5760, 5760); (8192, 8202);
             (8232, 8233); (8239, 8239); (8287, 8287); (12288, 12288)] r.

(** [unicode.IsControl], category Cc. *)
Definition is_control (r : Z) : bool := in_ranges [(0, 31); (127, 159)] r.

(** Category Cf, [unicode.Is(unicode.Cf, r)]. *)
Definition is_format (r : Z) : bool :=
  in_ranges [(0xad, 0xad); (0x600, 0x605); (0x61c, 0x61c); (0x6dd, 0x6dd); (0x70f, 0x70f);
             (0x890, 0x891); (0x8e2, 0x8e2); (0x180e, 0x180e); (0x200b, 0x200f);
             (0x202a, 0x202e); (0x2060, 0x2064); (0x2066, 0x206f); (0xfeff, 0xfeff);
             (0xfff9, 0xfffb); (0x110bd, 0x110bd); (0x110cd, 0x110cd); (0x13430, 0x1343f);
             (0x1bca0, 0x1bca3); (0x1d173, 0x1d17a); (0xe0001, 0xe0001); (0xe0020, 0xe007f)] r.

(** [strings.TrimSpace] *)
Fixpoint trim_left_fuel (fuel : nat) (s : bytes) : bytes :=
  match fuel with
  | O => s
  | S f => match s with
           | [] => []
           | _ => let '(r, n) := decode_rune s in
                  if is_space r then trim_left_fuel f (drop n s) else s
           end
  end.
Fixpoint trim_right_fuel (fuel : nat) (s : bytes) : bytes :=
  match fuel with
  | O => s
  | S f => match s with
           | [] => []
           | _ => let '(r, n) := decode_last_rune s in
                  if is_space r then trim_right_fuel f (take (length s - n) s) else s
           end
  end.
Definition trim_space (s : bytes) : bytes :=
  let l := trim_left_fuel (length s) s in trim_right_fuel (length l) l.

(** [strings.ToLower] on ASCII letters; other bytes are unchanged. *)
Definition lower_byte (b : byte) : byte := if is_upper b then byte_of (byte_val b + 32) else b.
Definition to_lower_ascii (s : bytes) : bytes := lower_byte <$> s.

(** ** Package strconv: decimal integers *)

Definition itoa (z : Z) : bytes := bs (NilZero.string_of_int (Z.to_int z)).

Lemma bs_inj s t : bs s = bs t -> s = t.
Proof.
  unfold bs. intros H. rewrite <- (string_of_list_byte_of_string s), H.
  apply string_of_list_byte_of_string.
Qed.

Lemma itoa_inj x y : itoa x = itoa y -> x = y.
Proof.
  unfold itoa. intros H%bs_inj. apply DecimalZ.to_int_inj.
  assert (Some (Z.to_int x) = Some (Z.to_int y)) as [=]; [|done].
  assert (Hne : forall z, Z.to_int z <> Decimal.Pos Decimal.Nil /\ Z.to_int z <> Decimal.Neg Decimal.Nil).
  { intros z. destruct z; simpl; split; try done; intros [=]; by eapply DecimalPos.Unsigned.to_uint_nonnil. }
  rewrite <- !NilZero.isi by apply Hne. by rewrite H.
Qed.

(** ** Time: nanoseconds since the zero [time.Time] *)

Definition is_zero_time (t : Z) : bool := t =? 0.
(** [t.Sub(u)] saturates at the ends of [time.Duration]. *)
Definition time_sub (t u : Z) : Z := Z.max (- 2 ^ 63) (Z.min (2 ^ 63 - 1) (t - u)).

Definition minute : Z := 60 * 1000000000.
Definition hour : Z := 60 * minute.
