(* ===== verification/GoPath.v ===== *)
(** * Package path/filepath on Unix

    [Clean], [Join], [Base], [Dir] and [Rel] as the Go documentation defines
    them, on slash-separated byte strings, and the algebra of clean absolute
    paths the file-security components rest on. *)

From Stdlib Require Import Strings.Byte ZArith Lia String.
From stdpp Require Import base list strings sets.
From S2P Require Import Prelude GoStd.

Definition sep : byte := "/".
Definition dot : bytes := ["."%byte].
Definition dotdot : bytes := ["."%byte; "."%byte].
Definition slash : bytes := [sep].

(** [filepath.IsAbs] *)
Definition is_abs (s : bytes) : bool := match s with b :: _ => bool_decide (b = sep) | [] => false end.

(** One element of [Clean]'s scan: empty and "." elements vanish, ".." removes
    the element before it, except at the front of a rooted path (where it
    vanishes) and of a relative one (where it is kept). The stack is reversed. *)
Definition clean_step (rooted : bool) (stack : list bytes) (c : bytes) : list bytes :=
  if bool_decide (c = []) || bool_decide (c = dot) then stack
  else if bool_decide (c = dotdot) then
    match stack with
    | [] => if rooted then [] else [dotdot]
    | top :: rest => if bool_decide (top = dotdot) then dotdot :: stack else rest
    end
  else c :: stack.

Definition clean_comps (rooted : bool) (l : list bytes) : list bytes :=
  rev (foldl (clean_step rooted) [] l).

(** [filepath.Clean] *)
Definition clean (s : bytes) : bytes :=
  if bool_decide (s = []) then dot
  else
    let out := clean_comps (is_abs s) (split_on sep s) in
    if is_abs s then sep :: join_with sep out
    else match out with [] => dot | _ => join_with sep out end.

(** [filepath.Join(a, b)] *)
Definition path_join (a b : bytes) : bytes :=
  if negb (bool_decide (a = [])) then clean (a ++ sep :: b)
  else if negb (bool_decide (b = [])) then clean b
  else [].

(** [strings.TrimRight(s, "/")] *)
Fixpoint trim_slashes_rev (s : bytes) : bytes :=
  match s with b :: s' => if bool_decide (b = sep) then trim_slashes_rev s' else s | [] => [] end.
Definition trim_right_slashes (s : bytes) : bytes := rev (trim_slashes_rev (rev s)).

(** [filepath.Base] *)
Definition path_base (s : bytes) : bytes :=
  if bool_decide (s = []) then dot
  else match last (split_on sep (trim_right_slashes s)) with
       | Some (b :: w) => b :: w
       | _ => slash
       end.

(** The part of a path up to and including its last slash. *)
Fixpoint upto_last_slash_rev (s : bytes) : bytes :=
  match s with b :: s' => if bool_decide (b = sep) then s else upto_last_slash_rev s' | [] => [] end.

(** [filepath.Dir] *)
Definition path_dir (s : bytes) : bytes := clean (rev (upto_last_slash_rev (rev s))).

(** ** Clean absolute paths *)

(** An element [Clean] leaves alone. *)
Definition normal (c : bytes) : Prop :=
  c <> [] /\ c <> dot /\ c <> dotdot /\ sep ∉ c.

Definition abs_path (l : list bytes) : bytes := sep :: join_with sep l.

(** The elements of a clean absolute path. *)
Definition abs_comps (p : bytes) : list bytes :=
  match drop 1 p with [] => [] | r => split_on sep r end.

(** [filepath.Rel] for two absolute paths (it cannot fail on those). *)
Fixpoint strip_common (b t : list bytes) : list bytes * list bytes :=
  match b, t with
  | x :: b', y :: t' => if bool_decide (x = y) then strip_common b' t' else (b, t)
  | _, _ => (b, t)
  end.

Definition path_rel (base targ : bytes) : bytes :=
  let b := clean base in
  let t := clean targ in
  if bool_decide (b = t) then dot
  else let '(b', t') := strip_common (abs_comps b) (abs_comps t) in
       join_with sep (replicate (length b') dotdot ++ t').

Lemma normal_no_sep l : Forall normal l -> Forall (fun w => sep ∉ w) l.
Proof. intros H. eapply Forall_impl; [exact H|]. by intros ? (_ & _ & _ & ?). Qed.

Lemma clean_step_normal rooted st c : normal c -> clean_step rooted st c = c :: st.
Proof.
  intros (H1 & H2 & H3 & _). unfold clean_step.
  by rewrite !bool_decide_eq_false_2 by done.
Qed.

Lemma foldl_clean_normal rooted l st :
  Forall normal l -> foldl (clean_step rooted) st l = rev l ++ st.
Proof.
  intros H. revert st. induction H as [|c l Hc _ IH]; intros st; [done|].
  cbn [foldl]. rewrite clean_step_normal, IH by done. simpl. by rewrite <- app_assoc.
Qed.

Lemma clean_comps_normal rooted l : Forall normal l -> clean_comps rooted l = l.
Proof.
  intros H. unfold clean_comps. rewrite foldl_clean_normal by done.
  by rewrite app_nil_r, rev_involutive.
Qed.

(** A rooted stack only ever holds normal elements. *)
Lemma clean_step_rooted st c :
  Forall normal st -> sep ∉ c -> Forall normal (clean_step true st c).
Proof.
  intros Hst Hc. unfold clean_step.
  destruct (bool_decide (c = [])) eqn:E1; [done|].
  destruct (bool_decide (c = dot)) eqn:E2; [done|]. simpl. bools.
  case_bool_decide as E3.
  - destruct Hst as [|top rest Ht Hr]; [done|].
    rewrite bool_decide_eq_false_2; [done|]. by destruct Ht as (_ & _ & ? & _).
  - by constructor.
Qed.

Lemma foldl_clean_rooted st l :
  Forall normal st -> Forall (fun w => sep ∉ w) l ->
  Forall normal (foldl (clean_step true) st l).
Proof.
  intros Hst Hl. revert st Hst. induction Hl; intros; cbn [foldl]; [done|].
  by apply IHHl, clean_step_rooted.
Qed.

Lemma clean_abs s :
  is_abs s = true -> exists l, Forall normal l /\ clean s = abs_path l.
Proof.
  intros Ha. exists (clean_comps true (split_on sep s)). split.
  - apply Forall_rev, foldl_clean_rooted; [constructor|apply split_on_no_sep].
  - unfold clean. rewrite Ha. by destruct s.
Qed.

Lemma split_abs_path l :
  Forall normal l -> split_on sep (abs_path l) = [] :: (match l with [] => [[]] | _ => l end).
Proof.
  intros H. unfold abs_path. change (sep :: ?x) with ([] ++ sep :: x).
  rewrite split_on_app by set_solver. destruct l; [done|].
  by rewrite split_join by (try done; by apply normal_no_sep).
Qed.

Lemma clean_abs_path l : Forall normal l -> clean (abs_path l) = abs_path l.
Proof.
  intros H. unfold clean. rewrite bool_decide_eq_false_2 by done.
  rewrite split_abs_path by done. change (is_abs (abs_path l)) with true. cbv iota.
  unfold abs_path at 1. f_equal. f_equal.
  destruct l as [|c l]; [done|].
  change (clean_comps true ([] :: c :: l)) with (clean_comps true (c :: l)).
  by apply clean_comps_normal.
Qed.

Lemma abs_comps_abs_path l : Forall normal l -> abs_comps (abs_path l) = l.
Proof.
  intros H. unfold abs_comps, abs_path. cbn [drop]. rewrite drop_0. destruct l as [|c l]; [done|].
  destruct (join_with sep (c :: l)) eqn:E.
  - inversion H as [|? ? (Hc & _) _]; subst. destruct l, c; done.
  - rewrite <- E. apply split_join; [done|by apply normal_no_sep].
Qed.

Lemma abs_path_inj l k : Forall normal l -> Forall normal k -> abs_path l = abs_path k -> l = k.
Proof. intros Hl Hk H. by rewrite <- (abs_comps_abs_path l), H, abs_comps_abs_path. Qed.

Lemma is_abs_abs_path l : is_abs (abs_path l) = true.
Proof. done. Qed.

(** ** Relative paths without ".." *)

Lemma clean_step_plain rooted st c :
  Forall normal st -> sep ∉ c -> c <> dotdot -> 
  clean_step rooted st c = clean_step true st c /\ Forall normal (clean_step true st c).
Proof.
  intros Hst Hc Hd. split; [|by apply clean_step_rooted].
  unfold clean_step. by rewrite (bool_decide_eq_false_2 (c = dotdot)).
Qed.

Lemma foldl_clean_plain rooted st l :
  Forall normal st -> Forall (fun w => (sep ∉ w) /\ w <> dotdot) l ->
  foldl (clean_step rooted) st l = foldl (clean_step true) st l /\
  Forall normal (foldl (clean_step true) st l).
Proof.
  intros Hst Hl. revert st Hst. induction Hl as [|c l [Hc Hd] _ IH]; intros; [done|].
  cbn [foldl]. destruct (clean_step_plain rooted st c) as [-> ?]; auto.
Qed.

(** The elements a relative path contributes below its base. *)
Definition rel_comps (s : bytes) : list bytes := clean_comps false (split_on sep s).

Definition plain_comps (s : bytes) : Prop := Forall (fun w => w <> dotdot) (split_on sep s).

Lemma plain_comps_Forall s :
  plain_comps s -> Forall (fun w => (sep ∉ w) /\ w <> dotdot) (split_on sep s).
Proof. intros H. apply Forall_and. split; [apply split_on_no_sep|done]. Qed.

Lemma rel_comps_normal s : plain_comps s -> Forall normal (rel_comps s).
Proof.
  intros H%plain_comps_Forall. unfold rel_comps, clean_comps. apply Forall_rev.
  destruct (foldl_clean_plain false [] _ (List.Forall_nil _) H) as [-> ?]. done.
Qed.

Lemma clean_rel s :
  is_abs s = false -> plain_comps s ->
  clean s = match rel_comps s with [] => dot | l => join_with sep l end.
Proof.
  intros Ha H. unfold clean. rewrite Ha. destruct s as [|b s]; [done|].
  rewrite bool_decide_eq_false_2 by done. unfold rel_comps. by destruct (clean_comps _ _).
Qed.

Lemma clean_join l : Forall normal l -> l <> [] -> clean (join_with sep l) = join_with sep l.
Proof.
  intros H Hn. destruct l as [|c l]; [done|].
  assert (Ha : is_abs (join_with sep (c :: l)) = false).
  { inversion H as [|? ? (Hc & _ & _ & Hs) _]; subst. destruct c as [|b c]; [done|].
    destruct l; simpl; apply bool_decide_eq_false; set_solver. }
  unfold clean. rewrite Ha, split_join, clean_comps_normal by (try done; by apply normal_no_sep).
  case_bool_decide as E; [|done].
  inversion H as [|? ? (Hc & _) _]; subst. destruct l, c; done.
Qed.

Lemma split_join_normal l : Forall normal l -> l <> [] -> split_on sep (join_with sep l) = l.
Proof. intros. apply split_join; [done|by apply normal_no_sep]. Qed.

Lemma clean_comps_app_plain rooted l k :
  Forall normal l -> Forall (fun w => (sep ∉ w) /\ w <> dotdot) k ->
  clean_comps rooted (l ++ k) = l ++ clean_comps rooted k.
Proof.
  intros Hl Hk. unfold clean_comps. rewrite foldl_app, (foldl_clean_normal rooted l []) by done.
  rewrite app_nil_r.
  assert (Hgen : forall st st', Forall normal st -> Forall normal st' ->
    foldl (clean_step rooted) (st' ++ st) k = foldl (clean_step rooted) st' k ++ st).
  { intros st st' Hst. revert st'. induction Hk as [|c k [Hc Hd] _ IH]; intros st' Hst'; [done|].
    cbn [foldl].
    assert (clean_step rooted (st' ++ st) c = clean_step rooted st' c ++ st) as ->.
    { unfold clean_step. rewrite (bool_decide_eq_false_2 (c = dotdot)) by done. by case_match. }
    apply IH. destruct (clean_step_plain rooted st' c) as [-> ?]; done. }
  pose proof (Hgen (rev l) [] (Forall_rev Hl) (List.Forall_nil _)) as Hk'.
  cbn [app] in Hk'. rewrite Hk'.
  by rewrite rev_app_distr, rev_involutive.
Qed.

Lemma path_join_abs l s :
  Forall normal l -> plain_comps s -> path_join (abs_path l) s = abs_path (l ++ rel_comps s).
Proof.
  intros Hl Hs. unfold path_join. rewrite bool_decide_eq_false_2 by done. cbn [negb].
  unfold clean. rewrite bool_decide_eq_false_2 by done.
  change (is_abs (abs_path l ++ sep :: s)) with true. cbv iota.
  unfold abs_path at 2. do 2 f_equal.
  assert (Hsplit : split_on sep (abs_path l ++ sep :: s) =
    [] :: (match l with [] => [[]] | _ => l end) ++ split_on sep s).
  { unfold abs_path. change ((sep :: ?x) ++ ?y) with ([] ++ sep :: (x ++ y)).
    rewrite split_on_app by set_solver. f_equal.
    clear Hs. destruct l as [|c l]; [done|].
    revert c Hl. induction l as [|c' l IH]; intros c Hl; inversion Hl as [|? ? (?&?&?&?) ?]; subst.
    - by apply split_on_app.
    - rewrite join_with_cons, <- app_assoc. cbn [app].
      rewrite split_on_app by done. f_equal. by apply IH. }
  rewrite Hsplit.
  change (clean_comps true ([] :: ?x)) with (clean_comps true x).
  apply plain_comps_Forall in Hs.
  assert (clean_comps true (split_on sep s) = rel_comps s) as Hrt.
  { unfold rel_comps, clean_comps. f_equal.
    by destruct (foldl_clean_plain false [] _ (List.Forall_nil _) Hs) as [-> _]. }
  destruct l as [|c l]; [exact Hrt|].
  by rewrite clean_comps_app_plain, Hrt by done.
Qed.

(** ** Rel *)

(** [relative == ".." || strings.HasPrefix(relative, "../")] *)
Definition escapes (rel : bytes) : bool :=
  bool_decide (rel = dotdot) || has_prefix (dotdot ++ slash) rel.

Lemma strip_common_prefix r s : strip_common r (r ++ s) = ([], s).
Proof.
  induction r as [|c r IH]; simpl; [by destruct s|]. by rewrite bool_decide_eq_true_2.
Qed.

Lemma strip_common_spec r c r' c' :
  strip_common r c = (r', c') -> exists p, r = p ++ r' /\ c = p ++ c'.
Proof.
  revert c r' c'. induction r as [|x r IH]; intros [|y c] r' c' H; simpl in H;
    try (simplify_eq; by exists []).
  case_bool_decide; subst; [|simplify_eq; by exists []].
  destruct (IH _ _ _ H) as (p & -> & ->). by exists (y :: p).
Qed.

Lemma join_normal_head l b s :
  Forall normal l -> join_with sep l = b :: s -> b <> sep.
Proof.
  intros H. destruct H as [|c l (Hc & _ & _ & Hs) _]; [done|].
  destruct c as [|x c]; [done|].
  destruct l; simpl; intros [= -> _]; set_solver.
Qed.

Lemma join_normal_split l : Forall normal l ->
  split_on sep (join_with sep l) = match l with [] => [[]] | _ => l end.
Proof. intros H. destruct l; [done|]. by apply split_join_normal. Qed.

Lemma escapes_split rel : escapes rel = true -> exists l, split_on sep rel = dotdot :: l.
Proof.
  unfold escapes, has_prefix. intros [H|H]%orb_true_iff; bools.
  - subst. by exists [].
  - exists (split_on sep (drop 3 rel)). rewrite <- (take_drop 3 rel).
    replace (take 3 rel) with (dotdot ++ [sep]) by done. rewrite <- app_assoc. cbn [app].
    rewrite split_on_app by (unfold dotdot, sep; set_solver).
    done.
Qed.

Lemma escapes_normal l : Forall normal l -> escapes (join_with sep l) = false.
Proof.
  intros H. destruct (escapes _) eqn:E; [|done].
  apply escapes_split in E as [k Hk]. rewrite join_normal_split in Hk by done.
  destruct H as [|c l (_ & _ & Hd & _) _]; [done|]. by simplify_eq.
Qed.

Lemma path_rel_prefix r s :
  Forall normal (r ++ s) ->
  path_rel (abs_path r) (abs_path (r ++ s)) = match s with [] => dot | _ => join_with sep s end.
Proof.
  intros H. pose proof H as [Hr Hs]%Forall_app. unfold path_rel.
  rewrite !clean_abs_path, !abs_comps_abs_path, strip_common_prefix by done.
  case_bool_decide as E.
  - apply abs_path_inj in E; [|done..].
    destruct s; [done|]. apply (f_equal length) in E. rewrite length_app in E. simpl in E. lia.
  - destruct s; [|done]. by rewrite app_nil_r in E.
Qed.

Lemma path_rel_not_prefix r c :
  Forall normal r -> Forall normal c -> ~ r `prefix_of` c ->
  escapes (path_rel (abs_path r) (abs_path c)) = true.
Proof.
  intros Hr Hc Hn. unfold path_rel.
  rewrite !clean_abs_path, !abs_comps_abs_path by done.
  rewrite bool_decide_eq_false_2 by (intros ->%abs_path_inj; done).
  destruct (strip_common r c) as [r' c'] eqn:E. apply strip_common_spec in E as (p & -> & ->).
  destruct r' as [|x r']; [destruct Hn; rewrite app_nil_r; by exists c'|].
  unfold escapes. apply orb_true_iff. cbn [length replicate app].
  destruct (replicate (length r') dotdot ++ c') as [|y l]; [by left|right].
  rewrite join_with_cons. unfold has_prefix. by apply bool_decide_eq_true.
Qed.

(** [Rel] of two clean absolute paths stays below the base exactly when the
    base's elements are a prefix of the target's. *)
Lemma path_rel_escapes r c :
  Forall normal r -> Forall normal c ->
  escapes (path_rel (abs_path r) (abs_path c)) = false <-> r `prefix_of` c.
Proof.
  intros Hr Hc. split.
  - intros He. destruct (decide (r `prefix_of` c)) as [?|Hn]; [done|].
    by rewrite path_rel_not_prefix in He.
  - intros [s ->]. rewrite path_rel_prefix by done.
    apply Forall_app in Hc as [_ Hs]. destruct s; [done|]. by apply escapes_normal.
Qed.

Lemma is_abs_join l : Forall normal l -> is_abs (join_with sep l) = false.
Proof.
  intros H. destruct (join_with sep l) as [|b s] eqn:E; [done|].
  apply bool_decide_eq_false. by eapply join_normal_head.
Qed.

(** [Join] of a root-relative location with a plain relative path. *)
Lemma path_join_rel l s :
  Forall normal l -> plain_comps s -> s <> [] ->
  path_join (match l with [] => dot | _ => join_with sep l end) s =
  match l ++ rel_comps s with [] => dot | k => join_with sep k end.
Proof.
  intros Hl Hs Hn. apply plain_comps_Forall in Hs as Hs'.
  set (a := match l with [] => dot | _ => join_with sep l end).
  assert (Ha : exists b a', a = b :: a' /\ b <> sep).
  { subst a. destruct l as [|c l]; [by exists "."%byte, []|].
    destruct (join_with sep (c :: l)) as [|b a'] eqn:E; [|eauto using join_normal_head].
    inversion Hl as [|? ? (? & _) _]; subst. by destruct c, l. }
  destruct Ha as (b & a' & Ea & Hb).
  assert (Hrel : is_abs (a ++ sep :: s) = false) by (rewrite Ea; by apply bool_decide_eq_false).
  unfold path_join. rewrite bool_decide_eq_false_2 by (by rewrite Ea). cbn [negb].
  assert (Hsplit : split_on sep (a ++ sep :: s) =
            (match l with [] => [dot] | _ => l end) ++ split_on sep s).
  { clear Hrel. subst a. clear Ea. destruct l as [|c l].
    - by rewrite split_on_app by (unfold dot, sep; set_solver).
    - clear Hs Hs' Hn. revert c Hl. induction l as [|c' l IH]; intros c Hl;
        inversion Hl as [|? ? (?&?&?&?) ?]; subst.
      + by apply split_on_app.
      + rewrite join_with_cons, <- app_assoc. cbn [app].
        rewrite split_on_app by done. cbn [app]. f_equal. by apply IH. }
  unfold clean. rewrite Hsplit, Hrel. rewrite bool_decide_eq_false_2 by (by destruct a).
  cbv iota. unfold rel_comps.
  destruct l as [|c l].
  - change (clean_comps false ([dot] ++ ?x)) with (clean_comps false x). cbn [app].
    by destruct (clean_comps false (split_on sep s)).
  - rewrite clean_comps_app_plain by done. done.
Qed.

(** ** Trailing slashes *)

Lemma reverse_rev {A} (l : list A) : reverse l = rev l.
Proof. unfold reverse. by rewrite rev_alt. Qed.

Lemma trim_slashes_rev_split s : exists n, s = replicate n sep ++ trim_slashes_rev s.
Proof.
  induction s as [|b s [n IH]]; simpl; [by exists 0%nat|]. case_bool_decide; subst.
  - exists (S n). simpl. by rewrite <- IH.
  - by exists 0%nat.
Qed.

Lemma trim_right_slashes_split s : exists n, s = trim_right_slashes s ++ replicate n sep.
Proof.
  destruct (trim_slashes_rev_split (rev s)) as [n H]. exists n. unfold trim_right_slashes.
  apply (f_equal (@rev byte)) in H. rewrite rev_involutive in H. rewrite H at 1.
  rewrite rev_app_distr. f_equal. rewrite <- reverse_rev. apply reverse_replicate.
Qed.

Lemma trim_right_slashes_app s n : trim_right_slashes (s ++ replicate n sep) = trim_right_slashes s.
Proof.
  unfold trim_right_slashes. rewrite rev_app_distr, <- (reverse_rev (replicate n sep)).
  rewrite reverse_replicate. f_equal. induction n as [|n IH]; [done|].
  cbn [replicate app trim_slashes_rev]. by rewrite bool_decide_eq_true_2.
Qed.

Lemma trim_right_slashes_id s : last s <> Some sep -> trim_right_slashes s = s.
Proof.
  intros H. unfold trim_right_slashes. rewrite <- (rev_involutive s) at 2. f_equal.
  rewrite <- (reverse_rev s), <- head_reverse in *. destruct (reverse s) as [|b l]; [done|].
  simpl in *. by rewrite bool_decide_eq_false_2 by congruence.
Qed.

Lemma last_join l : Forall normal l -> last (join_with sep l) <> Some sep.
Proof.
  intros H. induction H as [|c l (Hc & _ & _ & Hs) Hl IH]; [done|].
  assert (Hlc : last c <> Some sep).
  { intros E. apply Hs. rewrite last_lookup in E. by eapply list_elem_of_lookup_2. }
  destruct l as [|c' l]; [done|]. rewrite join_with_cons.
  rewrite last_app, last_cons. destruct (last (join_with sep (c' :: l))) eqn:E; [done|].
  apply last_None in E. inversion Hl as [|? ? (Hc' & _) _]; subst. by destruct c', l.
Qed.

Lemma last_abs_path l : Forall normal l -> l <> [] -> last (abs_path l) <> Some sep.
Proof.
  intros H Hn. unfold abs_path. rewrite last_cons. pose proof (last_join l H) as Hl.
  destruct (last (join_with sep l)) eqn:E; [done|]. apply last_None in E.
  destruct H as [|c l (Hc & _) _]; [done|]. by destruct c, l.
Qed.

(** ** Normal elements *)

Lemma plain_normal_join l : Forall normal l -> plain_comps (join_with sep l).
Proof.
  intros H. unfold plain_comps. rewrite join_normal_split by done.
  destruct l; [by repeat constructor|]. eapply Forall_impl; [exact H|].
  by intros ? (_ & _ & ? & _).
Qed.

Lemma rel_comps_join l : Forall normal l -> rel_comps (join_with sep l) = l.
Proof.
  intros H. unfold rel_comps. rewrite join_normal_split by done.
  destruct l; [done|]. by apply clean_comps_normal.
Qed.

Lemma path_base_word v : normal v -> path_base v = v.
Proof.
  intros (H1 & H2 & H3 & H4). unfold path_base. rewrite bool_decide_eq_false_2 by done.
  rewrite trim_right_slashes_id, split_on_word by
    (try done; intros E; apply H4; rewrite last_lookup in E; by eapply list_elem_of_lookup_2).
  by destruct v.
Qed.
