(* ===== verification/FileSecurity.v ===== *)
(** * pkg/filesecurity: path authorization and upload bounds

    The lexical half of the management file boundary
    (src/pkg/filesecurity/filesecurity.go and managed_paths.go): which
    client-selected paths are accepted, and which configured root they are
    mapped to. *)

From Stdlib Require Import Strings.Byte ZArith Lia String.
From stdpp Require Import base list strings sets gmap sorting.
From S2P Require Import Prelude GoStd GoPath.

Inductive fs_error :=
| ErrUnsafePath
| ErrManagedPathOutsideRoots
| ErrInvalidManagedRoot
| ErrTotalChunks
| ErrChunkNumber
| ErrChunkSize
| ErrCurrentChunkSize
| ErrTotalSize
| ErrChunkCapacity
| ErrZeroByteMetadata
| ErrEmptyChunk.

Definition MaxUploadChunkSize : Z := Z.shiftl 256 20.
Definition MaxUploadChunks : Z := 256.
Definition MaxUploadTotalSize : Z := MaxUploadChunkSize * MaxUploadChunks.

Definition ValidateRelativePath (relative : bytes) : result fs_error unit :=
  fail_if bool_decide (trim_space relative = []) || contains_byte x00 relative
    with ErrUnsafePath in
  fail_if is_abs relative with ErrUnsafePath in
  fail_if existsb (fun component => bool_decide (component = dotdot)) (split_on sep relative)
    with ErrUnsafePath in
  let cleaned := clean relative in
  fail_if bool_decide (cleaned = dot) || bool_decide (cleaned = dotdot)
          || has_prefix (dotdot ++ slash) cleaned
    with ErrUnsafePath in
  Ok tt.

Definition ValidateChunk (totalChunks chunkNumber : Z) : result fs_error unit :=
  fail_if (totalChunks <? 1) || (MaxUploadChunks <? totalChunks) with ErrTotalChunks in
  fail_if (chunkNumber <? 1) || (totalChunks <? chunkNumber) with ErrChunkNumber in
  Ok tt.

Definition ValidateUploadSizes (chunkSize currentChunkSize totalSize totalChunks : Z)
  : result fs_error unit :=
  fail_if (chunkSize <? 1) || (MaxUploadChunkSize <? chunkSize) with ErrChunkSize in
  fail_if (currentChunkSize <? 0) || (chunkSize <? currentChunkSize)
          || (MaxUploadChunkSize <? currentChunkSize) with ErrCurrentChunkSize in
  fail_if (totalSize <? 0) || (MaxUploadTotalSize <? totalSize) with ErrTotalSize in
  fail_if (totalChunks <? 1) || (MaxUploadChunks <? totalChunks) with ErrTotalChunks in
  fail_if s64 (totalChunks * chunkSize) <? totalSize with ErrChunkCapacity in
  fail_if (totalSize =? 0) && (negb (totalChunks =? 1) || negb (currentChunkSize =? 0))
    with ErrZeroByteMetadata in
  fail_if (0 <? totalSize) && (currentChunkSize =? 0) with ErrEmptyChunk in
  Ok tt.

Definition defaultManagementFileRoots : list bytes := [bs "/DATA"; bs "/mnt"; bs "/media"].

Record ManagedLocation := {
  Root : bytes;
  Relative : bytes;
  Canonical : bytes
}.

Definition canonicalAbsoluteManagedPath (value : bytes) : result fs_error bytes :=
  fail_if bool_decide (value = []) || contains_byte x00 value || negb (is_abs value)
    with ErrManagedPathOutsideRoots in
  let trimmed := trim_right_slashes value in
  let trimmed := if bool_decide (trimmed = []) then slash else trimmed in
  let cleaned := clean trimmed in
  fail_if negb (bool_decide (cleaned = trimmed)) with ErrManagedPathOutsideRoots in
  Ok cleaned.

(** [sort.Slice]'s order: longer roots first, then lexicographic. *)
Definition root_less (a b : bytes) : bool :=
  if Zlen a =? Zlen b then bytes_ltb a b else Zlen b <? Zlen a.

(** The loop over the comma-separated items. Its [seen] map holds exactly the
    roots appended so far. *)
Fixpoint parse_root_items (items roots : list bytes) : result fs_error (list bytes) :=
  match items with
  | [] => Ok roots
  | item :: rest =>
      let item := trim_space item in
      fail_if bool_decide (item = []) with ErrInvalidManagedRoot in
      match canonicalAbsoluteManagedPath item with
      | Err _ => Err ErrInvalidManagedRoot
      | Ok root =>
          fail_if bool_decide (root = slash) with ErrInvalidManagedRoot in
          if bool_decide (root ∈ roots) then parse_root_items rest roots
          else parse_root_items rest (roots ++ [root])
      end
  end.

Definition ParseManagementFileRoots (value : bytes) : result fs_error (list bytes) :=
  if bool_decide (trim_space value = []) then Ok defaultManagementFileRoots
  else
    let! roots := parse_root_items (split_on "," value) [] in
    fail_if bool_decide (roots = []) with ErrInvalidManagedRoot in
    Ok (sort_slice root_less roots).

Fixpoint match_roots (roots : list bytes) (canonical : bytes) : result fs_error ManagedLocation :=
  match roots with
  | [] => Err ErrManagedPathOutsideRoots
  | configuredRoot :: rest =>
      match canonicalAbsoluteManagedPath configuredRoot with
      | Err _ => Err ErrInvalidManagedRoot
      | Ok root =>
          fail_if bool_decide (root = slash) with ErrInvalidManagedRoot in
          let relative := path_rel root canonical in
          if is_abs relative || bool_decide (relative = dotdot)
             || has_prefix (dotdot ++ slash) relative
          then match_roots rest canonical
          else
            let relative := if bool_decide (relative = []) then dot else relative in
            Ok {| Root := root; Relative := relative; Canonical := canonical |}
      end
  end.

Definition MatchManagementPath (roots : list bytes) (absolutePath : bytes)
  : result fs_error ManagedLocation :=
  match canonicalAbsoluteManagedPath absolutePath with
  | Err _ => Err ErrManagedPathOutsideRoots
  | Ok canonical => match_roots roots canonical
  end.

Definition MatchManagementChild (roots : list bytes) (base relative : bytes)
  : result fs_error ManagedLocation :=
  let! _ := ValidateRelativePath relative in
  let! baseLocation := MatchManagementPath roots base in
  let childRelative := path_join (Relative baseLocation) (clean relative) in
  let! _ := ValidateRelativePath childRelative in
  let canonical := path_join (Root baseLocation) childRelative in
  Ok {| Root := Root baseLocation; Relative := childRelative; Canonical := canonical |}.

Definition ValidatePathComponent (value : bytes) : result fs_error unit :=
  fail_if bool_decide (value = []) || bool_decide (value = dot) || bool_decide (value = dotdot)
          || (255 <? Zlen value) || contains_byte x00 value with ErrUnsafePath in
  fail_if negb (bool_decide (path_base value = value)) || contains_byte sep value
    with ErrUnsafePath in
  Ok tt.

(** ** Lemmas *)

Lemma existsb_dotdot_plain s :
  existsb (fun c => bool_decide (c = dotdot)) (split_on sep s) = false <-> plain_comps s.
Proof.
  unfold plain_comps. induction (split_on sep s) as [|c l IH]; simpl; [by split|].
  rewrite orb_false_iff, IH, bool_decide_eq_false, Forall_cons. done.
Qed.

Lemma ValidateRelativePath_ok s :
  ValidateRelativePath s = Ok tt <->
  trim_space s <> [] /\ (x00 ∉ s) /\ is_abs s = false /\ plain_comps s /\ rel_comps s <> [].
Proof.
  unfold ValidateRelativePath, contains_byte. split.
  - intros H. repeat (step_in H; bools). rewrite existsb_dotdot_plain in *.
    repeat split; try done. intros E.
    pose proof (clean_rel s ltac:(done) ltac:(done)) as Hc. by rewrite E in Hc.
  - intros (H1 & H2 & H3 & H4 & H5).
    rewrite !bool_decide_eq_false_2 by done. rewrite H3. cbn [orb].
    pose proof H4 as ->%existsb_dotdot_plain.
    cbv zeta. pose proof (clean_rel _ H3 H4) as Hc. pose proof (rel_comps_normal _ H4) as Hn.
    destruct (rel_comps s) as [|c l] eqn:E; [done|].
    pose proof (escapes_normal _ Hn) as He. unfold escapes in He. rewrite <- Hc in He. bools.
    rewrite (bool_decide_eq_false_2 (clean s = dot)), (bool_decide_eq_false_2 (clean s = dotdot));
      [|done|].
    + cbn [orb]. by rewrite H0.
    + rewrite Hc. intros Hd. pose proof (join_normal_split _ Hn) as Hs. rewrite Hd in Hs.
      inversion Hn as [|? ? (_ & Hne & _) _]; subst. by destruct l; simplify_eq.
Qed.

(** [canonicalAbsoluteManagedPath] accepts exactly the clean absolute paths
    without NUL, followed by any number of slashes. *)
Lemma canonical_ok v p :
  canonicalAbsoluteManagedPath v = Ok p <->
  (x00 ∉ v) /\ exists c n, Forall normal c /\ p = abs_path c /\ v = p ++ replicate n sep.
Proof.
  unfold canonicalAbsoluteManagedPath, contains_byte. split.
  - intros H. destruct (trim_right_slashes_split v) as [n Hv].
    destruct (bool_decide (trim_right_slashes v = [])) eqn:Et; repeat (step_in H; bools);
      split; try done; simplify_eq.
    + exists [], (n - 1)%nat. split_and!; [constructor|done|].
      rewrite Et in Hv. cbn [app] in Hv. destruct n; [by subst|].
      rewrite Hv. cbn. by rewrite Nat.sub_0_r.
    + destruct (trim_right_slashes v) as [|b t] eqn:E; [done|].
      destruct (clean_abs (b :: t)) as (c & Hc & E');
        [match goal with H : is_abs v = true |- _ => by rewrite Hv in H end|].
      exists c, n. split_and!; [done|congruence|congruence].
  - intros (H0 & c & n & Hc & -> & ->).
    rewrite (bool_decide_eq_false_2 (_ ++ _ = [])), bool_decide_eq_false_2 by done.
    change (is_abs (abs_path c ++ replicate n sep)) with true. cbn [orb negb].
    rewrite trim_right_slashes_app. destruct c as [|x c]; [done|].
    rewrite trim_right_slashes_id by (by apply last_abs_path).
    rewrite (bool_decide_eq_false_2 (abs_path _ = [])) by done. cbv zeta.
    rewrite clean_abs_path by done. by rewrite bool_decide_eq_true_2.
Qed.

Lemma canonical_self c : Forall normal c -> x00 ∉ abs_path c ->
  canonicalAbsoluteManagedPath (abs_path c) = Ok (abs_path c).
Proof.
  intros. apply canonical_ok. split; [done|]. exists c, 0%nat. by rewrite app_nil_r.
Qed.

Lemma canonical_idem v p :
  canonicalAbsoluteManagedPath v = Ok p -> canonicalAbsoluteManagedPath p = Ok p.
Proof.
  intros (H0 & c & n & Hc & -> & ->)%canonical_ok. apply canonical_self; set_solver.
Qed.

(** A configured root the matcher accepts: canonical and not the filesystem root. *)
Definition good_root (r : bytes) : Prop :=
  canonicalAbsoluteManagedPath r = Ok r /\ r <> slash.

Lemma good_root_comps r :
  good_root r -> exists c, Forall normal c /\ c <> [] /\ r = abs_path c.
Proof.
  intros [(H0 & c & n & Hc & -> & _)%canonical_ok Hs]. exists c. by destruct c.
Qed.

(** One path lies at or below another. *)
Definition below (root p : bytes) : Prop :=
  exists c s, Forall normal (c ++ s) /\ root = abs_path c /\ p = abs_path (c ++ s).

Definition rel_of (s : list bytes) : bytes := match s with [] => dot | _ => join_with sep s end.

Lemma rel_of_nonempty s : Forall normal s -> rel_of s <> [].
Proof. intros H. destruct H as [|c s (Hc & _) _]; [done|]. by destruct c, s. Qed.

(** One iteration of the root loop on canonical inputs. *)
Lemma match_roots_cons cr rest c rc :
  canonicalAbsoluteManagedPath cr = Ok (abs_path rc) -> rc <> [] ->
  Forall normal rc -> Forall normal c ->
  match_roots (cr :: rest) (abs_path c) =
  match bool_decide (rc `prefix_of` c) with
  | true => Ok {| Root := abs_path rc; Relative := rel_of (drop (length rc) c);
                  Canonical := abs_path c |}
  | false => match_roots rest (abs_path c)
  end.
Proof.
  intros Hcan Hne Hrc Hc. cbn [match_roots]. rewrite Hcan.
  assert (Hs : abs_path rc <> slash) by (intros Hs%(abs_path_inj rc []); done).
  rewrite bool_decide_eq_false_2 by done. cbv zeta.
  pose proof (path_rel_escapes rc c Hrc Hc) as He. unfold escapes in He.
  destruct (bool_decide (rc `prefix_of` c)) eqn:Hp; bools.
  - pose proof (proj2 He Hp) as He'. bools.
    destruct Hp as [s ->]. rewrite path_rel_prefix in * by done.
    rewrite drop_app_length by done. apply Forall_app in Hc as [_ Hns].
    change (match s with [] => dot | _ => join_with sep s end) with (rel_of s) in *.
    replace (is_abs (rel_of s)) with false
      by (destruct s; [done|]; symmetry; by apply is_abs_join).
    rewrite H0, (bool_decide_eq_false_2 (rel_of s = dotdot)) by done. cbn [orb].
    by rewrite bool_decide_eq_false_2 by (by apply rel_of_nonempty).
  - destruct (escapes (path_rel (abs_path rc) (abs_path c))) eqn:E.
    + unfold escapes in E. by rewrite <- orb_assoc, E, orb_true_r.
    + unfold escapes in E. by apply He in E.
Qed.

Lemma below_abs_path rc c :
  Forall normal rc -> Forall normal c -> below (abs_path rc) (abs_path c) <-> rc `prefix_of` c.
Proof.
  intros Hrc Hc. split.
  - intros (c' & s & Hn & E1 & E2). apply abs_path_inj in E1, E2; try done.
    + by exists s; subst.
    + by apply Forall_app in Hn as [? _].
  - intros [s ->]. by exists rc, s.
Qed.

(** What a successful match returns. *)
Record located (loc : ManagedLocation) (root_comps rest : list bytes) : Prop := {
  located_normal : Forall normal (root_comps ++ rest);
  located_root : Root loc = abs_path root_comps;
  located_root_ne : root_comps <> [];
  located_relative : Relative loc = rel_of rest;
  located_canonical : Canonical loc = abs_path (root_comps ++ rest)
}.

Lemma match_roots_sound roots c loc :
  Forall normal c -> match_roots roots (abs_path c) = Ok loc ->
  exists rc s cr, located loc rc s /\ rc ++ s = c /\ (cr ∈ roots) /\
    canonicalAbsoluteManagedPath cr = Ok (Root loc).
Proof.
  intros Hc. induction roots as [|cr rest IH]; [done|]. intros H. pose proof H as H'.
  cbn [match_roots] in H'.
  destruct (canonicalAbsoluteManagedPath cr) as [root|] eqn:Ecr; [|done].
  case_bool_decide as Hs; [done|]. clear H'.
  pose proof Ecr as (_ & rc & n & Hrc & -> & _)%canonical_ok.
  assert (rc <> []) by (by intros ->).
  rewrite (match_roots_cons _ _ _ _ Ecr) in H by done.
  case_bool_decide as Hp.
  - destruct Hp as [s ->]. rewrite drop_app_length in H. simplify_eq.
    exists rc, s, cr. split_and!; [by split|done|set_solver|done].
  - destruct (IH H) as (? & ? & ? & ? & ? & ? & ?).
    do 3 eexists; split_and!; eauto; set_solver.
Qed.

(** The order ParseManagementFileRoots leaves its roots in: of two roots that
    can contain the same path, the longer one comes first. *)
Definition specific_first : list bytes -> Prop :=
  StronglySorted (fun x y => Zlen y <= Zlen x \/ forall q, ~ (below x q /\ below y q)).

Lemma match_roots_complete roots c :
  Forall good_root roots -> specific_first roots -> Forall normal c ->
  match match_roots roots (abs_path c) with
  | Ok loc => (Root loc ∈ roots) /\ below (Root loc) (abs_path c) /\
              forall r, r ∈ roots -> below r (abs_path c) -> Zlen r <= Zlen (Root loc)
  | Err e => e = ErrManagedPathOutsideRoots /\ forall r, r ∈ roots -> ~ below r (abs_path c)
  end.
Proof.
  intros Hg Hs Hc. induction Hs as [|cr rest Hs IH Hall]; [set_solver|].
  inversion Hg as [|? ? Hcr Hgr]; subst.
  pose proof (good_root_comps _ Hcr) as (rc & Hrc & Hne & ->).
  rewrite (match_roots_cons _ _ _ rc) by (try done; by apply Hcr).
  case_bool_decide as Hp; cbn [Root].
  - split_and!; [set_solver|by apply below_abs_path|].
    intros r [->|Hr]%elem_of_cons Hb; [lia|].
    rewrite Forall_forall in Hall. destruct (Hall r) as [?|Hno]; [done|done|].
    destruct (Hno (abs_path c)). split; [by apply below_abs_path|done].
  - specialize (IH Hgr).
    assert (Hnb : ~ below (abs_path rc) (abs_path c)) by (by rewrite below_abs_path).
    destruct (match_roots rest (abs_path c)) as [loc|e].
    + destruct IH as (? & ? & Hmax). split_and!; [set_solver|done|].
      intros r [->|Hr]%elem_of_cons Hb; [done|auto].
    + destruct IH as [? Hno]. split; [done|].
      intros r [->|Hr]%elem_of_cons Hb; [done|by apply (Hno r)].
Qed.

(** ** The configured roots *)

Lemma root_less_asym x y : root_less x y = true -> root_less y x = false.
Proof.
  unfold root_less. rewrite (Z.eqb_sym (Zlen y)).
  destruct (Z.eqb_spec (Zlen x) (Zlen y)) as [E|E].
  - intros H. destruct (bytes_ltb y x) eqn:E'; [|done].
    pose proof (bytes_ltb_trans _ _ _ H E') as Hc. by rewrite bytes_ltb_irrefl in Hc.
  - intros. bools. apply Z.ltb_ge. lia.
Qed.

Lemma root_less_negtrans x y z :
  root_less y x = false -> root_less z y = false -> root_less z x = false.
Proof.
  unfold root_less.
  destruct (Z.eqb_spec (Zlen y) (Zlen x)), (Z.eqb_spec (Zlen z) (Zlen y)),
    (Z.eqb_spec (Zlen z) (Zlen x)); intros H1 H2; bools; try lia.
  pose proof (bytes_leb_trans x y z) as Ht. unfold bytes_leb in Ht.
  rewrite !negb_true_iff in Ht. auto.
Qed.

Lemma root_less_false x y : root_less y x = false -> Zlen y <= Zlen x.
Proof. unfold root_less. destruct (Z.eqb_spec (Zlen y) (Zlen x)); intros; bools; lia. Qed.

Lemma parse_root_items_ok items acc roots :
  parse_root_items items acc = Ok roots -> NoDup acc -> Forall good_root acc ->
  NoDup roots /\ Forall good_root roots.
Proof.
  revert acc. induction items as [|item items IH]; intros acc H Hnd Hg; simpl in H; [by simplify_eq|].
  step_in H. step_in H. step_in H. bools. case_bool_decide as Hin; [by eapply IH|].
  eapply IH; [done| |].
  - apply NoDup_app. split_and!; [done|set_solver|apply NoDup_singleton].
  - apply Forall_app. split; [done|]. constructor; [|done]. split; [|done]. by eapply canonical_idem.
Qed.

Lemma default_roots_good : Forall good_root defaultManagementFileRoots.
Proof. repeat constructor; done. Qed.

(** Two roots whose first elements differ contain no common path. *)
Lemma below_disjoint x y xs ys :
  Forall normal (x :: xs) -> Forall normal (y :: ys) -> x <> y ->
  forall q, ~ (below (abs_path (x :: xs)) q /\ below (abs_path (y :: ys)) q).
Proof.
  intros Hx Hy Hne q [Hbx Hby]. pose proof Hbx as (c & s & Hn & _ & ->).
  rewrite below_abs_path in Hbx, Hby by done.
  destruct (c ++ s) as [|w l]; [by apply prefix_nil_not in Hbx|].
  apply prefix_cons_inv_1 in Hbx, Hby. congruence.
Qed.

Lemma default_roots_specific : specific_first defaultManagementFileRoots.
Proof.
  assert (Hn : forall w, (bool_decide (w = []) || bool_decide (w = dot) || bool_decide (w = dotdot)
                   || bool_decide (sep ∈ w)) = false -> Forall normal [w]).
  { intros w Hw. bools. by repeat constructor. }
  pose proof (Hn (bs "DATA") eq_refl). pose proof (Hn (bs "mnt") eq_refl).
  pose proof (Hn (bs "media") eq_refl).
  unfold specific_first, defaultManagementFileRoots.
  repeat (apply SSorted_cons || apply SSorted_nil || apply List.Forall_cons || apply List.Forall_nil);
    right;
    apply (below_disjoint (bs "DATA") (bs "mnt") [] []) ||
    apply (below_disjoint (bs "DATA") (bs "media") [] []) ||
    apply (below_disjoint (bs "mnt") (bs "media") [] []); done.
Qed.

Lemma parsed_roots v roots :
  ParseManagementFileRoots v = Ok roots ->
  roots <> [] /\ NoDup roots /\ Forall good_root roots /\ specific_first roots.
Proof.
  unfold ParseManagementFileRoots. intros H. case_bool_decide as Ev.
  - simplify_eq. split_and!; [done| |apply default_roots_good|apply default_roots_specific].
    by apply (bool_decide_unpack _).
  - step_in H. step_in H. simplify_eq. bools.
    destruct (parse_root_items_ok _ _ _ Heqr) as [Hnd Hg]; [constructor..|].
    split_and!.
    + intros E. pose proof (sort_slice_perm root_less a) as Hp. rewrite E in Hp.
      by apply Permutation_nil_l in Hp.
    + by rewrite sort_slice_perm.
    + by rewrite sort_slice_perm.
    + eapply StronglySorted_impl; [|apply (sort_slice_sorted _ root_less_asym root_less_negtrans)].
      intros x y ?%root_less_false. by left.
Qed.

Lemma located_path roots p loc :
  MatchManagementPath roots p = Ok loc ->
  exists rc s cr, located loc rc s /\ (cr ∈ roots) /\
    canonicalAbsoluteManagedPath cr = Ok (Root loc) /\
    canonicalAbsoluteManagedPath p = Ok (Canonical loc).
Proof.
  unfold MatchManagementPath. intros H. step_in H.
  pose proof Heqr as (_ & c & n & Hc & -> & _)%canonical_ok.
  destruct (match_roots_sound _ _ _ Hc H) as (rc & s & cr & Hl & <- & Hin & Hcr).
  exists rc, s, cr. split_and!; try done. by rewrite (located_canonical _ _ _ Hl).
Qed.

(** ** Properties *)

(** C1. MatchManagementChild: an accepted child lies strictly below the
    client-selected base, inside the same root, and no element of it is "..":
    its canonical path is the base's elements followed by the (non-empty)
    cleaned elements of the relative path. *)
Theorem MatchManagementChild_contained roots base relative loc :
  MatchManagementChild roots base relative = Ok loc ->
  exists baseLocation rc b,
    MatchManagementPath roots base = Ok baseLocation /\
    located baseLocation rc b /\
    rel_comps relative <> [] /\
    located loc rc (b ++ rel_comps relative).
Proof.
  unfold MatchManagementChild. intros H. step_in H. step_in H. step_in H. simplify_eq.
  destruct a, a1. apply ValidateRelativePath_ok in Heqr as (_ & _ & Ha & Hp & Hne).
  destruct (located_path _ _ _ Heqr0) as (rc & b & cr & Hl & _).
  pose proof (rel_comps_normal _ Hp) as Hs.
  pose proof (located_normal _ _ _ Hl) as [Hrc Hb]%Forall_app.
  set (s := rel_comps relative) in *.
  assert (Hchild : path_join (Relative a0) (clean relative) = join_with sep (b ++ s)).
  { rewrite (located_relative _ _ _ Hl), clean_rel by done. fold s.
    destruct s as [|w s'] eqn:Es; [done|].
    pose proof (path_join_rel b (join_with sep (w :: s')) Hb) as Hj.
    rewrite rel_comps_join in Hj by done. unfold rel_of. rewrite Hj.
    - by destruct b.
    - by apply plain_normal_join.
    - inversion Hs as [|? ? (Hw & _) _]; subst. by destruct w, s'. }
  exists a0, rc, b. split_and!; try done. split; cbn [Root Relative Canonical].
  - by rewrite !Forall_app.
  - apply Hl.
  - apply Hl.
  - rewrite Hchild. destruct (b ++ s) eqn:E; [|done]. by apply app_nil in E as [_ ?].
  - assert (Forall normal (b ++ s)) by (by apply Forall_app).
    rewrite Hchild, (located_root _ _ _ Hl), path_join_abs by (try done; by apply plain_normal_join).
    by rewrite rel_comps_join.
Qed.

Lemma MatchManagementChild_contained_witness :
  exists baseLocation rc b,
    MatchManagementPath [bs "/DATA"] (bs "/DATA/media/") = Ok baseLocation /\
    located baseLocation rc b /\
    rel_comps (bs "a/./b") <> [] /\
    located {| Root := bs "/DATA"; Relative := bs "media/a/b"; Canonical := bs "/DATA/media/a/b" |}
            rc (b ++ rel_comps (bs "a/./b")).
Proof.
  apply (MatchManagementChild_contained [bs "/DATA"] (bs "/DATA/media/") (bs "a/./b")).
  vm_compute. reflexivity.
Defined.

(** C2. MatchManagementPath over parsed roots decides containment: it accepts a
    canonical path exactly when some configured root contains it, and then
    returns the longest such root. *)
Theorem MatchManagementPath_most_specific setting roots path canonical :
  ParseManagementFileRoots setting = Ok roots ->
  canonicalAbsoluteManagedPath path = Ok canonical ->
  match MatchManagementPath roots path with
  | Ok loc =>
      (Root loc ∈ roots) /\ below (Root loc) canonical /\ Canonical loc = canonical /\
      forall r, r ∈ roots -> below r canonical -> Zlen r <= Zlen (Root loc)
  | Err e =>
      e = ErrManagedPathOutsideRoots /\ forall r, r ∈ roots -> ~ below r canonical
  end.
Proof.
  intros (_ & _ & Hg & Hs)%parsed_roots Hc. unfold MatchManagementPath. rewrite Hc.
  pose proof Hc as (_ & c & n & Hn & -> & _)%canonical_ok.
  pose proof (match_roots_complete roots c Hg Hs Hn) as H.
  destruct (match_roots roots (abs_path c)) as [loc|e] eqn:E; [|done].
  destruct H as (? & ? & ?). split_and!; try done.
  destruct (match_roots_sound _ _ _ Hn E) as (rc & s & cr & Hl & <- & _ & _).
  apply Hl.
Qed.

Lemma MatchManagementPath_most_specific_witness :
  (bs "/srv/data" ∈ [bs "/srv/data"; bs "/srv"]) /\
  below (bs "/srv/data") (bs "/srv/data/x") /\
  bs "/srv/data/x" = bs "/srv/data/x" /\
  forall r, r ∈ [bs "/srv/data"; bs "/srv"] -> below r (bs "/srv/data/x") ->
    Zlen r <= Zlen (bs "/srv/data").
Proof.
  exact (MatchManagementPath_most_specific (bs "/srv, /srv/data/") [bs "/srv/data"; bs "/srv"]
    (bs "/srv/data/x") (bs "/srv/data/x") eq_refl eq_refl).
Defined.

(** C3. ParseManagementFileRoots: an accepted setting yields a non-empty list
    of distinct, canonical absolute roots, none of them the filesystem root,
    ordered so that the more specific of two nested roots comes first. *)
Theorem ParseManagementFileRoots_sound setting roots :
  ParseManagementFileRoots setting = Ok roots ->
  roots <> [] /\ NoDup roots /\
  Forall (fun r => canonicalAbsoluteManagedPath r = Ok r /\ r <> slash) roots /\
  StronglySorted (fun x y => Zlen y <= Zlen x \/ forall q, ~ (below x q /\ below y q)) roots.
Proof. apply parsed_roots. Qed.

Lemma ParseManagementFileRoots_sound_witness :
  [bs "/srv/data"; bs "/mnt"; bs "/srv"] <> [] /\ NoDup [bs "/srv/data"; bs "/mnt"; bs "/srv"] /\
  Forall (fun r => canonicalAbsoluteManagedPath r = Ok r /\ r <> slash)
    [bs "/srv/data"; bs "/mnt"; bs "/srv"] /\
  StronglySorted (fun x y => Zlen y <= Zlen x \/ forall q, ~ (below x q /\ below y q))
    [bs "/srv/data"; bs "/mnt"; bs "/srv"].
Proof.
  apply (ParseManagementFileRoots_sound (bs "/srv,/mnt, /srv/data ,/srv/")).
  vm_compute. reflexivity.
Defined.

(** C4. ValidateRelativePath accepts exactly the non-blank, NUL-free, relative
    paths without ".." elements that name something below their base, and
    joining an accepted path to any clean absolute directory appends its
    elements below that directory. *)
Theorem ValidateRelativePath_exact relative :
  (ValidateRelativePath relative = Ok tt <->
   trim_space relative <> [] /\ (x00 ∉ relative) /\ is_abs relative = false /\
   plain_comps relative /\ rel_comps relative <> []) /\
  (ValidateRelativePath relative = Ok tt -> forall dir, Forall normal dir ->
   Forall normal (dir ++ rel_comps relative) /\
   path_join (abs_path dir) relative = abs_path (dir ++ rel_comps relative)).
Proof.
  split; [apply ValidateRelativePath_ok|].
  intros (_ & _ & _ & Hp & _)%ValidateRelativePath_ok dir Hd. split.
  - apply Forall_app. split; [done|by apply rel_comps_normal].
  - by apply path_join_abs.
Qed.

(** ValidatePathComponent accepts exactly the single ordinary names: not
    empty, ".", ".." or containing a slash, without NUL, at most 255 bytes. *)
Theorem ValidatePathComponent_exact value :
  ValidatePathComponent value = Ok tt <-> normal value /\ Zlen value <= 255 /\ (x00 ∉ value).
Proof.
  unfold ValidatePathComponent, contains_byte. split.
  - intros H. repeat (step_in H; bools). split_and!; [by split_and!|lia|done].
  - intros (Hn & Hl & H0). pose proof Hn as (H1 & H2 & H3 & H4).
    rewrite (path_base_word value Hn), (bool_decide_eq_true_2 (value = value)) by done.
    rewrite (bool_decide_eq_false_2 (value = [])), (bool_decide_eq_false_2 (value = dot)),
      (bool_decide_eq_false_2 (value = dotdot)), (bool_decide_eq_false_2 (x00 ∈ value)),
      (bool_decide_eq_false_2 (sep ∈ value)) by done.
    by replace (255 <? Zlen value) with false by (symmetry; apply Z.ltb_ge; lia).
Qed.
