(* ===== verification/UploadSpace.v ===== *)
(** * pkg/filesecurity/upload_space.go: check-and-reserve admission

    The admission object serializes "read the free space, compare with what is
    already promised, promise more". A successful [Reserve] returns a closure
    guarded by [sync.Once]; the model keeps the issued closures as a list of
    tokens beside the object, so that sequences of reservations and releases
    (in any order, releases possibly repeated) are explicit steps. *)

From Stdlib Require Import ZArith Lia.
From stdpp Require Import base list relations.
From S2P Require Import Prelude.

Definition DefaultUploadReservedFreeBytes : Z := Z.shiftl 512 20.

Inductive space_error :=
| ErrUploadSpaceUnavailable
| ErrUploadSpaceInsufficient.

(** A release closure: the bytes it captured and whether its [Once] has run. *)
Record token := { tok_bytes : Z; tok_done : bool }.

(** The admission object and the closures it has handed out. The function
    returned for a zero-byte reservation captures nothing and is token 0 bytes. *)
Record admission := { reserved : Z; tokens : list token }.

Definition NewUploadSpaceAdmission : admission := {| reserved := 0; tokens := [] |}.

(** [usable] is [a != nil && a.checker != nil && roots != nil && parent != ""];
    [available] is what [a.checker(roots, parent)] answers at the call. *)
Definition Reserve (a : admission) (usable : bool) (available : result unit Z)
    (bytes reservedFree : Z) : result space_error admission :=
  if bytes =? 0 then
    Ok {| reserved := reserved a; tokens := tokens a ++ [{| tok_bytes := 0; tok_done := true |}] |}
  else
  fail_if negb usable with ErrUploadSpaceUnavailable in
  match available with
  | Err _ => Err ErrUploadSpaceUnavailable
  | Ok available =>
      fail_if (available <? reservedFree)
              || (u64 (available - reservedFree) <? reserved a)
              || (u64 (u64 (available - reservedFree) - reserved a) <? bytes)
        with ErrUploadSpaceInsufficient in
      fail_if u64 (2 ^ 64 - 1 - reserved a) <? bytes with ErrUploadSpaceInsufficient in
      Ok {| reserved := u64 (reserved a + bytes);
            tokens := tokens a ++ [{| tok_bytes := bytes; tok_done := false |}] |}
  end.

(** Running the [i]-th release closure. *)
Definition release (a : admission) (i : nat) : admission :=
  match tokens a !! i with
  | None => a
  | Some t =>
      if tok_done t then a
      else {| reserved := if tok_bytes t <=? reserved a
                          then u64 (reserved a - tok_bytes t) else 0;
              tokens := <[i := {| tok_bytes := tok_bytes t; tok_done := true |}]> (tokens a) |}
  end.

(** [ReserveUploadSpace]: the process-wide admission with 512 MiB headroom. *)
Definition ReserveUploadSpace (a : admission) (usable : bool) (available : result unit Z)
    (bytes : Z) : result space_error admission :=
  Reserve a usable available bytes DefaultUploadReservedFreeBytes.

(** ** Accounting *)

Definition outstanding (t : token) : Z := if tok_done t then 0 else tok_bytes t.
Definition promised (l : list token) : Z := foldr (fun t acc => outstanding t + acc) 0 l.

Lemma promised_app l k : promised (l ++ k) = promised l + promised k.
Proof. induction l; simpl; lia. Qed.

Lemma promised_one t : promised [t] = outstanding t.
Proof. unfold promised. simpl. lia. Qed.

Lemma promised_insert l i t t' :
  l !! i = Some t -> promised (<[i := t']> l) = promised l - outstanding t + outstanding t'.
Proof.
  revert i. induction l as [|x l IH]; intros [|i] H; simplify_eq/=; [lia|].
  rewrite (IH _ H). lia.
Qed.

Lemma promised_lookup l i t :
  Forall (fun t => 0 <= tok_bytes t) l -> l !! i = Some t -> outstanding t <= promised l.
Proof.
  intros Hl. revert i. induction Hl as [|x l Hx Hl IH]; intros [|i] H; simplify_eq/=.
  - assert (0 <= promised l); [|lia].
    clear IH. induction Hl as [|y l Hy _ IH]; simpl; [lia|].
    unfold outstanding. destruct (tok_done y); lia.
  - specialize (IH _ H). unfold outstanding in *. destruct (tok_done x); lia.
Qed.

(** The books balance and never leave the width of the counter. *)
Record admission_ok (a : admission) : Prop := {
  ok_balance : reserved a = promised (tokens a);
  ok_width : in_u 64 (reserved a);
  ok_tokens : Forall (fun t => 0 <= tok_bytes t) (tokens a)
}.

Lemma new_admission_ok : admission_ok NewUploadSpaceAdmission.
Proof. split; [done|done|constructor]. Qed.

(** In a balanced state none of the guards can underflow, so admission is
    plain arithmetic. *)
Lemma Reserve_guards a available bytes reservedFree :
  in_u 64 (reserved a) -> in_u 64 available -> in_u 64 bytes -> in_u 64 reservedFree ->
  ((available <? reservedFree)
    || (u64 (available - reservedFree) <? reserved a)
    || (u64 (u64 (available - reservedFree) - reserved a) <? bytes) = false
   <-> reservedFree + reserved a + bytes <= available).
Proof.
  unfold in_u. intros Hr Ha Hb Hf. split.
  - intros H. bools. rewrite (wrap_u_id 64 (available - reservedFree)) in * by (unfold in_u; lia).
    rewrite wrap_u_id in * by (unfold in_u; lia). lia.
  - intros H. rewrite (wrap_u_id 64 (available - reservedFree)) by (unfold in_u; lia).
    rewrite wrap_u_id by (unfold in_u; lia).
    rewrite !orb_false_iff, !Z.ltb_ge. lia.
Qed.

Lemma release_ok a i : admission_ok a -> admission_ok (release a i).
Proof.
  intros [Hb Hw Ht]. unfold release. destruct (tokens a !! i) as [t|] eqn:Hi; [|by split].
  destruct (tok_done t) eqn:Hd; [by split|].
  pose proof (promised_lookup _ _ _ Ht Hi) as Hle. unfold outstanding in Hle. rewrite Hd in Hle.
  assert (0 <= tok_bytes t) by (by rewrite Forall_lookup in Ht; eauto).
  replace (tok_bytes t <=? reserved a) with true by (symmetry; apply Z.leb_le; lia).
  unfold in_u in *. split; simpl.
  - rewrite wrap_u_id by (unfold in_u; lia). rewrite (promised_insert _ _ _ _ Hi).
    unfold outstanding. rewrite Hd. simpl. lia.
  - rewrite wrap_u_id by (unfold in_u; lia). unfold in_u; lia.
  - by apply Forall_insert.
Qed.

(** ** Steps *)

(** What requests can do to the admission object. *)
Inductive step : admission -> admission -> Prop :=
| step_reserve a usable available bytes reservedFree a' :
    (forall v, available = Ok v -> in_u 64 v) -> in_u 64 bytes -> in_u 64 reservedFree ->
    Reserve a usable available bytes reservedFree = Ok a' ->
    step a a'
| step_release a i : step a (release a i).

Definition reachable : admission -> Prop := rtc step NewUploadSpaceAdmission.

Lemma Reserve_ok a usable available bytes reservedFree a' :
  admission_ok a -> (forall v, available = Ok v -> in_u 64 v) -> in_u 64 bytes ->
  in_u 64 reservedFree ->
  Reserve a usable available bytes reservedFree = Ok a' -> admission_ok a'.
Proof.
  intros [Hbal Hw Ht] Hav Hby Hf H. unfold Reserve in H. step_in H.
  - simplify_eq. split; simpl; [|done|apply Forall_app; repeat constructor; done].
    rewrite promised_app, promised_one. unfold outstanding. simpl. lia.
  - step_in H. destruct available as [v|]; [|done]. step_in H. step_in H. simplify_eq.
    specialize (Hav v eq_refl). apply Reserve_guards in Heqb1; [|done..].
    unfold in_u in *. split; simpl.
    + rewrite wrap_u_id by (unfold in_u; lia). rewrite promised_app, promised_one.
      unfold outstanding. simpl. lia.
    + apply wrap_u_range. lia.
    + apply Forall_app; repeat constructor; [done|]. simpl. lia.
Qed.

Lemma reachable_ok a : reachable a -> admission_ok a.
Proof.
  unfold reachable. intros H.
  assert (Hgen : forall x y, rtc step x y -> admission_ok x -> admission_ok y).
  { induction 1 as [|x y z Hs _ IH]; [done|]. intros Hx. apply IH.
    destruct Hs; eauto using Reserve_ok, release_ok. }
  eapply Hgen; [done|apply new_admission_ok].
Qed.

(** ** Properties *)

(** C5. Reserve, in any reachable state, admits a non-empty write exactly when
    the available space covers the reserved headroom, everything already
    promised and the new bytes; the counter then grows by exactly those bytes,
    with no wrap-around anywhere. *)
Theorem Reserve_exact a available bytes reservedFree :
  reachable a -> in_u 64 available -> in_u 64 bytes -> in_u 64 reservedFree -> 0 < bytes ->
  match Reserve a true (Ok available) bytes reservedFree with
  | Ok a' => reservedFree + reserved a + bytes <= available /\
             reserved a' = reserved a + bytes /\
             tokens a' = tokens a ++ [{| tok_bytes := bytes; tok_done := false |}]
  | Err e => e = ErrUploadSpaceInsufficient /\ available < reservedFree + reserved a + bytes
  end.
Proof.
  intros [_ Hw _]%reachable_ok Hav Hby Hf Hpos. unfold Reserve. cbn [negb].
  replace (bytes =? 0) with false by (symmetry; apply Z.eqb_neq; lia).
  pose proof (Reserve_guards a available bytes reservedFree Hw Hav Hby Hf) as Hg.
  destruct (_ || _ || _).
  - split; [done|]. destruct (Z.lt_ge_cases available (reservedFree + reserved a + bytes)) as [|Hge];
      [done|]. by apply Hg in Hge.
  - specialize (proj1 Hg eq_refl) as Hle. unfold in_u in *.
    rewrite (wrap_u_id 64 (2 ^ 64 - 1 - reserved a)) by (unfold in_u; lia).
    replace (2 ^ 64 - 1 - reserved a <? bytes) with false by (symmetry; apply Z.ltb_ge; lia).
    simpl. rewrite wrap_u_id by (unfold in_u; lia). done.
Qed.

Lemma Reserve_exact_witness :
  10 + 0 + 5 <= 20 /\
  reserved {| reserved := 5; tokens := [{| tok_bytes := 5; tok_done := false |}] |} = 0 + 5 /\
  [{| tok_bytes := 5; tok_done := false |}] = [] ++ [{| tok_bytes := 5; tok_done := false |}].
Proof.
  exact (Reserve_exact NewUploadSpaceAdmission 20 5 10 (rtc_refl _ _)
    ltac:(by vm_compute) ltac:(by vm_compute) ltac:(by vm_compute) ltac:(lia)).
Defined.

(** C6. In every reachable state of the admission object the reserved counter
    is exactly the sum of the reservations not yet released and fits its 64
    bits; running a release closure a second time changes nothing, and once
    every closure has run nothing stays reserved. *)
Theorem admission_balanced a :
  reachable a ->
  reserved a = promised (tokens a) /\ in_u 64 (reserved a) /\
  (forall i, release (release a i) i = release a i) /\
  (Forall (fun t => tok_done t = true) (tokens a) -> reserved a = 0).
Proof.
  intros H%reachable_ok. split_and!; [apply H|apply H| |].
  - intros i. unfold release at 2. destruct (tokens a !! i) as [t|] eqn:Hi.
    + destruct (tok_done t) eqn:Hd.
      * unfold release. rewrite !Hi, !Hd. done.
      * unfold release. rewrite Hi, Hd. simpl.
        by rewrite list_lookup_insert_eq by (by eapply lookup_lt_Some).
    + unfold release. by rewrite !Hi.
  - intros Hd. rewrite (ok_balance _ H). clear H. induction Hd as [|t l Ht _ IH]; simpl; [done|].
    unfold outstanding. by rewrite Ht.
Qed.

Lemma admission_balanced_witness :
  let a := release {| reserved := 5; tokens := [{| tok_bytes := 5; tok_done := false |}] |} 0 in
  reserved a = promised (tokens a) /\ in_u 64 (reserved a) /\
  (forall i, release (release a i) i = release a i) /\
  (Forall (fun t => tok_done t = true) (tokens a) -> reserved a = 0).
Proof.
  apply admission_balanced.
  eapply (rtc_l _ _ {| reserved := 5; tokens := [{| tok_bytes := 5; tok_done := false |}] |}).
  - apply (step_reserve _ true (Ok 20) 5 10); [|by vm_compute..].
    intros v [= <-]. by vm_compute.
  - eapply rtc_once. constructor.
Defined.
