(* ===== verification/MutationError.v ===== *)
(** * pkg/filesecurity/managed_copy.go: errors that say whether something changed

    Go errors are trees: plain values, one-child wrappers and [errors.Join]
    lists. [ManagedMutationError] is the node that records whether a namespace
    changed; [aggregateManagedMutationState] collects those records from the
    whole tree within a traversal budget. *)

From Stdlib Require Import Strings.Byte ZArith Lia String.
From stdpp Require Import base list list_numbers strings sets gmap.
From S2P Require Import Prelude GoStd FileSecurity.

Inductive err_kind :=
| NotExist                (* fs.ErrNotExist *)
| Closed                  (* fs.ErrClosed *)
| Fs (e : fs_error)       (* the sentinels of managed_paths.go and filesecurity.go *)
| InvalidConflictStyle    (* ErrInvalidManagedConflictStyle *)
| Message (m : bytes).

Inductive goerr :=
| ErrPlain (k : err_kind)
| ErrWrap (message : bytes) (inner : goerr)
| ErrJoin (l : list goerr)
| ErrMutation (operation : bytes) (changed durabilityUnknown : bool) (inner : option goerr).

(** [errors.Join]: nil arguments are dropped, nothing left is nil. *)
Definition errors_join (l : list (option goerr)) : option goerr :=
  match omap id l with [] => None | es => Some (ErrJoin es) end.

(** [errors.Is(err, k)] for a sentinel. *)
Fixpoint err_is (k : err_kind -> bool) (e : goerr) : bool :=
  match e with
  | ErrPlain k' => k k'
  | ErrWrap _ e' => err_is k e'
  | ErrJoin l => existsb (err_is k) l
  | ErrMutation _ _ _ inner => match inner with Some e' => err_is k e' | None => false end
  end.

Definition is_not_exist (e : goerr) : bool :=
  err_is (fun k => match k with NotExist => true | _ => false end) e.

(** ** The traversal *)

Definition maxMutationErrorNodes : Z := 256.
Definition maxMutationErrorDepth : Z := 64.

(** What [Unwrap] pushes. *)
Definition unwrap (e : goerr) : list (option goerr) :=
  match e with
  | ErrPlain _ => []
  | ErrWrap _ e' => [Some e']
  | ErrJoin l => Some <$> l
  | ErrMutation _ _ _ inner => [inner]
  end.

Definition changed_flag (e : goerr) : bool :=
  match e with ErrMutation _ c _ _ => c | _ => false end.
Definition unknown_flag (e : goerr) : bool :=
  match e with ErrMutation _ _ u _ => u | _ => false end.

Record walk := {
  stack : list (option goerr * Z);      (* top first *)
  visited : Z;
  truncated : bool;
  changed : bool;
  durabilityUnknown : bool
}.

(** One iteration of the loop body, the stack being non-empty. *)
Definition walk_step (entry : option goerr * Z) (rest : list (option goerr * Z)) (w : walk) : walk :=
  match entry with
  | (None, _) =>
      {| stack := rest; visited := visited w; truncated := truncated w;
         changed := changed w; durabilityUnknown := durabilityUnknown w |}
  | (Some err, depth) =>
      if maxMutationErrorDepth <? depth then
        {| stack := rest; visited := visited w; truncated := true;
           changed := changed w; durabilityUnknown := durabilityUnknown w |}
      else
        {| stack := rev ((fun c => (c, depth + 1)) <$> unwrap err) ++ rest;
           visited := visited w + 1; truncated := truncated w;
           changed := changed w || changed_flag err;
           durabilityUnknown := durabilityUnknown w || unknown_flag err |}
  end.

Fixpoint walk_loop (fuel : nat) (w : walk) : walk :=
  match fuel with
  | O => w
  | S f =>
      match stack w with
      | [] => w
      | entry :: rest =>
          if visited w <? maxMutationErrorNodes then walk_loop f (walk_step entry rest w) else w
      end
  end.

(** Every entry the traversal can push, nil ones included. *)
Fixpoint err_size (e : goerr) : nat :=
  match e with
  | ErrPlain _ => 1
  | ErrWrap _ e' => S (err_size e')
  | ErrJoin l => S (sum_list_with err_size l)
  | ErrMutation _ _ _ inner => S (match inner with Some e' => err_size e' | None => 1%nat end)
  end.
Definition entry_size (e : option goerr) : nat := from_option err_size 1%nat e.

Definition start_walk (err : option goerr) : walk :=
  {| stack := [(err, 0)]; visited := 0; truncated := false; changed := false; durabilityUnknown := false |}.

Definition aggregateManagedMutationState (err : option goerr) : bool * bool :=
  let w := walk_loop (S (entry_size err)) (start_walk err) in
  if truncated w || negb (bool_decide (stack w = [])) then (true, true)
  else (changed w, durabilityUnknown w).

Definition ManagedMutationChanged (err : option goerr) : bool := (aggregateManagedMutationState err).1.
Definition ManagedMutationDurabilityUnknown (err : option goerr) : bool := (aggregateManagedMutationState err).2.

Definition managedChangedMutationError (operation : bytes) (unknown : bool) (err : option goerr) : option goerr :=
  match err with
  | None => None
  | Some _ =>
      if ManagedMutationChanged err && (negb unknown || ManagedMutationDurabilityUnknown err) then err
      else Some (ErrMutation operation true (unknown || ManagedMutationDurabilityUnknown err) err)
  end.

(** ** Conflict styles *)

Inductive ManagedConflictStyle := ManagedConflictSkip | ManagedConflictReplace | ManagedConflictRename.

Definition ParseManagedConflictStyle (value : bytes) : result err_kind ManagedConflictStyle :=
  if bool_decide (value = bs "overwrite") then Ok ManagedConflictReplace
  else if bool_decide (value = bs "skip") then Ok ManagedConflictSkip
  else if bool_decide (value = bs "replace") then Ok ManagedConflictReplace
  else if bool_decide (value = bs "rename") then Ok ManagedConflictRename
  else Err InvalidConflictStyle.

(** ** Lemmas *)

(** The nodes of an error with their depths. *)
Fixpoint nodes (d : Z) (e : goerr) : list (goerr * Z) :=
  (e, d) ::
  match e with
  | ErrPlain _ => []
  | ErrWrap _ e' => nodes (d + 1) e'
  | ErrJoin l => flat_map (nodes (d + 1)) l
  | ErrMutation _ _ _ inner => match inner with Some e' => nodes (d + 1) e' | None => [] end
  end.

Definition entry_nodes (x : option goerr * Z) : list (goerr * Z) :=
  match x.1 with Some e => nodes x.2 e | None => [] end.

Lemma nodes_unfold d e :
  nodes d e = (e, d) :: flat_map (fun c => entry_nodes (c, d + 1)) (unwrap e).
Proof.
  destruct e as [k|m e'|l|op c u [e'|]]; simpl; rewrite ?app_nil_r; try done.
  f_equal. induction l as [|x l IH]; simpl; [done|]. by rewrite IH.
Qed.

Lemma err_size_unfold e : err_size e = S (sum_list_with entry_size (unwrap e)).
Proof.
  destruct e as [k|m e'|l|op c u [e'|]]; simpl; rewrite ?Nat.add_0_r; try done.
  f_equal. induction l as [|x l IH]; simpl; [done|]. by rewrite IH.
Qed.

Definition stack_size (s : list (option goerr * Z)) : nat := sum_list_with (fun x => entry_size x.1) s.
Definition stack_nodes (s : list (option goerr * Z)) : list (goerr * Z) := flat_map entry_nodes s.

Definition push (d : Z) (l : list (option goerr)) (rest : list (option goerr * Z)) :=
  rev ((fun c => (c, d)) <$> l) ++ rest.

Lemma push_perm d l rest : push d l rest ≡ₚ ((fun c => (c, d)) <$> l) ++ rest.
Proof. unfold push. by rewrite <- Permutation_rev. Qed.

Lemma stack_size_push d l rest :
  stack_size (push d l rest) = (sum_list_with entry_size l + stack_size rest)%nat.
Proof.
  unfold stack_size. rewrite push_perm, sum_list_with_app. f_equal.
  induction l as [|x l IH]; [done|]. cbn. f_equal. exact IH.
Qed.

Lemma stack_nodes_push d l rest :
  stack_nodes (push d l rest) ≡ₚ flat_map (fun c => entry_nodes (c, d)) l ++ stack_nodes rest.
Proof.
  unfold stack_nodes. rewrite push_perm, flat_map_app. f_equiv.
  induction l as [|x l IH]; [done|]. cbn. f_equiv. exact IH.
Qed.

Lemma stack_nodes_visit err d rest :
  stack_nodes ((Some err, d) :: rest) ≡ₚ (err, d) :: stack_nodes (push (d + 1) (unwrap err) rest).
Proof.
  rewrite stack_nodes_push. unfold stack_nodes at 1. cbn [flat_map].
  change (entry_nodes (Some err, d)) with (nodes d err). by rewrite nodes_unfold.
Qed.

Lemma existsb_perm {A} (f : A -> bool) l k : l ≡ₚ k -> existsb f l = existsb f k.
Proof. induction 1; simpl; [done|congruence| |congruence]. by rewrite !orb_assoc, (orb_comm (f x)). Qed.

(** What is still to be found is never lost, unless the walk says so. *)
Definition pending (f : goerr -> bool) (w : walk) : bool := existsb (fun n => f n.1) (stack_nodes (stack w)).

Lemma walk_step_pending entry rest w :
  stack w = entry :: rest ->
  let w' := walk_step entry rest w in
  (truncated w = true -> truncated w' = true) /\
  (truncated w' = true \/
   changed w' || pending changed_flag w' = changed w || pending changed_flag w /\
   durabilityUnknown w' || pending unknown_flag w' = durabilityUnknown w || pending unknown_flag w).
Proof.
  intros Hs. unfold pending. rewrite Hs. destruct entry as [[err|] d]; [|by auto]. cbn [walk_step].
  destruct (_ <? d); [by auto|]. cbn [changed durabilityUnknown truncated stack]. fold (push (d + 1) (unwrap err) rest).
  split; [done|]. right. rewrite !(existsb_perm _ _ _ (stack_nodes_visit err d rest)). cbn [existsb fst].
  by rewrite !orb_assoc.
Qed.

Lemma walk_loop_pending fuel w :
  let w' := walk_loop fuel w in
  (truncated w = true -> truncated w' = true) /\
  (truncated w' = true \/
   changed w' || pending changed_flag w' = changed w || pending changed_flag w /\
   durabilityUnknown w' || pending unknown_flag w' = durabilityUnknown w || pending unknown_flag w).
Proof.
  revert w. induction fuel as [|f IH]; intros w; cbn [walk_loop]; [by auto|].
  destruct (stack w) as [|entry rest] eqn:Hs; [by auto|]. destruct (_ <? _); [|by auto].
  destruct (walk_step_pending entry rest w Hs) as [Ht [Hr|(Hc & Hu)]];
    destruct (IH (walk_step entry rest w)) as [Ht' [Hr'|(Hc' & Hu')]]; split; auto.
  right. split; congruence.
Qed.

(** Within the budget the walk empties its stack. *)
Lemma walk_loop_complete fuel w :
  (stack_size (stack w) < fuel)%nat -> truncated w = false ->
  visited w + Zlen (stack_nodes (stack w)) < maxMutationErrorNodes ->
  Forall (fun n => n.2 <= maxMutationErrorDepth) (stack_nodes (stack w)) ->
  stack (walk_loop fuel w) = [] /\ truncated (walk_loop fuel w) = false.
Proof.
  revert w. induction fuel as [|f IH]; intros w Hf Ht Hv Hd; [lia|]. cbn [walk_loop].
  destruct (stack w) as [|[[err|] d] rest] eqn:Hs; [done| |]; unfold Zlen in *.
  - rewrite (stack_nodes_visit err d rest) in Hv, Hd. simpl length in Hv.
    apply Forall_cons in Hd as [Hd1 Hd]. simpl in Hd1.
    replace (visited w <? maxMutationErrorNodes) with true by (symmetry; apply Z.ltb_lt; lia).
    cbn [walk_step]. replace (maxMutationErrorDepth <? d) with false by (symmetry; apply Z.ltb_ge; lia).
    fold (push (d + 1) (unwrap err) rest).
    apply IH; cbn [stack visited truncated]; [|done|lia|done].
    rewrite stack_size_push. unfold stack_size in Hf |- *. cbn [sum_list_with fst] in Hf.
    change (entry_size (Some err)) with (err_size err) in Hf. rewrite err_size_unfold in Hf. lia.
  - replace (visited w <? maxMutationErrorNodes) with true by (symmetry; apply Z.ltb_lt; lia).
    apply IH; cbn [stack visited truncated walk_step]; [|done|done|done].
    unfold stack_size in *. simpl in Hf. lia.
Qed.

Definition error_nodes (err : option goerr) : list (goerr * Z) := entry_nodes (err, 0).

(** The flags of the whole tree. *)
Definition true_state (err : option goerr) : bool * bool :=
  (existsb (fun n => changed_flag n.1) (error_nodes err),
   existsb (fun n => unknown_flag n.1) (error_nodes err)).

Lemma aggregate_sound err :
  aggregateManagedMutationState err = true_state err \/ aggregateManagedMutationState err = (true, true).
Proof.
  unfold aggregateManagedMutationState, true_state, error_nodes.
  destruct (walk_loop_pending (S (entry_size err)) (start_walk err)) as [_ H].
  destruct (truncated _) eqn:Et; [by right|]. cbn [orb]. case_bool_decide as Es; [|by right].
  left. destruct H as [|[Hc Hu]]; [done|]. unfold pending in Hc, Hu. rewrite Es in Hc, Hu.
  cbn [start_walk stack changed durabilityUnknown stack_nodes flat_map existsb] in Hc, Hu.
  rewrite app_nil_r in Hc, Hu. rewrite !orb_false_r in Hc, Hu. cbn [orb] in Hc, Hu. f_equal; [exact Hc|exact Hu].
Qed.

Lemma aggregate_exact err :
  Zlen (error_nodes err) < maxMutationErrorNodes ->
  Forall (fun n => n.2 <= maxMutationErrorDepth) (error_nodes err) ->
  aggregateManagedMutationState err = true_state err.
Proof.
  intros Hn Hd.
  assert (Hsn : stack_nodes (stack (start_walk err)) = error_nodes err).
  { unfold stack_nodes. cbn. by rewrite app_nil_r. }
  destruct (walk_loop_complete (S (entry_size err)) (start_walk err)) as [Es Et];
    [unfold stack_size, start_walk; cbn [stack sum_list_with fst]; lia|done|rewrite Hsn; cbn [start_walk visited]; lia|by rewrite Hsn|].
  destruct (walk_loop_pending (S (entry_size err)) (start_walk err)) as [_ [H|[Hc Hu]]]; [congruence|].
  unfold aggregateManagedMutationState. rewrite Et, Es. cbn [orb]. rewrite bool_decide_eq_true_2 by done. cbn [negb].
  unfold pending in Hc, Hu. rewrite Es, Hsn in Hc, Hu. cbn [existsb stack_nodes flat_map start_walk changed durabilityUnknown] in Hc, Hu.
  rewrite orb_false_r in Hc, Hu. unfold true_state. by rewrite Hc, Hu.
Qed.

Lemma changed_node_reported err n :
  n ∈ error_nodes err -> changed_flag n.1 = true -> ManagedMutationChanged err = true.
Proof.
  intros Hn Hf. unfold ManagedMutationChanged. destruct (aggregate_sound err) as [-> | ->]; [|done].
  unfold true_state. cbn [fst]. apply existsb_exists. exists n. by rewrite <- list_elem_of_In.
Qed.

(** ** Properties *)

(** C14. The aggregated state of an error tree fails closed: it is the exact
    "something changed"/"durability unknown" disjunction over all nodes, or both
    flags are set; and it is exact for every tree of fewer than 256 nodes and at
    most 64 levels of wrapping. *)
Theorem aggregateManagedMutationState_fail_closed err :
  (aggregateManagedMutationState err = true_state err \/ aggregateManagedMutationState err = (true, true)) /\
  (Zlen (error_nodes err) < maxMutationErrorNodes /\
   Forall (fun n => n.2 <= maxMutationErrorDepth) (error_nodes err) ->
   aggregateManagedMutationState err = true_state err).
Proof. split; [apply aggregate_sound|]. intros [Hn Hd]. by apply aggregate_exact. Qed.

(** Marking an error as "changed" is never lost: the marked error reports a
    change, keeps reporting an unknown durability the cause reported, and is the
    cause itself when that already says everything. *)
Theorem managedChangedMutationError_marks operation unknown err :
  match managedChangedMutationError operation unknown err with
  | None => err = None
  | Some e =>
      err <> None /\ ManagedMutationChanged (Some e) = true /\
      (unknown || ManagedMutationDurabilityUnknown err = true -> ManagedMutationDurabilityUnknown (Some e) = true)
  end.
Proof.
  unfold managedChangedMutationError. destruct err as [e0|]; [|done].
  destruct (ManagedMutationChanged (Some e0) && _) eqn:E.
  - bools. split_and!; [done..|]. intros [Hu|Hu]%orb_true_iff; [|done]. subst unknown. by destruct (ManagedMutationDurabilityUnknown _).
  - set (m := ErrMutation _ _ _ _). assert (Hin : (m, 0) ∈ error_nodes (Some m)) by (left).
    split_and!; [done|by eapply changed_node_reported|]. intros Hu. unfold ManagedMutationDurabilityUnknown at 1.
    destruct (aggregate_sound (Some m)) as [-> | ->]; [|done]. unfold true_state. cbn [snd].
    apply existsb_exists. exists (m, 0). split; [by apply list_elem_of_In|]. done.
Qed.
