(* ===== verification/PublicPaths.v ===== *)
(** * pkg/publicfiles/portal.go: names and relative paths of the public portal *)

From Stdlib Require Import Strings.Byte ZArith Lia String.
From stdpp Require Import base list strings sets.
From S2P Require Import Prelude GoStd GoPath.

Inductive path_error :=
| ErrPathRequired
| ErrPathNotRelative
| ErrPathForbiddenComponent
| ErrPathNotClean
| ErrAbsolutePathRequired
| ErrConfigPathNotClean
| ErrConfigRootNotFile
| ErrConfigRootShared.

Definition isSafeVisibleName (value : bytes) : bool :=
  if bool_decide (value = []) || negb (valid_string value) then false
  else forallb (fun character => negb (is_control character.1 || is_format character.1)) (runes value).

Definition validateRelativePath (value : bytes) (allowRoot : bool) : result path_error bytes :=
  if bool_decide (value = []) then
    if allowRoot then Ok [] else Err ErrPathRequired
  else
  fail_if (4096 <? Zlen value) || contains_byte x00 value || contains_sub (bs "\") value
          || has_prefix slash value with ErrPathNotRelative in
  fail_if existsb (fun part => negb (isSafeVisibleName part) || bool_decide (part = dot)
                               || bool_decide (part = dotdot) || has_prefix dot part)
                  (split_on sep value) with ErrPathForbiddenComponent in
  fail_if negb (bool_decide (clean value = value)) with ErrPathNotClean in
  Ok value.

Definition validateAbsoluteConfigPath (value : bytes) (allowFile : bool) : result path_error bytes :=
  fail_if bool_decide (value = []) || contains_byte x00 value || negb (valid_string value)
          || negb (is_abs value) with ErrAbsolutePathRequired in
  let cleaned := clean value in
  fail_if negb (bool_decide (cleaned = value)) with ErrConfigPathNotClean in
  if bool_decide (cleaned = slash) then
    if allowFile then Err ErrConfigRootNotFile else Err ErrConfigRootShared
  else Ok cleaned.

(** A name the portal shows and serves. *)
Definition visible_name (w : bytes) : Prop :=
  isSafeVisibleName w = true /\ has_prefix dot w = false /\ (sep ∉ w).

Lemma safe_name_nonempty w : isSafeVisibleName w = true -> w <> [].
Proof. unfold isSafeVisibleName. by case_bool_decide. Qed.

Lemma visible_normal w : visible_name w -> normal w.
Proof.
  intros (Hs & Hp & Hn). split_and!; [by apply safe_name_nonempty| | |done];
    intros ->; by vm_compute in Hp.
Qed.

Lemma existsb_forall {A} (f : A -> bool) l :
  existsb f l = false <-> Forall (fun x => f x = false) l.
Proof.
  induction l as [|x l IH]; simpl; [by split|]. by rewrite orb_false_iff, IH, Forall_cons.
Qed.

Lemma has_prefix_slash s : has_prefix slash s = is_abs s.
Proof.
  unfold has_prefix. destruct s as [|b s]; [done|]. simpl. rewrite take_0.
  apply bool_decide_ext. split; [by intros [=]|by intros ->].
Qed.

Lemma visible_join_ok l :
  l <> [] -> Forall visible_name l -> let value := join_with sep l in
  Zlen value <= 4096 -> x00 ∉ value -> contains_sub (bs "\") value = false ->
  forall allowRoot, validateRelativePath value allowRoot = Ok value.
Proof.
  intros Hne Hl value Hlen H0 Hb allowRoot.
  assert (Hn : Forall normal l) by (eapply Forall_impl; [exact Hl|apply visible_normal]).
  unfold validateRelativePath, contains_byte.
  rewrite (bool_decide_eq_false_2 (value = [])), (bool_decide_eq_false_2 (x00 ∈ value)); [|done|].
  2: { intros E. inversion Hn as [|w k (Hw & _) _]; subst; [done|]. by destruct w, k. }
  rewrite has_prefix_slash, Hb. unfold value at 2. rewrite is_abs_join by done.
  replace (4096 <? Zlen value) with false by (symmetry; apply Z.ltb_ge; lia). cbn [orb].
  unfold value at 1. rewrite split_join_normal by done.
  destruct (existsb _ l) eqn:E.
  - apply existsb_exists in E as (w & Hw%list_elem_of_In & E).
    rewrite Forall_forall in Hl, Hn. destruct (Hl w Hw) as (Hs & Hp & _).
    destruct (Hn w Hw) as (_ & Hd & Hdd & _).
    by rewrite Hs, Hp, !bool_decide_eq_false_2 in E.
  - unfold value. rewrite clean_join by done. by rewrite bool_decide_eq_true_2.
Qed.

(** ** Properties *)

(** C15. The portal's relative-path check accepts exactly the empty path (where
    the root is allowed) and the slash-joined sequences of at least one visible
    name (no empty, "." or ".." element, no leading dot, no control or format
    character) of at most 4096 bytes without NUL or backslash, and returns them
    unchanged. *)
Theorem validateRelativePath_exact value allowRoot p :
  validateRelativePath value allowRoot = Ok p <->
  p = value /\
  (value = [] /\ allowRoot = true \/
   exists l, l <> [] /\ Forall visible_name l /\ value = join_with sep l /\
     Zlen value <= 4096 /\ (x00 ∉ value) /\ contains_sub (bs "\") value = false).
Proof.
  split.
  - unfold validateRelativePath, contains_byte. intros H.
    case_bool_decide as E; [destruct allowRoot; simplify_eq; auto|].
    step_in H. step_in H. step_in H. simplify_eq. bools. split; [done|]. right.
    exists (split_on sep p). rewrite join_split.
    split_and!; [apply split_on_nonnil| |done|lia|done|done].
    apply existsb_forall in Heqb0. pose proof (split_on_no_sep sep p) as Hs.
    rewrite Forall_forall in *. intros w Hw. specialize (Heqb0 w Hw). simpl in Heqb0. bools.
    split_and!; auto.
  - intros [-> [[-> ->]|(l & Hne & Hl & -> & Hlen & H0 & Hb)]]; [done|].
    by apply visible_join_ok.
Qed.
