(* ===== verification/WorkerProtocol.v ===== *)
(** * pkg/publicfiles/worker_protocol.go: frames between coordinator and storage worker

    Every frame is one sequenced packet: a 24-byte header and a bounded payload.
    Integers are kept at their width. The four codecs of the file are instances
    of one interface, [Codec], whose laws say that encoding and decoding are
    inverse to each other on the nose, so that no two packets mean the same. *)

From Stdlib Require Import Strings.Byte ZArith Lia String.
From stdpp Require Import base list strings sets.
From S2P Require Import Prelude GoStd GoPath PublicPaths.

(** ** The interface *)

Inductive storage_error := errStorageProtocol.

Class Codec (A : Type) := {
  encode_msg : A -> result storage_error bytes;
  decode_msg : bytes -> result storage_error A;
  (** the values a sender may transmit *)
  sendable : A -> Prop
}.

Class CodecLaws (A : Type) `{Codec A} := {
  codec_roundtrip v p : sendable v -> encode_msg v = Ok p -> decode_msg p = Ok v;
  codec_canonical p v : decode_msg p = Ok v -> sendable v /\ encode_msg v = Ok p
}.

(** Two packets that decode to the same value are the same packet. *)
Lemma decode_msg_inj `{CodecLaws A} p q (v : A) :
  decode_msg p = Ok v -> decode_msg q = Ok v -> p = q.
Proof. intros [_ Hp]%codec_canonical [_ Hq]%codec_canonical. congruence. Qed.

(** ** Constants *)

Definition storageWorkerProtocolVersion : Z := 1.
Definition storageWorkerHeaderBytes : Z := 24.
Definition storageWorkerMaxFramePayload : Z := Z.shiftl 60 10.
Definition storageWorkerMaxListPayload : Z := Z.shiftl 2 20.
Definition storageWorkerMaxReadBytes : Z := storageWorkerMaxFramePayload.
Definition storageWorkerMagic : bytes := bs "RCFW".

Definition storageWorkerBootstrapRequest : Z := 1.
Definition storageWorkerBootstrapResponse : Z := 2.
Definition storageWorkerListRequest : Z := 3.
Definition storageWorkerListResponse : Z := 4.
Definition storageWorkerOpenRequest : Z := 5.
Definition storageWorkerOpenResponse : Z := 6.
Definition storageWorkerReadRequest : Z := 7.
Definition storageWorkerReadResponse : Z := 8.
Definition storageWorkerCloseRequest : Z := 9.
Definition storageWorkerCloseResponse : Z := 10.

Definition storageWorkerStatusOK : Z := 0.
Definition storageWorkerStatusHidden : Z := 1.
Definition storageWorkerStatusEntryLimit : Z := 2.
Definition storageWorkerStatusInvalid : Z := 3.
Definition storageWorkerStatusInternal : Z := 4.
Definition storageWorkerStatusEOF : Z := 5.
Definition storageWorkerStatusUnsupported : Z := 6.

Definition storageWorkerFlagMore : Z := 1.

(** ** Messages *)

Record storageWorkerFrame := {
  opcode : Z;
  requestID : Z;
  status : Z;
  flags : Z;
  payload : bytes
}.

Definition frame_typed (f : storageWorkerFrame) : Prop :=
  in_u 16 (opcode f) /\ in_u 64 (requestID f) /\ in_u 16 (status f) /\ in_u 16 (flags f).

Record storageBootstrapResponse := {
  Verifier : bytes;
  MountID : Z;
  FilesystemType : Z
}.

Definition bootstrap_typed (r : storageBootstrapResponse) : Prop :=
  length (Verifier r) = 32%nat /\ in_u 64 (MountID r) /\ in_u 32 (FilesystemType r).

Record storageOpenResponse := { Size : Z; ModTimeUnixNano : Z }.

Definition open_typed (r : storageOpenResponse) : Prop :=
  in_s 64 (Size r) /\ in_s 64 (ModTimeUnixNano r).

Record storageReadRequest := { Offset : Z; Length : Z }.

Definition read_typed (r : storageReadRequest) : Prop := in_s 64 (Offset r) /\ in_u 32 (Length r).

(** ** Frames *)

Definition validStorageWorkerFrameHeader (frame : storageWorkerFrame) : bool :=
  (storageWorkerBootstrapRequest <=? opcode frame)
  && (opcode frame <=? storageWorkerCloseResponse)
  && negb (requestID frame =? 0)
  && (status frame <=? storageWorkerStatusUnsupported)
  && (Z.ldiff (flags frame) storageWorkerFlagMore =? 0).

Definition marshalStorageWorkerFrame (frame : storageWorkerFrame) : result storage_error bytes :=
  fail_if negb (validStorageWorkerFrameHeader frame)
          || (storageWorkerMaxFramePayload <? Zlen (payload frame)) with errStorageProtocol in
  Ok (storageWorkerMagic
      ++ be_put 2 storageWorkerProtocolVersion
      ++ be_put 2 (opcode frame)
      ++ be_put 8 (requestID frame)
      ++ be_put 2 (status frame)
      ++ be_put 2 (flags frame)
      ++ be_put 4 (wrap_u 32 (Zlen (payload frame)))
      ++ payload frame).

Definition parseStorageWorkerFrame (packet : bytes) : result storage_error storageWorkerFrame :=
  fail_if (Zlen packet <? storageWorkerHeaderBytes)
          || negb (bool_decide (take 4 packet = storageWorkerMagic))
          || negb (be_get (slice 4 6 packet) =? storageWorkerProtocolVersion)
    with errStorageProtocol in
  let payloadLength := be_get (slice 20 24 packet) in
  fail_if (storageWorkerMaxFramePayload <? payloadLength)
          || negb (Zlen packet =? storageWorkerHeaderBytes + payloadLength)
    with errStorageProtocol in
  let frame := {| opcode := be_get (slice 6 8 packet);
                  requestID := be_get (slice 8 16 packet);
                  status := be_get (slice 16 18 packet);
                  flags := be_get (slice 18 20 packet);
                  payload := drop 24 packet |} in
  fail_if negb (validStorageWorkerFrameHeader frame) with errStorageProtocol in
  Ok frame.

(** ** Fixed-size payloads *)

Definition marshalStorageBootstrapResponse (response : storageBootstrapResponse) : bytes :=
  take 32 (Verifier response) ++ be_put 8 (MountID response) ++ be_put 4 (FilesystemType response).

Definition parseStorageBootstrapResponse (payload : bytes)
  : result storage_error storageBootstrapResponse :=
  fail_if negb (Zlen payload =? 44) with errStorageProtocol in
  let response := {| Verifier := take 32 payload;
                     MountID := be_get (slice 32 40 payload);
                     FilesystemType := be_get (slice 40 44 payload) |} in
  fail_if MountID response =? 0 with errStorageProtocol in
  Ok response.

Definition marshalStorageOpenResponse (response : storageOpenResponse) : bytes :=
  be_put 8 (u64 (Size response)) ++ be_put 8 (u64 (ModTimeUnixNano response)).

Definition parseStorageOpenResponse (payload : bytes) : result storage_error storageOpenResponse :=
  fail_if negb (Zlen payload =? 16) with errStorageProtocol in
  let response := {| Size := s64 (be_get (take 8 payload));
                     ModTimeUnixNano := s64 (be_get (slice 8 16 payload)) |} in
  fail_if Size response <? 0 with errStorageProtocol in
  Ok response.

Definition read_bounds (request : storageReadRequest) : bool :=
  (Offset request <? 0) || (Length request =? 0) || (storageWorkerMaxReadBytes <? Length request).

Definition marshalStorageReadRequest (request : storageReadRequest) : result storage_error bytes :=
  fail_if read_bounds request with errStorageProtocol in
  Ok (be_put 8 (u64 (Offset request)) ++ be_put 4 (Length request)).

Definition parseStorageReadRequest (payload : bytes) : result storage_error storageReadRequest :=
  fail_if negb (Zlen payload =? 12) with errStorageProtocol in
  let request := {| Offset := s64 (be_get (take 8 payload));
                    Length := be_get (slice 8 12 payload) |} in
  fail_if read_bounds request with errStorageProtocol in
  Ok request.

(** ** Lemmas *)

(** The numeral a field holds after a write and a read. *)
Lemma be_u w n z : w = 8 * Z.of_nat n -> in_u w z -> be_get (be_put n z) = z.
Proof.
  intros -> H. apply be_get_put_small. unfold in_u in H.
  replace 256 with (2 ^ 8) by done. rewrite <- Z.pow_mul_r by lia. done.
Qed.

Lemma be_get_u w n l : w = 8 * Z.of_nat n -> length l = n -> in_u w (be_get l).
Proof.
  intros -> Hl. pose proof (be_get_range l) as H. unfold in_u, Zlen in *. rewrite Hl in H.
  replace 256 with (2 ^ 8) in H by done. by rewrite <- Z.pow_mul_r in H by lia.
Qed.

Lemma u64_s64 x : in_u 64 x -> u64 (s64 x) = x.
Proof.
  unfold in_u, wrap_u, wrap_s. intros H.
  rewrite Zminus_mod_idemp_l. rewrite Z.add_simpl_r. by apply Z.mod_small.
Qed.

(** Re-encoding a field that was read from a slice of the right length. *)
Lemma be_put_slice n lo hi (l : bytes) :
  (lo + n = hi)%nat -> (hi <= length l)%nat -> be_put n (be_get (slice lo hi l)) = slice lo hi l.
Proof. intros. apply be_put_get'. rewrite length_slice; lia. Qed.

Lemma in_u_slice w lo hi (l : bytes) :
  w = 8 * Z.of_nat (hi - lo) -> (hi <= length l)%nat -> in_u w (be_get (slice lo hi l)).
Proof. intros. eapply be_get_u; [done|]. by apply length_slice. Qed.

Lemma slice_take n (l : bytes) : take n l = slice 0 n l.
Proof. unfold slice. by rewrite drop_0, Nat.sub_0_r. Qed.

#[export] Instance frame_codec : Codec storageWorkerFrame := {
  encode_msg := marshalStorageWorkerFrame;
  decode_msg := parseStorageWorkerFrame;
  sendable := frame_typed
}.

Lemma frame_roundtrip f p :
  frame_typed f -> marshalStorageWorkerFrame f = Ok p -> parseStorageWorkerFrame p = Ok f.
Proof.
  intros (Ho & Hi & Hs & Hf) H. unfold marshalStorageWorkerFrame in H. step_in H.
  apply Ok_inj in H. subst p. bools. rename H into Hv, H0 into Hlen.
  pose proof (Zlen_nonneg (payload f)) as Hnn.
  assert (Hu : in_u 32 (Zlen (payload f))).
  { change storageWorkerMaxFramePayload with 61440 in Hlen. unfold in_u. lia. }
  rewrite (wrap_u_id 32) by done.
  unfold parseStorageWorkerFrame.
  match goal with |- context [Zlen ?x <? storageWorkerHeaderBytes] => set (pkt := x) end.
  assert (Hpl : Zlen pkt = 24 + Zlen (payload f)) by (unfold pkt; rewrite !Zlen_app, !Zlen_be_put;
    change (Zlen storageWorkerMagic) with 4; lia).
  change (take 4 pkt) with storageWorkerMagic.
  change (slice 4 6 pkt) with (be_put 2 storageWorkerProtocolVersion).
  change (slice 6 8 pkt) with (be_put 2 (opcode f)).
  change (slice 8 16 pkt) with (be_put 8 (requestID f)).
  change (slice 16 18 pkt) with (be_put 2 (status f)).
  change (slice 18 20 pkt) with (be_put 2 (flags f)).
  change (slice 20 24 pkt) with (be_put 4 (Zlen (payload f))).
  change (drop 24 pkt) with (payload f).
  rewrite (be_u 16 2 (opcode f)), (be_u 64 8 (requestID f)), (be_u 16 2 (status f)),
    (be_u 16 2 (flags f)), (be_u 32 4 (Zlen (payload f))) by done.
  rewrite Hpl. unfold storageWorkerHeaderBytes. rewrite (Z.eqb_refl (24 + Zlen (payload f))).
  replace (24 + Zlen (payload f) <? 24) with false by (symmetry; apply Z.ltb_ge; lia).
  replace (storageWorkerMaxFramePayload <? Zlen (payload f)) with false
    by (symmetry; by apply Z.ltb_ge).
  rewrite bool_decide_eq_true_2 by done. cbv zeta.
  destruct f as [fo fi fs ff fp]. cbn [opcode requestID status flags payload] in *.
  by rewrite Hv.
Qed.

Lemma frame_canonical p f :
  parseStorageWorkerFrame p = Ok f -> frame_typed f /\ marshalStorageWorkerFrame f = Ok p.
Proof.
  intros H. unfold parseStorageWorkerFrame in H. step_in H. step_in H. step_in H.
  unfold storageWorkerHeaderBytes in *. bools. simplify_eq.
  match goal with H : Zlen p = 24 + _ |- _ => rename H into Hlen end.
  match goal with H : be_get (slice 4 6 p) = _ |- _ => rename H into Hver end.
  match goal with H : take 4 p = _ |- _ => rename H into Hmagic end.
  assert (Hp : (24 <= length p)%nat) by (unfold Zlen in *; lia).
  assert (Hpay : Zlen (drop 24 p) = be_get (slice 20 24 p))
    by (unfold Zlen in *; rewrite length_drop; lia).
  split.
  - split_and!; apply in_u_slice; (done || lia).
  - unfold marshalStorageWorkerFrame. rewrite Heqb1. cbn [negb orb payload].
    rewrite Hpay. replace (storageWorkerMaxFramePayload <? be_get (slice 20 24 p)) with false
      by (symmetry; by apply Z.ltb_ge).
    rewrite (wrap_u_id 32) by (apply in_u_slice; (done || lia)). f_equal.
    cbn [opcode requestID status flags]. rewrite <- Hver, <- Hmagic.
    rewrite !be_put_slice by lia.
    rewrite <- !drop_slice by lia. apply take_drop.
Qed.

#[export] Instance frame_codec_laws : CodecLaws storageWorkerFrame.
Proof. split; [exact frame_roundtrip|exact frame_canonical]. Qed.

(** *** Bootstrap responses *)

#[export] Instance bootstrap_codec : Codec storageBootstrapResponse := {
  encode_msg r := Ok (marshalStorageBootstrapResponse r);
  decode_msg := parseStorageBootstrapResponse;
  sendable r := bootstrap_typed r /\ MountID r <> 0
}.

Lemma bootstrap_roundtrip r :
  bootstrap_typed r -> MountID r <> 0 ->
  parseStorageBootstrapResponse (marshalStorageBootstrapResponse r) = Ok r.
Proof.
  intros (Hv & Hm & Hf) Hne. unfold parseStorageBootstrapResponse, marshalStorageBootstrapResponse.
  rewrite (take_ge (Verifier r)) by lia.
  rewrite !Zlen_app, !Zlen_be_put. unfold Zlen. rewrite Hv. cbn [negb Z.eqb].
  assert (Hs : forall n m (l : bytes), (32 <= n)%nat ->
    slice n m (Verifier r ++ l) = slice (n - 32) (m - 32) l).
  { intros n m l Hn. unfold slice. rewrite drop_app_ge, Hv by lia. f_equal. lia. }
  rewrite !Hs by lia. rewrite take_app_length' by done.
  change (slice (32 - 32) (40 - 32) (be_put 8 (MountID r) ++ be_put 4 (FilesystemType r)))
    with (be_put 8 (MountID r)).
  change (slice (40 - 32) (44 - 32) (be_put 8 (MountID r) ++ be_put 4 (FilesystemType r)))
    with (be_put 4 (FilesystemType r)).
  rewrite (be_u 64), (be_u 32) by done. cbn [MountID].
  replace (MountID r =? 0) with false by (symmetry; by apply Z.eqb_neq). by destruct r.
Qed.

Lemma bootstrap_canonical p r :
  parseStorageBootstrapResponse p = Ok r ->
  (bootstrap_typed r /\ MountID r <> 0) /\ Ok (E := storage_error) (marshalStorageBootstrapResponse r) = Ok p.
Proof.
  intros H. unfold parseStorageBootstrapResponse in H. step_in H. step_in H. simplify_eq. bools.
  cbn [MountID] in *. assert (Hp : length p = 44%nat) by (unfold Zlen in *; lia).
  split; [split; [|done]; split_and!; cbn [Verifier MountID FilesystemType]|].
  - rewrite length_take. lia.
  - apply in_u_slice; (done || lia).
  - apply in_u_slice; (done || lia).
  - f_equal. unfold marshalStorageBootstrapResponse. cbn [Verifier MountID FilesystemType].
    rewrite !be_put_slice, take_take by lia. rewrite <- (take_drop 32 p) at 4. f_equal.
    rewrite (drop_slice 32 40), (drop_slice 40 44) by lia.
    rewrite (drop_ge p 44) by lia. by rewrite app_nil_r.
Qed.

#[export] Instance bootstrap_codec_laws : CodecLaws storageBootstrapResponse.
Proof.
  split; [|exact bootstrap_canonical]. intros v p [? ?] Hp.
  apply Ok_inj in Hp. subst. by apply bootstrap_roundtrip.
Qed.

(** *** Open responses *)

#[export] Instance open_codec : Codec storageOpenResponse := {
  encode_msg r := Ok (marshalStorageOpenResponse r);
  decode_msg := parseStorageOpenResponse;
  sendable r := open_typed r /\ 0 <= Size r
}.

Lemma wrap_u64_in_u x : in_u 64 (u64 x).
Proof. by apply wrap_u_range. Qed.

Lemma open_roundtrip v :
  open_typed v -> 0 <= Size v -> parseStorageOpenResponse (marshalStorageOpenResponse v) = Ok v.
Proof.
  intros [Hs Hm] Hpos. unfold parseStorageOpenResponse, marshalStorageOpenResponse.
  rewrite Zlen_app, !Zlen_be_put. cbn [negb Z.eqb Z.of_nat Z.add Pos.of_succ_nat].
  change (take 8 (be_put 8 (u64 (Size v)) ++ be_put 8 (u64 (ModTimeUnixNano v))))
    with (be_put 8 (u64 (Size v))).
  change (slice 8 16 (be_put 8 (u64 (Size v)) ++ be_put 8 (u64 (ModTimeUnixNano v))))
    with (be_put 8 (u64 (ModTimeUnixNano v))).
  rewrite !(be_u 64) by (done || apply wrap_u64_in_u).
  rewrite !wrap_s_wrap_u by done. cbn [Size]. simpl.
  replace (Size v <? 0) with false by (symmetry; apply Z.ltb_ge; lia). by destruct v.
Qed.

#[export] Instance open_codec_laws : CodecLaws storageOpenResponse.
Proof.
  split.
  - intros v p [Ht Hpos] He. apply Ok_inj in He. subst p. by apply open_roundtrip.
  - intros p v He. cbn [decode_msg open_codec sendable encode_msg] in *.
    unfold parseStorageOpenResponse in He. step_in He. step_in He. simplify_eq. bools.
    assert (Hp : length p = 16%nat) by (unfold Zlen in *; lia). cbn [Size] in *.
    split; [split; [split; cbn; by apply wrap_s_range|done]|].
    f_equal. unfold marshalStorageOpenResponse. cbn [Size ModTimeUnixNano].
    rewrite slice_take, !u64_s64 by (apply in_u_slice; (done || lia)).
    rewrite !be_put_slice by lia. rewrite <- slice_take. rewrite <- (take_drop 8 p) at 3. f_equal.
    rewrite (drop_slice 8 16), (drop_ge p 16) by lia. by rewrite app_nil_r.
Qed.

(** *** Read requests *)

#[export] Instance read_codec : Codec storageReadRequest := {
  encode_msg := marshalStorageReadRequest;
  decode_msg := parseStorageReadRequest;
  sendable := read_typed
}.

#[export] Instance read_codec_laws : CodecLaws storageReadRequest.
Proof.
  split.
  - intros v p [Ho Hl] He. cbn [decode_msg encode_msg read_codec] in *.
    unfold marshalStorageReadRequest in He. step_in He. apply Ok_inj in He. subst p.
    unfold parseStorageReadRequest. rewrite Zlen_app, !Zlen_be_put.
    change (take 8 (be_put 8 (u64 (Offset v)) ++ be_put 4 (Length v))) with (be_put 8 (u64 (Offset v))).
    change (slice 8 12 (be_put 8 (u64 (Offset v)) ++ be_put 4 (Length v))) with (be_put 4 (Length v)).
    rewrite (be_u 64), (be_u 32), wrap_s_wrap_u by (done || apply wrap_u64_in_u).
    destruct v as [o l]. cbn [Offset Length] in *. by rewrite Heqb.
  - intros p v He. cbn [decode_msg read_codec sendable encode_msg] in *.
    unfold parseStorageReadRequest in He. step_in He. step_in He. simplify_eq. bools.
    assert (Hp : length p = 12%nat) by (unfold Zlen in *; lia). split.
    + split; cbn [Offset Length]; [by apply wrap_s_range|]. apply in_u_slice; (done || lia).
    + unfold marshalStorageReadRequest. rewrite Heqb0. f_equal. cbn [Offset Length].
      rewrite slice_take, u64_s64 by (apply in_u_slice; (done || lia)).
      rewrite !be_put_slice by lia. rewrite <- slice_take. rewrite <- (take_drop 8 p) at 3. f_equal.
      rewrite (drop_slice 8 12), (drop_ge p 12) by lia. by rewrite app_nil_r.
Qed.

(** ** Directory listings *)

(** The coordinator's check of a worker's directory listing. [json_entries] is
    the strict JSON reading of the payload: [json.Decoder] with unknown fields
    refused, one value, then end of input. *)

Record Entry := { Name : bytes; Type_ : bytes; EntrySize : Z }.

Definition badEntry (entry : Entry) : bool :=
  negb (isSafeVisibleName (Name entry))
  || bool_decide (Name entry = dot)
  || bool_decide (Name entry = dotdot)
  || has_prefix dot (Name entry)
  || contains_sub (bs "\") (Name entry)
  || negb (bool_decide (Name entry = path_base (Name entry)))
  || (EntrySize entry <? 0)
  || (negb (bool_decide (Type_ entry = bs "file")) && negb (bool_decide (Type_ entry = bs "directory")))
  || (bool_decide (Type_ entry = bs "directory") && negb (EntrySize entry =? 0)).

Section entries.
Context (json_entries : bytes -> option (list Entry)).

Definition decodeStorageWorkerEntries (payload : bytes) (maxEntries : Z)
  : result storage_error (list Entry) :=
  fail_if (Zlen payload =? 0) || (storageWorkerMaxListPayload <? Zlen payload)
    with errStorageProtocol in
  match json_entries payload with
  | None => Err errStorageProtocol
  | Some entries =>
      fail_if maxEntries <? Zlen entries with errStorageProtocol in
      fail_if existsb badEntry entries with errStorageProtocol in
      Ok entries
  end.
End entries.

Lemma path_base_no_sep v : path_base v = v -> v <> slash -> sep ∉ v.
Proof.
  unfold path_base. case_bool_decide as Ev; [intros <-; done|]. intros H Hs.
  destruct (last _) as [[|b w]|] eqn:E; [by subst|subst v|by subst].
  apply last_Some in E as [l E]. pose proof (split_on_no_sep sep (trim_right_slashes (b :: w))) as Hn.
  rewrite E in Hn. apply Forall_app in Hn as [_ Hn]. by inversion Hn.
Qed.

(** What the coordinator lets through. The name check compares the name with its
    own [path.Base], which is the identity on ordinary names and also on "/". *)
Definition listed_name (w : bytes) : Prop :=
  visible_name w /\ contains_sub (bs "\") w = false \/ w = slash.

Definition listed_entry (e : Entry) : Prop :=
  listed_name (Name e) /\ 0 <= EntrySize e /\
  (Type_ e = bs "file" \/ Type_ e = bs "directory" /\ EntrySize e = 0).

Lemma goodEntry e : badEntry e = false <-> listed_entry e.
Proof.
  unfold badEntry, listed_entry, listed_name. split.
  - intros H. bools. split_and!; [|lia|].
    + destruct (decide (Name e = slash)); [by right|left]. split; [|done].
      split_and!; [done|done|]. by apply path_base_no_sep.
    + destruct (decide (Type_ e = bs "file")) as [->|Hf]; [by left|right].
      rewrite (bool_decide_eq_false_2 (Type_ e = bs "file")) in * by done.
      destruct (bool_decide (Type_ e = bs "directory")) eqn:E; [|done]. cbn [andb] in *. by bools.
  - intros (Hn & Hs & Ht).
    assert (Hname : negb (isSafeVisibleName (Name e)) || bool_decide (Name e = dot)
      || bool_decide (Name e = dotdot) || has_prefix dot (Name e) || contains_sub (bs "\") (Name e)
      || negb (bool_decide (Name e = path_base (Name e))) = false).
    { destruct Hn as [[Hv Hb]| ->]; [|done]. pose proof Hv as (H1 & H2 & _).
      apply visible_normal in Hv. pose proof (path_base_word _ Hv) as ->. destruct Hv as (_ & ? & ? & _).
      rewrite H1, H2, Hb, !bool_decide_eq_false_2 by done. by rewrite bool_decide_eq_true_2. }
    rewrite Hname. replace (EntrySize e <? 0) with false by (symmetry; by apply Z.ltb_ge).
    destruct Ht as [->|[-> ->]]; done.
Qed.

(** ** Properties *)

(** C16. The worker frame format is exact: a packet parses to a frame if and
    only if the frame's fields fit their types and marshalling it yields that
    very packet. Hence frames survive the wire, and no two packets mean the
    same frame. *)
Theorem storageWorkerFrame_exact p f :
  parseStorageWorkerFrame p = Ok f <-> frame_typed f /\ marshalStorageWorkerFrame f = Ok p.
Proof.
  split; [exact (codec_canonical p f)|]. intros [Ht Hm]. pose proof (codec_roundtrip f) as Hc. exact (Hc p Ht Hm).
Qed.

(** C17. The fixed-size payloads (bootstrap response, open response, read
    request) are exact in the same sense, and decoding establishes the bounds
    their users rely on: a non-zero mount, a non-negative size, a non-negative
    offset and between 1 and 61440 bytes to read. *)
Theorem storagePayloads_exact p :
  (forall r, parseStorageBootstrapResponse p = Ok r <->
     bootstrap_typed r /\ MountID r <> 0 /\ marshalStorageBootstrapResponse r = p) /\
  (forall r, parseStorageOpenResponse p = Ok r <->
     open_typed r /\ 0 <= Size r /\ marshalStorageOpenResponse r = p) /\
  (forall r, parseStorageReadRequest p = Ok r <->
     read_typed r /\ 0 <= Offset r /\ 1 <= Length r <= 61440 /\ marshalStorageReadRequest r = Ok p).
Proof.
  split_and!; intros r; split.
  - intros Hp. pose proof (codec_canonical p r) as Hc. by destruct (Hc Hp) as [[? ?] ?%Ok_inj].
  - intros (Ht & Hn & <-). by apply bootstrap_roundtrip.
  - intros Hp. pose proof (codec_canonical p r) as Hc. by destruct (Hc Hp) as [[? ?] ?%Ok_inj].
  - intros (Ht & Hn & <-). by apply open_roundtrip.
  - intros Hp. pose proof (codec_canonical p r) as Hc. destruct (Hc Hp) as [Ht Hm].
    change (marshalStorageReadRequest r = Ok p) in Hm. pose proof Hm as Hb.
    unfold marshalStorageReadRequest in Hb. step_in Hb. unfold read_bounds in Heqb. bools.
    change (read_typed r) in Ht. change storageWorkerMaxReadBytes with 61440 in *.
    pose proof Ht as [_ Hu]. unfold in_u in Hu. split_and!; [done|lia|lia|lia|done].
  - intros (Ht & _ & _ & Hm). pose proof (codec_roundtrip r) as Hc. exact (Hc p Ht Hm).
Qed.

(** C18. A directory listing the coordinator accepts has at most the requested
    number of entries, and an entry is accepted exactly when it is a file of
    non-negative size or a zero-size directory whose name is visible and has no
    separator or backslash, or is "/" (the one name [path.Base] maps to itself
    despite its separator). *)
Theorem decodeStorageWorkerEntries_exact json payload maxEntries entries :
  decodeStorageWorkerEntries json payload maxEntries = Ok entries <->
  json payload = Some entries /\ 0 < Zlen payload <= 2097152 /\
  Zlen entries <= maxEntries /\ Forall listed_entry entries.
Proof.
  unfold decodeStorageWorkerEntries. change storageWorkerMaxListPayload with 2097152. split.
  - intros H. step_in H. step_in H. step_in H. step_in H. simplify_eq. bools.
    pose proof (Zlen_nonneg payload).
    split_and!; [done|lia|lia|lia|]. apply existsb_forall in Heqb1.
    eapply Forall_impl; [exact Heqb1|]. by intros e ?%goodEntry.
  - intros (Hj & Hl & Hm & Hf). rewrite Hj.
    replace (Zlen payload =? 0) with false by (symmetry; apply Z.eqb_neq; lia).
    replace (2097152 <? Zlen payload) with false by (symmetry; apply Z.ltb_ge; lia).
    replace (maxEntries <? Zlen entries) with false by (symmetry; apply Z.ltb_ge; lia). cbn [orb].
    assert (existsb badEntry entries = false) as ->; [|done].
    apply existsb_forall. eapply Forall_impl; [exact Hf|]. intros e. apply goodEntry.
Qed.
