(* ===== verification/GoEncoding.v ===== *)
(** * encoding/hex and encoding/base64 (raw URL alphabet)

    The two text encodings the credential code uses, with their round trips in
    both directions. *)

From Stdlib Require Import Strings.Byte ZArith Lia String.
From stdpp Require Import base list strings sets.
From S2P Require Import Prelude GoStd.

(** ** Hexadecimal *)

Definition hex_digit (z : Z) : byte :=
  if z <? 10 then byte_of (48 + z) else byte_of (87 + z).

Definition hex_value (b : byte) : option Z :=
  if is_digit b then Some (byte_val b - 48)
  else if between "a" "f" b then Some (byte_val b - 87)
  else if between "A" "F" b then Some (byte_val b - 55)
  else None.

(** [hex.EncodeToString] *)
Fixpoint hex_encode (l : bytes) : bytes :=
  match l with
  | [] => []
  | b :: l' => hex_digit (byte_val b / 16) :: hex_digit (byte_val b mod 16) :: hex_encode l'
  end.

(** [hex.Decode] *)
Fixpoint hex_decode (l : bytes) : option bytes :=
  match l with
  | [] => Some []
  | [_] => None
  | h :: k :: l' =>
      match hex_value h, hex_value k, hex_decode l' with
      | Some x, Some y, Some r => Some (byte_of (x * 16 + y) :: r)
      | _, _, _ => None
      end
  end.

(** The lower-case digits [hex.EncodeToString] writes. *)
Definition is_lower_hex (b : byte) : bool := is_digit b || between "a" "f" b.

Lemma hex_value_digit z :
  0 <= z < 16 -> hex_value (hex_digit z) = Some z /\ is_lower_hex (hex_digit z) = true.
Proof.
  intros H. pose proof (small_all (fun z => bool_decide (hex_value (hex_digit z) = Some z)
    && is_lower_hex (hex_digit z)) 16 eq_refl z H) as Hz. simpl in Hz. by bools.
Qed.

Lemma hex_digit_value b z :
  is_lower_hex b = true -> hex_value b = Some z -> 0 <= z < 16 /\ hex_digit z = b.
Proof.
  intros Hl Hv.
  assert (Hall : forallb (fun b => negb (is_lower_hex b) || match hex_value b with
    | Some z => (0 <=? z) && (z <? 16) && bool_decide (hex_digit z = b) | None => true end)
    all_bytes = true) by (vm_compute; reflexivity).
  pose proof (byte_all _ Hall b) as Hb. simpl in Hb. rewrite Hl, Hv in Hb. simpl in Hb.
  bools. done.
Qed.

Lemma nibbles b : 0 <= byte_val b / 16 < 16 /\ 0 <= byte_val b mod 16 < 16.
Proof.
  pose proof (byte_val_range b). split; [|by apply Z.mod_pos_bound].
  split; [apply Z.div_pos; lia|apply Z.div_lt_upper_bound; lia].
Qed.

Lemma length_hex_encode l : length (hex_encode l) = (2 * length l)%nat.
Proof. induction l; simpl; lia. Qed.

Lemma hex_encode_lower l : Forall (fun b => is_lower_hex b = true) (hex_encode l).
Proof.
  induction l as [|b l IH]; [constructor|]. destruct (nibbles b). simpl.
  repeat constructor; try done; by apply hex_value_digit.
Qed.

Lemma hex_decode_encode l : hex_decode (hex_encode l) = Some l.
Proof.
  induction l as [|b l IH]; [done|]. destruct (nibbles b) as [Hh Hl]. cbn [hex_encode hex_decode].
  rewrite (proj1 (hex_value_digit _ Hh)), (proj1 (hex_value_digit _ Hl)), IH.
  do 2 f_equal. etransitivity; [|apply (byte_of_val b)]. f_equal.
  rewrite Z.mul_comm. symmetry. apply Z.div_mod. lia.
Qed.

Lemma hex_encode_decode l r :
  Forall (fun b => is_lower_hex b = true) l -> hex_decode l = Some r -> hex_encode r = l.
Proof.
  revert r. induction l as [l IH] using list_len_ind. intros r Hl H.
  destruct l as [|h [|k l]]; simpl in H; simplify_eq; [done|].
  destruct (hex_value h) as [x|] eqn:Ex; [|done]. destruct (hex_value k) as [y|] eqn:Ey; [|done].
  destruct (hex_decode l) as [r'|] eqn:Er; [|done]. simplify_eq.
  inversion Hl as [|? ? Hh [|? ? Hk Hl']]; subst.
  destruct (hex_digit_value _ _ Hh Ex) as [Hx <-]. destruct (hex_digit_value _ _ Hk Ey) as [Hy <-].
  simpl. rewrite byte_val_of, (Z.mod_small (x * 16 + y)) by lia.
  rewrite Z.div_add_l, Z.div_small, Z.add_0_r by lia.
  rewrite Z.add_comm, Z.mod_add, Z.mod_small by lia.
  rewrite (IH l) with (r := r'); [done|simpl; lia|done|done].
Qed.

Lemma length_hex_decode l r : hex_decode l = Some r -> length l = (2 * length r)%nat.
Proof.
  revert r. induction l as [l IH] using list_len_ind. intros r H.
  destruct l as [|h [|k l]]; simpl in H; simplify_eq; [done|].
  destruct (hex_value h); [|done]. destruct (hex_value k); [|done].
  destruct (hex_decode l) as [r'|] eqn:Er; [|done]. simplify_eq. simpl.
  rewrite (IH l) with (r := r'); [lia|simpl; lia|done].
Qed.

(** Lower-case digits in even number always decode. *)
Lemma hex_decode_total n l :
  length l = (2 * n)%nat -> Forall (fun b => is_lower_hex b = true) l -> is_Some (hex_decode l).
Proof.
  revert l. induction n as [|n IH]; intros [|h [|k l]] Hn Hl; simpl in *; try lia; [eauto|].
  inversion Hl as [|? ? Hh [|? ? Hk Hl']]; subst.
  assert (Hv : forall b, is_lower_hex b = true -> is_Some (hex_value b)).
  { intros b. unfold is_lower_hex, hex_value.
    destruct (is_digit b), (between "a" "f" b); simpl; eauto; done. }
  destruct (Hv _ Hh) as [x ->], (Hv _ Hk) as [y ->].
  destruct (IH l) as [r ->]; [lia|done|eauto].
Qed.

(** ** base64.RawURLEncoding *)

(** The URL alphabet, by value. *)
Definition b64_char (z : Z) : byte :=
  if z <? 26 then byte_of (65 + z)
  else if z <? 52 then byte_of (71 + z)
  else if z <? 62 then byte_of (z - 4)
  else if z =? 62 then "-"%byte else "_"%byte.

Definition b64_value (b : byte) : option Z :=
  if is_upper b then Some (byte_val b - 65)
  else if is_lower b then Some (byte_val b - 71)
  else if is_digit b then Some (byte_val b + 4)
  else if bool_decide (b = "-"%byte) then Some 62
  else if bool_decide (b = "_"%byte) then Some 63
  else None.

(** [RawURLEncoding.EncodeToString] *)
Fixpoint b64_encode (l : bytes) : bytes :=
  match l with
  | [] => []
  | [a] => [b64_char (byte_val a / 4); b64_char (byte_val a mod 4 * 16)]
  | [a; b] =>
      [b64_char (byte_val a / 4);
       b64_char (byte_val a mod 4 * 16 + byte_val b / 16);
       b64_char (byte_val b mod 16 * 4)]
  | a :: b :: c :: r =>
      b64_char (byte_val a / 4)
      :: b64_char (byte_val a mod 4 * 16 + byte_val b / 16)
      :: b64_char (byte_val b mod 16 * 4 + byte_val c / 64)
      :: b64_char (byte_val c mod 64)
      :: b64_encode r
  end.

(** Strict decoding of text without line breaks: trailing bits must be zero. *)
Fixpoint b64_decode_strict (l : bytes) : option bytes :=
  match l with
  | [] => Some []
  | [_] => None
  | [c0; c1] =>
      match b64_value c0, b64_value c1 with
      | Some v0, Some v1 => if v1 mod 16 =? 0 then Some [byte_of (v0 * 4 + v1 / 16)] else None
      | _, _ => None
      end
  | [c0; c1; c2] =>
      match b64_value c0, b64_value c1, b64_value c2 with
      | Some v0, Some v1, Some v2 =>
          if v2 mod 4 =? 0
          then Some [byte_of (v0 * 4 + v1 / 16); byte_of (v1 mod 16 * 16 + v2 / 4)] else None
      | _, _, _ => None
      end
  | c0 :: c1 :: c2 :: c3 :: r =>
      match b64_value c0, b64_value c1, b64_value c2, b64_value c3, b64_decode_strict r with
      | Some v0, Some v1, Some v2, Some v3, Some t =>
          Some (byte_of (v0 * 4 + v1 / 16) :: byte_of (v1 mod 16 * 16 + v2 / 4)
                :: byte_of (v2 mod 4 * 64 + v3) :: t)
      | _, _, _, _, _ => None
      end
  end.

(** [RawURLEncoding.Strict().Decode]: carriage returns and line feeds in the
    input are skipped. *)
Definition is_newline (b : byte) : bool := bool_decide (b = x0a) || bool_decide (b = x0d).
Definition b64_decode (l : bytes) : option bytes :=
  b64_decode_strict (List.filter (fun b => negb (is_newline b)) l).

Lemma b64_value_char z :
  0 <= z < 64 -> b64_value (b64_char z) = Some z /\ is_newline (b64_char z) = false.
Proof.
  intros H. pose proof (small_all (fun z => bool_decide (b64_value (b64_char z) = Some z)
    && negb (is_newline (b64_char z))) 64 eq_refl z H) as Hz. simpl in Hz. by bools.
Qed.

Lemma b64_char_value b z : b64_value b = Some z -> 0 <= z < 64 /\ b64_char z = b.
Proof.
  intros Hv.
  assert (Hall : forallb (fun b => match b64_value b with
    | Some z => (0 <=? z) && (z <? 64) && bool_decide (b64_char z = b) | None => true end)
    all_bytes = true) by (vm_compute; reflexivity).
  pose proof (byte_all _ Hall b) as Hb. simpl in Hb. rewrite Hv in Hb. by bools.
Qed.

(** Quotients and remainders of bounded values. *)
Ltac divmod := Z.to_euclidean_division_equations; lia.

Lemma b64_enc0 a : 0 <= a < 256 -> 0 <= a / 4 < 64.
Proof. intros. divmod. Qed.
Lemma b64_enc1 a b : 0 <= a < 256 -> 0 <= b < 256 -> 0 <= a mod 4 * 16 + b / 16 < 64.
Proof. intros. divmod. Qed.
Lemma b64_enc2 b c : 0 <= b < 256 -> 0 <= c < 256 -> 0 <= b mod 16 * 4 + c / 64 < 64.
Proof. intros. divmod. Qed.
Lemma b64_enc3 c : 0 <= c < 256 -> 0 <= c mod 64 < 64.
Proof. intros. divmod. Qed.

Lemma b64_dec0 a b : 0 <= a < 256 -> 0 <= b < 256 -> a / 4 * 4 + (a mod 4 * 16 + b / 16) / 16 = a.
Proof. intros. divmod. Qed.
Lemma b64_dec1 a b c : 0 <= a < 256 -> 0 <= b < 256 -> 0 <= c < 256 ->
  (a mod 4 * 16 + b / 16) mod 16 * 16 + (b mod 16 * 4 + c / 64) / 4 = b.
Proof. intros. divmod. Qed.
Lemma b64_dec2 b c : 0 <= b < 256 -> 0 <= c < 256 -> (b mod 16 * 4 + c / 64) mod 4 * 64 + c mod 64 = c.
Proof. intros. divmod. Qed.

Lemma b64_decode_strict_encode l : b64_decode_strict (b64_encode l) = Some l.
Proof.
  induction l as [l IH] using list_len_ind.
  destruct l as [|a [|b [|c r]]]; [done| | |].
  - pose proof (byte_val_range a) as Ha. cbn [b64_encode b64_decode_strict].
    rewrite (proj1 (b64_value_char _ (b64_enc0 _ Ha))).
    rewrite (proj1 (b64_value_char (byte_val a mod 4 * 16) ltac:(divmod))).
    replace ((byte_val a mod 4 * 16) mod 16) with 0 by divmod. cbn [Z.eqb]. do 2 f_equal.
    rewrite <- (byte_of_val a) at 3. f_equal. divmod.
  - pose proof (byte_val_range a) as Ha. pose proof (byte_val_range b) as Hb.
    cbn [b64_encode b64_decode_strict].
    rewrite (proj1 (b64_value_char _ (b64_enc0 _ Ha))), (proj1 (b64_value_char _ (b64_enc1 _ _ Ha Hb))).
    rewrite (proj1 (b64_value_char (byte_val b mod 16 * 4) ltac:(divmod))).
    replace ((byte_val b mod 16 * 4) mod 4) with 0 by divmod. cbn [Z.eqb].
    rewrite b64_dec0 by done.
    replace ((byte_val a mod 4 * 16 + byte_val b / 16) mod 16 * 16 + byte_val b mod 16 * 4 / 4)
      with (byte_val b) by divmod.
    by rewrite !byte_of_val.
  - pose proof (byte_val_range a) as Ha. pose proof (byte_val_range b) as Hb.
    pose proof (byte_val_range c) as Hc. cbn [b64_encode b64_decode_strict].
    rewrite (proj1 (b64_value_char _ (b64_enc0 _ Ha))), (proj1 (b64_value_char _ (b64_enc1 _ _ Ha Hb))),
      (proj1 (b64_value_char _ (b64_enc2 _ _ Hb Hc))), (proj1 (b64_value_char _ (b64_enc3 _ Hc))).
    rewrite IH by (simpl; lia).
    by rewrite b64_dec0, b64_dec1, b64_dec2, !byte_of_val by done.
Qed.

Lemma b64_encode_no_newline l : Forall (fun b => is_newline b = false) (b64_encode l).
Proof.
  induction l as [l IH] using list_len_ind.
  destruct l as [|a [|b [|c r]]]; cbn [b64_encode]; try pose proof (byte_val_range a) as Ha;
    try pose proof (byte_val_range b) as Hb; try pose proof (byte_val_range c) as Hc;
    repeat constructor; try (apply b64_value_char; divmod). apply IH. simpl. lia.
Qed.

Lemma filter_all {A} (f : A -> bool) l : Forall (fun x => f x = true) l -> List.filter f l = l.
Proof. induction 1 as [|x l Hx _ IH]; simpl; [done|]. by rewrite Hx, IH. Qed.

Lemma b64_decode_encode l : b64_decode (b64_encode l) = Some l.
Proof.
  unfold b64_decode. rewrite filter_all; [apply b64_decode_strict_encode|].
  eapply Forall_impl; [apply b64_encode_no_newline|]. intros b Hb. simpl. by rewrite Hb.
Qed.

(** Strict decoding is injective: the text is the one encoding of the result. *)
Lemma b64_encode_decode_strict l r : b64_decode_strict l = Some r -> b64_encode r = l.
Proof.
  revert r. induction l as [l IH] using list_len_ind. intros r H.
  destruct l as [|c0 [|c1 [|c2 [|c3 l]]]]; cbn [b64_decode_strict] in H; [by simplify_eq|done| | |].
  - destruct (b64_value c0) as [v0|] eqn:E0; [|done]. destruct (b64_value c1) as [v1|] eqn:E1; [|done].
    apply b64_char_value in E0 as [? <-], E1 as [? <-].
    destruct (Z.eqb_spec (v1 mod 16) 0); simplify_eq.
    cbn [b64_encode]. rewrite byte_val_of, Z.mod_small by divmod. repeat f_equal; divmod.
  - destruct (b64_value c0) as [v0|] eqn:E0; [|done]. destruct (b64_value c1) as [v1|] eqn:E1; [|done].
    destruct (b64_value c2) as [v2|] eqn:E2; [|done].
    apply b64_char_value in E0 as [? <-], E1 as [? <-], E2 as [? <-].
    destruct (Z.eqb_spec (v2 mod 4) 0); simplify_eq.
    cbn [b64_encode]. rewrite !byte_val_of, !Z.mod_small by divmod. repeat f_equal; divmod.
  - destruct (b64_value c0) as [v0|] eqn:E0; [|done]. destruct (b64_value c1) as [v1|] eqn:E1; [|done].
    destruct (b64_value c2) as [v2|] eqn:E2; [|done]. destruct (b64_value c3) as [v3|] eqn:E3; [|done].
    destruct (b64_decode_strict l) as [t|] eqn:Et; [|done]. simplify_eq.
    apply b64_char_value in E0 as [? <-], E1 as [? <-], E2 as [? <-], E3 as [? <-].
    cbn [b64_encode]. rewrite !byte_val_of, !(Z.mod_small _ 256) by divmod.
    rewrite (IH l) with (r := t); [|simpl; lia|done]. repeat f_equal; divmod.
Qed.

Lemma length_b64_decode_strict l r :
  b64_decode_strict l = Some r -> (4 * length r <= 3 * length l)%nat.
Proof.
  intros H%b64_encode_decode_strict. subst l. 
  induction r as [r IH] using list_len_ind.
  destruct r as [|a [|b [|c r]]]; simpl; try lia. specialize (IH r). simpl in IH. lia.
Qed.

Lemma length_b64_encode_32 r : length r = 32%nat -> length (b64_encode r) = 43%nat.
Proof. intros H. do 33 (destruct r; [done || discriminate|]; try (simpl in H; lia)). Qed.
