(* ===== verification/Verifier.v ===== *)
(** * pkg/publicfiles/verifier.go: the portal's bearer and its stored verifier *)

From Stdlib Require Import Strings.Byte ZArith Lia String.
From stdpp Require Import base list strings sets gmap.
From S2P Require Import Prelude GoStd GoEncoding.

Definition publicVerifierPrefix : bytes := bs "recasaos-public-verifier-v1:sha256:".
Definition publicBearerPrefix : bytes := bs "rc1_".
Definition publicBearerRandomBytes : Z := 32.
Definition publicBearerEncodedLen : Z := (publicBearerRandomBytes * 8 + 5) / 6.
Definition publicBearerLen : Z := Zlen publicBearerPrefix + publicBearerEncodedLen.
Definition publicBearerMinDistinct : Z := 16.
Definition publicVerifierFileMaxBytes : Z := Zlen publicVerifierPrefix + 32 * 2 + 1.

Inductive verifier_error := errInvalidPublicVerifier.

(** [(value < '0' || value > '9') && (value < 'a' || value > 'f')] *)
Definition notLowerHex (value : byte) : bool :=
  ((byte_val value <? byte_val "0") || (byte_val "9" <? byte_val value))
  && ((byte_val value <? byte_val "a") || (byte_val "f" <? byte_val value)).

Definition parsePublicVerifier (serialized : bytes) : result verifier_error bytes :=
  fail_if negb (Zlen serialized =? publicVerifierFileMaxBytes)
          || negb (bool_decide (take (length publicVerifierPrefix) serialized = publicVerifierPrefix))
          || negb (bool_decide (last serialized = Some x0a)) with errInvalidPublicVerifier in
  let encoded := slice (length publicVerifierPrefix) (length serialized - 1) serialized in
  fail_if existsb notLowerHex encoded with errInvalidPublicVerifier in
  match hex_decode encoded with
  | None => Err errInvalidPublicVerifier
  | Some verifier => Ok verifier
  end.

(** The [distinct] array and its counter. *)
Fixpoint countDistinct (seen : list byte) (count : Z) (decoded : bytes) : Z :=
  match decoded with
  | [] => count
  | value :: rest =>
      if bool_decide (value ∈ seen) then countDistinct seen count rest
      else countDistinct (value :: seen) (count + 1) rest
  end.

Definition validPublicBearer (candidate : bytes) : bool :=
  if negb (Zlen candidate =? publicBearerLen)
     || negb (bool_decide (take (length publicBearerPrefix) candidate = publicBearerPrefix))
  then false
  else
    match b64_decode (drop (length publicBearerPrefix) candidate) with
    | None => false
    | Some decoded =>
        if negb (Zlen decoded =? publicBearerRandomBytes) then false
        else publicBearerMinDistinct <=? countDistinct [] 0 decoded
    end.

(** ** Lemmas *)

Lemma notLowerHex_spec value : notLowerHex value = negb (is_lower_hex value).
Proof.
  unfold notLowerHex, is_lower_hex, is_digit, between.
  by rewrite negb_orb, !negb_andb, !Z.leb_antisym, !negb_involutive.
Qed.

Lemma all_lower_hex l :
  existsb notLowerHex l = false <-> Forall (fun b => is_lower_hex b = true) l.
Proof.
  induction l as [|b l IH]; simpl; [by split|].
  by rewrite orb_false_iff, IH, Forall_cons, notLowerHex_spec, negb_false_iff.
Qed.

(** The number of different bytes in a string. *)
Definition distinct_bytes (l : bytes) : Z := Z.of_nat (size (list_to_set l : gset byte)).

Lemma countDistinct_spec l seen :
  countDistinct seen (Z.of_nat (size (list_to_set seen : gset byte))) l =
  Z.of_nat (size (list_to_set (l ++ seen) : gset byte)).
Proof.
  revert seen. induction l as [|b l IH]; intros seen; simpl; [done|]. case_bool_decide as E.
  - rewrite IH. do 2 f_equal. set_solver.
  - replace (Z.of_nat (size (list_to_set seen : gset byte)) + 1)
      with (Z.of_nat (size (list_to_set (b :: seen) : gset byte))).
    + rewrite IH. do 2 f_equal. set_solver.
    + simpl. rewrite size_union, size_singleton by set_solver. lia.
Qed.

Lemma countDistinct_distinct l : countDistinct [] 0 l = distinct_bytes l.
Proof. pose proof (countDistinct_spec l []) as H. by rewrite app_nil_r in H. Qed.

Lemma last_split (l : bytes) b : last l = Some b -> l = take (length l - 1) l ++ [b].
Proof.
  intros [l' ->]%last_Some. rewrite length_app. simpl.
  replace (length l' + 1 - 1)%nat with (length l') by lia. by rewrite take_app_length.
Qed.

(** ** Properties *)

(** The verifier file has exactly one spelling per verifier: the version
    prefix, the 64 lower-case hexadecimal digits of 32 bytes, one line feed. *)
Theorem parsePublicVerifier_exact serialized verifier :
  parsePublicVerifier serialized = Ok verifier <->
  length verifier = 32%nat /\
  serialized = publicVerifierPrefix ++ hex_encode verifier ++ [x0a].
Proof.
  unfold parsePublicVerifier. change publicVerifierFileMaxBytes with 100.
  change (length publicVerifierPrefix) with 35%nat. split.
  - intros H. step_in H. step_in H. step_in H. simplify_eq. bools.
    assert (Hlen : length serialized = 100%nat) by (unfold Zlen in *; lia).
    apply all_lower_hex in Heqb0 as Hlow.
    rewrite Hlen in *. change (100 - 1)%nat with 99%nat in *.
    pose proof (length_hex_decode _ _ Heqo) as Hl. rewrite length_slice in Hl by lia.
    split; [lia|]. rewrite (hex_encode_decode _ _ Hlow Heqo).
    rewrite (last_split serialized x0a), Hlen at 1 by done.
    replace (100 - 1)%nat with 99%nat by lia.
    rewrite app_assoc. f_equal. rewrite <- H1. change (length publicVerifierPrefix) with 35%nat.
    unfold slice. rewrite <- (take_drop 35 (take 99 serialized)), take_take.
    f_equal. by rewrite skipn_firstn_comm.
  - intros [Hl ->]. set (s := publicVerifierPrefix ++ hex_encode verifier ++ [x0a]).
    assert (Hh : length (hex_encode verifier) = 64%nat) by (rewrite length_hex_encode; lia).
    assert (Hs : length s = 100%nat) by (unfold s; rewrite !length_app, Hh; done).
    assert (Hsl : slice 35 (length s - 1) s = hex_encode verifier).
    { rewrite Hs. unfold slice, s. rewrite drop_app_length' by done. by rewrite take_app_length' by lia. }
    rewrite Hsl. unfold Zlen. rewrite Hs.
    rewrite (bool_decide_eq_true_2 (take 35 s = _)) by (unfold s; by rewrite take_app_length').
    rewrite (bool_decide_eq_true_2 (last s = _)) by (unfold s; rewrite app_assoc; by rewrite last_snoc).
    cbn [negb orb Z.eqb Z.of_nat Pos.of_succ_nat].
    rewrite (proj2 (all_lower_hex _) (hex_encode_lower verifier)).
    by rewrite hex_decode_encode.
Qed.

(** C19. A bearer is well formed exactly when it is "rc1_" followed by the one
    unpadded base64url spelling of 32 bytes with at least 16 distinct values. *)
Theorem validPublicBearer_exact candidate :
  validPublicBearer candidate = true <->
  exists raw, length raw = 32%nat /\ 16 <= distinct_bytes raw /\
    candidate = publicBearerPrefix ++ b64_encode raw.
Proof.
  unfold validPublicBearer. change publicBearerLen with 47. change (length publicBearerPrefix) with 4%nat.
  change publicBearerRandomBytes with 32. change publicBearerMinDistinct with 16. split.
  - intros H. step_in H. step_in H. step_in H. bools. rewrite countDistinct_distinct in H.
    assert (Hl : length l = 32%nat) by (unfold Zlen in *; lia).
    exists l. split_and!; [done|done|].
    unfold b64_decode in Heqo.
    set (t := drop 4 candidate) in *.
    assert (Ht : length t = 43%nat) by (unfold t; rewrite length_drop; unfold Zlen in *; lia).
    pose proof (length_b64_decode_strict _ _ Heqo) as Hlen. rewrite Hl in Hlen.
    pose proof (filter_length (fun b => negb (is_newline b)) t) as Hsum.
    assert (Hall : List.filter (fun b => negb (is_newline b)) t = t).
    { clearbody t. clear -Hlen Ht Hsum.
      assert (length (List.filter (fun b => negb (is_newline b)) t) = length t) as He.
      { revert Hlen Hsum. rewrite Ht. generalize (length (List.filter (fun b => negb (is_newline b)) t)).
        intros n Hn Hs. lia. }
      clear Ht Hlen Hsum. induction t as [|b t IH]; [done|]. simpl in *.
      pose proof (List.filter_length_le (fun b => negb (is_newline b)) t) as Hle.
      destruct (negb (is_newline b)); simpl in He; [|lia]. f_equal. apply IH. lia. }
    rewrite Hall in Heqo. apply b64_encode_decode_strict in Heqo. rewrite Heqo.
    rewrite <- H1. symmetry. apply take_drop.
  - intros (raw & Hl & Hd & ->).
    rewrite Zlen_app. unfold Zlen at 2. rewrite length_b64_encode_32 by done.
    rewrite take_app_length', drop_app_length' by done.
    rewrite bool_decide_eq_true_2, b64_decode_encode by done. unfold Zlen. rewrite Hl.
    simpl. rewrite countDistinct_distinct. by apply Z.leb_le.
Qed.
