(* ===== verification/GoWeb.v ===== *)
(** * net/http, net/url and encoding/json, as far as the portal uses them *)

From Stdlib Require Import Strings.Byte ZArith Lia String.
From stdpp Require Import base list strings sets gmap.
From S2P Require Import Prelude GoStd GoEncoding.

(** ** Headers: canonical name to values *)

Abbreviation header := (gmap bytes (list bytes)).

(** [h.Values(k)] *)
Definition header_values (k : bytes) (h : header) : list bytes := default [] (h !! k).
(** [h.Get(k)] *)
Definition header_get (k : bytes) (h : header) : bytes := default [] (head (header_values k h)).
(** [h.Set(k, v)] *)
Definition header_set (k v : bytes) (h : header) : header := <[k := [v]]> h.

Record request := {
  Method : bytes;
  URLPath : bytes;
  RawQuery : bytes;
  Header : header
}.

Definition MethodGet : bytes := bs "GET".
Definition MethodHead : bytes := bs "HEAD".
Definition MethodPost : bytes := bs "POST".

(** ** url.ParseQuery *)

(** [strings.Cut(s, c)] for a one-byte separator: before, after, found. *)
Fixpoint cut (c : byte) (s : bytes) : bytes * bytes * bool :=
  match s with
  | [] => ([], [], false)
  | b :: s' => if bool_decide (b = c) then ([], s', true)
               else let '(x, y, f) := cut c s' in (b :: x, y, f)
  end.

(** [url.QueryUnescape] *)
Fixpoint query_unescape (s : bytes) : option bytes :=
  match s with
  | [] => Some []
  | b :: s' =>
      if bool_decide (b = "%"%byte) then
        match s' with
        | h :: l :: r =>
            match hex_value h, hex_value l, query_unescape r with
            | Some x, Some y, Some t => Some (byte_of (x * 16 + y) :: t)
            | _, _, _ => None
            end
        | _ => None
        end
      else match query_unescape s' with
           | Some t => Some ((if bool_decide (b = "+"%byte) then " "%byte else b) :: t)
           | None => None
           end
  end.

(** The key/value pairs in order; [None] when any of them is malformed. *)
Fixpoint parse_pairs (l : list bytes) : option (list (bytes * bytes)) :=
  match l with
  | [] => Some []
  | item :: rest =>
      match parse_pairs rest with
      | None => None
      | Some more =>
          if contains_byte ";" item then None
          else if bool_decide (item = []) then Some more
          else
            let '(k, v, _) := cut "=" item in
            match query_unescape k, query_unescape v with
            | Some k', Some v' => Some ((k', v') :: more)
            | _, _ => None
            end
      end
  end.

Definition parse_query (s : bytes) : option (list (bytes * bytes)) :=
  if bool_decide (s = []) then Some [] else parse_pairs (split_on "&" s).

(** [query[key]] and [query.Get(key)] *)
Definition query_values (k : bytes) (q : list (bytes * bytes)) : list bytes :=
  snd <$> filter (fun p => p.1 = k) q.
Definition query_get (k : bytes) (q : list (bytes * bytes)) : bytes := default [] (head (query_values k q)).

(** ** json.Marshal of strings (HTML-safe escaping) and integers *)

Definition json_escape_unicode (z : Z) : bytes :=
  bs "\u" ++ [hex_digit (z / 4096); hex_digit (z / 256 mod 16); hex_digit (z / 16 mod 16); hex_digit (z mod 16)].

Definition json_rune (s : bytes) (rn : Z * nat) : bytes :=
  let '(r, n) := rn in
  if negb (valid_rune rn) then bs "\ufffd"
  else if r =? 34 then [x5c; x22]
  else if r =? 92 then [x5c; x5c]
  else if r =? 8 then bs "\b" else if r =? 12 then bs "\f" else if r =? 10 then bs "\n"
  else if r =? 13 then bs "\r" else if r =? 9 then bs "\t"
  else if (r <? 32) || (r =? 60) || (r =? 62) || (r =? 38) || (r =? 8232) || (r =? 8233)
  then json_escape_unicode r
  else take n s.

Fixpoint json_runes (fuel : nat) (s : bytes) : bytes :=
  match fuel with
  | O => []
  | S f => match s with
           | [] => []
           | _ => let rn := decode_rune s in json_rune s rn ++ json_runes f (drop rn.2 s)
           end
  end.

Definition json_string (s : bytes) : bytes := [x22] ++ json_runes (length s) s ++ [x22].

(** A flat JSON object with the given fields. *)
Definition json_object (fields : list (bytes * bytes)) : bytes :=
  bs "{" ++ join_with "," ((fun f => json_string f.1 ++ bs ":" ++ f.2) <$> fields) ++ bs "}".

Definition json_array (l : list bytes) : bytes := bs "[" ++ join_with "," l ++ bs "]".

Example json_string_example : json_string (bs "a<b\c") = [x22] ++ bs "a\u003cb\\c" ++ [x22].
Proof. vm_compute. reflexivity. Qed.

Example parse_query_example :
  parse_query (bs "path=a%2Fb+c&x=") = Some [(bs "path", bs "a/b c"); (bs "x", [])].
Proof. vm_compute. reflexivity. Qed.

(** ** strconv.ParseInt(s, 10, 64) *)

Fixpoint parse_digits (acc : Z) (s : bytes) : option Z :=
  match s with
  | [] => Some acc
  | b :: s' => if is_digit b then parse_digits (acc * 10 + (byte_val b - 48)) s' else None
  end.

Definition parse_int (s : bytes) : option Z :=
  let '(neg, digits) := match s with
    | "-"%byte :: r => (true, r)
    | "+"%byte :: r => (false, r)
    | _ => (false, s)
    end in
  if bool_decide (digits = []) then None
  else match parse_digits 0 digits with
       | None => None
       | Some n =>
           if neg then (if n <=? 2 ^ 63 then Some (- n) else None)
           else (if n <? 2 ^ 63 then Some n else None)
       end.

(** ** mime.FormatMediaType(t, {attribute: value}) for a token [attribute] *)

Definition is_tspecial (b : byte) : bool := contains_byte b (bs "()<>@,;:\/[]?=" ++ [x22]).
Definition is_token_byte (b : byte) : bool :=
  (32 <? byte_val b) && (byte_val b <? 127) && negb (is_tspecial b).
Definition is_token (s : bytes) : bool := negb (bool_decide (s = [])) && forallb is_token_byte s.

Definition upper_hex (z : Z) : byte :=
  byte_of (if z <? 10 then 48 + z else 55 + z).

Definition attribute_char (b : byte) : bytes :=
  if (byte_val b <=? 32) || (127 <=? byte_val b) || contains_byte b (bs "*'%") || is_tspecial b
  then ["%"%byte; upper_hex (byte_val b / 16); upper_hex (byte_val b mod 16)]
  else [b].

Definition quoted_char (b : byte) : bytes :=
  if bool_decide (b = x22) || bool_decide (b = x5c) then [x5c; b] else [b].

Definition format_media_type (t attribute value : bytes) : bytes :=
  t ++ bs "; " ++ attribute ++
  (if existsb (fun b => ((byte_val b <? 32) || (126 <? byte_val b)) && negb (byte_val b =? 9)) value
   then bs "*=utf-8''" ++ flat_map attribute_char value
   else bs "=" ++ (if is_token value then value
                   else [x22] ++ flat_map quoted_char value ++ [x22])).

(** ** http.ServeContent for a zero modification time and no ETag

    The content is read through the opened file; [content_at start len] gives
    the bytes of that range the source delivered. *)

Definition trim_ows (s : bytes) : bytes :=
  let ws b := bool_decide (b ∈ [x20; x09; x0a; x0d]) in
  let fix left l := match l with b :: l' => if ws b then left l' else l | [] => [] end in
  rev (left (rev (left s))).

(** [scanETag]: a leading entity tag and what follows it. *)
Definition scan_etag (s : bytes) : option (bytes * bytes) :=
  let s := trim_ows s in
  let start := if has_prefix (bs "W/") s then 2%nat else 0%nat in
  let fix scan l := match l with
    | [] => None
    | b :: l' =>
        if bool_decide (b = x22) then Some ([b], l')
        else if (byte_val b =? 33) || ((35 <=? byte_val b) && (byte_val b <=? 126)) || (128 <=? byte_val b)
        then match scan l' with Some (t, r) => Some (b :: t, r) | None => None end
        else None
    end in
  if (Zlen (drop start s) <? 2) || negb (bool_decide (head (drop start s) = Some x22)) then None
  else match scan (drop (S start) s) with
       | Some (t, r) => Some (take (S start) s ++ t, r)
       | None => None
       end.

(** Whether the list of a conditional header reaches "*"; without an ETag on the
    response no entity tag of the list ever matches. *)
Fixpoint names_any (fuel : nat) (s : bytes) : bool :=
  match fuel with
  | O => false
  | S f =>
      match trim_ows s with
      | [] => false
      | b :: r =>
          if bool_decide (b = ","%byte) then names_any f r
          else if bool_decide (b = "*"%byte) then true
          else match scan_etag (b :: r) with Some (_, rest) => names_any f rest | None => false end
      end
  end.

Inductive range_request := NoRange | BadRange | NoOverlap | OneRange (start len : Z) | ManyRanges.

(** One element of the list after "bytes=". *)
Inductive range_item := ItemBad | ItemSkip | ItemNoOverlap | ItemRange (start len : Z).

Definition parse_range_item (size : Z) (item : bytes) : range_item :=
  let ra := trim_ows item in
  if bool_decide (ra = []) then ItemSkip
  else
    let '(start, stop, ok) := cut "-" ra in
    let start := trim_ows start in
    let stop := trim_ows stop in
    if negb ok then ItemBad
    else if bool_decide (start = []) then
      if bool_decide (stop = []) || bool_decide (head stop = Some "-"%byte) then ItemBad
      else match parse_int stop with
           | None => ItemBad
           | Some i =>
               if i <? 0 then ItemBad
               else let i := Z.min i size in ItemRange (size - i) i
           end
    else match parse_int start with
         | None => ItemBad
         | Some i =>
             if i <? 0 then ItemBad
             else if size <=? i then ItemNoOverlap
             else if bool_decide (stop = []) then ItemRange i (size - i)
             else match parse_int stop with
                  | None => ItemBad
                  | Some j =>
                      if j <? i then ItemBad
                      else ItemRange i (Z.min j (size - 1) - i + 1)
                  end
         end.

Fixpoint parse_range_items (size : Z) (items : list bytes) (acc : list (Z * Z)) (noOverlap : bool)
  : option (list (Z * Z) * bool) :=
  match items with
  | [] => Some (rev acc, noOverlap)
  | item :: rest =>
      match parse_range_item size item with
      | ItemBad => None
      | ItemSkip => parse_range_items size rest acc noOverlap
      | ItemNoOverlap => parse_range_items size rest acc true
      | ItemRange s l => parse_range_items size rest ((s, l) :: acc) noOverlap
      end
  end.

(** [parseRange] and the choice [serveContent] makes from its result. *)
Definition parse_range (s : bytes) (size : Z) : range_request :=
  if bool_decide (s = []) then NoRange
  else if negb (has_prefix (bs "bytes=") s) then BadRange
  else match parse_range_items size (split_on "," (drop 6 s)) [] false with
       | None => BadRange
       | Some ([], true) => if size =? 0 then NoRange else NoOverlap
       | Some ([], false) => NoRange
       | Some ([(st, l)], _) => if size <? l then NoRange else OneRange st l
       | Some _ => ManyRanges
       end.

(** [http.Error], with the headers [serveError] drops first. *)
Definition http_error_headers (h : header) : header :=
  header_set (bs "X-Content-Type-Options") (bs "nosniff")
    (header_set (bs "Content-Type") (bs "text/plain; charset=utf-8")
      (delete (bs "Content-Length") (delete (bs "Last-Modified")
        (delete (bs "Etag") (delete (bs "Content-Encoding") (delete (bs "Cache-Control") h)))))).

(** What is written: status, headers and the range of the content that is the
    body ([inr]) or a fixed text ([inl]). *)
Definition serve_content (r : request) (h : header) (size : Z) : Z * header * (bytes + Z * Z) :=
  let cond name := header_get (bs name) (Header r) in
  let any name := names_any (S (length (cond name))) (cond name) in
  let is_read := bool_decide (Method r = MethodGet) || bool_decide (Method r = MethodHead) in
  if negb (bool_decide (cond "If-Match" = [])) && negb (any "If-Match") then (412, h, inl [])
  else if negb (bool_decide (cond "If-None-Match" = [])) && any "If-None-Match" then
    if is_read
    then (304, delete (bs "Content-Length") (delete (bs "Content-Encoding") (delete (bs "Content-Type") h)), inl [])
    else (412, h, inl [])
  else
    let range := cond "Range" in
    let range := if is_read && negb (bool_decide (cond "If-Range" = [])) then [] else range in
    let send code start len h :=
      (code, header_set (bs "Content-Length") (itoa len) (header_set (bs "Accept-Ranges") (bs "bytes") h),
       inr (start, len)) in
    match parse_range range size with
    | BadRange => (416, http_error_headers h, inl (bs "invalid range" ++ [x0a]))
    | NoOverlap =>
        (416, http_error_headers (header_set (bs "Content-Range") (bs "bytes */" ++ itoa size) h),
         inl (bs "invalid range: failed to overlap" ++ [x0a]))
    | OneRange st l =>
        send 206 st l (header_set (bs "Content-Range")
          (bs "bytes " ++ itoa st ++ bs "-" ++ itoa (st + l - 1) ++ bs "/" ++ itoa size) h)
    | NoRange => send 200 0 size h
    | ManyRanges => (206, h, inl [])
    end.

(** ** Lemmas *)

Lemma cut_spec c s x y : cut c s = (x, y, true) <-> s = x ++ c :: y /\ c ∉ x.
Proof.
  revert x. induction s as [|b s IH]; intros x; cbn [cut].
  - split; [done|]. intros [H _]. by destruct x.
  - case_bool_decide as E.
    + subst. split.
      * intros [= <- <-]. split; [done|]. apply not_elem_of_nil.
      * intros [H Hx]. destruct x as [|d x]; simplify_eq/=; [done|]. set_solver.
    + destruct (cut c s) as [[x' y'] f] eqn:Ec. split.
      * intros [= <- <- ->]. destruct (proj1 (IH x') eq_refl) as [-> Hx']. split; [done|]. set_solver.
      * intros [H Hx]. destruct x as [|d x]; simplify_eq/=.
        assert (c ∉ x) as Hc by set_solver. pose proof (proj2 (IH x) (conj eq_refl Hc)) as Hi. congruence.
Qed.

Lemma header_get_set k v h : header_get k (header_set k v h) = v.
Proof. unfold header_get, header_values, header_set. by rewrite lookup_insert_eq. Qed.

Lemma parse_range_item_bounds size item st l :
  0 <= size -> parse_range_item size item = ItemRange st l -> 0 <= st /\ 0 <= l /\ st + l <= size.
Proof.
  intros Hs. unfold parse_range_item. case_bool_decide; [done|].
  destruct (cut "-" _) as [[a b] ok]. destruct ok; [|done]. cbn [negb].
  case_bool_decide.
  - intros Hi. step_in Hi. step_in Hi. step_in Hi. bools. simplify_eq. lia.
  - intros Hi. repeat step_in Hi; bools; simplify_eq; lia.
Qed.

Lemma drop_no_comma n (s : bytes) : (","%byte ∉ s) -> ","%byte ∉ drop n s.
Proof. intros H Hin. apply H. rewrite <- (take_drop n s). set_solver. Qed.

(** Without a comma there is at most one range, and it lies within the content. *)
Lemma parse_range_single s size :
  0 <= size -> (","%byte ∉ s) ->
  match parse_range s size with
  | ManyRanges => False
  | OneRange st l => 0 <= st /\ 0 <= l /\ st + l <= size
  | _ => True
  end.
Proof.
  intros Hs Hc. unfold parse_range. case_bool_decide; [done|]. destruct (negb _); [done|].
  rewrite split_on_word by (by apply drop_no_comma). cbn [parse_range_items rev app].
  destruct (parse_range_item size _) as [| | |st l] eqn:E; [done..|destruct (size =? 0); done|].
  apply parse_range_item_bounds in E; [|done]. destruct (size <? l); done.
Qed.
