(* ===== verification/Portal.v ===== *)
(** * pkg/publicfiles/portal.go: the read-only public file portal

    The handler is a function from the request and what the storage backend
    answers to a response, the storage calls it made and (for downloads) the use
    of a bounded slot. The storage backend is an interface: the portal's
    theorems hold for every implementation of it. *)

From Stdlib Require Import Strings.Byte ZArith Lia String.
From stdpp Require Import base list strings sets gmap relations.
From S2P Require Import Prelude GoStd GoPath GoEncoding GoWeb PublicPaths WorkerProtocol Verifier.

Definition BasePath : bytes := bs "/public-files".
Definition DefaultMaxDirectoryEntries : Z := 1000.
Definition DefaultMaxActiveDownloads : Z := 64.

(** ** Configuration *)

Record Config := {
  CfgRoot : bytes;
  CfgVerifierFile : bytes;
  CfgMaxEntries : Z;
  CfgMaxDownloads : Z
}.

Record validatedPortalConfig := {
  rootPath : bytes;
  verifierPath : bytes;
  maxEntries : Z;
  maxDownloads : Z
}.

Inductive config_error :=
| ErrConfigRoot (e : path_error)
| ErrConfigVerifier (e : path_error)
| ErrConfigEntries
| ErrConfigDownloads.

Definition validatePortalConfig (config : Config) : result config_error validatedPortalConfig :=
  match validateAbsoluteConfigPath (CfgRoot config) false with
  | Err e => Err (ErrConfigRoot e)
  | Ok rootPath =>
  match validateAbsoluteConfigPath (CfgVerifierFile config) true with
  | Err e => Err (ErrConfigVerifier e)
  | Ok verifierPath =>
  let maxEntries := if CfgMaxEntries config =? 0 then DefaultMaxDirectoryEntries
                    else CfgMaxEntries config in
  fail_if (maxEntries <? 1) || (DefaultMaxDirectoryEntries <? maxEntries) with ErrConfigEntries in
  let maxDownloads := if CfgMaxDownloads config =? 0 then DefaultMaxActiveDownloads
                      else CfgMaxDownloads config in
  fail_if (maxDownloads <? 1) || (DefaultMaxActiveDownloads <? maxDownloads) with ErrConfigDownloads in
  Ok {| rootPath := rootPath; verifierPath := verifierPath;
        maxEntries := maxEntries; maxDownloads := maxDownloads |}
  end end.

(** ** Storage interface *)

(** How an error of the backend is classified by [errors.Is] in the handlers. *)
Inductive storage_failure :=
| FailCapacity      (* errStorageCapacity *)
| FailTimeout       (* errStorageTimeout *)
| FailEntryLimit    (* errEntryLimit *)
| FailHidden        (* isHiddenFilesystemError *)
| FailOther.

(** An opened file of the isolated backend, whose files report a failure of their
    source ([storageSourceError]): its size, its content, and the offset at which
    the source stops delivering, if it does. *)
Record storageFile := { fileSize : Z; fileContent : bytes; failsAt : option Z }.

(** What reading [len] bytes from [start] delivers, and whether the source failed. *)
Definition read_range (file : storageFile) (start len : Z) : bytes * bool :=
  let stop := start + len in
  match failsAt file with
  | Some k => if k <? stop
              then (slice (Z.to_nat start) (Z.to_nat (Z.max start k)) (fileContent file), true)
              else (slice (Z.to_nat start) (Z.to_nat stop) (fileContent file), false)
  | None => (slice (Z.to_nat start) (Z.to_nat stop) (fileContent file), false)
  end.

(** [storageBackend]: what the portal may ask. *)
Class StorageBackend (S : Type) := {
  (** the entries are a slice, [None] when it is nil *)
  storage_list : S -> bytes -> Z -> result storage_failure (option (list Entry));
  storage_open : S -> bytes -> result storage_failure storageFile
}.

Inductive storage_call :=
| CallList (path : bytes) (max : Z)
| CallOpen (path : bytes).

(** ** Responses *)

Record response := { Status : Z; RespHeader : header; Body : bytes }.

(** What a handler does to the outside, in order: sends on and receives from
    [downloadSlots], calls of the storage, and the file handle it gets and closes. *)
Inductive effect :=
| TakeSlot
| Call (c : storage_call)
| FileOpened
| FileClosed
| ReleaseSlot.

(** What a handler did: its response, whether it then aborted the connection
    ([panic(http.ErrAbortHandler)]) and its effects, those of the deferred calls last. *)
Record outcome := { resp : response; aborted : bool; effects : list effect }.

Definition call_of (e : effect) : option storage_call :=
  match e with Call c => Some c | _ => None end.
Definition calls (o : outcome) : list storage_call := omap call_of (effects o).

Definition securityHeaders : list (bytes * bytes) :=
  [(bs "Cache-Control", bs "no-store");
   (bs "Content-Security-Policy", bs "default-src 'none'; script-src 'self'; worker-src 'self'; style-src 'self'; connect-src 'self'; base-uri 'none'; frame-ancestors 'none'; form-action 'self'");
   (bs "X-Frame-Options", bs "DENY");
   (bs "Cross-Origin-Opener-Policy", bs "same-origin");
   (bs "Cross-Origin-Resource-Policy", bs "same-origin");
   (bs "Permissions-Policy", bs "camera=(), microphone=(), geolocation=(), payment=(), usb=()");
   (bs "Referrer-Policy", bs "no-referrer");
   (bs "X-Content-Type-Options", bs "nosniff")].

Definition setSecurityHeaders (h : header) : header :=
  foldl (fun h kv => header_set kv.1 kv.2 h) h securityHeaders.

(** [securityResponseWriter]: the policy is reapplied when headers are committed. *)
Definition commit (status : Z) (h : header) (body : bytes) : response :=
  {| Status := status; RespHeader := setSecurityHeaders h; Body := body |}.

Definition respond (r : response) : outcome := {| resp := r; aborted := false; effects := [] |}.

Definition body_for (r : request) (payload : bytes) : bytes :=
  if bool_decide (Method r = MethodHead) then [] else payload.

Definition writePayload (r : request) (h : header) (status : Z) (payload : bytes) : response :=
  commit status
    (header_set (bs "Content-Length") (itoa (Zlen payload))
      (header_set (bs "Content-Type") (bs "application/json; charset=utf-8") h))
    (body_for r payload).

Definition writeError (r : request) (h : header) (status : Z) (message : bytes) : response :=
  writePayload r h status (json_object [(bs "error", json_string message)]).

(** [value] is [json.Marshal(value)]'s result. *)
Definition writeJSON (r : request) (h : header) (status : Z) (value : option bytes) : response :=
  match value with
  | None => writeError r h 500 (bs "unable to encode response")
  | Some payload => writePayload r h status payload
  end.

Definition methodNotAllowed (r : request) (h : header) : response :=
  writeError r (header_set (bs "Allow") (bs "GET, HEAD") h) 405 (bs "method not allowed").

Definition isGetOrHead (r : request) : bool :=
  bool_decide (Method r = MethodGet) || bool_decide (Method r = MethodHead).

Definition serveAsset (r : request) (h : header) (contentType content : bytes) : response :=
  if negb (isGetOrHead r) then methodNotAllowed r h
  else commit 200
         (header_set (bs "Content-Length") (itoa (Zlen content))
           (header_set (bs "Content-Type") contentType h))
         (if bool_decide (Method r = MethodGet) then content else []).

Definition isStaticEntryPath (requestPath : bytes) : bool :=
  bool_decide (requestPath = BasePath)
  || bool_decide (requestPath = BasePath ++ bs "/")
  || bool_decide (requestPath = BasePath ++ bs "/app.js")
  || bool_decide (requestPath = BasePath ++ bs "/download-worker.js")
  || bool_decide (requestPath = BasePath ++ bs "/style.css").

(** ** Queries *)

Definition credentialKeys : list bytes :=
  [bs "token"; bs "access_token"; bs "authorization"; bs "api_key"; bs "apikey"].

(** [url.ParseQuery] and then the loop over the keys of the map. *)
Definition parseSafeQuery (rawQuery : bytes) : option (list (bytes * bytes)) :=
  match parse_query rawQuery with
  | None => None
  | Some query =>
      if existsb (fun kv => bool_decide (to_lower_ascii kv.1 ∈ credentialKeys)
                            || negb (bool_decide (kv.1 = bs "path"))
                            || negb (Zlen (query_values kv.1 query) =? 1)) query
      then None
      else Some query
  end.

Definition isFileNavigation (r : request) : bool :=
  let destination := header_get (bs "Sec-Fetch-Dest") (Header r) in
  bool_decide (header_get (bs "Sec-Fetch-Mode") (Header r) = bs "navigate")
  && (bool_decide (destination = bs "document") || bool_decide (destination = bs "iframe")).

(** Directory first, then by name. *)
Definition entry_less (a b : Entry) : bool :=
  if negb (bool_decide (Type_ a = Type_ b)) then bool_decide (Type_ a = bs "directory")
  else bytes_ltb (Name a) (Name b).

Definition json_entry (e : Entry) : bytes :=
  json_object [(bs "name", json_string (Name e)); (bs "type", json_string (Type_ e));
               (bs "size", itoa (EntrySize e))].

(** A nil slice is marshalled as null. *)
Definition json_listing (path : bytes) (entries : option (list Entry)) : bytes :=
  json_object [(bs "path", json_string path);
               (bs "entries", match entries with
                              | None => bs "null"
                              | Some entries => json_array (json_entry <$> entries)
                              end)].

(** ** Handlers *)

Definition formatDownloadContentDisposition (filename : bytes) : bytes :=
  if negb (isSafeVisibleName filename) then bs "attachment"
  else
    let disposition := format_media_type (bs "attachment") (bs "filename") filename in
    if bool_decide (disposition = []) then bs "attachment" else disposition.

Definition bearerChallenge : bytes := bs "Bearer realm=" ++ [x22] ++ bs "ReCasaOS public files" ++ [x22].

Definition unauthorized (r : request) (h : header) : response :=
  writeError r (header_set (bs "WWW-Authenticate") bearerChallenge h) 401 (bs "authorization required").

Definition retryLater (r : request) (h : header) (message : bytes) : response :=
  writeError r (header_set (bs "Retry-After") (bs "5") h) 503 message.

(** [strings.SplitN(s, " ", 2)] as [Some] of the two parts when there are two. *)
Definition split_space (s : bytes) : option (bytes * bytes) :=
  let '(before, after, found) := cut " " s in
  if found then Some (before, after) else None.

(** The embedded front-end files. *)
Record assets := {
  portalHTML : bytes;
  portalJavaScript : bytes;
  downloadWorkerJavaScript : bytes;
  portalCSS : bytes
}.

Section portal.
(** [crypto/sha256.Sum256], the storage backend and the embedded files. *)
Context (sha256 : bytes -> bytes).
Context {Storage : Type} `{StorageBackend Storage}.
Context (files : assets).

Record Portal := {
  storage : Storage;
  bearerVerifier : bytes;
  portalMaxEntries : Z;
  slotCapacity : Z
}.

Definition newPortalWithStorage (config : validatedPortalConfig) (s : Storage) (verifier : bytes) : Portal :=
  {| storage := s; bearerVerifier := verifier;
     portalMaxEntries := maxEntries config; slotCapacity := maxDownloads config |}.

Definition candidateBearer (r : request) : bytes :=
  match header_values (bs "Authorization") (Header r) with
  | [value] =>
      match split_space value with
      | Some (scheme, rest) =>
          if bool_decide (to_lower_ascii scheme = bs "bearer") then rest else []
      | None => []
      end
  | _ => []
  end.

Definition authorized (p : Portal) (r : request) : bool :=
  let candidate := candidateBearer r in
  let digestMatches := bool_decide (sha256 candidate = bearerVerifier p) in
  let candidateIsValid := validPublicBearer candidate in
  digestMatches && candidateIsValid.

Definition list_failure (r : request) (h : header) (e : storage_failure) : response :=
  match e with
  | FailCapacity | FailTimeout => retryLater r h (bs "storage capacity unavailable")
  | FailEntryLimit => writeError r h 413 (bs "directory entry limit exceeded")
  | FailHidden => writeError r h 404 (bs "not found")
  | FailOther => writeError r h 500 (bs "unable to list directory")
  end.

Definition serveList (p : Portal) (r : request) (h : header) : outcome :=
  if negb (isGetOrHead r) then respond (methodNotAllowed r h)
  else if negb (authorized p r) then respond (unauthorized r h)
  else match parseSafeQuery (RawQuery r) with
  | None => respond (writeError r h 400 (bs "invalid query"))
  | Some query =>
  match validateRelativePath (query_get (bs "path") query) true with
  | Err _ => respond (writeError r h 400 (bs "invalid relative path"))
  | Ok relativePath =>
      {| resp := match storage_list (storage p) relativePath (portalMaxEntries p) with
                 | Err e => list_failure r h e
                 | Ok entries =>
                     writeJSON r h 200 (Some (json_listing relativePath (sort_slice entry_less <$> entries)))
                 end;
         aborted := false;
         effects := [Call (CallList relativePath (portalMaxEntries p))] |}
  end end.

(** *** Downloads

    [serveFile] either answers at once or takes a slot; the rest of the handler
    runs while it holds the slot. The deferred calls run in reverse order when it
    returns and when it panics: the file is closed, then the slot is released. *)

Inductive file_entry :=
| Answered (o : outcome)
| Serving (relativePath : bytes).

Definition serveFile_enter (p : Portal) (used : Z) (r : request) (h : header) : file_entry :=
  if bool_decide (Method r = MethodPost) && isFileNavigation r && negb (authorized p r)
  then Answered (respond (commit 204 h []))
  else if negb (isGetOrHead r) then Answered (respond (methodNotAllowed r h))
  else if negb (authorized p r) then
    if bool_decide (Method r = MethodGet) && isFileNavigation r
    then Answered (respond (commit 204 h []))
    else Answered (respond (unauthorized r h))
  else match parseSafeQuery (RawQuery r) with
  | None => Answered (respond (writeError r h 400 (bs "invalid query")))
  | Some query =>
  match validateRelativePath (query_get (bs "path") query) false with
  | Err _ => Answered (respond (writeError r h 400 (bs "invalid relative path")))
  | Ok relativePath =>
      if used <? slotCapacity p then Serving relativePath
      else Answered (respond (retryLater r h (bs "download capacity reached")))
  end end.

Definition open_failure (r : request) (h : header) (e : storage_failure) : response :=
  match e with
  | FailCapacity | FailTimeout => retryLater r h (bs "storage capacity unavailable")
  | FailHidden => writeError r h 404 (bs "not found")
  | FailEntryLimit | FailOther => writeError r h 500 (bs "unable to open file")
  end.

Definition severalRanges (r : request) : bool :=
  match header_values (bs "Range") (Header r) with
  | [] => false
  | [value] => contains_byte "," value
  | _ => true
  end.

(** The body of a response with the given framing: nothing for HEAD. *)
Definition sent (r : request) (file : storageFile) (b : bytes + Z * Z) : bytes * bool :=
  match b with
  | inl text => (body_for r text, false)
  | inr (start, len) => if bool_decide (Method r = MethodHead) then ([], false) else read_range file start len
  end.

Definition serveFile_run (p : Portal) (r : request) (h : header) (relativePath : bytes) : outcome :=
  match storage_open (storage p) relativePath with
  | Err e => {| resp := open_failure r h e; aborted := false; effects := [Call (CallOpen relativePath)] |}
  | Ok file =>
      if severalRanges r then
        {| resp := writeError r (header_set (bs "Content-Range") (bs "bytes */" ++ itoa (fileSize file)) h)
                     416 (bs "multiple ranges are not supported");
           aborted := false; effects := [Call (CallOpen relativePath); FileOpened; FileClosed] |}
      else
        let filename := path_base relativePath in
        let h := header_set (bs "Content-Disposition") (formatDownloadContentDisposition filename) h in
        let h := header_set (bs "Content-Type") (bs "application/octet-stream") h in
        let h := header_set (bs "Accept-Ranges") (bs "bytes") h in
        let '(code, h, framing) := serve_content r h (fileSize file) in
        let '(body, failed) := sent r file framing in
        {| resp := commit code h body; aborted := failed;
           effects := [Call (CallOpen relativePath); FileOpened; FileClosed] |}
  end.

Definition serveFile (p : Portal) (used : Z) (r : request) (h : header) : outcome :=
  match serveFile_enter p used r h with
  | Answered o => o
  | Serving relativePath =>
      let o := serveFile_run p r h relativePath in
      {| resp := resp o; aborted := aborted o; effects := TakeSlot :: effects o ++ [ReleaseSlot] |}
  end.

(** [http.Redirect(w, r, BasePath+"/", 308)] *)
Definition redirectToBase (r : request) (h : header) : response :=
  commit 308
    (header_set (bs "Content-Type") (bs "text/html; charset=utf-8")
      (header_set (bs "Location") (BasePath ++ bs "/") h))
    (if bool_decide (Method r = MethodGet)
     then bs "<a href=" ++ [x22] ++ BasePath ++ bs "/" ++ [x22] ++ bs ">Permanent Redirect</a>." ++ [x0a; x0a]
     else []).

Inductive route := RouteList | RouteFile | RouteStatic (o : outcome).

(** [ServeHTTP] up to the handlers that reach the storage. *)
Definition route_of (p : Portal) (r : request) (h : header) : route :=
  let at_ suffix := bool_decide (URLPath r = BasePath ++ bs suffix) in
  if negb (bool_decide (RawQuery r = [])) && isStaticEntryPath (URLPath r)
  then RouteStatic (respond (writeError r h 400 (bs "invalid query")))
  else if bool_decide (URLPath r = BasePath) then
    RouteStatic (respond (if negb (isGetOrHead r) then methodNotAllowed r h else redirectToBase r h))
  else if at_ "/" then RouteStatic (respond (serveAsset r h (bs "text/html; charset=utf-8") (portalHTML files)))
  else if at_ "/app.js" then
    RouteStatic (respond (serveAsset r h (bs "text/javascript; charset=utf-8") (portalJavaScript files)))
  else if at_ "/download-worker.js" then
    RouteStatic (respond (serveAsset r (header_set (bs "Service-Worker-Allowed") (BasePath ++ bs "/") h)
      (bs "text/javascript; charset=utf-8") (downloadWorkerJavaScript files)))
  else if at_ "/style.css" then
    RouteStatic (respond (serveAsset r h (bs "text/css; charset=utf-8") (portalCSS files)))
  else if at_ "/api/list" then RouteList
  else if at_ "/api/file" then RouteFile
  else RouteStatic (respond (writeError r h 404 (bs "not found"))).

Definition ServeHTTP (p : Portal) (used : Z) (r : request) : outcome :=
  let h := setSecurityHeaders ∅ in
  match route_of p r h with
  | RouteStatic o => o
  | RouteList => serveList p r h
  | RouteFile => serveFile p used r h
  end.

(** *** Concurrent requests

    The shared state is the number of tokens in the slot channel and the number of
    open files; a handler in progress is what it has still to do. Its effects
    happen one at a time, interleaved with those of the others; the first one
    happens together with the decision to take it (the [select] statement). *)

Record server_state := { used : Z; handles : Z; threads : list (list effect) }.

Definition perform (e : effect) (st : server_state) : server_state :=
  match e with
  | TakeSlot => {| used := used st + 1; handles := handles st; threads := threads st |}
  | ReleaseSlot => {| used := used st - 1; handles := handles st; threads := threads st |}
  | FileOpened => {| used := used st; handles := handles st + 1; threads := threads st |}
  | FileClosed => {| used := used st; handles := handles st - 1; threads := threads st |}
  | Call _ => st
  end.

Definition with_threads (ts : list (list effect)) (st : server_state) : server_state :=
  {| used := used st; handles := handles st; threads := ts |}.

Inductive portal_step (p : Portal) : server_state -> server_state -> Prop :=
| step_arrive st r e rest :
    effects (ServeHTTP p (used st) r) = e :: rest ->
    portal_step p st (perform e (with_threads (rest :: threads st) st))
| step_run st before e rest after :
    threads st = before ++ (e :: rest) :: after ->
    portal_step p st (perform e (with_threads (before ++ rest :: after) st))
| step_done st before after :
    threads st = before ++ [] :: after ->
    portal_step p st (with_threads (before ++ after) st).

Definition portal_start : server_state := {| used := 0; handles := 0; threads := [] |}.
End portal.
Arguments Portal Storage : clear implicits.

(** ** Lemmas *)

Definition secured (r : response) : Prop :=
  Forall (fun kv => RespHeader r !! kv.1 = Some [kv.2]) securityHeaders.

(** Whatever the headers were, committing them restores the policy. *)
Lemma commit_secured status h body : secured (commit status h body).
Proof.
  unfold secured, commit, setSecurityHeaders, securityHeaders, header_set.
  cbn [RespHeader foldl fst snd].
  repeat constructor; cbn [fst snd];
    repeat first [rewrite lookup_insert_eq; reflexivity | rewrite lookup_insert_ne by (vm_compute; discriminate)].
Qed.

(** Headers outside the policy are committed as the handler left them. *)
Lemma commit_header status h body k :
  k ∉ securityHeaders.*1 -> header_get k (RespHeader (commit status h body)) = header_get k h.
Proof.
  unfold commit, setSecurityHeaders. cbn [RespHeader]. generalize securityHeaders. intros l. revert h.
  induction l as [|[k' v] l IH]; intros h Hk; [done|]. cbn [foldl]. rewrite IH by set_solver.
  unfold header_get, header_values, header_set. cbn [fst snd]. rewrite lookup_insert_ne; [done|]. set_solver.
Qed.

Create HintDb portal.
#[export] Hint Resolve commit_secured : portal.

Lemma writePayload_secured r h st v : secured (writePayload r h st v).
Proof. apply commit_secured. Qed.
#[export] Hint Resolve writePayload_secured : portal.

Lemma writeJSON_secured r h st v : secured (writeJSON r h st v).
Proof. destruct v; apply commit_secured. Qed.

Lemma serveAsset_secured r h ct c : secured (serveAsset r h ct c).
Proof. unfold serveAsset. destruct (negb _); apply commit_secured. Qed.
#[export] Hint Resolve writeJSON_secured serveAsset_secured : portal.

Lemma parseSafeQuery_paths raw q :
  parseSafeQuery raw = Some q -> parse_query raw = Some q /\ (q = [] \/ exists v, q = [(bs "path", v)]).
Proof.
  unfold parseSafeQuery. destruct (parse_query raw) as [query|]; [|done].
  destruct (existsb _ query) eqn:E; [done|]. intros [= <-]. split; [done|].
  apply existsb_forall in E. destruct query as [|[k v] rest]; [by left|]. right.
  assert (Hk : Forall (fun kv => kv.1 = bs "path") ((k, v) :: rest)).
  { eapply Forall_impl; [exact E|]. intros [k' v'] Hb. cbn [fst] in Hb. by bools. }
  inversion Hk as [|? ? Hk1 Hk2]; subst. simpl in Hk1. subst k. inversion E as [|? ? E1 _]; subst.
  cbn [fst] in E1. bools. destruct rest as [|[k' v'] rest]; [by eexists|].
  apply Forall_inv in Hk2. simpl in Hk2. subst k'.
  unfold query_values in H0. rewrite !filter_cons_True in H0 by done. cbn [fmap list_fmap] in H0.
  unfold Zlen in H0. simpl in H0. lia.
Qed.

Section portal_facts.
Context (sha256 : bytes -> bytes).
Context {Storage : Type} `{StorageBackend Storage}.
Context (files : assets).

(** What a storage call must have gone through. *)
Definition call_allowed (p : Portal Storage) (used : Z) (r : request) (c : storage_call) : Prop :=
  authorized sha256 p r = true /\ isGetOrHead r = true /\
  exists query, parse_query (RawQuery r) = Some query /\
    (query = [] \/ exists v, query = [(bs "path", v)]) /\
    match c with
    | CallList path max =>
        URLPath r = BasePath ++ bs "/api/list" /\ max = portalMaxEntries p /\
        validateRelativePath (query_get (bs "path") query) true = Ok path
    | CallOpen path =>
        URLPath r = BasePath ++ bs "/api/file" /\ used < slotCapacity p /\
        validateRelativePath (query_get (bs "path") query) false = Ok path
    end.

Lemma serveFile_enter_serving (p : Portal Storage) used r h path :
  serveFile_enter sha256 p used r h = Serving path ->
  authorized sha256 p r = true /\ isGetOrHead r = true /\ used < slotCapacity p /\
  exists query, parseSafeQuery (RawQuery r) = Some query /\
    validateRelativePath (query_get (bs "path") query) false = Ok path.
Proof.
  unfold serveFile_enter. intros Hs. step_in Hs. step_in Hs. step_in Hs; [step_in Hs|].
  repeat step_in Hs. simplify_eq. bools. eauto 6.
Qed.

Lemma serveFile_enter_answered (p : Portal Storage) used r h o :
  serveFile_enter sha256 p used r h = Answered o -> effects o = [] /\ secured (resp o).
Proof.
  unfold serveFile_enter. intros Hs. repeat step_in Hs; simplify_eq; split; cbn [resp respond]; auto with portal; apply commit_secured.
Qed.

(** The effects of the part of [serveFile] that holds a slot, whichever way it ends. *)
Lemma serveFile_run_effects (p : Portal Storage) r h path :
  effects (serveFile_run p r h path) = [Call (CallOpen path)] \/
  effects (serveFile_run p r h path) = [Call (CallOpen path); FileOpened; FileClosed].
Proof.
  unfold serveFile_run. destruct (storage_open _ _); [|by left]. right. destruct (severalRanges r); [done|].
  destruct (serve_content _ _ _) as [[? ?] ?], (sent _ _ _); done.
Qed.

Lemma serveFile_run_calls (p : Portal Storage) r h path :
  omap call_of (effects (serveFile_run p r h path) ++ [ReleaseSlot]) = [CallOpen path].
Proof. by destruct (serveFile_run_effects p r h path) as [-> | ->]. Qed.

Lemma serveFile_run_secured (p : Portal Storage) r h path : secured (resp (serveFile_run p r h path)).
Proof.
  unfold serveFile_run. destruct (storage_open _ _) as [|e]; [|destruct e; apply commit_secured].
  destruct (severalRanges r); [apply commit_secured|].
  destruct (serve_content _ _ _) as [[? ?] ?], (sent _ _ _); apply commit_secured.
Qed.

Lemma route_static (p : Portal Storage) r h o :
  route_of files p r h = RouteStatic o -> effects o = [] /\ secured (resp o).
Proof.
  unfold route_of. intros Hr. repeat step_in Hr; simplify_eq; split; cbn [resp respond]; auto with portal; apply commit_secured.
Qed.

Lemma route_list (p : Portal Storage) r h : route_of files p r h = RouteList -> URLPath r = BasePath ++ bs "/api/list".
Proof. unfold route_of. intros Hr. repeat step_in Hr. by bools. Qed.

Lemma route_file (p : Portal Storage) r h : route_of files p r h = RouteFile -> URLPath r = BasePath ++ bs "/api/file".
Proof. unfold route_of. intros Hr. repeat step_in Hr. by bools. Qed.

(** *** Slots and files of the requests in progress *)

(** What is left of a handler: nothing or a storage call; or it holds a slot,
    without a file, about to get one, or with one. *)
Inductive remaining : Z -> Z -> list effect -> Prop :=
| rem_done : remaining 0 0 []
| rem_call c : remaining 0 0 [Call c]
| rem_slot : remaining 1 0 [ReleaseSlot]
| rem_asked c es : remaining 1 0 es -> remaining 1 0 (Call c :: es)
| rem_got : remaining 1 0 [FileOpened; FileClosed; ReleaseSlot]
| rem_file : remaining 1 1 [FileClosed; ReleaseSlot].

(** The tokens and files of the threads add up to those of the state. *)
Inductive balanced : Z -> Z -> list (list effect) -> Prop :=
| bal_nil : balanced 0 0 []
| bal_cons u f n m es ts : remaining u f es -> balanced n m ts -> balanced (u + n) (f + m) (es :: ts).

Lemma balanced_middle u f before es after :
  balanced u f (before ++ es :: after) <->
  exists u1 f1 u2 f2, remaining u1 f1 es /\ balanced u2 f2 (before ++ after) /\ u = u1 + u2 /\ f = f1 + f2.
Proof.
  revert u f. induction before as [|b before IH]; intros u f; cbn [app].
  - split; [inversion 1; subst; eauto 9|]. intros (u1 & f1 & u2 & f2 & ? & ? & -> & ->). by constructor.
  - split.
    + inversion 1 as [|u0 f0 n m ? ? Hb Ht]; subst. apply IH in Ht as (u1 & f1 & u2 & f2 & ? & ? & -> & ->).
      exists u1, f1, (u0 + u2), (f0 + f2). split_and!; [done|by constructor|lia|lia].
    + intros (u1 & f1 & u2 & f2 & Hr & Hb & -> & ->). inversion Hb as [|u0 f0 n m ? ? Hb0 Ht]; subst.
      replace (u1 + (u0 + n)) with (u0 + (u1 + n)) by lia. replace (f1 + (f0 + m)) with (f0 + (f1 + m)) by lia.
      constructor; [done|]. apply IH. eauto 9.
Qed.

Lemma balanced_bounds u f ts : balanced u f ts -> 0 <= f <= u /\ u <= Zlen ts.
Proof.
  unfold Zlen. induction 1 as [|u f n m es ts Hr Hb IH]; [done|]. cbn [length].
  assert (0 <= f <= u /\ u <= 1) by (destruct Hr; lia). lia.
Qed.

Lemma ServeHTTP_effects (p : Portal Storage) n r :
  effects (ServeHTTP sha256 files p n r) = [] \/
  (exists c, effects (ServeHTTP sha256 files p n r) = [Call c]) \/
  n < slotCapacity p /\ exists es, effects (ServeHTTP sha256 files p n r) = TakeSlot :: es /\ remaining 1 0 es.
Proof.
  unfold ServeHTTP. destruct (route_of _ _ _ _) as [| |o] eqn:Er.
  - unfold serveList. repeat case_match; cbn; eauto.
  - unfold serveFile. destruct (serveFile_enter _ _ _ _ _) as [o|path] eqn:Ee.
    + apply serveFile_enter_answered in Ee as [-> _]. by left.
    + apply serveFile_enter_serving in Ee as (_ & _ & Hlt & _). right; right. split; [done|].
      eexists. split; [reflexivity|]. destruct (serveFile_run_effects p r (setSecurityHeaders ∅) path) as [-> | ->];
        cbn [app]; apply rem_asked; constructor.
  - apply route_static in Er as [-> _]. by left.
Qed.

Definition slots_ok (p : Portal Storage) (st : server_state) : Prop :=
  balanced (used st) (handles st) (threads st) /\ used st <= slotCapacity p.

(** One effect of one thread. *)
Lemma perform_balanced u f e rest before after (st : server_state) :
  remaining u f (e :: rest) -> threads st = before ++ rest :: after ->
  balanced (used st - u) (handles st - f) (before ++ after) ->
  balanced (used (perform e st)) (handles (perform e st)) (threads (perform e st)) /\ used (perform e st) <= used st.
Proof.
  intros Hr Ht Hb.
  assert (Hgoal : forall u' f', remaining u' f' rest -> used (perform e st) = used st - u + u' ->
    handles (perform e st) = handles st - f + f' ->
    balanced (used (perform e st)) (handles (perform e st)) (threads (perform e st))).
  { intros u' f' Hr' -> ->. replace (threads (perform e st)) with (threads st) by (by destruct e). rewrite Ht.
    apply balanced_middle. exists u', f', (used st - u), (handles st - f). split_and!; [done|done|lia|lia]. }
  inversion Hr; subst; (split; [|cbn; lia]).
  - apply (Hgoal 0 0); [constructor|cbn; lia..].
  - apply (Hgoal 0 0); [constructor|cbn; lia..].
  - apply (Hgoal 1 0); [done|cbn; lia..].
  - apply (Hgoal 1 1); [constructor|cbn; lia..].
  - apply (Hgoal 1 0); [constructor|cbn; lia..].
Qed.

Lemma portal_step_slots (p : Portal Storage) st st' :
  portal_step sha256 files p st st' -> slots_ok p st -> slots_ok p st'.
Proof.
  intros Hs [Hb Hc]. destruct Hs as [st r e rest He|st before e rest after Ht|st before after Ht].
  - destruct (ServeHTTP_effects p (used st) r) as [E|[[c E]|(Hlt & es & E & Hr)]]; rewrite E in He; simplify_eq.
    + split; [|done]. apply (bal_cons 0 0 _ _ [] _ rem_done Hb).
    + split; [|cbn; lia]. cbn. rewrite Z.add_comm. by apply (bal_cons 1 0).
  - rewrite Ht in Hb. apply balanced_middle in Hb as (u & f & u2 & f2 & Hr & Hb & Hu & Hf).
    destruct (perform_balanced u f e rest before after (with_threads (before ++ rest :: after) st) Hr eq_refl) as [Hb' Hle].
    { cbn. by replace (used st - u) with u2 by lia; replace (handles st - f) with f2 by lia. }
    split; [done|]. cbn in Hle. lia.
  - rewrite Ht in Hb. apply balanced_middle in Hb as (u & f & u2 & f2 & Hr & Hb & Hu & Hf).
    inversion Hr; subst. split; [|done]. cbn. by rewrite Hu, Hf.
Qed.

(** *** What a download sends *)

Lemma severalRanges_single r :
  severalRanges r = false -> ","%byte ∉ header_get (bs "Range") (Header r).
Proof.
  unfold severalRanges, header_get, contains_byte. destruct (header_values _ _) as [|v [|]]; cbn; [|intros Hc; by bools|done].
  intros _. apply not_elem_of_nil.
Qed.

(** The three framings [serve_content] can choose once lists are refused. *)
Lemma serve_content_framing r h size code h' framing :
  0 <= size -> severalRanges r = false -> serve_content r h size = (code, h', framing) ->
  match framing with
  | inl _ => code = 304 \/ code = 412 \/ code = 416
  | inr (start, len) =>
      code = 200 /\ start = 0 /\ len = size \/
      code = 206 /\ 0 <= start /\ 0 <= len /\ start + len <= size /\
        header_get (bs "Content-Range") h' =
          bs "bytes " ++ itoa start ++ bs "-" ++ itoa (start + len - 1) ++ bs "/" ++ itoa size /\
        (isGetOrHead r = true -> header_get (bs "If-Range") (Header r) = [])
  end.
Proof.
  intros Hsz Hsr. unfold serve_content. apply severalRanges_single in Hsr.
  set (c := _ && negb (bool_decide (header_get (bs "If-Range") (Header r) = []))).
  assert (Hcomma : ","%byte ∉ (if c then [] else header_get (bs "Range") (Header r))).
  { destruct c; [apply not_elem_of_nil|done]. }
  pose proof (parse_range_single _ size Hsz Hcomma) as Hpr. intros Hs.
  step_in Hs; [simplify_eq; auto|]. step_in Hs; [step_in Hs; simplify_eq; auto|].
  destruct (parse_range _ size) eqn:Ep; simplify_eq; [by auto| by auto | by auto | | done]. right.
  assert (Hc : c = false).
  { destruct c; [|done]. by vm_compute in Ep. }
  split; [done|]. destruct Hpr as (? & ? & ?). split_and!; [done..| |].
  - unfold header_get, header_values, header_set.
    do 2 (rewrite lookup_insert_ne by (vm_compute; discriminate)). by rewrite lookup_insert_eq.
  - intros Hg. subst c. fold (isGetOrHead r) in Hc. rewrite Hg in Hc. cbn [andb] in Hc. by bools.
Qed.

Lemma read_range_full file start len body :
  read_range file start len = (body, false) -> body = slice (Z.to_nat start) (Z.to_nat (start + len)) (fileContent file).
Proof. unfold read_range. destruct (failsAt file); [case_match|]; by intros [= <-]. Qed.
End portal_facts.

(** ** Properties *)

(** C20. A request is authorized exactly when it has one Authorization value,
    "Bearer" (any case), one space and a well-formed bearer whose digest is the
    configured verifier. *)
Theorem authorized_exact {Storage} `{StorageBackend Storage} sha256 (p : Portal Storage) r :
  authorized sha256 p r = true <->
  exists scheme bearer,
    header_values (bs "Authorization") (Header r) = [scheme ++ bs " " ++ bearer] /\
    (" "%byte ∉ scheme) /\ to_lower_ascii scheme = bs "bearer" /\
    validPublicBearer bearer = true /\ sha256 bearer = bearerVerifier p.
Proof.
  unfold authorized. rewrite andb_true_iff, bool_decide_eq_true. split.
  - intros [Hd Hv]. revert Hd Hv. unfold candidateBearer, split_space.
    destruct (header_values _ _) as [|v [|]]; [done| |done].
    destruct (cut " " v) as [[scheme bearer] found] eqn:Ec. destruct found; [|done].
    apply cut_spec in Ec as [-> Hsp]. case_bool_decide; [|done]. intros. by exists scheme, bearer.
  - intros (scheme & bearer & Hh & Hs & Hl & Hv & Hd). unfold candidateBearer, split_space.
    rewrite Hh, (proj2 (cut_spec " " _ scheme bearer)) by done. by rewrite bool_decide_eq_true_2.
Qed.

(** C21. The portal asks the storage only on behalf of an authorized GET or HEAD
    request for an API path, whose query is at most one "path" parameter that
    the path check accepts; a file is opened only while a download slot was
    free. *)
Theorem ServeHTTP_storage_guarded {Storage} `{StorageBackend Storage} sha256 files (p : Portal Storage) used r :
  Forall (call_allowed sha256 p used r) (calls (ServeHTTP sha256 files p used r)).
Proof.
  unfold ServeHTTP. destruct (route_of _ _ _ _) as [| |o] eqn:Er.
  - apply route_list in Er. unfold serveList. destruct (isGetOrHead r) eqn:Eg; [|constructor].
    destruct (authorized sha256 p r) eqn:Ea; [|constructor]. cbn [negb].
    destruct (parseSafeQuery _) as [q|] eqn:Eq; [|constructor].
    apply parseSafeQuery_paths in Eq as [Hp Hq].
    destruct (validateRelativePath _ _) as [path|] eqn:Ev; repeat constructor; try done.
    exists q. split_and!; done.
  - apply route_file in Er. unfold serveFile. destruct (serveFile_enter _ _ _ _ _) as [o|path] eqn:Ee.
    + unfold calls. by apply serveFile_enter_answered in Ee as [-> _].
    + unfold calls. cbn [effects]. change (omap call_of (TakeSlot :: ?es)) with (omap call_of es).
      rewrite serveFile_run_calls. apply serveFile_enter_serving in Ee as (Ha & Hg & Hu & q & Hq & Hv).
      apply parseSafeQuery_paths in Hq as [Hp Hq]. repeat constructor; try done.
      exists q. split_and!; done.
  - unfold calls. by apply route_static in Er as [-> _].
Qed.

(** C22. Every response of the portal, errors included, carries each header of
    the security policy with exactly the policy's value. *)
Theorem ServeHTTP_secured {Storage} `{StorageBackend Storage} sha256 files (p : Portal Storage) used r :
  secured (resp (ServeHTTP sha256 files p used r)).
Proof.
  unfold ServeHTTP. destruct (route_of _ _ _ _) as [| |o] eqn:Er.
  - unfold serveList. destruct (negb _); [apply commit_secured|]. destruct (negb _); [apply commit_secured|].
    destruct (parseSafeQuery _); [|apply commit_secured].
    destruct (validateRelativePath _ _); [|apply commit_secured].
    cbn [resp]. destruct (storage_list _ _ _) as [|e]; [|destruct e]; auto with portal; apply commit_secured.
  - unfold serveFile. destruct (serveFile_enter _ _ _ _ _) eqn:Ee; [|apply serveFile_run_secured].
    by apply serveFile_enter_answered in Ee as [_ ?].
  - by apply route_static in Er as [_ ?].
Qed.

(** C23. However requests interleave, effect by effect: the slot channel never
    holds more tokens than its capacity nor more than there are requests in
    progress, and no more files are open than tokens are held. So a request gives
    back its file and then its slot on every way out (an error of the storage, a
    refused range list, a complete response, an aborted one), and with no request
    in progress the channel is empty and every file is closed. *)
Theorem downloads_bounded {Storage} `{StorageBackend Storage} sha256 files (p : Portal Storage) st :
  0 <= slotCapacity p -> rtc (portal_step sha256 files p) portal_start st ->
  0 <= handles st <= used st /\ used st <= slotCapacity p /\ used st <= Zlen (threads st).
Proof.
  intros Hc Hr. assert (Hok : slots_ok p st).
  { eapply (rtc_invariant _ (slots_ok p)); [|by intros; eapply portal_step_slots|exact Hr].
    split; [constructor|done]. }
  destruct Hok as [Hb Hle]. apply balanced_bounds in Hb as [Hf Hu]. done.
Qed.

(** C24. A download that is not aborted sends exactly what its status promises:
    status 200 the whole content, status 206 the range its Content-Range header
    names; a 206 answers only a GET without If-Range. *)
Theorem download_body_exact {Storage} `{StorageBackend Storage} (p : Portal Storage) r h path file o :
  storage_open (storage p) path = Ok file -> Zlen (fileContent file) = fileSize file ->
  Method r = MethodGet -> serveFile_run p r h path = o -> aborted o = false ->
  (Status (resp o) = 200 -> Body (resp o) = fileContent file) /\
  (Status (resp o) = 206 ->
    header_get (bs "If-Range") (Header r) = [] /\
    exists start len, 0 <= start /\ 0 <= len /\ start + len <= fileSize file /\
      header_get (bs "Content-Range") (RespHeader (resp o)) =
        bs "bytes " ++ itoa start ++ bs "-" ++ itoa (start + len - 1) ++ bs "/" ++ itoa (fileSize file) /\
      Body (resp o) = slice (Z.to_nat start) (Z.to_nat (start + len)) (fileContent file)).
Proof.
  intros Ho Hlen Hm <-. unfold serveFile_run. rewrite Ho.
  destruct (severalRanges r) eqn:Er; [done|].
  destruct (serve_content _ _ _) as [[code h'] framing] eqn:Es.
  pose proof (Zlen_nonneg (fileContent file)) as Hnn.
  apply serve_content_framing in Es; [|lia|done].
  destruct framing as [text|[start len]]; cbn [sent].
  - cbn [aborted resp Status Body]. intros _. destruct Es as [->|[->| ->]]; done.
  - rewrite bool_decide_eq_false_2 by (rewrite Hm; done).
    destruct (read_range file start len) as [body failed] eqn:Eb. cbn [aborted resp Status Body]. intros ->.
    apply read_range_full in Eb as ->.
    assert (Hg : isGetOrHead r = true) by (unfold isGetOrHead; by rewrite Hm).
    destruct Es as [(-> & -> & ->)|(-> & ? & ? & ? & Hcr & Hif)]; split; try done.
    + intros _. rewrite Z.add_0_l, <- Hlen. unfold slice, Zlen. rewrite Nat2Z.id.
      change (Z.to_nat 0) with 0%nat. rewrite Nat.sub_0_r, drop_0. apply firstn_all.
    + intros _. split; [by apply Hif|]. exists start, len. split_and!; try done.
      rewrite commit_header by (vm_compute; set_solver). exact Hcr.
Qed.

(** ** Concrete runs *)

(** A share with one five-byte file. *)
#[local] Instance sample_storage : StorageBackend unit := {
  storage_list _ _ _ := Ok (Some []);
  storage_open _ path :=
    if bool_decide (path = bs "a.txt")
    then Ok {| fileSize := 5; fileContent := bs "hello"; failsAt := None |}
    else Err FailHidden
}.

Definition sample_bearer : bytes := publicBearerPrefix ++ b64_encode (take 32 all_bytes).

Definition sample_portal : Portal unit :=
  {| storage := tt; bearerVerifier := sample_bearer; portalMaxEntries := 10; slotCapacity := 1 |}.

Definition sample_request (extra : list (bytes * bytes)) : request :=
  {| Method := MethodGet; URLPath := BasePath ++ bs "/api/file"; RawQuery := bs "path=a.txt";
     Header := foldr (fun kv h => header_set kv.1 kv.2 h)
       {[ bs "Authorization" := [bs "bearer " ++ sample_bearer] ]} extra |}.

Example sample_download :
  let o := ServeHTTP (fun b => b) (Build_assets [] [] [] []) sample_portal 0 (sample_request []) in
  Status (resp o) = 200 /\ Body (resp o) = bs "hello".
Proof. vm_compute. done. Qed.

Example sample_range :
  let o := ServeHTTP (fun b => b) (Build_assets [] [] [] []) sample_portal 0
             (sample_request [(bs "Range", bs "bytes=1-2")]) in
  Status (resp o) = 206 /\ Body (resp o) = bs "el".
Proof. vm_compute. done. Qed.

(** A download with its file open beside a request in progress. *)
Lemma downloads_bounded_witness :
  let st := {| used := 1; handles := 1; threads := [[FileClosed; ReleaseSlot]] |} in
  rtc (portal_step (fun b => b) (Build_assets [] [] [] []) sample_portal) portal_start st /\
  0 <= handles st <= used st /\ used st <= 1 /\ used st <= Zlen (threads st).
Proof.
  intros st.
  assert (He : effects (ServeHTTP (fun b => b) (Build_assets [] [] [] []) sample_portal 0 (sample_request [])) =
               [TakeSlot; Call (CallOpen (bs "a.txt")); FileOpened; FileClosed; ReleaseSlot]) by (vm_compute; reflexivity).
  assert (Hr : rtc (portal_step (fun b => b) (Build_assets [] [] [] []) sample_portal) portal_start st).
  { eapply rtc_l; [exact (step_arrive (fun b => b) (Build_assets [] [] [] []) sample_portal portal_start _ _ _ He)|].
    eapply rtc_l; [eapply (step_run _ _ _ _ [] _ _ []); reflexivity|].
    eapply rtc_l; [eapply (step_run _ _ _ _ [] _ _ []); reflexivity|].
    apply rtc_refl. }
  split; [exact Hr|]. apply (downloads_bounded (fun b => b) (Build_assets [] [] [] []) sample_portal st); [vm_compute; discriminate|exact Hr].
Defined.

Lemma download_body_exact_witness :
  let r := sample_request [(bs "Range", bs "bytes=1-2")] in
  let o := serveFile_run sample_portal r ∅ (bs "a.txt") in
  Status (resp o) = 206 /\
  exists start len, 0 <= start /\ 0 <= len /\ start + len <= 5 /\
    Body (resp o) = slice (Z.to_nat start) (Z.to_nat (start + len)) (bs "hello").
Proof.
  intros r o. assert (Hs : Status (resp o) = 206) by (vm_compute; reflexivity). split; [exact Hs|].
  pose proof (download_body_exact sample_portal r ∅ (bs "a.txt")
    {| fileSize := 5; fileContent := bs "hello"; failsAt := None |} o) as Hx.
  destruct Hx as [_ Hx]; [reflexivity..|vm_compute; reflexivity|].
  destruct (Hx Hs) as (_ & start & len & ? & ? & ? & _ & ?). exists start, len. auto.
Defined.
