(* ===== verification/UploadWorld.v ===== *)
(** * What the upload service asks of its surroundings

    [service/file_upload.go] reaches the file system only through
    [filesecurity.ManagedRoots] and a few injected functions, reads the clock,
    and competes with other goroutines for session locks. [UploadWorld] is that
    interface: a world type and one operation per call the service makes. An
    operation may answer anything and change the world; the service's theorems
    hold for every instance. *)

From Stdlib Require Import Strings.Byte ZArith Lia String.
From stdpp Require Import base list strings sets gmap.
From S2P Require Import Prelude GoStd GoPath FileSecurity MutationError.

(** ** Managed roots: a pointer, compared by identity

    Whether the roots are closed is part of what a request sees when it obtains
    them; closing them while it runs is not modelled. *)

Record ManagedRoots := { rootsPtr : nat; rootsClosed : bool; rootPaths : list bytes }.

Definition fs_err (e : fs_error) : goerr := ErrPlain (Fs e).
Definition lift_fs {A} (r : result fs_error A) : result goerr A :=
  match r with Ok a => Ok a | Err e => Err (fs_err e) end.

Definition Match (m : ManagedRoots) (absolutePath : bytes) : result goerr ManagedLocation :=
  fail_if rootsClosed m with ErrPlain Closed in
  lift_fs (MatchManagementPath (rootPaths m) absolutePath).

Definition MatchChild (m : ManagedRoots) (base relative : bytes) : result goerr ManagedLocation :=
  fail_if rootsClosed m with ErrPlain Closed in
  lift_fs (MatchManagementChild (rootPaths m) base relative).

(** ** Readers: the data that can be read, then an error or end of file *)

Record reader := { data : bytes; readErr : option goerr; closeErr : option goerr }.

(** [io.LimitReader(r, limit)] *)
Definition limited (r : reader) (limit : Z) : bytes * option goerr :=
  if Zlen (data r) <? limit then (data r, readErr r) else (take (Z.to_nat limit) (data r), None).

Record opened_file := { contents : reader; statErr : option goerr; isRegular : bool; statSize : Z }.

Definition identity := Z.

(** ** The interface *)

Class UploadWorld (W : Type) := {
  w_now : W -> Z * W;
  (** whether another goroutine holds the session lock at a [TryLock] *)
  w_contended : W -> bool * W;
  w_roots : W -> result goerr ManagedRoots * W;
  w_mkdirAll : W -> bytes -> option goerr * W;
  w_openDirectory : W -> bytes -> result goerr Z * W;
  w_closeDirectory : W -> Z -> W;
  w_removeHeldTree : W -> Z -> Z -> bytes -> option goerr * W;
  w_removeTree : W -> bytes -> option goerr * W;
  w_reserveSpace : W -> bytes -> Z -> result goerr Z * W;
  w_releaseSpace : W -> Z -> W;
  w_acquireMutation : W -> option goerr * W;
  w_releaseMutation : W -> W;
  w_openRegularIn : W -> Z -> bytes -> result goerr opened_file * W;
  w_statEntry : W -> Z -> bytes -> result goerr (bool * Z) * W;
  w_removeIn : W -> Z -> bytes -> option goerr * W;
  w_createExclusiveIn : W -> Z -> bytes -> result goerr Z * W;
  (** copying to a writer: [Some (n, err)] when it fails after [n] bytes *)
  w_write : W -> Z -> bytes -> option (nat * goerr) * W;
  w_sync : W -> Z -> option goerr * W;
  w_closeWriter : W -> Z -> option goerr * W;
  w_abort : W -> Z -> option goerr * W;
  w_publishedIdentity : W -> Z -> result goerr identity * W;
  w_beforeCommit : W -> option goerr * W;
  w_commit : W -> Z -> bytes -> bytes -> identity -> bytes -> (identity * option goerr) * W;
  w_verifyIdentity : W -> bytes -> identity -> option goerr * W
}.

(** [io.Copy(io.MultiWriter(out, digests...), io.LimitReader(r, limit))]: the
    bytes that went through and the first error. *)
Definition w_copy {W} `{UploadWorld W} (w : W) (out : Z) (r : reader) (limit : Z) : bytes * option goerr * W :=
  let '(piece, rerr) := limited r limit in
  let '(failure, w) := w_write w out piece in
  match failure with
  | Some (n, e) => (take n piece, Some e, w)
  | None => (piece, rerr, w)
  end.

(** Draw an answer from the world: [let& x := op w in k]. *)
Notation "'let&' x ; w := c 'in' k" :=
  (match c with (x, w) => k end)
  (at level 10, x pattern, w name, c at level 100, k at level 200) : go_scope.
