(* ===== verification/UploadSession.v ===== *)
(** * service/file_upload.go: upload sessions and their table

    A session ([FileInfo]) is a shared object: the table maps keys to pointers,
    requests keep the pointer across critical sections. [service] therefore has
    a store of sessions and the set of those whose lock is held. The functions
    of this file are the critical sections of [sessionsMu]. *)

From Stdlib Require Import Strings.Byte ZArith Lia String.
From stdpp Require Import base list strings sets gmap sorting.
From S2P Require Import Prelude GoStd GoPath GoEncoding FileSecurity MutationError UploadWorld.

Definition maxActiveUploadSessions : Z := 16.
Definition maxCompletedUploadTombstones : Z := 128.
Definition uploadSessionTTL : Z := 6 * hour.
Definition uploadCompletionTTL : Z := 10 * minute.

Record FileInfo := {
  init : bool;
  principalID : Z;
  uploaded : list bool;
  chunkDigests : list bytes;
  uploadedChunkNum : Z;
  base : bytes;
  targetPath : bytes;
  targetRelative : bytes;
  tempRelative : bytes;
  tempDir : bytes;
  assemblyPath : bytes;
  totalChunks : Z;
  totalSize : Z;
  chunkSize : Z;
  lastActivity : Z;
  roots : ManagedRoots;
  stagingDirectory : option Z;
  stagingParent : option Z;
  stagingName : bytes;
  cleanupErr : option goerr;
  completed : bool;
  completedAt : Z;
  completionDigest : bytes;
  completionSize : Z;
  completionIdentity : identity;
  completionErr : option goerr;
  stagingClean : bool
}.

(** Assignments to the fields the service changes after creation. *)
Definition set_init (b : bool) (i : FileInfo) : FileInfo :=
  {| init := b; principalID := principalID i; uploaded := uploaded i; chunkDigests := chunkDigests i;
     uploadedChunkNum := uploadedChunkNum i; base := base i; targetPath := targetPath i;
     targetRelative := targetRelative i; tempRelative := tempRelative i; tempDir := tempDir i;
     assemblyPath := assemblyPath i; totalChunks := totalChunks i; totalSize := totalSize i;
     chunkSize := chunkSize i; lastActivity := lastActivity i; roots := roots i;
     stagingDirectory := stagingDirectory i; stagingParent := stagingParent i; stagingName := stagingName i;
     cleanupErr := cleanupErr i; completed := completed i; completedAt := completedAt i;
     completionDigest := completionDigest i; completionSize := completionSize i;
     completionIdentity := completionIdentity i; completionErr := completionErr i;
     stagingClean := stagingClean i |}.

Definition set_chunks (u : list bool) (d : list bytes) (n : Z) (i : FileInfo) : FileInfo :=
  {| init := init i; principalID := principalID i; uploaded := u; chunkDigests := d;
     uploadedChunkNum := n; base := base i; targetPath := targetPath i;
     targetRelative := targetRelative i; tempRelative := tempRelative i; tempDir := tempDir i;
     assemblyPath := assemblyPath i; totalChunks := totalChunks i; totalSize := totalSize i;
     chunkSize := chunkSize i; lastActivity := lastActivity i; roots := roots i;
     stagingDirectory := stagingDirectory i; stagingParent := stagingParent i; stagingName := stagingName i;
     cleanupErr := cleanupErr i; completed := completed i; completedAt := completedAt i;
     completionDigest := completionDigest i; completionSize := completionSize i;
     completionIdentity := completionIdentity i; completionErr := completionErr i;
     stagingClean := stagingClean i |}.

Definition set_activity (t : Z) (i : FileInfo) : FileInfo :=
  {| init := init i; principalID := principalID i; uploaded := uploaded i; chunkDigests := chunkDigests i;
     uploadedChunkNum := uploadedChunkNum i; base := base i; targetPath := targetPath i;
     targetRelative := targetRelative i; tempRelative := tempRelative i; tempDir := tempDir i;
     assemblyPath := assemblyPath i; totalChunks := totalChunks i; totalSize := totalSize i;
     chunkSize := chunkSize i; lastActivity := t; roots := roots i;
     stagingDirectory := stagingDirectory i; stagingParent := stagingParent i; stagingName := stagingName i;
     cleanupErr := cleanupErr i; completed := completed i; completedAt := completedAt i;
     completionDigest := completionDigest i; completionSize := completionSize i;
     completionIdentity := completionIdentity i; completionErr := completionErr i;
     stagingClean := stagingClean i |}.

Definition set_staging (d p : option Z) (n : bytes) (i : FileInfo) : FileInfo :=
  {| init := init i; principalID := principalID i; uploaded := uploaded i; chunkDigests := chunkDigests i;
     uploadedChunkNum := uploadedChunkNum i; base := base i; targetPath := targetPath i;
     targetRelative := targetRelative i; tempRelative := tempRelative i; tempDir := tempDir i;
     assemblyPath := assemblyPath i; totalChunks := totalChunks i; totalSize := totalSize i;
     chunkSize := chunkSize i; lastActivity := lastActivity i; roots := roots i;
     stagingDirectory := d; stagingParent := p; stagingName := n;
     cleanupErr := cleanupErr i; completed := completed i; completedAt := completedAt i;
     completionDigest := completionDigest i; completionSize := completionSize i;
     completionIdentity := completionIdentity i; completionErr := completionErr i;
     stagingClean := stagingClean i |}.

(** [cleanupErr] and [stagingClean] *)
Definition set_cleanup (e : option goerr) (clean : bool) (i : FileInfo) : FileInfo :=
  {| init := init i; principalID := principalID i; uploaded := uploaded i; chunkDigests := chunkDigests i;
     uploadedChunkNum := uploadedChunkNum i; base := base i; targetPath := targetPath i;
     targetRelative := targetRelative i; tempRelative := tempRelative i; tempDir := tempDir i;
     assemblyPath := assemblyPath i; totalChunks := totalChunks i; totalSize := totalSize i;
     chunkSize := chunkSize i; lastActivity := lastActivity i; roots := roots i;
     stagingDirectory := stagingDirectory i; stagingParent := stagingParent i; stagingName := stagingName i;
     cleanupErr := e; completed := completed i; completedAt := completedAt i;
     completionDigest := completionDigest i; completionSize := completionSize i;
     completionIdentity := completionIdentity i; completionErr := completionErr i;
     stagingClean := clean |}.

(** The block after a published assembly: completion fields set, per-chunk state released. *)
Definition set_completed (at_ : Z) (digest : bytes) (size : Z) (id : identity) (e : option goerr)
  (i : FileInfo) : FileInfo :=
  {| init := init i; principalID := principalID i; uploaded := []; chunkDigests := [];
     uploadedChunkNum := 0; base := base i; targetPath := targetPath i;
     targetRelative := targetRelative i; tempRelative := tempRelative i; tempDir := tempDir i;
     assemblyPath := assemblyPath i; totalChunks := totalChunks i; totalSize := totalSize i;
     chunkSize := chunkSize i; lastActivity := lastActivity i; roots := roots i;
     stagingDirectory := stagingDirectory i; stagingParent := stagingParent i; stagingName := stagingName i;
     cleanupErr := cleanupErr i; completed := true; completedAt := at_;
     completionDigest := digest; completionSize := size;
     completionIdentity := id; completionErr := e;
     stagingClean := stagingClean i |}.

(** ** Stateless checks *)

Definition msg (s : string) : goerr := ErrPlain (Message (bs s)).

Definition validateUploadIdentifier (identifier : bytes) : result goerr unit :=
  fail_if bool_decide (trim_space identifier = []) || contains_byte x00 identifier
    with msg "identifier is required" in
  fail_if 512 <? Zlen identifier with msg "identifier is too long" in
  Ok tt.

Definition validateUploadName (relativePath fileName : bytes) : result goerr unit :=
  let! _ := lift_fs (ValidateRelativePath relativePath) in
  fail_if bool_decide (fileName = []) || bool_decide (fileName = dot) || bool_decide (fileName = dotdot)
          || negb (bool_decide (path_base fileName = fileName))
    with msg "invalid filename" in
  fail_if negb (bool_decide (path_base (clean relativePath) = fileName))
    with msg "filename does not match relativePath" in
  Ok tt.

(** int64 arithmetic, wrap-around written out. *)
Definition validateChunkShape (chunkNumber chunkSize currentChunkSize totalChunks totalSize : Z) : result goerr unit :=
  if totalSize =? 0 then Ok tt
  else
    let minimumSize := s64 (s64 (totalChunks - 1) * chunkSize) in
    fail_if totalSize <=? minimumSize with msg "totalSize is inconsistent with totalChunks and chunkSize" in
    let expectedCurrentSize := if chunkNumber =? totalChunks then s64 (totalSize - minimumSize) else chunkSize in
    fail_if negb (currentChunkSize =? expectedCurrentSize)
      with msg "currentChunkSize is inconsistent with chunk position" in
    Ok tt.

(** The text whose digest is the session key. *)
Definition sessionPreimage (principalID : Z) (identifier targetPath : bytes) : bytes :=
  bs "jwt-user" ++ [x00] ++ itoa principalID ++ [x00] ++ identifier ++ [x00] ++ targetPath.

Definition boundUploadIdentifier (sha256 : bytes -> bytes) (principalID : Z) (identifier targetPath : bytes) : bytes :=
  hex_encode (sha256 (sessionPreimage principalID identifier targetPath)).

Definition sameServiceUploadNamespace (fileInfo : FileInfo) (principal : Z) (rs : ManagedRoots)
  (basePath target targetRel : bytes) : bool :=
  (principalID fileInfo =? principal) && (rootsPtr (roots fileInfo) =? rootsPtr rs)%nat
  && bool_decide (base fileInfo = basePath) && bool_decide (targetPath fileInfo = target)
  && bool_decide (targetRelative fileInfo = targetRel).

Definition sameServiceUploadMetadata (existing candidate : FileInfo) : bool :=
  sameServiceUploadNamespace existing (principalID candidate) (roots candidate)
    (base candidate) (targetPath candidate) (targetRelative candidate)
  && bool_decide (tempRelative existing = tempRelative candidate)
  && bool_decide (tempDir existing = tempDir candidate)
  && bool_decide (assemblyPath existing = assemblyPath candidate)
  && (totalChunks existing =? totalChunks candidate)
  && (totalSize existing =? totalSize candidate)
  && (chunkSize existing =? chunkSize candidate).

Definition changedServiceUploadError (operation : bytes) (err : option goerr) : option goerr :=
  match err with
  | None => None
  | Some _ => Some (ErrMutation operation true (ManagedMutationDurabilityUnknown err) err)
  end.

Definition changedServiceUploadErrorIf (changed : bool) (operation : bytes) (err : option goerr) : option goerr :=
  if negb changed then err else changedServiceUploadError operation err.

(** ** The service *)

Record service := {
  uploadStatus : gmap bytes nat;
  store : gmap nat FileInfo;
  held : gset nat;
  nextSession : nat
}.

Definition NewFileUploadService : service :=
  {| uploadStatus := ∅; store := ∅; held := ∅; nextSession := 0 |}.

Definition with_status (m : gmap bytes nat) (s : service) : service :=
  {| uploadStatus := m; store := store s; held := held s; nextSession := nextSession s |}.
Definition with_info (l : nat) (i : FileInfo) (s : service) : service :=
  {| uploadStatus := uploadStatus s; store := <[l := i]> (store s); held := held s; nextSession := nextSession s |}.
Definition forget (key : bytes) (s : service) : service := with_status (delete key (uploadStatus s)) s.

(** The session of a key, when its lock is free. *)
Definition free_session (s : service) (key : bytes) : option (nat * FileInfo) :=
  match uploadStatus s !! key with
  | Some l => if bool_decide (l ∈ held s) then None
              else match store s !! l with Some i => Some (l, i) | None => None end
  | None => None
  end.

Definition completion_expired (now : Z) (i : FileInfo) : bool :=
  negb (is_zero_time (completedAt i)) && (uploadCompletionTTL <? time_sub now (completedAt i)).

(** *** pruneCompletedUploadTombstonesLocked

    [order] is the order in which the runtime ranges over the map. *)

Fixpoint prune_scan (now : Z) (order : list bytes) (s : service) (count : Z) (clean : list (bytes * Z))
  : service * Z * list (bytes * Z) :=
  match order with
  | [] => (s, count, clean)
  | key :: rest =>
      match free_session s key with
      | None => prune_scan now rest s count clean
      | Some (_, i) =>
          if negb (completed i) then prune_scan now rest s count clean
          else if stagingClean i && completion_expired now i then prune_scan now rest (forget key s) count clean
          else prune_scan now rest s (count + 1)
                 (if stagingClean i then clean ++ [(key, completedAt i)] else clean)
      end
  end.

Fixpoint prune_evict (clean : list (bytes * Z)) (count : Z) (s : service) : service :=
  match clean with
  | [] => s
  | (key, _) :: rest =>
      if count <=? maxCompletedUploadTombstones then s
      else match free_session s key with
           | None => prune_evict rest count s
           | Some (_, i) =>
               if completed i && stagingClean i then prune_evict rest (count - 1) (forget key s)
               else prune_evict rest count s
           end
  end.

Definition older (a b : bytes * Z) : bool := a.2 <? b.2.

Definition pruneCompletedUploadTombstonesLocked (now : Z) (order : list bytes) (s : service) : service :=
  let '(s, completedCount, clean) := prune_scan now order s 0 [] in
  if completedCount <=? maxCompletedUploadTombstones then s
  else prune_evict (sort_slice older clean) completedCount s.

(** *** Staging *)

Section staging.
Context {W : Type} `{UploadWorld W}.

Definition removeUploadTree (path : bytes) (w : W) : option goerr * W :=
  let& err; w := w_removeTree w path in
  match err with
  | Some e => if is_not_exist e then (None, w) else (Some e, w)
  | None => (None, w)
  end.

Definition ensureStagingDirectory (i : FileInfo) (w : W) : result goerr Z * FileInfo * W :=
  match stagingDirectory i with
  | Some d => (Ok d, i, w)
  | None =>
      if bool_decide (tempDir i = []) then (Err (msg "upload staging directory is unavailable"), i, w)
      else
        let& parent; w := w_openDirectory w (path_dir (tempDir i)) in
        match parent with
        | Err e => (Err (ErrWrap (bs "pin upload staging parent") e), i, w)
        | Ok parent =>
            let& directory; w := w_openDirectory w (tempDir i) in
            match directory with
            | Err e => (Err (ErrWrap (bs "pin upload staging directory") e), i, w_closeDirectory w parent)
            | Ok directory =>
                (Ok directory, set_staging (Some directory) (Some parent) (path_base (tempDir i)) i, w)
            end
        end
  end.

Definition close_held (d : option Z) (w : W) : W :=
  match d with Some d => w_closeDirectory w d | None => w end.

Definition closeStagingDirectory (i : FileInfo) (w : W) : FileInfo * W :=
  (set_staging None None [] i, close_held (stagingParent i) (close_held (stagingDirectory i) w)).

Definition cleanupUploadStaging (i : FileInfo) (w : W) : option goerr * FileInfo * W :=
  match stagingParent i, stagingDirectory i with
  | Some parent, Some directory =>
      let& err; w := w_removeHeldTree w parent directory (stagingName i) in
      match err with
      | Some e => (Some e, i, w)
      | None => let '(i, w) := closeStagingDirectory i w in (None, i, w)
      end
  | _, _ => let& err; w := removeUploadTree (tempDir i) w in (err, i, w)
  end.

(** *** cleanupExpiredUploads *)

Definition cleanup_one (now : Z) (key : bytes) (s : service) (w : W) : service * W :=
  match free_session s key with
  | None => (s, w)
  | Some (l, i) =>
      if completed i && stagingClean i then
        (if completion_expired now i then forget key s else s, w)
      else
        let expired := negb (is_zero_time (lastActivity i)) && (uploadSessionTTL <? time_sub now (lastActivity i)) in
        let i := if expired then set_init false i else i in
        let s := with_info l i s in
        let terminal := negb (init i) in
        let requestChanged := (0 <? uploadedChunkNum i) || ManagedMutationChanged (cleanupErr i) in
        if negb terminal then (s, w)
        else
          let '(err, i, w) := cleanupUploadStaging i w in
          let s := with_info l i s in
          match err with
          | Some _ =>
              let err := if requestChanged
                         then changedServiceUploadError (bs "upload staging cleanup remains incomplete") err
                         else err in
              let& contended; w := w_contended w in
              (if contended then s else with_info l (set_cleanup err (stagingClean i) i) s, w)
          | None =>
              if completed i then
                let& contended; w := w_contended w in
                (if contended then s else with_info l (set_cleanup None true i) s, w)
              else (forget key s, w)
          end
  end.

Fixpoint cleanup_all (now : Z) (order : list bytes) (s : service) (w : W) : service * W :=
  match order with
  | [] => (s, w)
  | key :: rest => let '(s, w) := cleanup_one now key s w in cleanup_all now rest s w
  end.

Definition cleanupExpiredUploads (now : Z) (order order' : list bytes) (s : service) (w : W) : service * W :=
  let '(s, w) := cleanup_all now order s w in
  (pruneCompletedUploadTombstonesLocked now order' s, w).

(** *** getOrCreateUploadSession *)

Definition counts_active (s : service) (l : nat) : bool :=
  bool_decide (l ∈ held s) || match store s !! l with Some i => negb (completed i) | None => false end.

Definition active_sessions (s : service) : Z :=
  Zlen (List.filter (counts_active s) (map_to_list (uploadStatus s)).*2).

Definition getOrCreateUploadSession (key : bytes) (candidate : FileInfo) (order : list bytes) (s : service) (w : W)
  : result goerr (nat * bool) * service * W :=
  let& now; w := w_now w in
  let s := pruneCompletedUploadTombstonesLocked now order s in
  match uploadStatus s !! key with
  | Some l => (Ok (l, false), s, w)
  | None =>
      if maxActiveUploadSessions <=? active_sessions s then (Err (msg "too many active upload sessions"), s, w)
      else if maxActiveUploadSessions + maxCompletedUploadTombstones <=? Z.of_nat (size (uploadStatus s))
      then (Err (msg "too many retained upload sessions"), s, w)
      else
        let l := nextSession s in
        let place i := {| uploadStatus := <[key := l]> (uploadStatus s); store := <[l := i]> (store s);
                          held := held s; nextSession := S l |} in
        let& err; w := removeUploadTree (tempDir candidate) w in
        match err with
        | Some e => (Err e, place (set_cleanup (Some e) (stagingClean candidate) (set_init false candidate)), w)
        | None => (Ok (l, true), place (set_cleanup (cleanupErr candidate) true candidate), w)
        end
  end.

(** *** deleteUploadSession *)

Definition deleteUploadSession (key : bytes) (l : nat) (requestChanged : bool) (order : list bytes) (s : service) (w : W)
  : option goerr * service * W :=
  match uploadStatus s !! key, store s !! l with
  | Some l', Some i =>
      if negb (l' =? l)%nat then (None, s, w)
      else
        let '(err, i, w) := cleanupUploadStaging i w in
        let s := with_info l i s in
        let& contended; w := w_contended w in
        let contended := contended || bool_decide (l ∈ held s) in
        match err with
        | Some _ =>
            let err := if requestChanged
                       then changedServiceUploadError (bs "upload completed but staging cleanup remains incomplete") err
                       else err in
            (err, if contended then s else with_info l (set_cleanup err (stagingClean i) (set_init false i)) s, w)
        | None =>
            let s := if contended then s
                     else if completed i then with_info l (set_cleanup None true i) s
                     else forget key (with_info l (set_cleanup None true i) s) in
            let& now; w := w_now w in
            (None, pruneCompletedUploadTombstonesLocked now order s, w)
        end
  | _, _ => (None, s, w)
  end.
End staging.

(** ** Lemmas: chunk arithmetic *)

(** The size the shape check demands of chunk [n]. *)
Definition chunk_length (chunkSize totalChunks totalSize n : Z) : Z :=
  if n =? totalChunks then totalSize - (totalChunks - 1) * chunkSize else chunkSize.

Lemma s64_small x : - 2 ^ 63 <= x < 2 ^ 63 -> s64 x = x.
Proof. intros. apply wrap_s_id; [lia|]. unfold in_s. lia. Qed.

Lemma product_bounds a b : 0 <= a <= 256 -> 0 <= b <= 2 ^ 28 -> 0 <= a * b <= 2 ^ 36.
Proof. intros. nia. Qed.

(** What the three checks of [UploadFile] establish together. *)
Definition chunk_accepted (n chunkSize current total size : Z) : Prop :=
  ValidateChunk total n = Ok tt /\ ValidateUploadSizes chunkSize current size total = Ok tt /\
  validateChunkShape n chunkSize current total size = Ok tt.

Lemma upload_bounds n chunkSize current total size :
  chunk_accepted n chunkSize current total size ->
  1 <= n <= total /\ total <= 256 /\ 1 <= chunkSize <= 2 ^ 28 /\ 0 <= current <= chunkSize /\
  0 <= size <= total * chunkSize.
Proof.
  unfold chunk_accepted, ValidateChunk, ValidateUploadSizes.
  change MaxUploadChunks with 256. change MaxUploadChunkSize with (2 ^ 28).
  change MaxUploadTotalSize with (2 ^ 36). intros (Hc & Hs & _).
  repeat step_in Hc. repeat step_in Hs. bools.
  pose proof (product_bounds total chunkSize ltac:(lia) ltac:(lia)) as Hp.
  match goal with H : size <= s64 _ |- _ => rewrite s64_small in H by lia end.
  lia.
Qed.

Lemma chunk_accepted_length n chunkSize current total size :
  chunk_accepted n chunkSize current total size ->
  current = chunk_length chunkSize total size n.
Proof.
  intros Ha. pose proof (upload_bounds _ _ _ _ _ Ha) as (Hn & Ht & Hcs & Hcur & Hsz).
  destruct Ha as (_ & Hs & Hshape). unfold chunk_length.
  unfold validateChunkShape in Hshape. destruct (size =? 0) eqn:E0; bools.
  - subst size. unfold ValidateUploadSizes in Hs. repeat step_in Hs. cbn [Z.eqb andb] in *. bools.
    subst. replace (n =? 1) with true by (symmetry; apply Z.eqb_eq; lia). lia.
  - pose proof (product_bounds (total - 1) chunkSize ltac:(lia) ltac:(lia)) as Hp.
    rewrite (s64_small (total - 1)), (s64_small ((total - 1) * chunkSize)) in Hshape by lia.
    step_in Hshape. step_in Hshape. bools. rewrite Heqb0. destruct (n =? total); [|done].
    apply s64_small. lia.
Qed.

(** The demanded sizes of chunks 1..total add up to the total. *)
Lemma chunk_lengths_sum chunkSize total size :
  1 <= total ->
  foldr Z.add 0 (chunk_length chunkSize total size <$> (Z.of_nat <$> seq 1 (Z.to_nat total))) = size.
Proof.
  intros Ht. set (k := (Z.to_nat total - 1)%nat).
  replace (Z.to_nat total) with (k + 1)%nat by lia. rewrite seq_app, !fmap_app.
  assert (Hf : forall l x, foldr Z.add x l = foldr Z.add 0 l + x).
  { intros l x. induction l; simpl; lia. }
  rewrite foldr_app, Hf. cbn [seq fmap list_fmap foldr].
  assert (Hk : foldr Z.add 0 (chunk_length chunkSize total size <$> (Z.of_nat <$> seq 1 k)) = Z.of_nat k * chunkSize).
  { assert (Hle : (k <= Z.to_nat total - 1)%nat) by lia. clearbody k.
    induction k as [|k IH]; [done|]. rewrite seq_S, !fmap_app, foldr_app, Hf, IH by lia.
    cbn [fmap list_fmap foldr]. unfold chunk_length.
    replace (Z.of_nat (1 + k) =? total) with false by (symmetry; apply Z.eqb_neq; lia). lia. }
  rewrite Hk. unfold chunk_length.
  replace (Z.of_nat (1 + k) =? total) with true by (symmetry; apply Z.eqb_eq; lia).
  replace (Z.of_nat k) with (total - 1) by lia. lia.
Qed.

(** ** Lemmas: session keys *)

Lemma itoa_no_nul z : x00 ∉ itoa z.
Proof.
  unfold itoa. rewrite list_elem_of_In. unfold bs, Z.to_int.
  assert (Hu : forall u, ~ In x00 (String.list_byte_of_string (DecimalString.NilEmpty.string_of_uint u))).
  { induction u; simpl; [tauto|..]; intros [?|?]; done. }
  assert (Hz : forall u, ~ In x00 (String.list_byte_of_string (DecimalString.NilZero.string_of_uint u))).
  { intros u. destruct u; try apply Hu. simpl. intros [|[]]. done. }
  destruct z; simpl; [| |simpl]; try (intros [|[]]; done); try apply Hz.
  intros [?|Hin]; [done|]. by apply Hz in Hin.
Qed.

Lemma nul_split (a b c d : bytes) :
  (x00 ∉ a) -> (x00 ∉ c) -> a ++ x00 :: b = c ++ x00 :: d -> a = c /\ b = d.
Proof.
  revert c. induction a as [|x a IH]; intros [|y c] Ha Hc E; simplify_eq/=; [done|set_solver..|].
  destruct (IH c) as [-> ->]; set_solver.
Qed.

Lemma sessionPreimage_inj p i t p' i' t' :
  (x00 ∉ i) -> (x00 ∉ i') -> sessionPreimage p i t = sessionPreimage p' i' t' -> p = p' /\ i = i' /\ t = t'.
Proof.
  intros Hi Hi' E. unfold sessionPreimage in E. apply app_inv_head in E. apply app_inv_head in E.
  apply nul_split in E as [Hp E]; [|apply itoa_no_nul..]. apply nul_split in E as [-> ->]; [|done..].
  by apply itoa_inj in Hp as ->.
Qed.

(** ** Lemmas: pruning *)

Definition forget_all (keys : list bytes) (s : service) : service := foldr forget s keys.

Lemma forget_all_status keys s k :
  uploadStatus (forget_all keys s) !! k = if bool_decide (k ∈ keys) then None else uploadStatus s !! k.
Proof.
  induction keys as [|key keys IH]; cbn [forget_all foldr]; [done|].
  change (foldr forget s keys) with (forget_all keys s). cbn [forget with_status uploadStatus].
  destruct (decide (key = k)) as [->|Hne].
  - rewrite lookup_delete_eq. by rewrite bool_decide_eq_true_2 by left.
  - rewrite lookup_delete_ne by done. rewrite IH. erewrite bool_decide_ext; [reflexivity|]. set_solver.
Qed.

Lemma forget_all_rest keys s :
  store (forget_all keys s) = store s /\ held (forget_all keys s) = held s /\
  nextSession (forget_all keys s) = nextSession s.
Proof. by induction keys. Qed.

Lemma forget_all_app k1 k2 s : forget_all (k1 ++ k2) s = forget_all k1 (forget_all k2 s).
Proof. apply foldr_app. Qed.

Lemma free_forget_all keys s k :
  free_session (forget_all keys s) k = if bool_decide (k ∈ keys) then None else free_session s k.
Proof.
  unfold free_session. destruct (forget_all_rest keys s) as (-> & -> & _). rewrite forget_all_status.
  by destruct (bool_decide (k ∈ keys)).
Qed.

(** A completed session, whether its staging is clean, and whether it is due. *)
Definition tombstone (s : service) (k : bytes) : bool :=
  match free_session s k with Some (_, i) => completed i | None => false end.
Definition clean_tombstone (s : service) (k : bytes) : bool :=
  match free_session s k with Some (_, i) => completed i && stagingClean i | None => false end.
Definition due (now : Z) (s : service) (k : bytes) : bool :=
  match free_session s k with
  | Some (_, i) => completed i && (stagingClean i && completion_expired now i)
  | None => false
  end.
Definition completion_time (s : service) (k : bytes) : Z :=
  match free_session s k with Some (_, i) => completedAt i | None => 0 end.

Definition kept (now : Z) (s : service) (k : bytes) : bool := tombstone s k && negb (due now s k).
Definition evictable (now : Z) (s : service) (k : bytes) : bool := clean_tombstone s k && negb (due now s k).

Lemma due_clean now s k : due now s k = true -> clean_tombstone s k = true.
Proof. unfold due, clean_tombstone. destruct (free_session s k) as [[l i]|]; [|done]. intros. by bools; rewrite H, H0. Qed.

Lemma clean_is_tombstone s k : clean_tombstone s k = true -> tombstone s k = true.
Proof. unfold tombstone, clean_tombstone. destruct (free_session s k) as [[l i]|]; [|done]. intros. by bools. Qed.

Lemma prune_scan_spec now order s gone count clean :
  NoDup order -> (forall k, k ∈ order -> k ∉ gone) ->
  prune_scan now order (forget_all gone s) count clean =
  (forget_all (rev (List.filter (due now s) order) ++ gone) s,
   count + Zlen (List.filter (kept now s) order),
   clean ++ ((fun k => (k, completion_time s k)) <$> List.filter (evictable now s) order)).
Proof.
  intros Hnd. revert gone count clean. induction Hnd as [|key order Hk Hnd IH]; intros gone count clean Hg.
  { cbn. by rewrite Z.add_0_r, app_nil_r. }
  cbn [prune_scan]. rewrite free_forget_all, bool_decide_eq_false_2 by (apply Hg; left).
  assert (Hrest : forall k, k ∈ order -> k ∉ gone) by (intros k ?; apply Hg; by right).
  cbn [List.filter].
  assert (Hd : due now s key = match free_session s key with Some (_, i) => completed i && (stagingClean i && completion_expired now i) | None => false end) by done.
  assert (Ht : tombstone s key = match free_session s key with Some (_, i) => completed i | None => false end) by done.
  assert (Hc : clean_tombstone s key = match free_session s key with Some (_, i) => completed i && stagingClean i | None => false end) by done.
  unfold kept at 1, evictable at 1.
  destruct (free_session s key) as [[l i]|] eqn:Ef; rewrite Hd, Ht, Hc; [|by apply IH].
  destruct (completed i) eqn:Ec; [|by apply IH]. cbn [andb negb].
  destruct (stagingClean i && completion_expired now i) eqn:Ed; cbn [negb].
  - rewrite andb_false_r. change (forget key (forget_all gone s)) with (forget_all (key :: gone) s).
    rewrite IH; [|set_solver]. cbn [rev]. by rewrite <- app_assoc.
  - rewrite IH by done. unfold Zlen. cbn [length]. f_equal; [f_equal; lia|].
    destruct (stagingClean i); cbn [andb]; [|done]. rewrite <- app_assoc. cbn [fmap list_fmap app].
    assert (completion_time s key = completedAt i) as -> by (unfold completion_time; by rewrite Ef). done.
Qed.

Lemma prune_evict_spec clean count s :
  NoDup clean.*1 -> Forall (fun c => clean_tombstone s c.1 = true) clean ->
  prune_evict clean count s =
  forget_all (rev (take (Z.to_nat (count - maxCompletedUploadTombstones)) clean.*1)) s.
Proof.
  revert count s. induction clean as [|[k t] clean IH]; intros count s Hnd Hall.
  { cbn. by rewrite take_nil. }
  cbn [prune_evict fmap list_fmap fst]. apply NoDup_cons in Hnd as [Hk Hnd]. apply Forall_cons in Hall as [Hc Hall].
  destruct (count <=? _) eqn:E; bools.
  - by replace (Z.to_nat (count - maxCompletedUploadTombstones)) with 0%nat by lia.
  - replace (Z.to_nat (count - maxCompletedUploadTombstones))
      with (S (Z.to_nat (count - 1 - maxCompletedUploadTombstones))) by lia. cbn [take rev].
    cbn [fst] in Hc. unfold clean_tombstone in Hc. destruct (free_session s k) as [[l i]|] eqn:Ef; [|done].
    rewrite Hc, IH; [by rewrite forget_all_app|done|].
    rewrite Forall_forall in *. intros c Hin. specialize (Hall c Hin). unfold clean_tombstone in *.
    change (forget k s) with (forget_all [k] s). rewrite free_forget_all, bool_decide_eq_false_2; [done|].
    rewrite list_elem_of_singleton. intros Heq. apply Hk. rewrite <- Heq. apply list_elem_of_fmap. by exists c.
Qed.

Lemma older_asym x y : older x y = true -> older y x = false.
Proof. unfold older. intros. bools. apply Z.ltb_ge. lia. Qed.

Lemma older_negtrans x y z : older y x = false -> older z y = false -> older z x = false.
Proof. unfold older. intros. bools. apply Z.ltb_ge. lia. Qed.

(** The keys an over-full table gives up: the longest completed first. *)
Definition eviction_list (now : Z) (order : list bytes) (s : service) : list bytes :=
  take (Z.to_nat (Zlen (List.filter (kept now s) order) - maxCompletedUploadTombstones))
    (sort_slice older ((fun k => (k, completion_time s k)) <$> List.filter (evictable now s) order)).*1.

Lemma elem_filter_iff {A} (f : A -> bool) l x : x ∈ List.filter f l <-> x ∈ l /\ f x = true.
Proof. rewrite !list_elem_of_In. apply filter_In. Qed.

Lemma eviction_sorted_keys now order s :
  (sort_slice older ((fun k => (k, completion_time s k)) <$> List.filter (evictable now s) order)).*1
  ≡ₚ List.filter (evictable now s) order.
Proof.
  rewrite sort_slice_perm, <- list_fmap_compose. unfold compose. cbn [fst]. by rewrite list_fmap_id.
Qed.

Lemma NoDup_List_filter {A} (f : A -> bool) (l : list A) : NoDup l -> NoDup (List.filter f l).
Proof. rewrite !NoDup_ListNoDup. apply List.NoDup_filter. Qed.

Lemma prune_exact now order s :
  NoDup order ->
  pruneCompletedUploadTombstonesLocked now order s =
  forget_all (rev (eviction_list now order s) ++ rev (List.filter (due now s) order)) s.
Proof.
  intros Hnd. unfold pruneCompletedUploadTombstonesLocked, eviction_list.
  pose proof (prune_scan_spec now order s [] 0 [] Hnd (fun _ _ => not_elem_of_nil _)) as Hs.
  cbn [forget_all foldr app] in Hs. rewrite Hs, app_nil_r, Z.add_0_l. clear Hs.
  destruct (_ <=? _) eqn:E; bools.
  - by replace (Z.to_nat _) with 0%nat by lia.
  - rewrite forget_all_app, prune_evict_spec; [done| |].
    + rewrite eviction_sorted_keys. by apply NoDup_List_filter.
    + rewrite sort_slice_perm. rewrite Forall_fmap. apply Forall_forall. intros k Hk. cbn [fst compose].
      apply elem_filter_iff in Hk as [_ He]. unfold evictable in He. bools.
      unfold clean_tombstone. rewrite free_forget_all. case_bool_decide as Hin; [|done].
      apply list_elem_of_In, in_rev, list_elem_of_In, elem_filter_iff in Hin as [_ Hd]. congruence.
Qed.

Lemma eviction_list_evictable now order s k :
  k ∈ eviction_list now order s -> k ∈ order /\ evictable now s k = true.
Proof.
  intros Hk. apply elem_filter_iff. rewrite <- (eviction_sorted_keys now order s).
  eapply elem_of_sublist; [exact Hk|]. apply sublist_take.
Qed.

Lemma free_in_table s k : free_session s k <> None -> is_Some (uploadStatus s !! k).
Proof. unfold free_session. destruct (uploadStatus s !! k); [by eexists|done]. Qed.

Lemma eviction_oldest now order s k k' :
  k ∈ eviction_list now order s -> k' ∈ List.filter (evictable now s) order ->
  (k' ∉ eviction_list now order s) -> completion_time s k <= completion_time s k'.
Proof.
  unfold eviction_list. set (n := Z.to_nat _).
  set (L := sort_slice older ((fun k => (k, completion_time s k)) <$> List.filter (evictable now s) order)).
  assert (Htime : Forall (fun c => c.2 = completion_time s c.1) L).
  { unfold L. rewrite sort_slice_perm, Forall_fmap. by apply Forall_forall. }
  rewrite Forall_forall in Htime. intros Hk Hk' Hn'.
  rewrite <- fmap_take in Hk, Hn'. apply list_elem_of_fmap in Hk as ([a ta] & -> & Ha).
  rewrite <- (eviction_sorted_keys now order s) in Hk'. fold L in Hk'.
  apply list_elem_of_fmap in Hk' as ([b tb] & -> & Hb). cbn [fst].
  pose proof (sort_slice_sorted older older_asym older_negtrans
    ((fun k => (k, completion_time s k)) <$> List.filter (evictable now s) order)) as Hs. fold L in Hs.
  pose proof (Htime (b, tb) Hb) as Htb. cbn [fst snd] in Htb. rewrite <- Htb.
  rewrite <- (take_drop n L) in Hs, Hb. apply elem_of_app in Hb as [Hb|Hb].
  { destruct Hn'. apply list_elem_of_fmap. by exists (b, tb). }
  assert (HaL : (a, ta) ∈ L) by (rewrite <- (take_drop n L); apply elem_of_app; by left).
  pose proof (Htime _ HaL) as Hta. cbn [fst snd] in Hta. rewrite <- Hta.
  eapply StronglySorted_app_1_elem_of in Hs; [|exact Ha|exact Hb]. unfold older in Hs. cbn in Hs. bools. lia.
Qed.

(** A tombstone that pruning may not drop: its staging is not known to be clean. *)
Definition pinned (s : service) (k : bytes) : bool := tombstone s k && negb (clean_tombstone s k).

(** What pruning keeps of a table whose due tombstones are gone, and what it evicts. *)
Lemma eviction_partition now order s :
  NoDup order ->
  let s' := forget_all (rev (eviction_list now order s) ++ rev (List.filter (due now s) order)) s in
  List.filter (tombstone s') order ++ eviction_list now order s ≡ₚ List.filter (kept now s) order.
Proof.
  intros Hnd. cbv zeta. set (E := eviction_list now order s). set (D := List.filter (due now s) order).
  assert (Hmem : forall k, k ∈ rev E ++ rev D <-> k ∈ E \/ k ∈ D).
  { intros k. by rewrite elem_of_app, !list_elem_of_In, <- !in_rev. }
  apply NoDup_Permutation; [|by apply NoDup_List_filter|].
  - apply NoDup_app. split_and!; [by apply NoDup_List_filter| |].
    + intros k [_ Hk]%elem_filter_iff HkE. unfold tombstone in Hk. rewrite free_forget_all in Hk.
      case_bool_decide as Hin; [done|]. apply Hin, Hmem. by left.
    + unfold E, eviction_list. eapply sublist_NoDup; [|apply sublist_take].
      rewrite eviction_sorted_keys. by apply NoDup_List_filter.
  - intros k. rewrite elem_of_app, !elem_filter_iff. unfold kept, tombstone. rewrite free_forget_all.
    split.
    + intros [[Ho Hk]|Hk].
      * case_bool_decide as Hin; [done|]. split; [done|]. rewrite Hk. cbn [andb].
        apply negb_true_iff, not_true_iff_false. intros Hd. apply Hin, Hmem. right. by apply elem_filter_iff.
      * apply eviction_list_evictable in Hk as [Ho Hk]. split; [done|]. unfold evictable in Hk.
        apply andb_true_iff in Hk as [Hc Hd]. apply clean_is_tombstone in Hc. unfold tombstone in Hc. by rewrite Hc, Hd.
    + intros [Ho Hk]. apply andb_true_iff in Hk as [Ht Hd].
      destruct (decide (k ∈ E)) as [HkE|HkE]; [by right|left]. split; [done|].
      rewrite bool_decide_eq_false_2; [done|]. rewrite Hmem. intros [?|HkD]; [done|].
      apply elem_filter_iff in HkD as [_ Hd']. by rewrite Hd' in Hd.
Qed.

(** The tombstones that are not due are the evictable ones and the pinned ones. *)
Lemma kept_count now order s :
  length (List.filter (kept now s) order) =
  (length (List.filter (evictable now s) order) + length (List.filter (pinned s) order))%nat.
Proof.
  induction order as [|k order IH]; [done|]. cbn [List.filter].
  assert (Hk : kept now s k = evictable now s k || pinned s k /\ (evictable now s k && pinned s k) = false).
  { unfold kept, evictable, pinned. pose proof (due_clean now s k). pose proof (clean_is_tombstone s k).
    destruct (due now s k), (clean_tombstone s k), (tombstone s k); naive_solver. }
  destruct Hk as [-> Hx]. destruct (evictable now s k), (pinned s k); cbn [orb length]; try done; lia.
Qed.

Lemma eviction_bounds now order s :
  NoDup order ->
  let s' := forget_all (rev (eviction_list now order s) ++ rev (List.filter (due now s) order)) s in
  Zlen (List.filter (tombstone s') order) =
  Z.max (Z.min (Zlen (List.filter (kept now s) order)) maxCompletedUploadTombstones)
        (Zlen (List.filter (pinned s) order)).
Proof.
  intros Hnd. cbv zeta. pose proof (Permutation_length (eviction_partition now order s Hnd)) as Hp. cbv zeta in Hp.
  rewrite length_app in Hp. pose proof (kept_count now order s) as Hk.
  assert (HE : length (eviction_list now order s) =
    Nat.min (length (List.filter (kept now s) order) - 128) (length (List.filter (evictable now s) order))).
  { unfold eviction_list. rewrite length_take, (Permutation_length (eviction_sorted_keys now order s)).
    f_equal. unfold Zlen, maxCompletedUploadTombstones. lia. }
  unfold Zlen, maxCompletedUploadTombstones. lia.
Qed.

(** ** Properties *)

(** C11. The per-chunk checks add up: if every chunk of an upload passes
    [ValidateChunk], [ValidateUploadSizes] and [validateChunkShape] (whose int64
    products never wrap), the chunk sizes sum to exactly the declared total, and
    every chunk but the last has the declared chunk size. *)
Theorem accepted_chunks_tile chunkSize total size (current : Z -> Z) :
  1 <= total ->
  (forall n, 1 <= n <= total -> chunk_accepted n chunkSize (current n) total size) ->
  foldr Z.add 0 (current <$> (Z.of_nat <$> seq 1 (Z.to_nat total))) = size /\
  (forall n, 1 <= n < total -> current n = chunkSize) /\ 0 <= current total <= chunkSize.
Proof.
  intros Ht Hall. split_and!.
  - etransitivity; [|exact (chunk_lengths_sum chunkSize total size Ht)]. f_equal. apply list_fmap_ext.
    intros i n Hn. apply list_lookup_fmap_Some in Hn as (m & -> & Hm). apply lookup_seq in Hm as [-> ?].
    apply chunk_accepted_length, Hall. lia.
  - intros n Hn. rewrite (chunk_accepted_length _ _ _ _ _ (Hall n ltac:(lia))). unfold chunk_length.
    by replace (n =? total) with false by (symmetry; apply Z.eqb_neq; lia).
  - pose proof (upload_bounds _ _ _ _ _ (Hall total ltac:(lia))). lia.
  - pose proof (upload_bounds _ _ _ _ _ (Hall total ltac:(lia))). lia.
Qed.

Lemma accepted_chunks_tile_witness :
  let current n := if n =? 3 then 2 else 4 in
  foldr Z.add 0 (current <$> (Z.of_nat <$> seq 1 3)) = 10.
Proof.
  intros current. apply (accepted_chunks_tile 4 3 10 current); [lia|].
  intros n Hn. assert (n = 1 \/ n = 2 \/ n = 3) as [->|[->| ->]] by lia; repeat split; vm_compute; reflexivity.
Defined.

(** C12. A session key identifies its owner: two accepted identifiers yield the
    same key only for the same principal, identifier and target path, unless two
    different texts have the same SHA-256 digest. *)
Theorem boundUploadIdentifier_binds sha256 p i t p' i' t' :
  validateUploadIdentifier i = Ok tt -> validateUploadIdentifier i' = Ok tt ->
  boundUploadIdentifier sha256 p i t = boundUploadIdentifier sha256 p' i' t' ->
  (p = p' /\ i = i' /\ t = t') \/
  (sessionPreimage p i t <> sessionPreimage p' i' t' /\
   sha256 (sessionPreimage p i t) = sha256 (sessionPreimage p' i' t')).
Proof.
  intros Hi Hi' E. unfold boundUploadIdentifier in E.
  assert (Hsha : sha256 (sessionPreimage p i t) = sha256 (sessionPreimage p' i' t')).
  { apply (f_equal hex_decode) in E. rewrite !hex_decode_encode in E. congruence. }
  destruct (decide (sessionPreimage p i t = sessionPreimage p' i' t')) as [Heq|]; [left|by right].
  unfold validateUploadIdentifier, contains_byte in Hi, Hi'. repeat step_in Hi. repeat step_in Hi'. bools.
  by apply sessionPreimage_inj.
Qed.

Lemma boundUploadIdentifier_binds_witness :
  (7 = 7 /\ bs "file-1" = bs "file-1" /\ bs "/DATA/a" = bs "/DATA/a") \/
  (sessionPreimage 7 (bs "file-1") (bs "/DATA/a") <> sessionPreimage 7 (bs "file-1") (bs "/DATA/a") /\
   sessionPreimage 7 (bs "file-1") (bs "/DATA/a") = sessionPreimage 7 (bs "file-1") (bs "/DATA/a")).
Proof. apply (boundUploadIdentifier_binds (fun b => b)); vm_compute; reflexivity. Defined.

(** C13. Pruning the replay cache, when the order of the pass lists the keys of
    the table once each, whichever order that is: only free, completed sessions with clean staging are
    dropped; no expired one of those stays; the number of free completed sessions
    that remain is exactly the number of unexpired ones, cut down to 128, or the
    number that may not be dropped (staging not clean) where that is larger, so no
    entry is given up that did not have to be; and the ones given up to make room
    completed no later than the droppable ones that stay. *)
Theorem prune_bounds_tombstones now order s :
  NoDup order -> (forall k, k ∈ order <-> is_Some (uploadStatus s !! k)) ->
  let s' := pruneCompletedUploadTombstonesLocked now order s in
  store s' = store s /\ held s' = held s /\
  (forall k, uploadStatus s' !! k = uploadStatus s !! k \/
             uploadStatus s' !! k = None /\ clean_tombstone s k = true) /\
  (forall k, due now s' k = false) /\
  Zlen (List.filter (tombstone s') order) =
    Z.max (Z.min (Zlen (List.filter (kept now s) order)) 128) (Zlen (List.filter (pinned s) order)) /\
  (forall k k', is_Some (uploadStatus s !! k) -> uploadStatus s' !! k = None -> due now s k = false ->
     clean_tombstone s' k' = true -> completion_time s k <= completion_time s k').
Proof.
  intros Hnd Hcov. cbv zeta. rewrite prune_exact by done.
  set (E := eviction_list now order s). set (D := List.filter (due now s) order).
  assert (Hmem : forall k, k ∈ rev E ++ rev D <-> k ∈ E \/ k ∈ D).
  { intros k. by rewrite elem_of_app, !list_elem_of_In, <- !in_rev. }
  destruct (forget_all_rest (rev E ++ rev D) s) as (Hst & Hhe & _).
  split_and!; [done|done|..].
  - intros k. rewrite forget_all_status. case_bool_decide as Hk; [right|by left]. split; [done|].
    apply Hmem in Hk as [Hk|Hk].
    + by apply eviction_list_evictable in Hk as [_ [Hk _]%andb_true_iff].
    + apply elem_filter_iff in Hk as [_ Hk]. by eapply due_clean.
  - intros k. apply not_true_iff_false. intros Hk. pose proof Hk as Hk'.
    unfold due in Hk'. rewrite free_forget_all in Hk'. case_bool_decide as Hin; [done|].
    apply Hin, Hmem. right. apply elem_filter_iff. split; [|done].
    apply Hcov, free_in_table. by destruct (free_session s k).
  - by apply (eviction_bounds now order s).
  - intros k k' Hk Hnone Hdue Hk'.
    assert (HkE : k ∈ E).
    { rewrite forget_all_status in Hnone. case_bool_decide as Hin; [|by rewrite Hnone in Hk; destruct Hk].
      apply Hmem in Hin as [?|[_ Hd]%elem_filter_iff]; [done|congruence]. }
    unfold clean_tombstone in Hk'. rewrite free_forget_all in Hk'. case_bool_decide as Hin; [done|].
    eapply eviction_oldest; [exact HkE| |]; [|intros ?; apply Hin, Hmem; by left].
    apply elem_filter_iff. split.
    + apply Hcov, free_in_table. by destruct (free_session s k').
    + unfold evictable, clean_tombstone. rewrite Hk'. cbn [andb]. apply negb_true_iff, not_true_iff_false.
      intros Hd. apply Hin, Hmem. right. apply elem_filter_iff. split; [|done].
      apply Hcov, free_in_table. by destruct (free_session s k').
Qed.

(** A completed upload whose staging is gone. *)
Definition sample_tombstone (at_ : Z) : FileInfo :=
  {| init := false; principalID := 1; uploaded := []; chunkDigests := []; uploadedChunkNum := 0;
     base := bs "/DATA"; targetPath := bs "/DATA/a"; targetRelative := bs "a"; tempRelative := bs ".temp/t";
     tempDir := bs "/DATA/.temp/t"; assemblyPath := bs "/DATA/.temp/t/.complete"; totalChunks := 1; totalSize := 1;
     chunkSize := 1; lastActivity := at_; roots := {| rootsPtr := 1; rootsClosed := false; rootPaths := [bs "/DATA"] |};
     stagingDirectory := None; stagingParent := None; stagingName := []; cleanupErr := None; completed := true;
     completedAt := at_; completionDigest := []; completionSize := 1; completionIdentity := 0;
     completionErr := None; stagingClean := true |}.

Definition sample_table : service :=
  {| uploadStatus := {[ bs "k" := 0%nat ]}; store := {[ 0%nat := sample_tombstone 5 ]};
     held := ∅; nextSession := 1 |}.

Example sample_prune :
  uploadStatus (pruneCompletedUploadTombstonesLocked (5 + uploadCompletionTTL) [bs "k"] sample_table) !! bs "k" = Some 0%nat /\
  uploadStatus (pruneCompletedUploadTombstonesLocked (6 + uploadCompletionTTL) [bs "k"] sample_table) !! bs "k" = None.
Proof. vm_compute. done. Qed.

(** 131 tombstones completed at the times 0 to 130; the one at time 3 is not clean. *)
Definition crowded_table : service :=
  {| uploadStatus := list_to_map ((fun n => (itoa (Z.of_nat n), n)) <$> seq 0 131);
     store := list_to_map ((fun n =>
       (n, let i := sample_tombstone (Z.of_nat n) in
           if (n =? 3)%nat then set_cleanup None false i else i)) <$> seq 0 131);
     held := ∅; nextSession := 131 |}.
Definition crowded_keys : list bytes := (map_to_list (uploadStatus crowded_table)).*1.

Example crowded_prune :
  (fun k => uploadStatus (pruneCompletedUploadTombstonesLocked 200 crowded_keys crowded_table) !! bs k)
    <$> ["0"; "1"; "2"; "3"; "4"; "130"]%string
  = [None; None; None; Some 3%nat; Some 4%nat; Some 130%nat].
Proof. vm_compute. reflexivity. Qed.

Lemma prune_bounds_tombstones_witness :
  let s' := pruneCompletedUploadTombstonesLocked 200 crowded_keys crowded_table in
  Zlen (List.filter (tombstone s') crowded_keys) = 128 /\ (forall k, due 200 s' k = false).
Proof.
  destruct (prune_bounds_tombstones 200 crowded_keys crowded_table) as (_ & _ & _ & Hd & Hn & _).
  - apply NoDup_fst_map_to_list.
  - intros k. unfold crowded_keys. rewrite list_elem_of_fmap. split.
    + intros ([k' l] & -> & Hl%elem_of_map_to_list). exists l. exact Hl.
    + intros [l Hl]. exists (k, l). split; [reflexivity|]. apply elem_of_map_to_list. exact Hl.
  - split; [|exact Hd]. cbv zeta in Hn. rewrite Hn. vm_compute. reflexivity.
Defined.
