(* ===== verification/FileUpload.v ===== *)
(** * service/file_upload.go: chunks, assembly and the request handlers

    The operations a request performs while it holds a session's lock, the
    handlers [UploadFile] and [TestChunk], and the interleaving of requests as a
    step relation whose steps are the critical sections of the code. *)

From Stdlib Require Import Strings.Byte ZArith Lia String.
From stdpp Require Import base list strings sets gmap relations.
From S2P Require Import Prelude GoStd GoPath GoEncoding FileSecurity MutationError UploadWorld UploadSession.

Record serviceChunkWriteResult := { Written : Z; Published : bool; ChunkDigest : bytes }.

(** [assembled] is what went into the assembly file; the code keeps only its digest and size. *)
Record serviceAssemblyResult := {
  TargetPublished : bool; AsmDigest : bytes; AsmSize : Z; AsmIdentity : identity; assembled : bytes
}.

Definition noAssembly : serviceAssemblyResult :=
  {| TargetPublished := false; AsmDigest := []; AsmSize := 0; AsmIdentity := 0; assembled := [] |}.

(** The multipart part of a request. *)
Record file_part := { partSize : Z; partOpen : result goerr reader }.

Record upload_request := {
  rqPrincipal : Z;
  rqPath : bytes;
  rqChunkNumber : Z;
  rqChunkSize : Z;
  rqCurrentChunkSize : Z;
  rqTotalChunks : Z;
  rqTotalSize : Z;
  rqIdentifier : bytes;
  rqRelativePath : bytes;
  rqFileName : bytes;
  rqBin : option file_part
}.

(** An index outside a slice panics. *)
Definition panic_index : goerr := msg "runtime error: index out of range".

Section upload.
Context (sha256 : bytes -> bytes).
Context {W : Type} `{UploadWorld W}.

(** ** One chunk *)

Definition abort_with (out : Z) (err : option goerr) (w : W) : option goerr * W :=
  let& aborted; w := w_abort w out in (errors_join [err; aborted], w).

Definition writeValidatedServiceChunkTo (out : Z) (source : reader) (expectedSize limit : Z) (w : W)
  : serviceChunkWriteResult * option goerr * W :=
  let '(piece, copyErr, w) := w_copy w out source (limit + 1) in
  let result published := {| Written := Zlen piece; Published := published; ChunkDigest := sha256 piece |} in
  let fail err w := let '(err, w) := abort_with out err w in (result false, err, w) in
  match copyErr, closeErr source with
  | None, None =>
      if limit <? Zlen piece then fail (Some (msg "upload chunk exceeds the limit")) w
      else if negb (Zlen piece =? expectedSize) then fail (Some (msg "uploaded chunk has the wrong size")) w
      else
        let& err; w := w_sync w out in
        match err with
        | Some e => fail (Some e) w
        | None =>
            let& err; w := w_closeWriter w out in
            match err with
            | Some e => (result (ManagedMutationChanged (Some e)), Some e, w)
            | None => (result true, None, w)
            end
        end
  | _, _ => fail (errors_join [copyErr; closeErr source]) w
  end.

Definition writeValidatedServiceChunkIn (directory : Z) (name : bytes) (source : reader) (expectedSize : Z) (w : W)
  : serviceChunkWriteResult * option goerr * W :=
  let& out; w := w_createExclusiveIn w directory name in
  match out with
  | Err e => ({| Written := 0; Published := false; ChunkDigest := [] |}, errors_join [Some e; closeErr source], w)
  | Ok out => writeValidatedServiceChunkTo out source expectedSize MaxUploadChunkSize w
  end.

(** Whether the recorded chunk is still there, unchanged; a missing one is unrecorded. *)
Definition reconcileRecordedServiceChunk (i : FileInfo) (index : nat) (directory : Z) (name : bytes)
  (expectedSize : Z) (w : W) : bool * option goerr * FileInfo * W :=
  match (uploaded i !! index : option bool) with
  | Some true =>
      if negb (length (chunkDigests i) =? length (uploaded i))%nat
      then (false, Some (msg "invalid upload digest state"), i, w)
      else
        let& err; w := w_acquireMutation w in
        match err with
        | Some e => (false, Some e, i, w)
        | None =>
            let& chunk; w := w_openRegularIn w directory name in
            let '(reconciled, err, i) :=
              match chunk with
              | Err e =>
                  if is_not_exist e then
                    (false, None,
                     set_chunks (<[index := false]> (uploaded i)) (<[index := replicate 32 x00]> (chunkDigests i))
                       (if 0 <? uploadedChunkNum i then uploadedChunkNum i - 1 else uploadedChunkNum i) i)
                  else (false, Some e, i)
              | Ok chunk =>
                  match statErr chunk with
                  | Some e => (false, Some e, i)
                  | None =>
                      if negb (isRegular chunk) || negb (statSize chunk =? expectedSize)
                      then (false, Some (ErrWrap (bs "recorded upload chunk changed before retry") (fs_err ErrUnsafePath)), i)
                      else
                        let '(piece, copyErr) := limited (contents chunk) (expectedSize + 1) in
                        match errors_join [copyErr; closeErr (contents chunk)] with
                        | Some e => (false, Some e, i)
                        | None =>
                            if negb (Zlen piece =? expectedSize)
                               || negb (bool_decide (Some (sha256 piece) = chunkDigests i !! index))
                            then (false, Some (ErrWrap (bs "recorded upload chunk content changed before retry")
                                                (fs_err ErrUnsafePath)), i)
                            else (true, None, i)
                        end
                  end
              end in
            (reconciled, err, i, w_releaseMutation w)  (* the deferred release *)
        end
  | _ => (false, None, i, w)
  end.

(** ** Assembly *)

(** The loop over the chunk numbers; [acc] is what has been written so far. *)
Fixpoint assemble_chunks (numbers : list Z) (i : FileInfo) (directory out : Z) (acc : bytes) (w : W)
  : result goerr bytes * W :=
  match numbers with
  | [] => (Ok acc, w)
  | n :: rest =>
      let name := itoa n in
      let& info; w := w_statEntry w directory name in
      match info with
      | Err e => (Err e, w)
      | Ok (regular, size) =>
          if negb regular || (MaxUploadChunkSize <? size) then (Err (msg "invalid upload chunk"), w)
          else
            let& chunk; w := w_openRegularIn w directory name in
            match chunk with
            | Err e => (Err e, w)
            | Ok chunk =>
                let '(piece, copyErr, w) := w_copy w out (contents chunk) (MaxUploadChunkSize + 1) in
                match copyErr, closeErr (contents chunk) with
                | Some e, _ => (Err e, w)
                | None, Some e => (Err e, w)
                | None, None =>
                    if MaxUploadChunkSize <? Zlen piece then (Err (msg "upload chunk exceeds the limit"), w)
                    else match chunkDigests i !! Z.to_nat (n - 1) with
                         | None => (Err panic_index, w)
                         | Some digest =>
                             if negb (bool_decide (sha256 piece = digest))
                             then (Err (ErrWrap (bs "upload chunk changed before assembly") (fs_err ErrUnsafePath)), w)
                             else assemble_chunks rest i directory out (acc ++ piece) w
                         end
                end
            end
      end
  end.

Definition chunk_numbers (total : Z) : list Z := Z.of_nat <$> seq 1 (Z.to_nat total).

Definition asmOp : bytes := bs "upload assembly namespace changed before failure".

(** The part of [assembleServiceUpload] after the assembly file was created. *)
Definition assemble_into (i : FileInfo) (directory out : Z) (namespaceChanged : bool) (w : W)
  : serviceAssemblyResult * option goerr * W :=
  let unfinished result err w :=
    let '(err, w) := abort_with out (Some err) w in
    (result, changedServiceUploadErrorIf namespaceChanged asmOp err, w) in
  let& outcome; w := assemble_chunks (chunk_numbers (totalChunks i)) i directory out [] w in
  match outcome with
  | Err e => unfinished noAssembly e w
  | Ok content =>
      if negb (Zlen content =? totalSize i)
      then unfinished noAssembly (msg "assembled file has the wrong size") w
      else
        let result published id :=
          {| TargetPublished := published; AsmDigest := sha256 content; AsmSize := Zlen content;
             AsmIdentity := id; assembled := content |} in
        match MatchChild (roots i) (base i) (targetRelative i) with
        | Err e => unfinished (result false 0) e w
        | Ok checkedTarget =>
            if negb (bool_decide (Canonical checkedTarget = targetPath i))
            then unfinished (result false 0) (fs_err ErrUnsafePath) w
            else
              let& err; w := w_sync w out in
              match err with
              | Some e => unfinished (result false 0) e w
              | None =>
                  let& err; w := w_closeWriter w out in
                  match err with
                  | Some e =>
                      (result false 0,
                       changedServiceUploadErrorIf (namespaceChanged || ManagedMutationChanged (Some e)) asmOp (Some e), w)
                  | None =>
                      let& id; w := w_publishedIdentity w out in
                      match id with
                      | Err e => (result false 0, changedServiceUploadErrorIf true asmOp (Some e), w)
                      | Ok assemblyIdentity =>
                          let& err; w := w_beforeCommit w in
                          match err with
                          | Some e => (result false 0, changedServiceUploadErrorIf true asmOp (Some e), w)
                          | None =>
                              let& committed; w :=
                                w_commit w directory (bs ".complete") (targetPath i) assemblyIdentity (sha256 content) in
                              let '(id, err) := committed in
                              match err with
                              | Some e => (result (ManagedMutationChanged (Some e)) id,
                                           changedServiceUploadErrorIf true asmOp (Some e), w)
                              | None => (result true id, None, w)
                              end
                          end
                      end
                  end
              end
        end
  end.

Definition assembleServiceUpload (i : FileInfo) (w : W)
  : serviceAssemblyResult * option goerr * FileInfo * W :=
  if negb (length (chunkDigests i) =? length (uploaded i))%nat
  then (noAssembly, Some (msg "invalid upload digest state"), i, w)
  else
    let '(directory, i, w) := ensureStagingDirectory i w in
    match directory with
    | Err e => (noAssembly, Some e, i, w)
    | Ok directory =>
        let& removed; w := w_removeIn w directory (bs ".complete") in
        let proceed namespaceChanged w :=
          let& out; w := w_createExclusiveIn w directory (bs ".complete") in
          match out with
          | Err e =>
              (noAssembly, changedServiceUploadErrorIf namespaceChanged
                 (bs "old upload assembly removed before recreation failed") (Some e), i, w)
          | Ok out => let '(r, e, w) := assemble_into i directory out namespaceChanged w in (r, e, i, w)
          end in
        match removed with
        | Some e => if is_not_exist e then proceed false w else (noAssembly, Some e, i, w)
        | None => proceed true w
        end
    end.

Definition verifyCompletedServiceUpload (i : FileInfo) (w : W) : option goerr * W :=
  if negb (completed i) || (completionSize i <? 0) then (Some (msg "invalid completed upload state"), w)
  else w_verifyIdentity w (targetPath i) (completionIdentity i).

(** ** UploadFile *)

Definition principal_required : goerr := msg "authenticated upload principal is required".

(** The checks between the clean-up pass and the path resolution. *)
Definition upload_checks (rq : upload_request) : result goerr file_part :=
  let! _ := lift_fs (ValidateChunk (rqTotalChunks rq) (rqChunkNumber rq)) in
  let! _ := lift_fs (ValidateUploadSizes (rqChunkSize rq) (rqCurrentChunkSize rq) (rqTotalSize rq) (rqTotalChunks rq)) in
  let! _ := validateChunkShape (rqChunkNumber rq) (rqChunkSize rq) (rqCurrentChunkSize rq)
              (rqTotalChunks rq) (rqTotalSize rq) in
  let! _ := validateUploadIdentifier (rqIdentifier rq) in
  let! _ := validateUploadName (rqRelativePath rq) (rqFileName rq) in
  match rqBin rq with
  | None => Err (msg "file is required")
  | Some bin =>
      fail_if (partSize bin <? 0) || (MaxUploadChunkSize <? partSize bin)
              || negb (partSize bin =? rqCurrentChunkSize rq)
        with msg "uploaded chunk size does not match currentChunkSize" in
      Ok bin
  end.

(** Path resolution and the candidate session. *)
Definition upload_candidate (rq : upload_request) (rs : ManagedRoots) (now : Z) : result goerr (bytes * FileInfo) :=
  let! targetLocation := MatchChild rs (rqPath rq) (rqRelativePath rq) in
  let! baseLocation := Match rs (rqPath rq) in
  let target := Canonical targetLocation in
  let basePath := Canonical baseLocation in
  let key := boundUploadIdentifier sha256 (rqPrincipal rq) (rqIdentifier rq) target in
  let tempRel := path_join (bs ".temp") (bs "v2-upload-" ++ key) in
  let! tempLocation := MatchChild rs basePath tempRel in
  let! chunkLocation := MatchChild rs basePath (path_join tempRel (itoa (rqChunkNumber rq))) in
  let! assemblyLocation := MatchChild rs basePath (path_join tempRel (bs ".complete")) in
  Ok (key,
      {| init := true; principalID := rqPrincipal rq;
         uploaded := replicate (Z.to_nat (rqTotalChunks rq)) false;
         chunkDigests := replicate (Z.to_nat (rqTotalChunks rq)) (replicate 32 x00);
         uploadedChunkNum := 0; base := basePath; targetPath := target;
         targetRelative := clean (rqRelativePath rq); tempRelative := tempRel;
         tempDir := Canonical tempLocation; assemblyPath := Canonical assemblyLocation;
         totalChunks := rqTotalChunks rq; totalSize := rqTotalSize rq; chunkSize := rqChunkSize rq;
         lastActivity := now; roots := rs; stagingDirectory := None; stagingParent := None;
         stagingName := []; cleanupErr := None; completed := false; completedAt := 0;
         completionDigest := replicate 32 x00; completionSize := 0; completionIdentity := 0;
         completionErr := None; stagingClean := false |}).

(** How the locked part of the handler ends: return, or delete the session and
    combine the clean-up error. *)
Inductive verdict :=
| Return (err : option goerr)
| DeleteThen (requestChanged : bool) (finish : option goerr -> option goerr).

Definition changed_op (op : string) (e : option goerr) : option goerr :=
  changedServiceUploadErrorIf true (bs op) e.

Definition delete_with (requestChanged : bool) (err : option goerr) : verdict :=
  DeleteThen requestChanged (fun cleanup => errors_join [err; cleanup]).

(** Lines 408-445: all chunks are there. *)
Definition finish_upload (i : FileInfo) (writeErr : option goerr) (w : W) : verdict * FileInfo * W :=
  let& release; w := w_reserveSpace w (path_dir (assemblyPath i)) (totalSize i) in
  match release with
  | Err e =>
      (Return (changedServiceUploadError (bs "upload chunks published before assembly space admission failed")
                 (errors_join [writeErr; Some e])), i, w)
  | Ok token =>
      let '(r, assemblyErr, i, w) := assembleServiceUpload i w in
      let w := w_releaseSpace w token in
      let '(i, w) :=
        if TargetPublished r then
          let& now; w := w_now w in
          (set_completed now (AsmDigest r) (AsmSize r) (AsmIdentity r) assemblyErr i, w)
        else (i, w) in
      let i := set_init false i in
      match assemblyErr with
      | Some _ =>
          (delete_with true (changedServiceUploadError (bs "upload chunk published before assembly failed")
             (errors_join [writeErr; assemblyErr])), i, w)
      | None =>
          if negb (TargetPublished r)
          then (delete_with true (Some (msg "upload assembly completed without publishing its target")), i, w)
          else (DeleteThen true (fun _ => None), i, w)
      end
  end.

(** Record a published chunk. *)
Definition record_chunk (index : nat) (digest : bytes) (i : FileInfo) : FileInfo :=
  match (uploaded i !! index : option bool) with
  | Some false =>
      set_chunks (<[index := true]> (uploaded i)) (<[index := digest]> (chunkDigests i)) (uploadedChunkNum i + 1) i
  | _ => set_chunks (uploaded i) (<[index := digest]> (chunkDigests i)) (uploadedChunkNum i) i
  end.

(** Lines 351-445: the staging directory is pinned. *)
Definition store_chunk (rq : upload_request) (bin : file_part) (chunkPath : bytes) (directory : Z)
  (i : FileInfo) (w : W)
  : verdict * FileInfo * W :=
  let& now; w := w_now w in
  let i := set_activity now (set_cleanup (cleanupErr i) false i) in
  let index := Z.to_nat (rqChunkNumber rq - 1) in
  let name := itoa (rqChunkNumber rq) in
  match (uploaded i !! index : option bool) with
  | None => (Return (Some panic_index), i, w)
  | Some recorded =>
      let '(reconciled, err, i, w) :=
        if recorded then reconcileRecordedServiceChunk i index directory name (rqCurrentChunkSize rq) w
        else (false, None, i, w) in
      match err with
      | Some _ =>
          (Return (changed_op "upload namespace changed before recorded chunk reconciliation failed" err), i, w)
      | None =>
          let complete (writeErr : option goerr) (i : FileInfo) (w : W) : verdict * FileInfo * W :=
            if negb (uploadedChunkNum i =? rqTotalChunks rq) then (Return writeErr, i, w)
            else finish_upload i writeErr w in
          if reconciled then complete None i w
          else
            match partOpen bin with
            | Err e => (Return (changed_op "upload namespace changed before multipart chunk open failed" (Some e)), i, w)
            | Ok source =>
                let& release; w := w_reserveSpace w (path_dir chunkPath) (rqCurrentChunkSize rq) in
                match release with
                | Err e =>
                    (Return (changed_op "upload directories may have changed before chunk space admission failed"
                       (errors_join [Some e; closeErr source])), i, w)
                | Ok token =>
                    let '(r, writeErr, w) :=
                      writeValidatedServiceChunkIn directory name source (rqCurrentChunkSize rq) w in
                    let w := w_releaseSpace w token in
                    if negb (Published r) then
                      match writeErr with
                      | Some _ =>
                          (Return (changed_op "upload namespace changed before chunk publication failed" writeErr), i, w)
                      | None =>
                          (Return (changed_op "upload namespace changed before chunk publication was confirmed"
                             (Some (msg "validated upload chunk was not published"))), i, w)
                      end
                    else complete writeErr (record_chunk index (ChunkDigest r) i) w
                end
            end
      end
  end.

(** Lines 272-445: what a request does while it holds the session lock. *)
Definition upload_locked (rq : upload_request) (bin : file_part) (candidate i : FileInfo) (w : W)
  : verdict * FileInfo * W :=
  if completed i then
    if negb (sameServiceUploadMetadata i candidate)
    then (Return (Some (msg "identifier is already bound to a completed upload with different metadata")), i, w)
    else
      let& err; w := verifyCompletedServiceUpload i w in
      match err with
      | Some e => (Return (Some e), i, w)
      | None => let& now; w := w_now w in (Return (completionErr i), set_activity now i, w)
      end
  else if negb (init i) then
    (Return (match cleanupErr i with Some e => Some e | None => Some (msg "upload session cleanup is pending") end), i, w)
  else if negb (sameServiceUploadMetadata i candidate) then
    (Return (Some (msg "identifier is already bound to different upload metadata")), i, w)
  else if negb (length (chunkDigests i) =? length (uploaded i))%nat then
    (Return (Some (msg "invalid upload digest state")), i, w)
  else
    match MatchChild (roots i) (base i) (path_join (tempRelative i) (itoa (rqChunkNumber rq))) with
    | Err e => (Return (Some (ErrWrap (bs "resolve bound upload chunk") e)), i, w)
    | Ok chunkLocation =>
        let hadPublishedChunks := 0 <? uploadedChunkNum i in
        let& err; w := w_mkdirAll w (path_dir (targetPath i)) in
        match err with
        | Some e =>
            let requestChanged := hadPublishedChunks || ManagedMutationChanged (Some e) in
            (delete_with requestChanged
               (changedServiceUploadErrorIf requestChanged
                  (bs "upload session changed before target parent creation failed") (Some e)), set_init false i, w)
        | None =>
            let moved e :=
              (delete_with true (changed_op "target path changed after parent creation" (Some e)), set_init false i, w) in
            match MatchChild (roots i) (base i) (targetRelative i) with
            | Err e => moved e
            | Ok checkedTarget =>
                if negb (bool_decide (Canonical checkedTarget = targetPath i)) then moved (fs_err ErrUnsafePath)
                else
                  let& err; w := w_mkdirAll w (tempDir i) in
                  match err with
                  | Some e =>
                      (delete_with true (changed_op "target parent created before upload staging creation failed" (Some e)),
                       set_init false i, w)
                  | None =>
                      let '(directory, i, w) := ensureStagingDirectory i w in
                      match directory with
                      | Err e =>
                          (delete_with true (changed_op "upload staging directory could not be pinned" (Some e)),
                           set_init false i, w)
                      | Ok directory => store_chunk rq bin (Canonical chunkLocation) directory i w
                      end
                  end
            end
        end
    end.

(** One request running alone; [orders] are the map orders of its passes. *)
Definition UploadFile (rq : upload_request) (o1 o2 o3 o4 : list bytes) (s : service) (w : W)
  : option goerr * service * W :=
  if rqPrincipal rq <? 1 then (Some principal_required, s, w)
  else
    let& now; w := w_now w in
    let '(s, w) := cleanupExpiredUploads now o1 o2 s w in
    match upload_checks rq with
    | Err e => (Some e, s, w)
    | Ok bin =>
        let& rs; w := w_roots w in
        match rs with
        | Err e => (Some e, s, w)
        | Ok rs =>
            let& now; w := w_now w in
            match upload_candidate rq rs now with
            | Err e => (Some e, s, w)
            | Ok (key, candidate) =>
                let '(session, s, w) := getOrCreateUploadSession key candidate o3 s w in
                match session with
                | Err e => (Some e, s, w)
                | Ok (l, _) =>
                    match store s !! l with
                    | None => (Some panic_index, s, w)
                    | Some i =>
                        let '(v, i, w) := upload_locked rq bin candidate i w in
                        let s := with_info l i s in
                        match v with
                        | Return e => (e, s, w)
                        | DeleteThen requestChanged finish =>
                            let '(e, s, w) := deleteUploadSession key l requestChanged o4 s w in
                            (finish e, s, w)
                        end
                    end
                end
            end
        end
    end.

(** ** TestChunk, after its clean-up pass *)

Definition test_locked (rs : ManagedRoots) (principal : Z) (basePath target targetRel : bytes) (chunkNumber : Z)
  (i : FileInfo) (w : W) : option goerr * FileInfo * W :=
  if negb (sameServiceUploadNamespace i principal rs basePath target targetRel)
     || (negb (init i) && negb (completed i))
  then (Some (msg "file not initialized"), i, w)
  else
    let& now; w := w_now w in
    let i := set_activity now i in
    match ValidateChunk (totalChunks i) chunkNumber with
    | Err e => (Some (fs_err e), i, w)
    | Ok _ =>
        if completed i then
          let& err; w := verifyCompletedServiceUpload i w in
          match err with Some e => (Some e, i, w) | None => (completionErr i, i, w) end
        else if uploadedChunkNum i =? totalChunks i then (Some (msg "upload assembly is pending"), i, w)
        else match (uploaded i !! Z.to_nat (chunkNumber - 1) : option bool) with
             | None => (Some panic_index, i, w)
             | Some recorded => (if recorded then None else Some (msg "file not found"), i, w)
             end
    end.

Definition TestChunk (principal : Z) (identifier path relativePath : bytes) (chunkNumber : Z)
  (o1 o2 : list bytes) (s : service) (w : W) : option goerr * service * W :=
  if principal <? 1 then (Some principal_required, s, w)
  else
    let& now; w := w_now w in
    let '(s, w) := cleanupExpiredUploads now o1 o2 s w in
    match validateUploadIdentifier identifier with
    | Err e => (Some e, s, w)
    | Ok _ =>
        let& rs; w := w_roots w in
        match rs with
        | Err e => (Some e, s, w)
        | Ok rs =>
            match MatchChild rs path relativePath with
            | Err e => (Some e, s, w)
            | Ok targetLocation =>
                match Match rs path with
                | Err e => (Some e, s, w)
                | Ok baseLocation =>
                    let key := boundUploadIdentifier sha256 principal identifier (Canonical targetLocation) in
                    match uploadStatus s !! key with
                    | None => (Some (msg "file not found"), s, w)
                    | Some l =>
                        match store s !! l with
                        | None => (Some (msg "invalid upload state"), s, w)
                        | Some i =>
                            let '(e, i, w) := test_locked rs principal (Canonical baseLocation)
                              (Canonical targetLocation) (clean relativePath) chunkNumber i w in
                            (e, with_info l i s, w)
                        end
                    end
                end
            end
        end
    end.
End upload.

(** ** Invariants of a session *)

Definition count_true (l : list bool) : Z := Zlen (List.filter id l).

(** The number of recorded chunks is the number of marks; every mark comes with
    the digest of a piece of exactly the length that chunk must have; a completed
    session keeps no per-chunk state. *)
Definition info_ok (sha256 : bytes -> bytes) (i : FileInfo) : Prop :=
  if completed i then uploaded i = [] /\ chunkDigests i = [] /\ uploadedChunkNum i = 0
  else
    1 <= totalChunks i /\ Zlen (uploaded i) = totalChunks i /\ length (chunkDigests i) = length (uploaded i) /\
    uploadedChunkNum i = count_true (uploaded i) /\
    forall n, uploaded i !! n = Some true ->
      exists piece, chunkDigests i !! n = Some (sha256 piece) /\
        Zlen piece = chunk_length (chunkSize i) (totalChunks i) (totalSize i) (Z.of_nat n + 1).

(** What never changes in a session, and what is final once it is completed. *)
Definition same_session (i i' : FileInfo) : Prop :=
  principalID i' = principalID i /\ roots i' = roots i /\ base i' = base i /\ targetPath i' = targetPath i /\
  targetRelative i' = targetRelative i /\ tempRelative i' = tempRelative i /\ tempDir i' = tempDir i /\
  assemblyPath i' = assemblyPath i /\ totalChunks i' = totalChunks i /\ totalSize i' = totalSize i /\
  chunkSize i' = chunkSize i /\
  (completed i = true -> completed i' = true /\ completedAt i' = completedAt i /\
     completionDigest i' = completionDigest i /\ completionSize i' = completionSize i /\
     completionIdentity i' = completionIdentity i).

#[export] Instance same_session_preorder : PreOrder same_session.
Proof.
  split; [intros i; unfold same_session; split_and!; done|].
  intros i j k Hij Hjk. unfold same_session in *.
  destruct Hij as (?&?&?&?&?&?&?&?&?&?&?&Hc1), Hjk as (?&?&?&?&?&?&?&?&?&?&?&Hc2).
  split_and!; try congruence. intros Hc. destruct (Hc1 Hc) as (Hc' & ? & ? & ? & ?).
  destruct (Hc2 Hc') as (? & ? & ? & ? & ?). split_and!; congruence.
Qed.

Create HintDb upload.

Lemma set_init_same b i : same_session i (set_init b i).
Proof. unfold same_session. split_and!; done. Qed.
Lemma set_chunks_same u d n i : same_session i (set_chunks u d n i).
Proof. unfold same_session. split_and!; done. Qed.
Lemma set_activity_same t i : same_session i (set_activity t i).
Proof. unfold same_session. split_and!; done. Qed.
Lemma set_staging_same d p n i : same_session i (set_staging d p n i).
Proof. unfold same_session. split_and!; done. Qed.
Lemma set_cleanup_same e c i : same_session i (set_cleanup e c i).
Proof. unfold same_session. split_and!; done. Qed.
Lemma set_completed_same t d z id e i : completed i = false -> same_session i (set_completed t d z id e i).
Proof. intros Hc. unfold same_session. split_and!; try done. by rewrite Hc. Qed.
#[export] Hint Resolve set_init_same set_chunks_same set_activity_same set_staging_same set_cleanup_same
  set_completed_same : upload.

Lemma count_true_insert (l : list bool) n (b c : bool) :
  l !! n = Some b ->
  count_true (<[n := c]> l) = count_true l + (if c then 1 else 0) - (if b then 1 else 0).
Proof.
  unfold count_true, Zlen. revert n. induction l as [|x l IH]; intros [|n] Hn; simplify_eq/=.
  - destruct b, c; simpl; lia.
  - specialize (IH n Hn). destruct x; simpl; lia.
Qed.

Lemma count_true_bounds l : 0 <= count_true l <= Zlen l.
Proof. unfold count_true, Zlen. pose proof (List.filter_length_le id l). lia. Qed.

Lemma count_true_pos l n : l !! n = Some true -> 0 < count_true l.
Proof.
  intros Hn. pose proof (count_true_insert l n true false Hn) as E. cbv iota in E.
  pose proof (count_true_bounds (<[n := false]> l)). lia.
Qed.

Lemma count_true_full l : count_true l = Zlen l -> l = replicate (length l) true.
Proof.
  unfold count_true, Zlen. induction l as [|[|] l IH]; intros Hl; [done|..]; cbn in *.
  - f_equal. apply IH. lia.
  - pose proof (List.filter_length_le id l). lia.
Qed.

Section session_facts.
Context (sha256 : bytes -> bytes).

Lemma set_completed_ok t d z id e i : info_ok sha256 (set_completed t d z id e i).
Proof. done. Qed.

(** Forgetting a recorded chunk. *)
Lemma unrecord_ok index i :
  completed i = false -> info_ok sha256 i -> uploaded i !! index = Some true ->
  info_ok sha256
    (set_chunks (<[index := false]> (uploaded i)) (<[index := replicate 32 x00]> (chunkDigests i))
       (if 0 <? uploadedChunkNum i then uploadedChunkNum i - 1 else uploadedChunkNum i) i).
Proof.
  intros Hc Hi Hu. unfold info_ok in *. cbn [completed set_chunks uploaded chunkDigests uploadedChunkNum totalChunks chunkSize totalSize].
  rewrite Hc in *. destruct Hi as (Ht & Hl & Hd & Hn & Hp). pose proof (count_true_pos _ _ Hu).
  replace (0 <? uploadedChunkNum i) with true by (symmetry; apply Z.ltb_lt; lia).
  split_and!; [done|unfold Zlen in *; by rewrite length_insert|by rewrite !length_insert| |].
  - rewrite (count_true_insert _ _ true) by done. cbv iota. lia.
  - intros n Hn'. destruct (decide (n = index)) as [->|Hne].
    + rewrite list_lookup_insert_eq in Hn' by (by eapply lookup_lt_Some). done.
    + rewrite list_lookup_insert_ne in Hn' by done. rewrite list_lookup_insert_ne by done. by apply Hp.
Qed.

Lemma record_chunk_ok index piece i :
  completed i = false -> info_ok sha256 i -> (index < length (uploaded i))%nat ->
  Zlen piece = chunk_length (chunkSize i) (totalChunks i) (totalSize i) (Z.of_nat index + 1) ->
  info_ok sha256 (record_chunk index (sha256 piece) i) /\
  uploaded (record_chunk index (sha256 piece) i) !! index = Some true /\
  chunkDigests (record_chunk index (sha256 piece) i) !! index = Some (sha256 piece) /\
  same_session i (record_chunk index (sha256 piece) i).
Proof.
  intros Hc Hi Hlt Hlen. unfold record_chunk. pose proof Hi as Hi'. unfold info_ok in Hi'. rewrite Hc in Hi'.
  destruct Hi' as (Ht & Hl & Hd & Hn & Hp).
  destruct (uploaded i !! index) as [b|] eqn:Eu; [|by apply lookup_ge_None in Eu; lia].
  assert (Hdl : (index < length (chunkDigests i))%nat) by lia.
  destruct b; cbn [set_chunks uploaded chunkDigests]; (split_and!;
    [|first [done|by rewrite list_lookup_insert_eq]|by rewrite list_lookup_insert_eq|apply set_chunks_same]);
    unfold info_ok; cbn [completed set_chunks uploaded chunkDigests uploadedChunkNum totalChunks chunkSize totalSize];
    rewrite Hc; split_and!; try done.
  - by rewrite length_insert.
  - intros n Hn'. destruct (decide (n = index)) as [->|Hne].
    + exists piece. by rewrite list_lookup_insert_eq.
    + rewrite list_lookup_insert_ne by done. by apply Hp.
  - unfold Zlen in *. by rewrite length_insert.
  - by rewrite !length_insert.
  - rewrite (count_true_insert _ _ false) by done. cbv iota. lia.
  - intros n Hn'. destruct (decide (n = index)) as [->|Hne].
    + exists piece. by rewrite list_lookup_insert_eq.
    + rewrite list_lookup_insert_ne in Hn' by done. rewrite list_lookup_insert_ne by done. by apply Hp.
Qed.

(** Changes that leave the per-chunk state alone. *)
Definition quiet (i i' : FileInfo) : Prop :=
  same_session i i' /\ completed i' = completed i /\ uploaded i' = uploaded i /\
  chunkDigests i' = chunkDigests i /\ uploadedChunkNum i' = uploadedChunkNum i.

Lemma quiet_ok i i' : quiet i i' -> info_ok sha256 i -> info_ok sha256 i'.
Proof.
  intros ((_&_&_&_&_&_&_&_&Ht&Hs&Hz&_) & Hc & Hu & Hd & Hn) Hi. unfold info_ok in *.
  by rewrite Hc, Hu, Hd, Hn, Ht, Hs, Hz.
Qed.

Lemma quiet_refl i : quiet i i.
Proof. unfold quiet. split_and!; done. Qed.

Lemma quiet_trans i j k : quiet i j -> quiet j k -> quiet i k.
Proof.
  intros (Ha & Hb & Hc & Hd & He) (Ha' & Hb' & Hc' & Hd' & He'). unfold quiet.
  split_and!; [by etrans|congruence..].
Qed.

(** The per-chunk state of every chunk but the one at [index] is the same. *)
Definition elsewhere (index : nat) (i i' : FileInfo) : Prop :=
  length (uploaded i') = length (uploaded i) /\ length (chunkDigests i') = length (chunkDigests i) /\
  forall n, n <> index -> uploaded i' !! n = uploaded i !! n /\ chunkDigests i' !! n = chunkDigests i !! n.

#[export] Instance elsewhere_preorder index : PreOrder (elsewhere index).
Proof.
  split; [by intros i; split_and!|]. intros i j k (Ha & Hb & Hc) (Ha' & Hb' & Hc'). split_and!; [congruence..|].
  intros n Hn. destruct (Hc n Hn), (Hc' n Hn). split; congruence.
Qed.

Lemma quiet_elsewhere index i i' : quiet i i' -> elsewhere index i i'.
Proof. intros (_ & _ & Hu & Hd & _). unfold elsewhere. by rewrite Hu, Hd. Qed.

Lemma elsewhere_set_chunks index b d n i :
  elsewhere index i (set_chunks (<[index := b]> (uploaded i)) (<[index := d]> (chunkDigests i)) n i).
Proof.
  split_and!; cbn [set_chunks uploaded chunkDigests]; [apply length_insert..|].
  intros m Hm. by rewrite !list_lookup_insert_ne.
Qed.

Lemma insert_elsewhere {A} (index : nat) (l l' : list A) x :
  length l' = length l -> (forall n, n <> index -> l' !! n = l !! n) -> l' !! index = Some x -> l' = <[index := x]> l.
Proof.
  intros Hl Hn Hx. apply list_eq. intros n. destruct (decide (n = index)) as [->|Hne].
  - rewrite list_lookup_insert_eq; [done|]. apply lookup_lt_Some in Hx. lia.
  - rewrite list_lookup_insert_ne by done. by apply Hn.
Qed.

Lemma quiet_set_init b i : quiet i (set_init b i).
Proof. unfold quiet. split_and!; auto with upload. Qed.
Lemma quiet_expire (b : bool) i : quiet i (if b then set_init false i else i).
Proof. destruct b; [apply quiet_set_init|apply quiet_refl]. Qed.
Lemma quiet_set_activity t i : quiet i (set_activity t i).
Proof. unfold quiet. split_and!; auto with upload. Qed.
Lemma quiet_set_staging d p n i : quiet i (set_staging d p n i).
Proof. unfold quiet. split_and!; auto with upload. Qed.
Lemma quiet_set_cleanup e c i : quiet i (set_cleanup e c i).
Proof. unfold quiet. split_and!; auto with upload. Qed.
End session_facts.

#[export] Hint Resolve quiet_refl quiet_set_init quiet_set_activity quiet_set_staging quiet_set_cleanup : upload.

(** Open the answers of the world in a hypothesis. *)
Ltac world_in H :=
  match type of H with
  | context [match w_now ?w with _ => _ end] => destruct (w_now w) as [? ?] eqn:?
  | context [match ?c with pair _ _ => _ end] => destruct c as [? ?] eqn:?
  end.
Ltac run_in H := repeat (first [step_in H | world_in H]); simplify_eq.

Section world_facts.
Context (sha256 : bytes -> bytes) {W : Type} `{UploadWorld W}.

Lemma ensureStagingDirectory_quiet i (w w' : W) r i' :
  ensureStagingDirectory i w = (r, i', w') -> quiet i i'.
Proof. unfold ensureStagingDirectory. intros E. run_in E; auto with upload. Qed.

Lemma cleanupUploadStaging_quiet i (w w' : W) e i' :
  cleanupUploadStaging i w = (e, i', w') -> quiet i i'.
Proof. unfold cleanupUploadStaging, closeStagingDirectory. intros E. run_in E; auto with upload. Qed.

(** What the assembly loop has written when it succeeds. *)
Definition staged (i : FileInfo) (n : Z) (piece : bytes) : Prop :=
  chunkDigests i !! Z.to_nat (n - 1) = Some (sha256 piece) /\ Zlen piece <= MaxUploadChunkSize.

Lemma assemble_chunks_staged numbers i directory out acc (w w' : W) content :
  assemble_chunks sha256 numbers i directory out acc w = (Ok content, w') ->
  exists pieces, content = acc ++ concat pieces /\ Forall2 (staged i) numbers pieces.
Proof.
  revert acc w. induction numbers as [|n rest IH]; intros acc w E; cbn [assemble_chunks] in E.
  - simplify_eq. exists []. rewrite app_nil_r. split; [done|constructor].
  - destruct (w_statEntry _ _ _) as [[[regular size]|] w1]; [|done]. step_in E.
    destruct (w_openRegularIn _ _ _) as [[chunk|] w2]; [|done].
    destruct (w_copy _ _ _ _) as [[piece copyErr] w3]. destruct copyErr; [done|].
    destruct (closeErr _); [done|]. step_in E. destruct (chunkDigests i !! _) as [digest|] eqn:Ed; [|done].
    step_in E. bools. subst digest. apply IH in E as (pieces & -> & Hp).
    exists (piece :: pieces). split; [by rewrite <- app_assoc|]. constructor; [|done]. split; [done|lia].
Qed.

Lemma assemble_into_published i directory out nc (w w' : W) r e :
  assemble_into sha256 i directory out nc w = (r, e, w') -> TargetPublished r = true ->
  (exists pieces, assembled r = concat pieces /\ Forall2 (staged i) (chunk_numbers (totalChunks i)) pieces) /\
  AsmDigest r = sha256 (assembled r) /\ AsmSize r = Zlen (assembled r) /\ AsmSize r = totalSize i.
Proof.
  unfold assemble_into, abort_with. intros E Hp.
  destruct (assemble_chunks _ _ _ _ _ _ _) as [[content|] w1] eqn:Ea; [|by run_in E].
  apply assemble_chunks_staged in Ea as (pieces & Hc & Hf). cbn [app] in Hc.
  step_in E; [by run_in E|]. bools.
  assert (Hr : assembled r = content /\ AsmDigest r = sha256 content /\ AsmSize r = Zlen content) by (run_in E; done).
  destruct Hr as (-> & -> & ->). split_and!; eauto.
Qed.

Lemma assembleServiceUpload_facts i (w w' : W) r e i' :
  assembleServiceUpload sha256 i w = (r, e, i', w') ->
  quiet i i' /\
  (TargetPublished r = true ->
   (exists pieces, assembled r = concat pieces /\ Forall2 (staged i) (chunk_numbers (totalChunks i)) pieces) /\
   AsmDigest r = sha256 (assembled r) /\ AsmSize r = Zlen (assembled r) /\ AsmSize r = totalSize i).
Proof.
  unfold assembleServiceUpload. intros E. step_in E; [by simplify_eq; auto with upload|].
  destruct (ensureStagingDirectory i w) as [[d i1] w1] eqn:Es.
  pose proof (ensureStagingDirectory_quiet _ _ _ _ _ Es) as Hq. clear Es.
  destruct d as [d|]; [|by simplify_eq].
  assert (Hst : forall n p, staged i1 n p <-> staged i n p).
  { intros n p. unfold staged. by destruct Hq as (_ & _ & _ & -> & _). }
  assert (Ht : totalChunks i1 = totalChunks i /\ totalSize i1 = totalSize i).
  { by destruct Hq as ((_&_&_&_&_&_&_&_&Ht&Hs&_) & _). }
  destruct Ht as [Ht Hsz].
  assert (Hinto : forall out nc wa wb r e, assemble_into sha256 i1 d out nc wa = (r, e, wb) ->
    TargetPublished r = true ->
    (exists pieces, assembled r = concat pieces /\ Forall2 (staged i) (chunk_numbers (totalChunks i)) pieces) /\
    AsmDigest r = sha256 (assembled r) /\ AsmSize r = Zlen (assembled r) /\ AsmSize r = totalSize i).
  { intros out nc wa wb r0 e0 Ei Hp. destruct (assemble_into_published _ _ _ _ _ _ _ _ Ei Hp) as ((ps & Hc & Hf) & ? & ? & ?).
    rewrite Ht in Hf. split_and!; [|done|done|congruence]. exists ps. split; [done|].
    eapply Forall2_impl; [exact Hf|]. intros. by apply Hst. }
  clear Hst. run_in E; (split; [done|]); try done; intros; eauto.
Qed.

(** [i'] comes after [i]: same session, still well formed, same number of slots. *)
Definition follows (i i' : FileInfo) : Prop :=
  same_session i i' /\ (info_ok sha256 i -> info_ok sha256 i').

Lemma follows_refl i : follows i i.
Proof. by split. Qed.

Lemma follows_trans i j k : follows i j -> follows j k -> follows i k.
Proof. intros [Ha Hb] [Hc Hd]. split; [by etrans|auto]. Qed.

Lemma quiet_follows i i' : quiet i i' -> follows i i'.
Proof. intros Hq. split; [apply Hq|]. by apply quiet_ok. Qed.

(** A recorded chunk: marked, with the digest of a piece of the demanded length. *)
Definition recorded (i : FileInfo) (index : nat) (size : Z) : Prop :=
  uploaded i !! index = Some true /\
  exists piece, chunkDigests i !! index = Some (sha256 piece) /\ Zlen piece = size.

Lemma reconcile_facts i index directory name expected (w w' : W) b e i' :
  reconcileRecordedServiceChunk sha256 i index directory name expected w = (b, e, i', w') ->
  completed i = false ->
  follows i i' /\ completed i' = false /\ elsewhere index i i' /\
  (b = true -> i' = i /\ recorded i index expected).
Proof.
  unfold reconcileRecordedServiceChunk. intros E Hc.
  destruct (uploaded i !! index) as [[|]|] eqn:Eu; [|by simplify_eq; split_and!; auto using follows_refl..].
  assert (Hid : forall b0, (b0 = false \/ recorded i index expected) ->
     follows i i /\ completed i = false /\ elsewhere index i i /\
     (b0 = true -> i = i /\ recorded i index expected)).
  { intros b0 [->|?]; split_and!; auto using follows_refl; done. }
  set (num := if 0 <? uploadedChunkNum i then uploadedChunkNum i - 1 else uploadedChunkNum i) in E.
  step_in E; [simplify_eq; by apply Hid; left|].
  destruct (w_acquireMutation w) as [[ea|] w1]; [simplify_eq; by apply Hid; left|].
  destruct (w_openRegularIn w1 directory name) as [chunk w2].
  set (R := match chunk with Ok _ => _ | Err _ => _ end) in E. destruct R as [[b0 e0] i0] eqn:ER. subst R. simplify_eq.
  run_in ER; try (by apply Hid; left).
  - apply Hid. right. split; [done|]. bools. eexists. split; [symmetry; eassumption|lia].
  - split_and!; [|done|apply elsewhere_set_chunks|done]. split; [apply set_chunks_same|].
    intros Hi. by apply unrecord_ok.
Qed.

Lemma writeIn_published directory name source expected (w w' : W) r e :
  writeValidatedServiceChunkIn sha256 directory name source expected w = (r, e, w') ->
  Published r = true -> ChunkDigest r = sha256 (data source) /\ Zlen (data source) = expected.
Proof.
  unfold writeValidatedServiceChunkIn, writeValidatedServiceChunkTo, abort_with, w_copy. intros E Hp.
  destruct (w_createExclusiveIn _ _ _) as [[out|] w1]; [|by simplify_eq].
  destruct (limited source _) as [piece rerr] eqn:El. destruct (w_write w1 out piece) as [failure w2].
  assert (Hpiece : (MaxUploadChunkSize <? Zlen piece) = false -> piece = data source).
  { intros Hle. unfold limited in El. step_in El; simplify_eq; [done|]. bools. exfalso.
    unfold Zlen, MaxUploadChunkSize in *. rewrite length_take in Hle. lia. }
  destruct failure as [[n e0]|]; [by destruct (closeErr source); run_in E|].
  destruct rerr, (closeErr source); try (by run_in E).
  step_in E; [by run_in E|]. rewrite <- Hpiece by done. run_in E; try done; bools; split; done || lia.
Qed.

(** The request passed the checks of [upload_checks] and built [candidate]. *)
Definition request_matches (rq : upload_request) (candidate : FileInfo) : Prop :=
  chunk_accepted (rqChunkNumber rq) (rqChunkSize rq) (rqCurrentChunkSize rq) (rqTotalChunks rq) (rqTotalSize rq) /\
  totalChunks candidate = rqTotalChunks rq /\ totalSize candidate = rqTotalSize rq /\
  chunkSize candidate = rqChunkSize rq.

Lemma finish_upload_facts i writeErr (w w' : W) v i' :
  finish_upload sha256 i writeErr w = (v, i', w') -> completed i = false ->
  follows i i' /\ (completed i' = false -> quiet i i') /\
  match v with
  | Return e => e <> None /\ completed i' = false
  | DeleteThen _ finish =>
      finish None = None ->
      completed i' = true /\ completionSize i' = totalSize i /\
      exists pieces, Forall2 (staged i) (chunk_numbers (totalChunks i)) pieces /\
        completionDigest i' = sha256 (concat pieces) /\ Zlen (concat pieces) = totalSize i
  end.
Proof.
  unfold finish_upload. intros E Hc. destruct (w_reserveSpace _ _ _) as [[token|] w1]; [|].
  2: { simplify_eq. split_and!; [apply follows_refl|auto with upload|by destruct writeErr|done]. }
  destruct (assembleServiceUpload _ i w1) as [[[r assemblyErr] i1] w2] eqn:Ea.
  apply assembleServiceUpload_facts in Ea as [Hq Hpub].
  assert (Hc1 : completed i1 = false) by (destruct Hq as (_ & -> & _); done).
  destruct (TargetPublished r) eqn:Ep.
  - destruct (w_now _) as [now w3].
    set (i2 := set_completed now (AsmDigest r) (AsmSize r) (AsmIdentity r) assemblyErr i1) in E.
    assert (Hf : follows i (set_init false i2)).
    { eapply follows_trans; [apply quiet_follows, Hq|].
      eapply (follows_trans _ i2); [|apply quiet_follows; auto with upload].
      split; [by apply set_completed_same|]. intros _. apply set_completed_ok. }
    destruct (Hpub eq_refl) as ((pieces & Hcat & Hst) & Hd & Hz & Ht).
    destruct assemblyErr; cbn [negb] in E; simplify_eq; (split_and!; [done|done|]); cbn [delete_with negb]; [|intros _].
    + intros Hn. by destruct writeErr.
    + split_and!; [done|cbn; congruence|]. exists pieces. cbn. rewrite <- Hcat. split_and!; [done|done|congruence].
  - assert (Hf : follows i (set_init false i1)).
    { eapply follows_trans; apply quiet_follows; [exact Hq|auto with upload]. }
    assert (Hq' : quiet i (set_init false i1)) by (eapply quiet_trans; [exact Hq|auto with upload]).
    destruct assemblyErr; cbn [negb] in E; simplify_eq; (split_and!; [done|done|]); intros Hn; exfalso; by destruct writeErr.
Qed.

Lemma staged_digests i pieces :
  Zlen (chunkDigests i) = totalChunks i ->
  Forall2 (staged i) (chunk_numbers (totalChunks i)) pieces ->
  chunkDigests i = sha256 <$> pieces.
Proof.
  intros Hl Hf. apply list_eq. intros n. rewrite list_lookup_fmap.
  pose proof (Forall2_length _ _ _ Hf) as Hlen. unfold chunk_numbers in Hlen. rewrite length_fmap, length_seq in Hlen.
  destruct (pieces !! n) as [p|] eqn:Ep; cbn.
  - destruct (Forall2_lookup_r _ _ _ _ _ Hf Ep) as (z & Hz & [Hd _]). unfold chunk_numbers in Hz.
    apply list_lookup_fmap_Some in Hz as (m & -> & Hm). apply lookup_seq in Hm as [-> ?].
    rewrite <- Hd. f_equal. lia.
  - apply lookup_ge_None in Ep. apply lookup_ge_None. unfold Zlen in Hl. lia.
Qed.

(** The piece a request accounts for: the body it carries, or the one already on
    record for its chunk number; of the declared size in both cases. *)
Definition accounted (rq : upload_request) (bin : file_part) (i : FileInfo) (piece : bytes) : Prop :=
  Zlen piece = rqCurrentChunkSize rq /\
  ((exists source, partOpen bin = Ok source /\ piece = data source) \/
   uploaded i !! Z.to_nat (rqChunkNumber rq - 1) = Some true /\
   chunkDigests i !! Z.to_nat (rqChunkNumber rq - 1) = Some (sha256 piece)).

(** What the locked part of a request does to an unfinished session [i]. Whatever
    happens, no other chunk's record changes while the session is unfinished. A
    success that leaves it unfinished has recorded exactly this chunk. A success
    at the end finds every other chunk recorded, and publishes pieces whose
    digests are the recorded ones with this chunk's in its place. *)
Definition request_effect (rq : upload_request) (bin : file_part) (v : verdict) (i i' : FileInfo) : Prop :=
  let index := Z.to_nat (rqChunkNumber rq - 1) in
  follows i i' /\ (completed i' = false -> elsewhere index i i') /\
  match v with
  | Return e =>
      completed i' = false /\
      (e = None -> exists piece, accounted rq bin i piece /\
         uploaded i' = <[index := true]> (uploaded i) /\
         chunkDigests i' = <[index := sha256 piece]> (chunkDigests i))
  | DeleteThen _ finish =>
      finish None = None ->
      completed i' = true /\ completionSize i' = totalSize i /\
      exists piece pieces, accounted rq bin i piece /\
        <[index := true]> (uploaded i) = replicate (Z.to_nat (totalChunks i)) true /\
        sha256 <$> pieces = <[index := sha256 piece]> (chunkDigests i) /\
        completionDigest i' = sha256 (concat pieces) /\ Zlen (concat pieces) = totalSize i
  end.

(** The session agrees with the request about the shape of the upload. *)
Definition shape_of (rq : upload_request) (i : FileInfo) : Prop :=
  chunk_accepted (rqChunkNumber rq) (rqChunkSize rq) (rqCurrentChunkSize rq) (rqTotalChunks rq) (rqTotalSize rq) /\
  totalChunks i = rqTotalChunks rq /\ totalSize i = rqTotalSize rq /\ chunkSize i = rqChunkSize rq.

Lemma shape_same rq i i' : same_session i i' -> shape_of rq i -> shape_of rq i'.
Proof. intros (_&_&_&_&_&_&_&_&Ht&Hs&Hz&_) (Ha & ? & ? & ?). unfold shape_of. split_and!; congruence. Qed.

Lemma shape_length rq i :
  shape_of rq i ->
  rqCurrentChunkSize rq = chunk_length (chunkSize i) (totalChunks i) (totalSize i)
                            (Z.of_nat (Z.to_nat (rqChunkNumber rq - 1)) + 1) /\
  1 <= rqChunkNumber rq <= totalChunks i.
Proof.
  intros (Ha & -> & -> & ->). pose proof (upload_bounds _ _ _ _ _ Ha) as (Hn & _).
  replace (Z.of_nat (Z.to_nat (rqChunkNumber rq - 1)) + 1) with (rqChunkNumber rq) by lia.
  split; [by apply chunk_accepted_length|done].
Qed.

(** After the chunk is on record in [i]: the request returns or finishes the upload. *)
Lemma complete_effect rq bin i0 i piece writeErr (w w' : W) v i' :
  let index := Z.to_nat (rqChunkNumber rq - 1) in
  (if negb (uploadedChunkNum i =? rqTotalChunks rq) then (Return writeErr, i, w)
   else finish_upload sha256 i writeErr w) = (v, i', w') ->
  completed i = false -> info_ok sha256 i -> follows i0 i -> shape_of rq i -> elsewhere index i0 i ->
  accounted rq bin i0 piece -> uploaded i !! index = Some true -> chunkDigests i !! index = Some (sha256 piece) ->
  request_effect rq bin v i0 i'.
Proof.
  cbv zeta. set (index := Z.to_nat (rqChunkNumber rq - 1)). intros E Hc Hok Hf Hsh He Hacc Hu Hd.
  unfold request_effect. cbv zeta. fold index. pose proof He as (Hl1 & Hl2 & Hn).
  assert (Hu' : uploaded i = <[index := true]> (uploaded i0)) by (apply insert_elsewhere; [done|by apply Hn|done]).
  assert (Hd' : chunkDigests i = <[index := sha256 piece]> (chunkDigests i0))
    by (apply insert_elsewhere; [done|by apply Hn|done]).
  step_in E; [by simplify_eq; split_and!; [..|intros _; exists piece]|].
  apply finish_upload_facts in E as (Hf' & Hq & Hv); [|done].
  split_and!; [by eapply follows_trans|intros Hc'; etrans; [done|by apply quiet_elsewhere, Hq]|].
  pose proof Hf as [(_&_&_&_&_&_&_&_&Ht0&Hs0&_) _]. destruct v as [e|b finish].
  - destruct Hv as [He' ?]. split; [done|]. by intros ->.
  - intros Hfin. destruct (Hv Hfin) as (? & ? & pieces & Hp & ? & ?). split_and!; [done|congruence|].
    unfold info_ok in Hok. rewrite Hc in Hok. destruct Hok as (_ & Hlen & Hdl & Hnum & _). bools.
    destruct Hsh as (_ & Ht & _). rewrite <- Ht in *.
    exists piece, pieces. split_and!; [done| | |done|congruence].
    + rewrite <- Hu', (count_true_full (uploaded i)) by congruence. unfold Zlen in Hlen. f_equal. lia.
    + rewrite <- Hd'. symmetry. eapply staged_digests; [|done]. unfold Zlen in *. congruence.
Qed.

Lemma record_chunk_elsewhere index digest i : elsewhere index i (record_chunk index digest i).
Proof.
  unfold record_chunk. destruct (uploaded i !! index) as [[|]|] eqn:Eu;
    [|apply elsewhere_set_chunks|]; (split_and!; cbn [set_chunks uploaded chunkDigests];
    [done|apply length_insert|intros n Hn; by rewrite list_lookup_insert_ne]).
Qed.

Lemma accounted_quiet rq bin i i' piece : quiet i i' -> accounted rq bin i' piece -> accounted rq bin i piece.
Proof. intros (_ & _ & Hu & Hd & _). unfold accounted. by rewrite Hu, Hd. Qed.

(** A request that stops with an error has touched at most its own chunk. *)
Lemma stopped_effect rq bin i i' e :
  completed i' = false -> follows i i' -> elsewhere (Z.to_nat (rqChunkNumber rq - 1)) i i' ->
  request_effect rq bin (Return (Some e)) i i'.
Proof. intros. by split_and!. Qed.

Lemma store_chunk_effect rq bin chunkPath directory i (w w' : W) v i' :
  store_chunk sha256 rq bin chunkPath directory i w = (v, i', w') ->
  completed i = false -> info_ok sha256 i -> shape_of rq i -> request_effect rq bin v i i'.
Proof.
  unfold store_chunk. intros E Hc Hok Hsh. destruct (w_now w) as [now w1].
  set (i1 := set_activity now (set_cleanup (cleanupErr i) false i)) in *.
  assert (Hq : quiet i i1) by (eapply quiet_trans; [apply quiet_set_cleanup|apply quiet_set_activity]).
  assert (Hok1 : info_ok sha256 i1) by (by eapply quiet_ok).
  assert (Hsh1 : shape_of rq i1) by (eapply shape_same; [apply Hq|done]).
  pose proof (shape_length _ _ Hsh1) as [Hlen Hn].
  set (index := Z.to_nat (rqChunkNumber rq - 1)) in *.
  assert (Hf1 : follows i i1) by (by apply quiet_follows).
  assert (He1 : elsewhere index i i1) by (by apply quiet_elsewhere).
  assert (Hc1 : completed i1 = false) by done.
  assert (Hlt : (index < length (uploaded i1))%nat).
  { unfold info_ok in Hok1. rewrite Hc1 in Hok1. destruct Hok1 as (_ & Hl & _). unfold Zlen in Hl. lia. }
  clearbody i1. clear Hok Hsh Hc.
  destruct (uploaded i1 !! index) as [mark|] eqn:Eu; [|by apply lookup_ge_None in Eu; lia].
  (* after a possible reconciliation *)
  set (R := if mark then _ else _) in E. destruct R as [[[reconciled err] i2] w2] eqn:ER.
  assert (H2 : follows i1 i2 /\ completed i2 = false /\ elsewhere index i1 i2 /\
               (reconciled = true -> i2 = i1 /\ recorded i1 index (rqCurrentChunkSize rq))).
  { subst R. destruct mark; [by eapply reconcile_facts|]. simplify_eq. by split_and!; auto using follows_refl. }
  clear ER R. destruct H2 as (Hf2 & Hc2 & He2 & Hr2).
  assert (Hf02 : follows i i2) by (by eapply follows_trans).
  assert (He02 : elsewhere index i i2) by (by etrans).
  destruct err as [e|]; [simplify_eq; by apply stopped_effect|].
  destruct reconciled.
  { destruct (Hr2 eq_refl) as [-> [Hu (piece & Hd & Hz)]].
    eapply (complete_effect rq bin i i1 piece); try done. apply (accounted_quiet _ _ _ i1); [done|].
    split; [done|by right]. }
  destruct (partOpen bin) as [source|] eqn:Eo; [|simplify_eq; by apply stopped_effect].
  destruct (w_reserveSpace _ _ _) as [[token|] w3];
    [|destruct (closeErr source); simplify_eq; by apply stopped_effect].
  destruct (writeValidatedServiceChunkIn _ _ _ _ _ _) as [[r writeErr] w4] eqn:Ew.
  destruct (Published r) eqn:Ep; cbn [negb] in E; [|destruct writeErr; simplify_eq; by apply stopped_effect].
  destruct (writeIn_published _ _ _ _ _ _ _ _ Ew Ep) as (Hd & Hpl). rewrite Hd in E.
  assert (Hsh2 : shape_of rq i2) by (eapply shape_same; [apply Hf2|done]).
  destruct (shape_length _ _ Hsh2) as [Hlen2 _]. fold index in Hlen2.
  destruct He2 as (Hl2 & _).
  destruct (record_chunk_ok sha256 index (data source) i2 Hc2) as (Hok3 & Hu3 & Hd3 & Hs3);
    [by apply Hf2|lia|congruence|].
  eapply (complete_effect rq bin i); try done.
  - unfold record_chunk. by destruct (uploaded i2 !! index) as [[|]|].
  - split; [|done]. etrans; [apply Hf02|done].
  - by eapply shape_same.
  - etrans; [exact He02|apply record_chunk_elsewhere].
  - split; [done|]. left. by exists source.
Qed.

(** A request that finds the session completed: nothing of it changes but the
    activity time, and that only when the metadata agree and the published target
    is still the one that was committed, in which case the answer is the recorded one. *)
Definition replay_effect (candidate i : FileInfo) (w : W) (v : verdict) (i' : FileInfo) : Prop :=
  exists e, v = Return e /\
    (i' = i /\ e <> None \/
     sameServiceUploadMetadata i candidate = true /\ 0 <= completionSize i /\
     (w_verifyIdentity w (targetPath i) (completionIdentity i)).1 = None /\
     e = completionErr i /\ exists t, i' = set_activity t i).

Lemma replay_exact rq bin candidate i (w w' : W) v i' :
  upload_locked sha256 rq bin candidate i w = (v, i', w') -> completed i = true -> replay_effect candidate i w v i'.
Proof.
  unfold upload_locked, verifyCompletedServiceUpload. intros E Hc. rewrite Hc in E. cbn [negb orb] in E.
  destruct (sameServiceUploadMetadata i candidate) eqn:Em; cbn [negb] in E;
    [|simplify_eq; eexists; split; [done|by left]].
  destruct (completionSize i <? 0) eqn:Ez; [simplify_eq; eexists; split; [done|by left]|]. bools.
  destruct (w_verifyIdentity _ _ _) as [[e|] w1] eqn:Ev; [simplify_eq; eexists; split; [done|by left]|].
  destruct (w_now w1) as [now w2]. simplify_eq. eexists. split; [done|]. right. split_and!; eauto. by rewrite Ev.
Qed.

Lemma replay_quiet candidate i (w : W) v i' : replay_effect candidate i w v i' -> quiet i i'.
Proof. intros (e & _ & [[-> _]|(_ & _ & _ & _ & t & ->)]); auto with upload. Qed.

Lemma upload_locked_effect rq bin candidate i (w w' : W) v i' :
  upload_locked sha256 rq bin candidate i w = (v, i', w') ->
  info_ok sha256 i -> request_matches rq candidate ->
  follows i i' /\ (completed i = false -> request_effect rq bin v i i').
Proof.
  intros E Hok (Ha & Ht & Hs & Hz). destruct (completed i) eqn:Hc.
  { split; [|done]. by eapply quiet_follows, replay_quiet, replay_exact. }
  unfold upload_locked in E. rewrite Hc in E.
  enough (Hg : request_effect rq bin v i i') by (split_and!; [apply Hg|done]).
  assert (Hret : forall e, (Return (Some e), i, w) = (v, i', w') -> request_effect rq bin v i i').
  { intros e [= <- <- <-]. apply stopped_effect; [done|apply follows_refl|done]. }
  assert (Hdel : forall b e i0 wa, quiet i i0 -> (delete_with b (Some e), i0, wa) = (v, i', w') -> request_effect rq bin v i i').
  { intros b e i0 wa Hq [= <- <- <-]. split_and!; [by apply quiet_follows|by intros _; apply quiet_elsewhere|done]. }
  step_in E; [destruct (cleanupErr i); by eapply Hret|]. step_in E; [by eapply Hret|]. step_in E; [by eapply Hret|].
  assert (Hsh : shape_of rq i).
  { bools. unfold sameServiceUploadMetadata in *. bools. unfold shape_of. split_and!; congruence. }
  destruct (MatchChild _ _ (path_join _ _)) as [loc|]; [|by eapply Hret].
  destruct (w_mkdirAll w _) as [[e1|] w1].
  { unfold changedServiceUploadErrorIf, changedServiceUploadError in E. step_in E;
      (eapply Hdel; [|exact E]; auto with upload). }
  destruct (MatchChild _ _ (targetRelative i)) as [t|]; [|eapply Hdel; [|exact E]; auto with upload].
  step_in E; [eapply Hdel; [|exact E]; auto with upload|].
  destruct (w_mkdirAll w1 _) as [[e2|] w2]; [eapply Hdel; [|exact E]; auto with upload|].
  destruct (ensureStagingDirectory i w2) as [[d i1] w3] eqn:Es. apply ensureStagingDirectory_quiet in Es.
  destruct d as [d|]; [|eapply Hdel; [|exact E]; eapply quiet_trans; [exact Es|auto with upload]].
  assert (Hc1 : completed i1 = false) by (destruct Es as (_ & -> & _); done).
  apply store_chunk_effect in E as (Hf & He & Hv);
    [|done|by eapply quiet_ok|eapply shape_same; [apply Es|done]].
  split_and!; [eapply follows_trans; [by apply quiet_follows|done]| |].
  { intros Hc'. etrans; [by apply quiet_elsewhere|auto]. }
  assert (Hacc : forall piece, accounted rq bin i1 piece -> accounted rq bin i piece) by (intros; by eapply accounted_quiet).
  destruct Es as ((_&_&_&_&_&_&_&_&Ht1&Hs1&_) & _ & Hu1 & Hd1 & _). unfold accounted in *.
  destruct v; rewrite <- ?Ht1, <- ?Hs1, <- ?Hu1, <- ?Hd1; exact Hv.
Qed.
End world_facts.

(** ** Interleaved requests *)

(** A request between critical sections: it has the session pointer, it holds the
    session's lock, or it is about to delete the session. *)
Inductive thread :=
| Waiting (rq : upload_request) (bin : file_part) (key : bytes) (candidate : FileInfo) (l : nat)
| Holding (rq : upload_request) (bin : file_part) (key : bytes) (candidate : FileInfo) (l : nat)
| Deleting (key : bytes) (l : nat) (requestChanged : bool).

Definition acquire (l : nat) (s : service) : service :=
  {| uploadStatus := uploadStatus s; store := store s; held := held s ∪ {[l]}; nextSession := nextSession s |}.
Definition unlock (l : nat) (s : service) : service :=
  {| uploadStatus := uploadStatus s; store := store s; held := held s ∖ {[l]}; nextSession := nextSession s |}.

Section interleaving.
Context (sha256 : bytes -> bytes) {W : Type} `{UploadWorld W}.

(** The roots, the clock and the map orders of a step are whatever they are. *)
Inductive upload_step : service * list thread * W -> service * list thread * W -> Prop :=
| st_cleanup now o1 o2 s ts w s' w' :
    NoDup o2 -> cleanupExpiredUploads now o1 o2 s w = (s', w') ->
    upload_step (s, ts, w) (s', ts, w')
| st_open rq bin rs now key candidate order r s ts w s' w' :
    1 <= rqPrincipal rq -> upload_checks rq = Ok bin ->
    upload_candidate sha256 rq rs now = Ok (key, candidate) -> NoDup order ->
    getOrCreateUploadSession key candidate order s w = (r, s', w') ->
    upload_step (s, ts, w)
      (s', match r with Ok (l, _) => Waiting rq bin key candidate l :: ts | Err _ => ts end, w')
| st_lock rq bin key candidate l s before after w :
    l ∉ held s ->
    upload_step (s, before ++ Waiting rq bin key candidate l :: after, w)
      (acquire l s, before ++ Holding rq bin key candidate l :: after, w)
| st_run rq bin key candidate l s before after w i v i' w' :
    store s !! l = Some i -> upload_locked sha256 rq bin candidate i w = (v, i', w') ->
    upload_step (s, before ++ Holding rq bin key candidate l :: after, w)
      (unlock l (with_info l i' s),
       before ++ match v with Return _ => [] | DeleteThen changed _ => [Deleting key l changed] end ++ after, w')
| st_delete key l changed order s before after w e s' w' :
    NoDup order -> deleteUploadSession key l changed order s w = (e, s', w') ->
    upload_step (s, before ++ Deleting key l changed :: after, w) (s', before ++ after, w')
| st_world s ts w w' :
    (* anything outside the service: the clock, other processes *)
    upload_step (s, ts, w) (s, ts, w')
| st_test rs principal b t tr n key l s ts w i e i' w' :
    uploadStatus s !! key = Some l -> l ∉ held s -> store s !! l = Some i ->
    test_locked rs principal b t tr n i w = (e, i', w') ->
    upload_step (s, ts, w) (with_info l i' s, ts, w').

(** ** The table invariant *)

Definition live (s : service) (l : nat) : bool :=
  match store s !! l with Some i => negb (completed i) | None => false end.
Definition live_sessions (s : service) : Z := Zlen (List.filter (live s) (map_to_list (uploadStatus s)).*2).

Definition table_ok (s : service) : Prop :=
  (forall k l, uploadStatus s !! k = Some l -> is_Some (store s !! l)) /\
  (forall l i, store s !! l = Some i -> info_ok sha256 i /\ (l < nextSession s)%nat) /\
  live_sessions s <= maxActiveUploadSessions /\
  Z.of_nat (size (uploadStatus s)) <= maxActiveUploadSessions + maxCompletedUploadTombstones.

Definition thread_ok (s : service) (t : thread) : Prop :=
  match t with
  | Waiting rq _ _ candidate l | Holding rq _ _ candidate l =>
      is_Some (store s !! l) /\ request_matches rq candidate
  | Deleting _ l _ => is_Some (store s !! l)
  end.

(** [s'] has fewer keys than [s] and sessions that follow those of [s]. *)
Definition shrinks (s s' : service) : Prop :=
  uploadStatus s' ⊆ uploadStatus s /\ nextSession s' = nextSession s /\
  (forall l, is_Some (store s !! l) -> is_Some (store s' !! l)) /\
  (forall l i', store s' !! l = Some i' -> exists i, store s !! l = Some i /\ follows sha256 i i').

Lemma shrinks_refl s : shrinks s s.
Proof. unfold shrinks. split_and!; [done..|]. eauto using follows_refl. Qed.

Lemma shrinks_trans s1 s2 s3 : shrinks s1 s2 -> shrinks s2 s3 -> shrinks s1 s3.
Proof.
  intros (Ha & Hb & Hc & Hd) (Ha' & Hb' & Hc' & Hd'). unfold shrinks. split_and!; [by etrans|congruence|auto|].
  intros l i' Hl. destruct (Hd' l i' Hl) as (i & Hi & Hf). destruct (Hd l i Hi) as (i0 & Hi0 & Hf0).
  exists i0. split; [done|by eapply follows_trans].
Qed.

Lemma shrinks_forget key s : shrinks s (forget key s).
Proof.
  unfold shrinks. split_and!; [apply delete_subseteq|done|done|]. cbn. eauto using follows_refl.
Qed.

Lemma shrinks_forget_all keys s : shrinks s (forget_all keys s).
Proof.
  induction keys as [|k keys IH]; [apply shrinks_refl|]. eapply shrinks_trans; [exact IH|apply shrinks_forget].
Qed.

Lemma shrinks_info l i i' s : store s !! l = Some i -> follows sha256 i i' -> shrinks s (with_info l i' s).
Proof.
  intros Hl Hf. unfold shrinks. cbn. split_and!; [done..| |].
  - intros l' Hs. destruct (decide (l = l')) as [->|]; [rewrite lookup_insert_eq; by eexists|by rewrite lookup_insert_ne].
  - intros l' i0. destruct (decide (l = l')) as [->|]; [rewrite lookup_insert_eq|rewrite lookup_insert_ne by done].
    + intros [= <-]. by exists i.
    + eauto using follows_refl.
Qed.

Lemma shrinks_prune now order s : NoDup order -> shrinks s (pruneCompletedUploadTombstonesLocked now order s).
Proof. intros Hnd. rewrite prune_exact by done. apply shrinks_forget_all. Qed.

Lemma filter_length_perm {A} (f : A -> bool) l k :
  l ≡ₚ k -> length (List.filter f l) = length (List.filter f k).
Proof.
  induction 1 as [|x l k _ IH|x y l|l k j _ IH1 _ IH2]; simpl; [done| | |congruence].
  - destruct (f x); simpl; congruence.
  - by destruct (f x), (f y).
Qed.

Lemma filter_length_impl {A} (f g : A -> bool) l :
  (forall x, f x = true -> g x = true) -> (length (List.filter f l) <= length (List.filter g l))%nat.
Proof.
  intros Hfg. induction l as [|x l IH]; simpl; [done|]. destruct (f x) eqn:E.
  - rewrite (Hfg x E). simpl. lia.
  - destruct (g x); simpl; lia.
Qed.

Lemma filter_length_sub {A} (f g : A -> bool) l k :
  l ⊆+ k -> (forall x, f x = true -> g x = true) ->
  (length (List.filter f l) <= length (List.filter g k))%nat.
Proof.
  intros [k' Hk]%submseteq_Permutation Hfg.
  rewrite (filter_length_perm g _ _ Hk), List.filter_app, length_app.
  pose proof (filter_length_impl f g l Hfg). lia.
Qed.

Lemma values_sub (m1 m2 : gmap bytes nat) : m1 ⊆ m2 -> (map_to_list m1).*2 ⊆+ (map_to_list m2).*2.
Proof. intros Hm. by apply fmap_submseteq, map_to_list_submseteq. Qed.

Lemma shrinks_live s s' : shrinks s s' -> live_sessions s' <= live_sessions s.
Proof.
  intros (Hm & _ & _ & Hf). unfold live_sessions, Zlen. apply inj_le, filter_length_sub; [by apply values_sub|].
  intros l. unfold live. destruct (store s' !! l) as [i'|] eqn:E; [|done]. intros Hc.
  destruct (Hf _ _ E) as (i & -> & [(_&_&_&_&_&_&_&_&_&_&_&Hmono) _]). bools.
  destruct (completed i); [|done]. destruct (Hmono eq_refl) as [? _]. congruence.
Qed.

Lemma shrinks_table s s' : shrinks s s' -> table_ok s -> table_ok s'.
Proof.
  intros Hs (Ha & Hb & Hc & Hd). pose proof (shrinks_live _ _ Hs) as Hlive.
  destruct Hs as (Hm & Hn & Hk & Hf). split_and!; [| | lia |].
  - intros k l Hl. apply Hk. eapply Ha, lookup_weaken; [exact Hl|done].
  - intros l i' Hl. destruct (Hf _ _ Hl) as (i & Hi & Hfo). destruct (Hb _ _ Hi). rewrite Hn. split; [by apply Hfo|done].
  - pose proof (submseteq_length _ _ (values_sub _ _ Hm)) as Hle. rewrite !length_fmap in Hle.
    rewrite !length_map_to_list in Hle. lia.
Qed.

Lemma shrinks_thread s s' t : shrinks s s' -> thread_ok s t -> thread_ok s' t.
Proof. intros (_ & _ & Hk & _). destruct t; cbn; [intros [? ?]; auto..|auto]. Qed.

Lemma cleanup_one_shrinks now key s (w w' : W) s' : cleanup_one now key s w = (s', w') -> shrinks s s'.
Proof.
  unfold cleanup_one. intros E. destruct (free_session s key) as [[l i]|] eqn:Ef; [|simplify_eq; apply shrinks_refl].
  assert (Hl : store s !! l = Some i).
  { unfold free_session in Ef. destruct (uploadStatus s !! key); [|done]. case_bool_decide; [done|].
    destruct (store s !! _) eqn:?; by simplify_eq. }
  step_in E; [step_in E; simplify_eq; apply shrinks_forget || apply shrinks_refl|].
  set (i1 := if _ && _ then set_init false i else i) in E.
  assert (Hq1 : quiet i i1) by apply quiet_expire.
  clearbody i1. set (s1 := with_info l i1 s) in E.
  assert (Hs1 : shrinks s s1) by (eapply shrinks_info; [exact Hl|by apply quiet_follows]).
  assert (Hl1 : store s1 !! l = Some i1) by apply lookup_insert_eq.
  clearbody s1. step_in E; [by simplify_eq|].
  destruct (cleanupUploadStaging i1 w) as [[err i2] w1] eqn:Ec. apply cleanupUploadStaging_quiet in Ec as Hq2.
  set (s2 := with_info l i2 s1) in E.
  assert (Hs2 : shrinks s s2) by (eapply shrinks_trans; [exact Hs1|eapply shrinks_info; [exact Hl1|by apply quiet_follows]]).
  assert (Hl2 : store s2 !! l = Some i2) by apply lookup_insert_eq. clearbody s2.
  assert (Hset : forall e c, shrinks s (with_info l (set_cleanup e c i2) s2)).
  { intros e c. eapply shrinks_trans; [exact Hs2|]. eapply shrinks_info; [exact Hl2|]. apply quiet_follows. auto with upload. }
  destruct err.
  - destruct (w_contended w1) as [[|] w2]; simplify_eq; [done|apply Hset].
  - destruct (completed i2).
    + destruct (w_contended w1) as [[|] w2]; simplify_eq; [done|apply Hset].
    + simplify_eq. eapply shrinks_trans; [exact Hs2|apply shrinks_forget].
Qed.

Lemma cleanup_shrinks now o1 o2 s (w w' : W) s' :
  NoDup o2 -> cleanupExpiredUploads now o1 o2 s w = (s', w') -> shrinks s s'.
Proof.
  intros Hnd. unfold cleanupExpiredUploads. destruct (cleanup_all now o1 s w) as [s1 w1] eqn:E.
  intros [= <- <-]. eapply shrinks_trans; [|by apply shrinks_prune].
  clear Hnd. revert s w E. induction o1 as [|k o1 IH]; intros s w E; cbn in E; [simplify_eq; apply shrinks_refl|].
  destruct (cleanup_one now k s w) as [s2 w2] eqn:E1. eapply shrinks_trans; [by eapply cleanup_one_shrinks|eauto].
Qed.

Lemma delete_shrinks key l changed order s (w w' : W) e s' :
  NoDup order -> deleteUploadSession key l changed order s w = (e, s', w') -> shrinks s s'.
Proof.
  intros Hnd. unfold deleteUploadSession. intros E.
  destruct (uploadStatus s !! key) as [l'|]; [|simplify_eq; apply shrinks_refl].
  destruct (store s !! l) as [i|] eqn:Hl; [|simplify_eq; apply shrinks_refl].
  step_in E; [simplify_eq; apply shrinks_refl|].
  destruct (cleanupUploadStaging i w) as [[err i1] w1] eqn:Ec. apply cleanupUploadStaging_quiet in Ec as Hq.
  set (s1 := with_info l i1 s) in E.
  assert (Hs1 : shrinks s s1) by (eapply shrinks_info; [exact Hl|by apply quiet_follows]).
  assert (Hl1 : store s1 !! l = Some i1) by apply lookup_insert_eq. clearbody s1.
  assert (Hset : forall i2, quiet i1 i2 -> shrinks s (with_info l i2 s1)).
  { intros i2 Hq2. eapply shrinks_trans; [exact Hs1|]. eapply shrinks_info; [exact Hl1|by apply quiet_follows]. }
  destruct (w_contended w1) as [c w2]. set (c' := c || _) in E. clearbody c'. destruct err.
  - destruct c'; simplify_eq; [done|]. apply Hset. eapply quiet_trans; [apply quiet_set_init|apply quiet_set_cleanup].
  - destruct (w_now w2) as [now w3]. simplify_eq. eapply shrinks_trans; [|by apply shrinks_prune].
    destruct c'; [done|]. destruct (completed i1); [apply Hset; auto with upload|].
    eapply shrinks_trans; [|apply shrinks_forget]. apply Hset. auto with upload.
Qed.

Lemma count_true_replicate n : count_true (replicate n false) = 0.
Proof. by induction n. Qed.

Lemma upload_candidate_fresh rq bin rs now key candidate :
  upload_checks rq = Ok bin -> upload_candidate sha256 rq rs now = Ok (key, candidate) ->
  info_ok sha256 candidate /\ completed candidate = false /\ request_matches rq candidate.
Proof.
  unfold upload_checks, upload_candidate, lift_fs. intros Hck Hc.
  destruct (ValidateChunk _ _) as [[]|] eqn:E1; [|done].
  destruct (ValidateUploadSizes _ _ _ _) as [[]|] eqn:E2; [|done].
  destruct (validateChunkShape _ _ _ _ _) as [[]|] eqn:E3; [|done].
  assert (Ha : chunk_accepted (rqChunkNumber rq) (rqChunkSize rq) (rqCurrentChunkSize rq)
                 (rqTotalChunks rq) (rqTotalSize rq)) by done.
  pose proof (upload_bounds _ _ _ _ _ Ha) as (Hn & _). clear Hck E1 E2 E3.
  steps_in Hc. split_and!; [|done|done]. unfold info_ok.
  cbn [completed uploaded chunkDigests uploadedChunkNum totalChunks].
  unfold Zlen. rewrite !length_replicate, count_true_replicate. split_and!; [lia|lia|done|done|].
  intros n [? _]%lookup_replicate. done.
Qed.

Lemma filter_ext_elem {A} (f g : A -> bool) l :
  (forall x, x ∈ l -> f x = g x) -> List.filter f l = List.filter g l.
Proof.
  induction l as [|x l IH]; intros Hfg; simpl; [done|]. rewrite (Hfg x) by left.
  rewrite IH; [done|]. intros y Hy. apply Hfg. by right.
Qed.

Lemma live_le_active s : live_sessions s <= active_sessions s.
Proof.
  unfold live_sessions, active_sessions, Zlen. apply inj_le, filter_length_impl. intros l Hl.
  unfold counts_active. unfold live in Hl. rewrite Hl. apply orb_true_r.
Qed.

(** Placing a fresh session while there is room keeps the table well formed. *)
Lemma place_table key i s :
  table_ok s -> uploadStatus s !! key = None -> info_ok sha256 i ->
  active_sessions s < maxActiveUploadSessions ->
  Z.of_nat (size (uploadStatus s)) < maxActiveUploadSessions + maxCompletedUploadTombstones ->
  table_ok {| uploadStatus := <[key := nextSession s]> (uploadStatus s);
              store := <[nextSession s := i]> (store s); held := held s; nextSession := S (nextSession s) |}.
Proof.
  intros (Ha & Hb & Hc & Hd) Hk Hi Hact Hsz. pose proof (live_le_active s) as Hle.
  set (l := nextSession s) in *. unfold table_ok. cbn. split_and!.
  - intros k l'. destruct (decide (k = key)) as [->|].
    + rewrite lookup_insert_eq. intros [= <-]. rewrite lookup_insert_eq. by eexists.
    + rewrite lookup_insert_ne by done. intros Hl'. apply Ha in Hl'.
      destruct (decide (l = l')) as [->|]; [rewrite lookup_insert_eq; by eexists|by rewrite lookup_insert_ne].
  - intros l' i'. destruct (decide (l = l')) as [<-|].
    + rewrite lookup_insert_eq. intros [= <-]. split; [done|lia].
    + rewrite lookup_insert_ne by done. intros [? ?]%Hb. split; [done|lia].
  - unfold live_sessions, Zlen in *. cbn.
    rewrite (filter_length_perm _ _ (l :: (map_to_list (uploadStatus s)).*2))
      by (by rewrite map_to_list_insert).
    cbn [List.filter]. rewrite (filter_ext_elem _ (live s)).
    + destruct (live _ l); cbn [length]; lia.
    + intros l' Hl'. unfold live. cbn. rewrite lookup_insert_ne; [done|].
      apply list_elem_of_fmap in Hl' as ([k' l''] & -> & Hin%elem_of_map_to_list).
      destruct (Ha _ _ Hin) as [i' Hi']. apply Hb in Hi' as [_ ?]. cbn [snd]. lia.
  - rewrite map_size_insert_None by done. lia.
Qed.

Lemma getOrCreate_table key candidate order s (w w' : W) r s' :
  table_ok s -> info_ok sha256 candidate -> completed candidate = false -> NoDup order ->
  getOrCreateUploadSession key candidate order s w = (r, s', w') ->
  table_ok s' /\ (forall t, thread_ok s t -> thread_ok s' t) /\
  match r with Ok (l, _) => is_Some (store s' !! l) | Err _ => True end.
Proof.
  intros Ht Hi Hc Hnd. unfold getOrCreateUploadSession. destruct (w_now w) as [now w1]. intros E.
  pose proof (shrinks_prune now order s Hnd) as Hp.
  set (s1 := pruneCompletedUploadTombstonesLocked now order s) in *. clearbody s1.
  assert (Ht1 : table_ok s1) by (by eapply shrinks_table).
  destruct (uploadStatus s1 !! key) as [l|] eqn:Ek.
  { simplify_eq. split_and!; [done|intros; by eapply shrinks_thread|]. by eapply Ht1. }
  step_in E; [simplify_eq; split_and!; [done|intros; by eapply shrinks_thread|done]|].
  step_in E; [simplify_eq; split_and!; [done|intros; by eapply shrinks_thread|done]|]. bools.
  destruct (removeUploadTree _ _) as [err w2].
  assert (Hplace : forall i, quiet candidate i ->
    let s2 := {| uploadStatus := <[key := nextSession s1]> (uploadStatus s1);
                 store := <[nextSession s1 := i]> (store s1); held := held s1; nextSession := S (nextSession s1) |} in
    table_ok s2 /\ (forall t, thread_ok s t -> thread_ok s2 t) /\ is_Some (store s2 !! nextSession s1)).
  { intros i Hq s2. split_and!; [apply place_table; try done; by eapply quiet_ok| |cbn; rewrite lookup_insert_eq; by eexists].
    intros t Hok%(shrinks_thread s s1 t Hp).
    assert (Hk : forall l, is_Some (store s1 !! l) -> is_Some (store s2 !! l)).
    { intros l Hl. cbn. destruct (decide (nextSession s1 = l)) as [<-|]; [rewrite lookup_insert_eq; by eexists|by rewrite lookup_insert_ne]. }
    destruct t; cbn in *; [destruct Hok; split; auto..|auto]. }
  destruct err; simplify_eq.
  - destruct (Hplace (set_cleanup (Some g) (stagingClean candidate) (set_init false candidate))) as (? & ? & _); [|done].
    eapply quiet_trans; [apply quiet_set_init|apply quiet_set_cleanup].
  - apply Hplace. auto with upload.
Qed.

Lemma test_locked_quiet rs principal b t tr n i (w w' : W) e i' :
  test_locked rs principal b t tr n i w = (e, i', w') -> quiet i i'.
Proof. unfold test_locked. intros E. run_in E; auto with upload. Qed.

Definition system_ok (st : service * list thread * W) : Prop :=
  let '(s, ts, _) := st in table_ok s /\ Forall (thread_ok s) ts.

Lemma system_shrinks s s' ts ts' (w w' : W) :
  shrinks s s' -> system_ok (s, ts, w) -> Forall (thread_ok s') ts' \/ ts' = ts -> system_ok (s', ts', w').
Proof.
  intros Hs [Ht Hth] Hts. split; [by eapply shrinks_table|]. destruct Hts as [? | ->]; [done|].
  eapply Forall_impl; [exact Hth|]. intros. by eapply shrinks_thread.
Qed.

Lemma threads_shrink s s' ts : shrinks s s' -> Forall (thread_ok s) ts -> Forall (thread_ok s') ts.
Proof. intros Hs Hth. eapply Forall_impl; [exact Hth|]. intros. by eapply shrinks_thread. Qed.

Lemma upload_step_ok st st' : upload_step st st' -> system_ok st -> system_ok st'.
Proof.
  intros Hstep Hok. destruct Hstep as
    [now o1 o2 s ts w s' w' Hnd E | rq bin rs now key cand order r s ts w s' w' Hpr Hck Hcand Hnd E
    | rq bin key cand l s before after w Hl | rq bin key cand l s before after w i v i' w' Hl E
    | key l ch order s before after w e s' w' Hnd E | s ts w w'
    | rs pr b t tr n key l s ts w i e i' w' Hk Hh Hl E]; destruct Hok as [Ht Hth].
  - eapply (system_shrinks _ _ _ _ w); [by eapply cleanup_shrinks|done|by right].
  - destruct (upload_candidate_fresh _ _ _ _ _ _ Hck Hcand) as (Hi & Hc & Hm).
    destruct (getOrCreate_table _ _ _ _ _ _ _ _ Ht Hi Hc Hnd E) as (Ht' & Hth' & Hr).
    assert (Hts : Forall (thread_ok s') ts) by (eapply Forall_impl; [exact Hth|done]).
    split; [done|]. destruct r as [[l b]|]; [|done]. constructor; [|done]. done.
  - split; [done|]. rewrite !Forall_app, !Forall_cons in *. naive_solver.
  - rewrite Forall_app, Forall_cons in Hth. destruct Hth as (Hb & [_ Hm] & Haft).
    pose proof (proj1 (proj2 Ht) _ _ Hl) as [Hi _].
    destruct (upload_locked_effect _ _ _ _ _ _ _ _ _ E Hi Hm) as [Hf _].
    assert (Hs : shrinks s (unlock l (with_info l i' s))) by (exact (shrinks_info l i i' s Hl Hf)).
    split; [by eapply shrinks_table|]. rewrite !Forall_app.
    split_and!; [by eapply threads_shrink| |by eapply threads_shrink].
    destruct v; [done|]. constructor; [|done]. cbn. rewrite lookup_insert_eq. by eexists.
  - rewrite Forall_app, Forall_cons in Hth. destruct Hth as (Hb & _ & Haft).
    apply delete_shrinks in E; [|done]. split; [by eapply shrinks_table|].
    rewrite Forall_app. split; by eapply threads_shrink.
  - by split.
  - apply test_locked_quiet in E. eapply (system_shrinks _ _ _ _ w); [|by split|by right].
    eapply shrinks_info; [exact Hl|by apply quiet_follows].
Qed.

Lemma initial_ok (w : W) : system_ok (NewFileUploadService, [], w).
Proof.
  split; [|constructor]. unfold table_ok, NewFileUploadService. cbn. split_and!; [done..| |].
  - unfold live_sessions. cbn. rewrite map_to_list_empty. done.
  - rewrite map_size_empty. done.
Qed.

(** *** Steps keep every session what it is *)

Definition sessions_kept (s s' : service) : Prop :=
  forall l i, store s !! l = Some i -> exists i', store s' !! l = Some i' /\ same_session i i'.

Lemma shrinks_kept s s' : shrinks s s' -> sessions_kept s s'.
Proof.
  intros (_ & _ & Hk & Hf) l i Hl. destruct (Hk l) as [i' Hi']; [by eexists|]. exists i'. split; [done|].
  destruct (Hf _ _ Hi') as (i0 & Hi0 & [Hs _]). congruence.
Qed.

Lemma getOrCreate_kept key candidate order s (w w' : W) r s' :
  table_ok s -> NoDup order -> getOrCreateUploadSession key candidate order s w = (r, s', w') -> sessions_kept s s'.
Proof.
  intros Ht Hnd. unfold getOrCreateUploadSession. destruct (w_now w) as [now w1]. intros E.
  pose proof (shrinks_prune now order s Hnd) as Hp.
  set (s1 := pruneCompletedUploadTombstonesLocked now order s) in *. clearbody s1.
  pose proof (shrinks_kept _ _ Hp) as Hk. assert (Ht1 : table_ok s1) by (by eapply shrinks_table).
  assert (Hplace : forall i, sessions_kept s
    {| uploadStatus := <[key := nextSession s1]> (uploadStatus s1);
       store := <[nextSession s1 := i]> (store s1); held := held s1; nextSession := S (nextSession s1) |}).
  { intros i l i0 Hl. destruct (Hk _ _ Hl) as (i1 & Hi1 & Hs). exists i1. split; [|done]. cbn.
    rewrite lookup_insert_ne; [done|]. apply Ht1 in Hi1 as [_ ?]. lia. }
  run_in E; try done; apply Hplace.
Qed.

Lemma upload_step_kept s ts (w : W) s' ts' w' :
  upload_step (s, ts, w) (s', ts', w') -> system_ok (s, ts, w) -> sessions_kept s s'.
Proof.
  intros Hstep [Ht Hth]. inversion Hstep; subst.
  - eapply shrinks_kept, cleanup_shrinks; done.
  - eapply getOrCreate_kept; done.
  - apply (shrinks_kept s s), shrinks_refl.
  - rewrite Forall_app, Forall_cons in Hth. destruct Hth as (_ & [_ Hm] & _).
    match goal with Hl : store s !! l = Some i |- _ => pose proof (proj1 (proj2 Ht) _ _ Hl) as [Hi _];
      apply (shrinks_kept s (with_info l i' s)); eapply shrinks_info; [exact Hl|] end.
    match goal with E : upload_locked _ _ _ _ _ _ = _ |- _ =>
      by destruct (upload_locked_effect _ _ _ _ _ _ _ _ _ E Hi Hm) as [Hf _] end.
  - eapply shrinks_kept, delete_shrinks; done.
  - apply (shrinks_kept s' s'), shrinks_refl.
  - apply shrinks_kept. eapply shrinks_info; [done|]. by eapply quiet_follows, test_locked_quiet.
Qed.

(** *** A handler running alone is an execution *)

Lemma lock_unlock l i s :
  l ∉ held s -> unlock l (with_info l i (acquire l s)) = with_info l i s.
Proof.
  intros Hl. unfold unlock, acquire, with_info. cbn. f_equal. set_solver.
Qed.

Lemma getOrCreate_held key candidate order s (w w' : W) r s' :
  NoDup order -> getOrCreateUploadSession key candidate order s w = (r, s', w') -> held s' = held s.
Proof.
  intros Hnd. unfold getOrCreateUploadSession. destruct (w_now w) as [now w1]. intros E.
  rewrite prune_exact in E by done.
  destruct (forget_all_rest (rev (eviction_list now order s) ++ rev (List.filter (due now s) order)) s) as (_ & Hh & _).
  run_in E; done.
Qed.

Lemma cleanup_held now o1 o2 s (w w' : W) s' :
  NoDup o2 -> cleanupExpiredUploads now o1 o2 s w = (s', w') -> held s' = held s.
Proof.
  intros Hnd. unfold cleanupExpiredUploads. destruct (cleanup_all now o1 s w) as [s1 w1] eqn:E.
  intros [= <- <-]. rewrite prune_exact by done.
  destruct (forget_all_rest (rev (eviction_list now o2 s1) ++ rev (List.filter (due now s1) o2)) s1) as (_ & -> & _).
  clear Hnd. revert s w E. induction o1 as [|k o1 IH]; intros s w E; cbn in E; [by simplify_eq|].
  destruct (cleanup_one now k s w) as [s2 w2] eqn:E1. rewrite (IH _ _ E).
  unfold cleanup_one in E1. run_in E1; done.
Qed.
End interleaving.

Lemma UploadFile_steps sha256 {W} `{UploadWorld W} rq o1 o2 o3 o4 s (w0 w w' : W) e s' :
  rtc (upload_step sha256) (NewFileUploadService, [], w0) (s, [], w) ->
  held s = ∅ -> NoDup o2 -> NoDup o3 -> NoDup o4 ->
  UploadFile sha256 rq o1 o2 o3 o4 s w = (e, s', w') ->
  rtc (upload_step sha256) (s, [], w) (s', [], w').
Proof.
  intros Hr Hh Hn2 Hn3 Hn4. unfold UploadFile. intros E.
  assert (Hok : system_ok sha256 (s, [], w)).
  { eapply (rtc_invariant _ (system_ok sha256)); [|by intros; eapply upload_step_ok|exact Hr]. apply initial_ok. }
  destruct Hok as [Ht _]. clear Hr.
  destruct (rqPrincipal rq <? 1) eqn:Epr; [simplify_eq; apply rtc_refl|]. bools.
  destruct (w_now w) as [now w1]. eapply rtc_l; [apply (st_world _ s [] w w1)|].
  destruct (cleanupExpiredUploads now o1 o2 s w1) as [s1 w2] eqn:Ec.
  eapply rtc_l; [eapply st_cleanup; [exact Hn2|exact Ec]|].
  pose proof (cleanup_held _ _ _ _ _ _ _ Hn2 Ec) as Hh1. rewrite Hh in Hh1.
  assert (Ht1 : table_ok sha256 s1) by (eapply shrinks_table; [eapply cleanup_shrinks; [exact Hn2|exact Ec]|done]). clear Ec.
  destruct (upload_checks rq) as [bin|] eqn:Eck; [|simplify_eq; apply rtc_refl].
  destruct (w_roots w2) as [[rs|] w3]; (eapply rtc_l; [apply (st_world _ s1 [] w2 w3)|]); [|simplify_eq; apply rtc_refl].
  destruct (w_now w3) as [now' w4]. eapply rtc_l; [apply (st_world _ s1 [] w3 w4)|].
  destruct (upload_candidate sha256 rq rs now') as [[key candidate]|] eqn:Ecand; [|simplify_eq; apply rtc_refl].
  destruct (upload_candidate_fresh _ _ _ _ _ _ _ Eck Ecand) as (Hi & Hc & _).
  destruct (getOrCreateUploadSession key candidate o3 s1 w4) as [[session s2] w5] eqn:Eg.
  destruct (getOrCreate_table _ _ _ _ _ _ _ _ _ Ht1 Hi Hc Hn3 Eg) as (_ & _ & Hsome).
  pose proof (getOrCreate_held _ _ _ _ _ _ _ _ Hn3 Eg) as Hh2. rewrite Hh1 in Hh2.
  eapply rtc_l; [eapply (st_open _ rq bin rs now'); [lia|exact Eck|exact Ecand|exact Hn3|exact Eg]|]. clear Eg.
  destruct session as [[l fresh]|]; [|simplify_eq; apply rtc_refl].
  destruct Hsome as [i Hl]. rewrite Hl in E.
  assert (Hnl : l ∉ held s2) by (rewrite Hh2; set_solver).
  eapply rtc_l; [exact (st_lock sha256 rq bin key candidate l s2 [] [] w5 Hnl)|].
  destruct (upload_locked sha256 rq bin candidate i w5) as [[v i'] w6] eqn:El.
  eapply rtc_l; [exact (st_run sha256 rq bin key candidate l (acquire l s2) [] [] w5 i v i' w6 Hl El)|].
  rewrite lock_unlock by done. destruct v as [err|changed finish]; [simplify_eq; apply rtc_refl|].
  destruct (deleteUploadSession _ _ _ _ _ _) as [[err s3] w7] eqn:Ed. simplify_eq.
  apply rtc_once. exact (st_delete sha256 key l changed o4 _ [] [] w6 err _ _ Hn4 Ed).
Qed.

(** ** Properties *)

(** C7. However upload requests, clean-up passes and status queries interleave,
    at most 16 sessions of the table are unfinished, at most 144 are retained,
    and in every session the chunk counter equals the number of recorded chunks,
    each recorded with the digest of a piece of exactly the length the upload's
    shape demands; a completed session retains no per-chunk state. *)
Theorem upload_table_invariant sha256 {W} `{UploadWorld W} (w w' : W) s ts :
  rtc (upload_step sha256) (NewFileUploadService, [], w) (s, ts, w') ->
  live_sessions s <= 16 /\ Z.of_nat (size (uploadStatus s)) <= 144 /\
  (forall l i, store s !! l = Some i -> info_ok sha256 i).
Proof.
  intros Hr. assert (Hok : system_ok sha256 (s, ts, w')).
  { eapply (rtc_invariant _ (system_ok sha256)); [|by intros; eapply upload_step_ok|exact Hr]. apply initial_ok. }
  destruct Hok as [(_ & Hi & Hl & Hz) _]. split_and!; [exact Hl|exact Hz|]. intros l i Hli. by destruct (Hi l i Hli).
Qed.

(** C10. No step changes what a session is (owner, roots, paths, shape), and a
    completed session stays completed with the same digest, size, time and
    identity. *)
Theorem upload_sessions_stable sha256 {W} `{UploadWorld W} (w w1 w2 : W) s1 ts1 s2 ts2 l i :
  rtc (upload_step sha256) (NewFileUploadService, [], w) (s1, ts1, w1) ->
  upload_step sha256 (s1, ts1, w1) (s2, ts2, w2) -> store s1 !! l = Some i ->
  exists i', store s2 !! l = Some i' /\ same_session i i'.
Proof.
  intros Hr Hs Hl. assert (Hok : system_ok sha256 (s1, ts1, w1)).
  { eapply (rtc_invariant _ (system_ok sha256)); [|by intros; eapply upload_step_ok|exact Hr]. apply initial_ok. }
  by eapply upload_step_kept.
Qed.

(** C8. The target is published only from the recorded chunks: what was
    assembled is the concatenation, in order, of pieces whose digests are exactly
    the recorded ones; it has the declared total size, and the digest handed to
    the commit is its SHA-256. *)
Theorem assembly_publishes_recorded_chunks sha256 {W} `{UploadWorld W} i (w w' : W) r e i' :
  assembleServiceUpload sha256 i w = (r, e, i', w') -> TargetPublished r = true ->
  Zlen (chunkDigests i) = totalChunks i ->
  exists pieces, chunkDigests i = sha256 <$> pieces /\ assembled r = concat pieces /\
    AsmDigest r = sha256 (assembled r) /\ AsmSize r = Zlen (assembled r) /\ AsmSize r = totalSize i.
Proof.
  intros E Hp Hl. apply assembleServiceUpload_facts in E as [_ Hf].
  destruct (Hf Hp) as ((pieces & Hc & Hst) & Hd & Hz & Ht). exists pieces.
  split_and!; try done. by eapply staged_digests.
Qed.

(** C9. What an upload request achieves while it holds the lock of a well-formed
    session. On an unfinished session, no other chunk's record changes; success
    that leaves it unfinished means that exactly this chunk is now recorded, with
    the digest of the request's body (or of the piece already on record under its
    number), which has the declared size; success at the end means that every
    other chunk was already recorded and that the session is completed with the
    digest of pieces whose digests are the recorded ones, with this chunk's in its
    place, and which have the declared total size. A session being deleted is left
    as it is and the request fails. On a completed session a replay changes nothing
    but the activity time, and that only when its metadata agree and the target is
    still the committed one; then it gets the recorded answer. *)
Theorem upload_request_effect sha256 {W} `{UploadWorld W} rq bin rs now key candidate i (w w' : W) v i' :
  upload_checks rq = Ok bin -> upload_candidate sha256 rq rs now = Ok (key, candidate) -> info_ok sha256 i ->
  upload_locked sha256 rq bin candidate i w = (v, i', w') ->
  info_ok sha256 i' /\
  (completed i = false -> request_effect sha256 rq bin v i i') /\
  (completed i = false -> init i = false -> i' = i /\ w' = w /\ exists e, v = Return (Some e)) /\
  (completed i = true -> replay_effect candidate i w v i').
Proof.
  intros Hck Hcand Hi E. destruct (upload_candidate_fresh _ _ _ _ _ _ _ Hck Hcand) as (_ & _ & Hm).
  destruct (upload_locked_effect _ _ _ _ _ _ _ _ _ E Hi Hm) as ([_ Hf] & Hr).
  split; [auto|]. split; [exact Hr|]. split; [|by intros; eapply replay_exact].
  intros Hc Hn. unfold upload_locked in E. rewrite Hc, Hn in E. cbn [negb] in E. destruct (cleanupErr i); simplify_eq;
    split_and!; eauto.
Qed.

(** ** Concrete runs: a staging directory held in memory *)

Record disk := { files : gmap bytes bytes; writing : bytes; published : option bytes }.

#[local] Instance disk_world : UploadWorld disk := {
  w_now w := (1000, w);
  w_contended w := (false, w);
  w_roots w := (Ok {| rootsPtr := 1; rootsClosed := false; rootPaths := [bs "/DATA"] |}, w);
  w_mkdirAll w _ := (None, w);
  w_openDirectory w _ := (Ok 3, w);
  w_closeDirectory w _ := w;
  w_removeHeldTree w _ _ _ := (None, {| files := ∅; writing := []; published := published w |});
  w_removeTree w _ := (Some (ErrPlain NotExist), w);
  w_reserveSpace w _ _ := (Ok 0, w);
  w_releaseSpace w _ := w;
  w_acquireMutation w := (None, w);
  w_releaseMutation w := w;
  w_openRegularIn w _ name :=
    (match files w !! name with
     | Some c => Ok {| contents := {| data := c; readErr := None; closeErr := None |};
                       statErr := None; isRegular := true; statSize := Zlen c |}
     | None => Err (ErrPlain NotExist)
     end, w);
  w_statEntry w _ name :=
    (match files w !! name with Some c => Ok (true, Zlen c) | None => Err (ErrPlain NotExist) end, w);
  w_removeIn w _ name :=
    (match files w !! name with Some _ => None | None => Some (ErrPlain NotExist) end,
     {| files := delete name (files w); writing := writing w; published := published w |});
  w_createExclusiveIn w _ name :=
    (Ok 4, {| files := <[name := []]> (files w); writing := name; published := published w |});
  w_write w _ piece :=
    (None, {| files := <[writing w := default [] (files w !! writing w) ++ piece]> (files w);
              writing := writing w; published := published w |});
  w_sync w _ := (None, w);
  w_closeWriter w _ := (None, w);
  w_abort w _ := (None, w);
  w_publishedIdentity w _ := (Ok 9, w);
  w_beforeCommit w := (None, w);
  w_commit w _ name _ id _ :=
    ((id, None), {| files := delete name (files w); writing := writing w; published := files w !! name |});
  w_verifyIdentity w _ _ := (None, w)
}.

Definition empty_disk : disk := {| files := ∅; writing := []; published := None |}.

Definition sample_part (c : bytes) : file_part :=
  {| partSize := Zlen c; partOpen := Ok {| data := c; readErr := None; closeErr := None |} |}.

(** A six-byte upload in chunks of four. *)
Definition sample_upload (n : Z) (c : bytes) : upload_request :=
  {| rqPrincipal := 7; rqPath := bs "/DATA"; rqChunkNumber := n; rqChunkSize := 4;
     rqCurrentChunkSize := Zlen c; rqTotalChunks := 2; rqTotalSize := 6; rqIdentifier := bs "id";
     rqRelativePath := bs "a.txt"; rqFileName := bs "a.txt"; rqBin := Some (sample_part c) |}.

Definition hash (b : bytes) : bytes := [byte_of (Zlen b)] ++ take 2 b.

Definition keys_of (s : service) : list bytes := (map_to_list (uploadStatus s)).*1.

Definition after_one := UploadFile hash (sample_upload 1 (bs "abcd")) [] [] [] [] NewFileUploadService empty_disk.
Definition after_two :=
  let '(_, s, w) := after_one in UploadFile hash (sample_upload 2 (bs "ef")) [] [] [] [] s w.

Example two_chunk_upload :
  (after_one.1.1, after_two.1.1, published after_two.2) = (None, None, Some (bs "abcdef")).
Proof. vm_compute. reflexivity. Qed.

Lemma after_one_reached : rtc (upload_step hash) (NewFileUploadService, [], empty_disk) (after_one.1.2, [], after_one.2).
Proof.
  destruct after_one as [[e s] w] eqn:E.
  eapply (UploadFile_steps hash _ [] [] [] []); [apply rtc_refl|done|constructor..|exact E].
Qed.

Lemma upload_table_invariant_witness :
  live_sessions after_one.1.2 <= 16 /\ Z.of_nat (size (uploadStatus after_one.1.2)) <= 144 /\
  (forall l i, store after_one.1.2 !! l = Some i -> info_ok hash i).
Proof. exact (upload_table_invariant hash _ _ _ _ after_one_reached). Defined.

Lemma after_two_reached : rtc (upload_step hash) (NewFileUploadService, [], empty_disk) (after_two.1.2, [], after_two.2).
Proof.
  etrans; [exact after_one_reached|]. destruct after_two as [[e s] w] eqn:E. unfold after_two in E.
  pose proof after_one_reached as Hr. destruct after_one as [[e1 s1] w1] eqn:E1.
  eapply (UploadFile_steps hash _ [] [] [] [] s1 empty_disk); [exact Hr| |constructor..|exact E].
  apply (f_equal (fun x => held x.1.2)) in E1. cbn [fst snd] in E1. rewrite <- E1. vm_compute. reflexivity.
Qed.

(** A status query on the session the two uploads completed. *)
Lemma upload_sessions_stable_witness :
  match store after_two.1.2 !! 0%nat with
  | Some i =>
      completed i = true /\
      exists i', store (with_info 0 (set_activity 1000 i) after_two.1.2) !! 0%nat = Some i' /\ same_session i i'
  | None => False
  end.
Proof.
  destruct (store after_two.1.2 !! 0%nat) as [i|] eqn:E; [|vm_compute in E; discriminate E].
  split; [apply (f_equal (fmap completed)) in E; vm_compute in E; injection E as E; symmetry; exact E|].
  assert (Hk : exists key, uploadStatus after_two.1.2 !! key = Some 0%nat)
    by (eexists (boundUploadIdentifier hash 7 (bs "id") (bs "/DATA/a.txt")); vm_compute; reflexivity).
  destruct Hk as [key Hk].
  assert (Ht : test_locked {| rootsPtr := 1; rootsClosed := false; rootPaths := [bs "/DATA"] |} 7 (bs "/DATA")
                 (bs "/DATA/a.txt") (bs "a.txt") 1 i after_two.2 = (None, set_activity 1000 i, after_two.2)).
  { vm_compute in E. injection E as E. rewrite <- E. vm_compute. reflexivity. }
  assert (Hh : 0%nat ∉ held after_two.1.2).
  { assert (He : held after_two.1.2 = ∅) by (vm_compute; reflexivity). rewrite He. apply not_elem_of_empty. }
  exact (upload_sessions_stable hash _ _ _ _ _ _ _ _ _ after_two_reached
    (st_test hash _ _ _ _ _ _ key 0%nat after_two.1.2 [] after_two.2 i None _ _ Hk Hh E Ht) E).
Defined.

(** Both chunks recorded and staged, the assembly still to do. *)
Definition sample_candidate : FileInfo :=
  match upload_candidate hash (sample_upload 1 (bs "abcd"))
          {| rootsPtr := 1; rootsClosed := false; rootPaths := [bs "/DATA"] |} 1000 with
  | Ok (_, c) => c
  | Err _ => set_init false (default (set_completed 0 [] 0 0 None
      {| init := false; principalID := 0; uploaded := []; chunkDigests := []; uploadedChunkNum := 0; base := [];
         targetPath := []; targetRelative := []; tempRelative := []; tempDir := []; assemblyPath := [];
         totalChunks := 0; totalSize := 0; chunkSize := 0; lastActivity := 0;
         roots := {| rootsPtr := 0; rootsClosed := true; rootPaths := [] |}; stagingDirectory := None;
         stagingParent := None; stagingName := []; cleanupErr := None; completed := false; completedAt := 0;
         completionDigest := []; completionSize := 0; completionIdentity := 0; completionErr := None;
         stagingClean := false |}) None)
  end.

Definition staged_info : FileInfo :=
  set_chunks [true; true] [hash (bs "abcd"); hash (bs "ef")] 2 sample_candidate.
Definition staged_disk : disk :=
  {| files := {[ bs "1" := bs "abcd"; bs "2" := bs "ef" ]}; writing := []; published := None |}.

Lemma assembly_publishes_recorded_chunks_witness :
  let r := (assembleServiceUpload hash staged_info staged_disk).1.1.1 in
  exists pieces, chunkDigests staged_info = hash <$> pieces /\ assembled r = concat pieces /\
    AsmDigest r = hash (assembled r) /\ AsmSize r = Zlen (assembled r) /\ AsmSize r = totalSize staged_info.
Proof.
  intros r. unfold r. destruct (assembleServiceUpload hash staged_info staged_disk) as [[[r0 e] i'] w'] eqn:E.
  apply (assembly_publishes_recorded_chunks hash staged_info staged_disk w' r0 e i' E).
  - apply (f_equal (fun x => TargetPublished x.1.1.1)) in E. vm_compute in E. symmetry. exact E.
  - vm_compute. reflexivity.
Defined.

(** The first chunk of an upload, and the replay of its last chunk once it is completed. *)
Definition sample_roots : ManagedRoots := {| rootsPtr := 1; rootsClosed := false; rootPaths := [bs "/DATA"] |}.
Definition completed_info : FileInfo :=
  set_cleanup None true (set_init false (set_completed 900 (hash (bs "abcdef")) 6 9 None sample_candidate)).

Lemma upload_request_effect_witness :
  (let out := upload_locked hash (sample_upload 1 (bs "abcd")) (sample_part (bs "abcd"))
                sample_candidate sample_candidate empty_disk in
   out.1.1 = Return None /\
   request_effect hash (sample_upload 1 (bs "abcd")) (sample_part (bs "abcd")) (Return None) sample_candidate out.1.2) /\
  (let out := upload_locked hash (sample_upload 2 (bs "ef")) (sample_part (bs "ef"))
                sample_candidate completed_info empty_disk in
   out.1.1 = Return None /\
   replay_effect sample_candidate completed_info empty_disk (Return None) out.1.2).
Proof.
  split.
  - destruct (upload_locked hash (sample_upload 1 (bs "abcd")) (sample_part (bs "abcd"))
                sample_candidate sample_candidate empty_disk) as [[v i'] w'] eqn:E.
    assert (Hv : Return None = v) by (apply (f_equal (fun x => x.1.1)) in E; vm_compute in E; exact E).
    subst v. split; [reflexivity|]. change ((Return None, i', w').1.2) with i'.
    destruct (upload_candidate hash (sample_upload 1 (bs "abcd")) sample_roots 1000) as [[key c]|] eqn:Ec;
      [|vm_compute in Ec; discriminate Ec].
    assert (Hc : c = sample_candidate) by (unfold sample_candidate; unfold sample_roots in Ec; rewrite Ec; reflexivity).
    subst c.
    assert (Hck : upload_checks (sample_upload 1 (bs "abcd")) = Ok (sample_part (bs "abcd"))) by (vm_compute; reflexivity).
    destruct (upload_candidate_fresh hash _ _ _ _ _ _ Hck Ec) as (Hi & Hc & _).
    exact (proj1 (proj2 (upload_request_effect hash _ _ _ _ _ _ _ empty_disk w' (Return None) i' Hck Ec Hi E)) Hc).
  - destruct (upload_locked hash (sample_upload 2 (bs "ef")) (sample_part (bs "ef"))
                sample_candidate completed_info empty_disk) as [[v i'] w'] eqn:E.
    assert (Hv : Return None = v) by (apply (f_equal (fun x => x.1.1)) in E; vm_compute in E; exact E).
    subst v. split; [reflexivity|]. change ((Return None, i', w').1.2) with i'.
    assert (Ec : exists key, upload_candidate hash (sample_upload 2 (bs "ef")) sample_roots 1000 = Ok (key, sample_candidate))
      by (eexists; vm_compute; reflexivity).
    destruct Ec as [key Ec].
    assert (Hck : upload_checks (sample_upload 2 (bs "ef")) = Ok (sample_part (bs "ef"))) by (vm_compute; reflexivity).
    assert (Hi : info_ok hash completed_info) by (vm_compute; repeat split; reflexivity).
    destruct (upload_request_effect hash _ _ _ _ _ _ _ empty_disk w' (Return None) i' Hck Ec Hi E) as (_ & _ & _ & Hr).
    apply Hr. vm_compute. reflexivity.
Defined.
