(* ===== verification/Keyring.v ===== *)
(** * pkg/smbcredentials/keyring.go: the key-encryption keys of SMB credentials

    A keyring is a bounded map from key IDs (the SHA-256 of the key) to keys with
    one active ID. [crypto/sha256.Sum256] is a parameter; what the code relies on
    is that it yields 32 bytes. Random sources are the bytes they will deliver. *)

From Stdlib Require Import Strings.Byte ZArith Lia String.
From stdpp Require Import base list strings sets gmap sorting.
From S2P Require Import Prelude GoStd GoEncoding.

Definition keySize : Z := 32.
Definition keyIDSize : Z := 32.
Definition maxKeys : Z := 8.
Definition keyringMagic : bytes := bs "RCSMBKEY".

Inductive keyring_error := ErrInvalidKeyring | ErrKeyringFull.

(** [io.ReadFull(r, buf)] for a buffer of [n] bytes: the buffer and the rest of the source. *)
Definition read_full (n : nat) (r : bytes) : option (bytes * bytes) :=
  if (length r <? n)%nat then None else Some (take n r, drop n r).

Record keyringState := { active : bytes; keys : gmap bytes bytes }.

Definition appendUint16 (destination : bytes) (value : Z) : option bytes :=
  if (value <? 0) || (65535 <? value) then None else Some (destination ++ be_put 2 value).

Definition encodeKeyID (id : bytes) : bytes := hex_encode id.

Section keyring.
Context (sha256 : bytes -> bytes).

Definition deriveKeyID (key : bytes) : bytes := sha256 key.

Definition newKeyring (random : bytes) : result keyring_error keyringState :=
  match read_full 32 random with
  | None => Err ErrInvalidKeyring
  | Some (key, _) => Ok {| active := deriveKeyID key; keys := {[ deriveKeyID key := key ]} |}
  end.

(** The loop over the entries: [previous] is the ID before, if any. *)
Fixpoint parse_entries (count : nat) (previous : option bytes) (data : bytes) (acc : gmap bytes bytes)
  : result keyring_error (gmap bytes bytes) :=
  match count with
  | O => Ok acc
  | S count' =>
      let id := take 32 data in
      let key := take 32 (drop 32 data) in
      let ascending := match previous with None => true | Some p => bytes_ltb p id end in
      fail_if negb (bool_decide (id = deriveKeyID key)) || negb ascending with ErrInvalidKeyring in
      fail_if bool_decide (is_Some (acc !! id)) with ErrInvalidKeyring in
      parse_entries count' (Some id) (drop 64 data) (<[id := key]> acc)
  end.

Definition ParseKeyring (data : bytes) : result keyring_error keyringState :=
  fail_if (Zlen data <? 42) || negb (bool_decide (take 8 data = keyringMagic))
          || negb (bool_decide (data !! 8%nat = Some (byte_of 1)))
    with ErrInvalidKeyring in
  let count := byte_val (default x00 (data !! 9%nat)) in
  fail_if (count <? 1) || (maxKeys <? count) || negb (Zlen data =? 42 + count * (keyIDSize + keySize))
    with ErrInvalidKeyring in
  let act := slice 10 42 data in
  let! ks := parse_entries (Z.to_nat count) None (drop 42 data) ∅ in
  fail_if negb (bool_decide (is_Some (ks !! act))) with ErrInvalidKeyring in
  Ok {| active := act; keys := ks |}.

Definition validateLocked (k : keyringState) : bool :=
  let n := Z.of_nat (size (keys k)) in
  negb ((n <? 1) || (maxKeys <? n)) && bool_decide (is_Some (keys k !! active k))
  && forallb (fun e => bool_decide (e.1 = deriveKeyID e.2)) (map_to_list (keys k)).

Definition sortedIDs (k : keyringState) : list bytes := sort_slice bytes_ltb (map_to_list (keys k)).*1.

Definition entry_bytes (ks : gmap bytes bytes) (id : bytes) : bytes := id ++ default [] (ks !! id).

Definition Marshal (k : keyringState) : result keyring_error bytes :=
  fail_if negb (validateLocked k) with ErrInvalidKeyring in
  let ids := sortedIDs k in
  Ok (keyringMagic ++ [byte_of 1] ++ [byte_of (Zlen ids)] ++ active k ++ flat_map (entry_bytes (keys k)) ids).

(** At most four draws; a draw that collides with a retained key is discarded. *)
Fixpoint rotate_loop (attempts : nat) (k : keyringState) (random : bytes) : result keyring_error keyringState :=
  match attempts with
  | O => Err ErrInvalidKeyring
  | S n =>
      match read_full 32 random with
      | None => Err ErrInvalidKeyring
      | Some (key, random) =>
          let id := deriveKeyID key in
          fail_if negb (validateLocked k) with ErrInvalidKeyring in
          fail_if maxKeys <=? Z.of_nat (size (keys k)) with ErrKeyringFull in
          if bool_decide (is_Some (keys k !! id)) then rotate_loop n k random
          else Ok {| active := id; keys := <[id := key]> (keys k) |}
      end
  end.

Definition rotate (k : keyringState) (random : bytes) : result keyring_error keyringState := rotate_loop 4 k random.

Definition ActiveID (k : keyringState) : bytes := if validateLocked k then hex_encode (active k) else [].
Definition KeyIDs (k : keyringState) : list bytes := if validateLocked k then hex_encode <$> sortedIDs k else [].

(** Keys are cleared and dropped, the active ID is zeroed. *)
Definition Destroy (k : keyringState) : keyringState := {| active := replicate 32 x00; keys := ∅ |}.

(** ** Lemmas *)

(** IDs and keys are 32-byte arrays. *)
Definition keyring_typed (k : keyringState) : Prop :=
  length (active k) = 32%nat /\
  forall id key, keys k !! id = Some key -> length id = 32%nat /\ length key = 32%nat.

Lemma validateLocked_spec k :
  validateLocked k = true <->
  1 <= Z.of_nat (size (keys k)) <= maxKeys /\ is_Some (keys k !! active k) /\
  forall id key, keys k !! id = Some key -> id = deriveKeyID key.
Proof.
  unfold validateLocked. rewrite !andb_true_iff, negb_true_iff, orb_false_iff, !Z.ltb_ge, bool_decide_eq_true, forallb_forall.
  split.
  - intros ((? & ?) & Ha). split_and!; [lia|lia|done|]. intros id key Hk.
    assert (Hin : In (id, key) (map_to_list (keys k))) by (by apply list_elem_of_In, elem_of_map_to_list).
    specialize (Ha _ Hin). by apply bool_decide_eq_true in Ha.
  - intros ((? & ?) & ? & Ha). split_and!; [lia|lia|done|]. intros [id key] Hin%list_elem_of_In%elem_of_map_to_list.
    apply bool_decide_eq_true. by apply Ha.
Qed.

Definition entries_bytes (l : list (bytes * bytes)) : bytes := flat_map (fun e => e.1 ++ e.2) l.

Definition good_entry (e : bytes * bytes) : Prop :=
  length e.1 = 32%nat /\ length e.2 = 32%nat /\ e.1 = deriveKeyID e.2.

Lemma length_entries_bytes l : Forall good_entry l -> length (entries_bytes l) = (64 * length l)%nat.
Proof.
  induction 1 as [|e l (H1 & H2 & _) _ IH]; [done|]. unfold entries_bytes in *. cbn [flat_map length].
  rewrite !length_app, H1, H2, IH. lia.
Qed.

Definition above (p : option bytes) (id : bytes) : Prop :=
  match p with None => True | Some p => bytes_ltb p id = true end.

(** IDs strictly ascending, all above [p]. *)
Definition ascending (p : option bytes) (l : list (bytes * bytes)) : Prop :=
  Forall (above p) l.*1 /\ StronglySorted (fun a b => bytes_ltb a b = true) l.*1.

Lemma ascending_cons p e l :
  ascending p (e :: l) <-> above p e.1 /\ ascending (Some e.1) l.
Proof.
  unfold ascending. cbn [fmap list_fmap]. rewrite Forall_cons. split.
  - intros [[Hp Hl] Hs]. apply StronglySorted_inv in Hs as [Hs Hf]. split_and!; done.
  - intros (Hp & Hl & Hs). split_and!; [done| |by constructor].
    eapply Forall_impl; [exact Hl|]. intros x Hx. unfold above in *. destruct p; [|done]. by eapply bytes_ltb_trans.
Qed.

Lemma parse_entries_spec n p data acc ks :
  length data = (64 * n)%nat ->
  parse_entries n p data acc = Ok ks <->
  exists l, length l = n /\ Forall good_entry l /\ data = entries_bytes l /\ ascending p l /\
    (forall e, e ∈ l -> acc !! e.1 = None) /\ ks = foldl (fun m e => <[e.1 := e.2]> m) acc l.
Proof.
  revert p data acc. induction n as [|n IH]; intros p data acc Hlen; cbn [parse_entries].
  { split.
    - intros [= <-]. exists []. apply length_zero_iff_nil in Hlen as ->. split_and!; try done.
      + split; constructor.
      + set_solver.
    - intros (l & ->%length_zero_iff_nil & _ & _ & _ & _ & ->). done. }
  set (id := take 32 data). set (key := take 32 (drop 32 data)).
  assert (Hid : length id = 32%nat) by (unfold id; rewrite length_take; lia).
  assert (Hkey : length key = 32%nat) by (unfold key; rewrite length_take, length_drop; lia).
  assert (Hdata : data = (id ++ key) ++ drop 64 data).
  { rewrite <- (take_drop 32 data) at 1. rewrite <- app_assoc. f_equal.
    rewrite <- (take_drop 32 (drop 32 data)) at 1. rewrite drop_drop. done. }
  assert (Hrest : length (drop 64 data) = (64 * n)%nat) by (rewrite length_drop; lia).
  specialize (IH (Some id) (drop 64 data) (<[id := key]> acc) Hrest). split.
  - intros E. step_in E. step_in E. bools. apply IH in E as (l & Hl & Hg & Hd & Ha & Hfr & ->).
    exists ((id, key) :: l). split_and!.
    + cbn [length]. lia.
    + constructor; [|done]. done.
    + cbn [entries_bytes flat_map fst snd]. fold (entries_bytes l). rewrite <- Hd. done.
    + apply ascending_cons. split; [|done]. destruct p; done.
    + intros e [->|He]%elem_of_cons; cbn [fst].
      * match goal with H : ~ is_Some _ |- _ => by apply eq_None_not_Some in H end.
      * specialize (Hfr e He). destruct (decide (id = e.1)) as [Heq|]; [by rewrite <- Heq, lookup_insert_eq in Hfr|].
        by rewrite lookup_insert_ne in Hfr.
    + done.
  - intros (l & Hl & Hg & Hd & Ha & Hfr & ->). destruct l as [|[id' key'] l]; [done|].
    apply Forall_cons in Hg as [(Hl1 & Hl2 & Hder) Hg]. cbn [fst snd] in Hl1, Hl2, Hder.
    cbn [entries_bytes flat_map fst snd] in Hd. fold (entries_bytes l) in Hd.
    assert (id' = id /\ key' = key /\ entries_bytes l = drop 64 data) as (-> & -> & Hd').
    { unfold id, key. rewrite Hd, <- app_assoc. rewrite take_app_length' by done.
      rewrite (drop_app_length' id') by done. rewrite take_app_length' by done.
      split_and!; [done|done|]. rewrite app_assoc, drop_app_length'; [done|]. rewrite length_app. lia. }
    apply ascending_cons in Ha as [Hab Ha]. cbn [fst] in Hab, Ha.
    rewrite (bool_decide_eq_true_2 (id = _)) by done.
    rewrite (bool_decide_eq_false_2 (is_Some (acc !! id))).
    2: { pose proof (Hfr (id, key) ltac:(left)) as Hn. cbn [fst] in Hn. rewrite Hn. by intros [? ?]. }
    assert (Hasc : match p with None => true | Some p0 => bytes_ltb p0 id end = true) by (destruct p; done).
    rewrite Hasc. cbn [negb orb]. apply IH. exists l. split_and!; [cbn in Hl; lia|done|done|done| |done].
    intros e He. rewrite lookup_insert_ne; [apply Hfr; by right|].
    intros Heq. destruct Ha as [Hab' _]. rewrite Forall_forall in Hab'.
    assert (Hin : e.1 ∈ l.*1) by (apply list_elem_of_fmap; by exists e).
    specialize (Hab' _ Hin). unfold above in Hab'. rewrite <- Heq, bytes_ltb_irrefl in Hab'. done.
Qed.

Lemma foldl_insert_map (l : list (bytes * bytes)) (acc : gmap bytes bytes) :
  NoDup l.*1 -> (forall e, e ∈ l -> acc !! e.1 = None) ->
  foldl (fun m e => <[e.1 := e.2]> m) acc l = list_to_map l ∪ acc.
Proof.
  revert acc. induction l as [|[id key] l IH]; intros acc Hnd Hfr; cbn [foldl].
  - by rewrite list_to_map_nil, (left_id_L ∅ (∪)).
  - apply NoDup_cons in Hnd as [Hid Hnd]. rewrite IH; [|done|].
    + rewrite list_to_map_cons. apply map_eq. intros x. 
      rewrite !lookup_union. destruct (decide (id = x)) as [<-|].
      * rewrite !lookup_insert_eq. cbn [fst] in Hid. rewrite (not_elem_of_list_to_map_1 l id) by done.
        pose proof (Hfr (id, key) ltac:(left)) as Hn. cbn [fst] in Hn. by rewrite Hn.
      * by rewrite !lookup_insert_ne.
    + intros e He. rewrite lookup_insert_ne; [apply Hfr; by right|]. intros Heq. cbn [fst] in *. apply Hid.
      rewrite Heq. apply list_elem_of_fmap. by exists e.
Qed.

#[local] Instance bytes_leb_antisymm : AntiSymm (=) (fun a b => bytes_ltb b a = false).
Proof. intros a b Ha Hb. by apply bytes_ltb_total. Qed.

Lemma sorted_ascending (l : list bytes) :
  StronglySorted (fun a b => bytes_ltb a b = true) l ->
  StronglySorted (fun a b => bytes_ltb b a = false) l /\ NoDup l.
Proof.
  induction 1 as [|x l Hs [IH1 IH2] Hx]; [split; constructor|]. rewrite Forall_forall in Hx. split.
  - constructor; [done|]. apply Forall_forall. intros y Hy. specialize (Hx y Hy).
    destruct (bytes_ltb y x) eqn:E; [|done]. pose proof (bytes_ltb_trans _ _ _ Hx E) as Hc.
    by rewrite bytes_ltb_irrefl in Hc.
  - apply NoDup_cons. split; [|done]. intros Hin. specialize (Hx x Hin). by rewrite bytes_ltb_irrefl in Hx.
Qed.

Lemma ltb_asym x y : bytes_ltb x y = true -> bytes_ltb y x = false.
Proof.
  intros Hxy. destruct (bytes_ltb y x) eqn:E; [|done]. pose proof (bytes_ltb_trans _ _ _ Hxy E) as Hc.
  by rewrite bytes_ltb_irrefl in Hc.
Qed.

Lemma ltb_negtrans x y z : bytes_ltb y x = false -> bytes_ltb z y = false -> bytes_ltb z x = false.
Proof.
  intros H1 H2. destruct (bytes_ltb z x) eqn:E; [|done].
  destruct (bytes_ltb x y) eqn:Exy.
  - pose proof (bytes_ltb_trans _ _ _ E Exy). congruence.
  - rewrite (bytes_ltb_total x y) in E by done. congruence.
Qed.

(** The sorted IDs of a map built from ascending entries are those entries' IDs. *)
Lemma sorted_ids_of (l : list (bytes * bytes)) (ks : gmap bytes bytes) a :
  ascending None l -> ks = list_to_map l -> sortedIDs {| active := a; keys := ks |} = l.*1.
Proof.
  intros [_ Hs] ->. destruct (sorted_ascending _ Hs) as [Hs' Hnd]. unfold sortedIDs. cbn [keys].
  eapply (StronglySorted_unique (fun a b => bytes_ltb b a = false)); [|exact Hs'|].
  - apply sort_slice_sorted; [apply ltb_asym|apply ltb_negtrans].
  - rewrite sort_slice_perm. by rewrite map_to_list_to_map.
Qed.

(** The entries of a map in the order of its sorted IDs. *)
Definition entries_of (k : keyringState) : list (bytes * bytes) :=
  (fun id => (id, default [] (keys k !! id))) <$> sortedIDs k.

Lemma sortedIDs_perm k : sortedIDs k ≡ₚ (map_to_list (keys k)).*1.
Proof. apply sort_slice_perm. Qed.

Lemma elem_sortedIDs k id : id ∈ sortedIDs k <-> is_Some (keys k !! id).
Proof.
  rewrite sortedIDs_perm, list_elem_of_fmap. split.
  - intros ([? key] & -> & Hin%elem_of_map_to_list). by exists key.
  - intros [key Hk]. exists (id, key). split; [done|]. by apply elem_of_map_to_list.
Qed.

Lemma sortedIDs_nodup k : NoDup (sortedIDs k).
Proof. rewrite sortedIDs_perm. apply NoDup_fst_map_to_list. Qed.

Lemma entries_of_ids k : (entries_of k).*1 = sortedIDs k.
Proof. unfold entries_of. rewrite <- list_fmap_compose. unfold compose. cbn [fst]. apply list_fmap_id. Qed.

Lemma entries_of_ascending k : ascending None (entries_of k).
Proof.
  split; rewrite entries_of_ids; [by apply Forall_forall|].
  pose proof (sort_slice_sorted bytes_ltb ltb_asym ltb_negtrans (map_to_list (keys k)).*1) as Hs.
  fold (sortedIDs k) in Hs. pose proof (sortedIDs_nodup k) as Hnd. revert Hs Hnd. generalize (sortedIDs k).
  induction l as [|x l IH]; intros Hs Hnd; [constructor|]. inversion Hs as [|? ? Hs' Hx]; subst.
  apply NoDup_cons in Hnd as [Hin Hnd]. constructor; [by apply IH|]. rewrite Forall_forall in *.
  intros y Hy. specialize (Hx y Hy). destruct (bytes_ltb x y) eqn:E; [done|].
  rewrite (bytes_ltb_total x y) in Hin by done. done.
Qed.

Lemma entries_of_map k : list_to_map (entries_of k) = keys k.
Proof.
  apply map_eq. intros id. destruct (keys k !! id) as [key|] eqn:Hk.
  - apply elem_of_list_to_map_1; [rewrite entries_of_ids; apply sortedIDs_nodup|].
    unfold entries_of. apply list_elem_of_fmap. exists id. rewrite Hk. split; [done|].
    apply elem_sortedIDs. by exists key.
  - apply not_elem_of_list_to_map_1. rewrite entries_of_ids, elem_sortedIDs, Hk. by intros [? ?].
Qed.

Lemma entries_of_bytes k : flat_map (entry_bytes (keys k)) (sortedIDs k) = entries_bytes (entries_of k).
Proof.
  unfold entries_bytes, entries_of, entry_bytes. induction (sortedIDs k); cbn; [done|]. by f_equal.
Qed.

Lemma length_sortedIDs k : Zlen (sortedIDs k) = Z.of_nat (size (keys k)).
Proof.
  unfold Zlen. rewrite (Permutation_length (sortedIDs_perm k)), length_fmap. by rewrite length_map_to_list.
Qed.

(** The fixed header in front of the entries. *)
Definition keyring_header (count : byte) (act : bytes) : bytes := keyringMagic ++ [byte_of 1] ++ [count] ++ act.

Lemma header_fields count act rest :
  length act = 32%nat ->
  let data := keyring_header count act ++ rest in
  take 8 data = keyringMagic /\ data !! 8%nat = Some (byte_of 1) /\ data !! 9%nat = Some count /\
  slice 10 42 data = act /\ drop 42 data = rest /\ Zlen data = 42 + Zlen rest.
Proof.
  intros Ha. cbv zeta. unfold keyring_header. split_and!; try reflexivity.
  - unfold slice. change (drop 10 (((keyringMagic ++ [byte_of 1] ++ [count] ++ act) ++ rest))) with (act ++ rest).
    by rewrite take_app_length'.
  - change 42%nat with (10 + 32)%nat. rewrite <- drop_drop.
    change (drop 10 (((keyringMagic ++ [byte_of 1] ++ [count] ++ act) ++ rest))) with (act ++ rest).
    by rewrite drop_app_length'.
  - rewrite !Zlen_app. unfold Zlen at 1 2 3 4. rewrite Ha. cbn. lia.
Qed.

Lemma header_exists data :
  42 <= Zlen data -> take 8 data = keyringMagic -> data !! 8%nat = Some (byte_of 1) ->
  data = keyring_header (default x00 (data !! 9%nat)) (slice 10 42 data) ++ drop 42 data.
Proof.
  intros Hlen Hm H8. unfold Zlen in Hlen. unfold keyring_header, slice.
  rewrite <- (take_drop 8 data) at 1. rewrite Hm, <- !app_assoc. f_equal.
  rewrite (drop_S data _ 8 H8). cbn [app]. f_equal.
  destruct (lookup_lt_is_Some_2 data 9) as [b Hb]; [lia|]. rewrite Hb. cbn [default from_option].
  rewrite (drop_S data b 9 Hb). f_equal.
  rewrite <- (take_drop 32 (drop 10 data)) at 1. by rewrite drop_drop.
Qed.

Lemma Marshal_shape k :
  validateLocked k = true ->
  Marshal k = Ok (keyring_header (byte_of (Z.of_nat (size (keys k)))) (active k) ++ entries_bytes (entries_of k)).
Proof.
  intros Hv. unfold Marshal, keyring_header. rewrite Hv, length_sortedIDs, entries_of_bytes. cbn [negb].
  by rewrite <- !app_assoc.
Qed.

Lemma entries_good k : keyring_typed k -> validateLocked k = true -> Forall good_entry (entries_of k).
Proof.
  intros [_ Ht] (_ & _ & Hd)%validateLocked_spec. unfold entries_of. rewrite Forall_fmap.
  apply Forall_forall. intros id [key Hk]%elem_sortedIDs. unfold compose, good_entry. cbn [fst snd]. rewrite Hk.
  cbn [default from_option]. destruct (Ht _ _ Hk). split_and!; auto.
Qed.

Lemma good_ascending_keyring l a :
  Forall good_entry l -> ascending None l -> length a = 32%nat -> is_Some (list_to_map (M := gmap bytes bytes) l !! a) ->
  1 <= Zlen l <= maxKeys ->
  let k := {| active := a; keys := list_to_map l |} in keyring_typed k /\ validateLocked k = true /\ entries_of k = l.
Proof.
  intros Hg Hasc Ha Hin Hl k. destruct (sorted_ascending _ (proj2 Hasc)) as [_ Hnd].
  assert (Hel : forall id key, keys k !! id = Some key -> (id, key) ∈ l).
  { intros id key Hk. by apply elem_of_list_to_map_2 in Hk. }
  rewrite Forall_forall in Hg. split_and!.
  - split; [done|]. intros id key Hk%Hel%Hg. by destruct Hk as (? & ? & _).
  - apply validateLocked_spec. cbn [keys active k]. split_and!; [| |done|].
    + rewrite <- length_map_to_list, map_to_list_to_map by done. unfold Zlen in Hl. lia.
    + rewrite <- length_map_to_list, map_to_list_to_map by done. unfold Zlen in Hl. lia.
    + intros id key Hk%Hel%Hg. by destruct Hk as (_ & _ & ?).
  - unfold entries_of. assert (Hids : sortedIDs k = l.*1) by (by apply sorted_ids_of). rewrite Hids.
    rewrite <- list_fmap_compose.
    rewrite <- (list_fmap_id l) at 2. apply list_fmap_ext. intros n [id key] Hn. unfold compose. cbn [fst].
    assert (Hk : keys k !! id = Some key).
    { apply elem_of_list_to_map_1; [done|]. by eapply list_elem_of_lookup_2. }
    by rewrite Hk.
Qed.

Lemma ParseKeyring_ok data k :
  ParseKeyring data = Ok k ->
  keyring_typed k /\ Marshal k = Ok data.
Proof.
  unfold ParseKeyring. intros E. step_in E. step_in E. bools.
  set (c := byte_val (default x00 (data !! 9%nat))) in *.
  pose proof (header_exists data ltac:(lia) ltac:(done) ltac:(done)) as Hdata.
  unfold keyIDSize, keySize, maxKeys in *.
  assert (Hl : length (drop 42 data) = (64 * Z.to_nat c)%nat) by (rewrite length_drop; unfold Zlen in *; lia).
  step_in E. apply parse_entries_spec in Heqr as (l & Hn & Hg & Hd & Ha & _ & ->); [|done].
  step_in E. bools. simplify_eq.
  destruct (sorted_ascending _ (proj2 Ha)) as [_ Hnd].
  rewrite foldl_insert_map, (right_id_L ∅ (∪)) in * by (done || (intros; apply lookup_empty)).
  assert (Hact : length (slice 10 42 data) = 32%nat) by (rewrite length_slice; unfold Zlen in *; lia).
  destruct (good_ascending_keyring l (slice 10 42 data)) as (Ht & Hv & He); try done;
    [unfold Zlen, maxKeys; lia|]. split; [done|].
  rewrite Marshal_shape, He by done. f_equal. rewrite Hdata at 3. cbn [active keys]. rewrite Hd. f_equal. f_equal.
  rewrite <- length_map_to_list, map_to_list_to_map by done. rewrite Hn, Z2Nat.id by lia. apply byte_of_val.
Qed.

Lemma ParseKeyring_Marshal k data :
  keyring_typed k -> Marshal k = Ok data -> ParseKeyring data = Ok k.
Proof.
  intros Ht E. assert (Hv : validateLocked k = true).
  { unfold Marshal in E. by destruct (validateLocked k). }
  rewrite Marshal_shape in E by done. apply Ok_inj in E as <-.
  pose proof (entries_good k Ht Hv) as Hg. pose proof (length_entries_bytes _ Hg) as Hle.
  pose proof Hv as (Hsz & Hac & _)%validateLocked_spec. unfold maxKeys in Hsz.
  assert (Hlen : length (entries_of k) = size (keys k)).
  { rewrite <- (length_fmap fst), entries_of_ids. pose proof (length_sortedIDs k). unfold Zlen in *. lia. }
  destruct (header_fields (byte_of (Z.of_nat (size (keys k)))) (active k) (entries_bytes (entries_of k)) (proj1 Ht))
    as (H8 & Hv8 & H9 & Hsl & Hdr & Hz).
  unfold ParseKeyring. rewrite H8, Hv8, H9, Hsl, Hdr, Hz. rewrite !bool_decide_eq_true_2 by done.
  cbn [from_option id negb orb]. rewrite byte_val_of, Z.mod_small by lia.
  unfold Zlen, keyIDSize, keySize, maxKeys. rewrite Hle, Hlen.
  replace (42 + Z.of_nat (64 * size (keys k)) <? 42) with false by (symmetry; apply Z.ltb_ge; lia).
  replace (Z.of_nat (size (keys k)) <? 1) with false by (symmetry; apply Z.ltb_ge; lia).
  replace (8 <? Z.of_nat (size (keys k))) with false by (symmetry; apply Z.ltb_ge; lia).
  replace (42 + Z.of_nat (64 * size (keys k)) =? 42 + Z.of_nat (size (keys k)) * (32 + 32)) with true
    by (symmetry; apply Z.eqb_eq; lia). cbn [orb negb]. rewrite Nat2Z.id.
  assert (Hle' : length (entries_bytes (entries_of k)) = (64 * size (keys k))%nat) by lia.
  rewrite (proj2 (parse_entries_spec (size (keys k)) None _ ∅ (keys k) Hle')).
  - rewrite bool_decide_eq_true_2 by done. by destruct k.
  - exists (entries_of k). split_and!; [done|done|done|apply entries_of_ascending|intros; apply lookup_empty|].
    rewrite foldl_insert_map, entries_of_map, (right_id_L ∅ (∪)); [done| |intros; apply lookup_empty].
    rewrite entries_of_ids. apply sortedIDs_nodup.
Qed.

(** *** Rotation *)

Hypothesis sha256_length : forall x, length (sha256 x) = 32%nat.

Definition keyring_ok (k : keyringState) : Prop := keyring_typed k /\ validateLocked k = true.

Lemma newKeyring_ok random k : newKeyring random = Ok k -> keyring_ok k.
Proof using sha256_length.
  unfold newKeyring, read_full. intros E. destruct (length random <? 32)%nat eqn:El; [done|]. simplify_eq.
  apply Nat.ltb_ge in El. split.
  - split; [apply sha256_length|]. cbn [keys]. intros id key [<- <-]%lookup_singleton_Some.
    split; [apply sha256_length|]. rewrite length_take. lia.
  - apply validateLocked_spec. cbn [keys active]. rewrite map_size_singleton. split_and!; [done|done| |].
    + rewrite lookup_singleton_eq. by eexists.
    + by intros id key [<- <-]%lookup_singleton_Some.
Qed.

Lemma rotate_loop_ok n k random k' :
  keyring_ok k -> rotate_loop n k random = Ok k' ->
  keyring_ok k' /\ keys k ⊆ keys k' /\ keys k !! active k' = None /\
  size (keys k') = S (size (keys k)) /\ Z.of_nat (size (keys k)) < maxKeys.
Proof using sha256_length.
  intros [Ht Hv]. revert random. induction n as [|n IH]; intros random E; cbn [rotate_loop] in E; [done|].
  unfold read_full in E. destruct (length random <? 32)%nat eqn:El; [done|]. apply Nat.ltb_ge in El.
  step_in E. step_in E. bools. case_bool_decide as Hin; [by apply IH in E|]. simplify_eq.
  apply eq_None_not_Some in Hin. pose proof Hv as (Hsz & _ & Hd)%validateLocked_spec.
  cbn [keys active]. split_and!; [split| | | |].
  - split; [apply sha256_length|]. cbn [keys]. intros id key [[<- <-]|[_ Hk]]%lookup_insert_Some.
    + split; [apply sha256_length|]. rewrite length_take. lia.
    + by apply (proj2 Ht).
  - apply validateLocked_spec. cbn [keys active]. rewrite map_size_insert_None by done. split_and!; [lia|lia| |].
    + rewrite lookup_insert_eq. by eexists.
    + intros id key [[<- <-]|[_ Hk]]%lookup_insert_Some; [done|by apply Hd].
  - by apply insert_subseteq.
  - done.
  - by apply map_size_insert_None.
  - done.
Qed.
(** The [j]-th draw of 32 bytes from the entropy source. *)
Definition draw (random : bytes) (j : nat) : bytes := take 32 (drop (32 * j) random).

Lemma draw_S random j : draw (drop 32 random) j = draw random (S j).
Proof. unfold draw. rewrite drop_drop. do 2 f_equal. lia. Qed.

Lemma rotate_loop_exact n k random k' :
  validateLocked k = true ->
  rotate_loop n k random = Ok k' <->
  Z.of_nat (size (keys k)) < 8 /\
  exists j, (j < n)%nat /\ (32 * S j <= length random)%nat /\
    (forall i, (i < j)%nat -> is_Some (keys k !! deriveKeyID (draw random i))) /\
    keys k !! deriveKeyID (draw random j) = None /\
    k' = {| active := deriveKeyID (draw random j);
            keys := <[deriveKeyID (draw random j) := draw random j]> (keys k) |}.
Proof.
  intros Hv. revert random. induction n as [|n IH]; intros random; cbn [rotate_loop].
  { split; [done|]. intros (_ & j & ? & _). lia. }
  unfold read_full. destruct (Nat.ltb_spec (length random) 32) as [Hl|Hl].
  { split; [done|]. intros (_ & j & _ & ? & _). lia. }
  rewrite Hv. cbn [negb]. unfold maxKeys. destruct (Z.leb_spec 8 (Z.of_nat (size (keys k)))) as [Hf|Hf].
  { split; [done|]. intros [? _]. lia. }
  change (take 32 random) with (draw random 0). case_bool_decide as Hin.
  - rewrite IH. split; intros (_ & j & Hj & Hlen & Hc & Hn & ->); (split; [done|]).
    + rewrite length_drop in Hlen. rewrite draw_S in Hn |- *. exists (S j). split_and!; [lia|lia| |done|done].
      intros [|i] Hi; [done|]. rewrite <- draw_S. apply Hc. lia.
    + destruct j as [|j]; [by rewrite Hn in Hin; destruct Hin|]. exists j. rewrite !draw_S, length_drop.
      split_and!; [lia|lia| |done|done]. intros i Hi. rewrite draw_S. apply Hc. lia.
  - apply eq_None_not_Some in Hin. split.
    + intros [= <-]. split; [done|]. exists 0%nat. split_and!; [lia|lia|lia|done|done].
    + intros (_ & [|j] & _ & _ & Hc & _ & ->); [done|]. destruct (Hc 0%nat) as [? Hx]; [lia|]. congruence.
Qed.
End keyring.

(** ** Properties *)

(** C25. The keyring format is canonical: bytes parse to a keyring if and only if
    the keyring has 32-byte IDs and keys and marshals to exactly those bytes. So
    a keyring survives storage, and there is one encoding per keyring. *)
Theorem keyring_format_exact sha256 data k :
  ParseKeyring sha256 data = Ok k <-> keyring_typed k /\ Marshal sha256 k = Ok data.
Proof. split; [apply ParseKeyring_ok|]. intros [Ht E]. by apply ParseKeyring_Marshal. Qed.

(** C40. Rotation is exact. From a valid keyring it succeeds if and only if fewer
    than eight keys are retained and one of the first four 32-byte draws has an ID
    that is not retained yet; the first such draw becomes the active key, under its
    own ID, and every other key stays where it was, so the new keyring is valid. A
    full keyring is reported as full whenever a key can be drawn. *)
Theorem rotate_exact sha256 k random :
  (forall x, length (sha256 x) = 32%nat) -> keyring_ok sha256 k ->
  (forall k', rotate sha256 k random = Ok k' <->
     Z.of_nat (size (keys k)) < 8 /\
     exists j, (j < 4)%nat /\ (32 * S j <= length random)%nat /\
       (forall i, (i < j)%nat -> is_Some (keys k !! deriveKeyID sha256 (draw random i))) /\
       keys k !! deriveKeyID sha256 (draw random j) = None /\
       k' = {| active := deriveKeyID sha256 (draw random j);
               keys := <[deriveKeyID sha256 (draw random j) := draw random j]> (keys k) |}) /\
  (forall k', rotate sha256 k random = Ok k' -> keyring_ok sha256 k' /\ keys k ⊆ keys k') /\
  (Z.of_nat (size (keys k)) = 8 -> (32 <= length random)%nat -> rotate sha256 k random = Err ErrKeyringFull).
Proof.
  intros Hs Hk. split_and!.
  - intros k'. apply rotate_loop_exact, Hk.
  - intros k' E. by destruct (rotate_loop_ok _ Hs _ _ _ _ Hk E) as (? & ? & _).
  - intros Hf Hl. unfold rotate. cbn [rotate_loop]. unfold read_full. destruct Hk as [_ Hv].
    by rewrite (proj2 (Nat.ltb_ge _ _)), Hv, Hf by done.
Qed.

(** A stand-in digest for concrete runs. *)
Definition pad32 (b : bytes) : bytes := take 32 (b ++ replicate 32 x00).

Definition sample_keyring : keyringState :=
  {| active := pad32 (replicate 32 x01); keys := {[ pad32 (replicate 32 x01) := replicate 32 x01 ]} |}.

(** The first draw repeats the retained key, the second one is new. *)
Lemma rotate_exact_witness :
  rotate pad32 sample_keyring (replicate 32 x01 ++ replicate 32 x02) =
  Ok {| active := replicate 32 x02; keys := <[replicate 32 x02 := replicate 32 x02]> (keys sample_keyring) |}.
Proof.
  assert (Hs : forall x, length (pad32 x) = 32%nat).
  { intros x. unfold pad32. rewrite length_take, length_app, length_replicate. lia. }
  assert (Hk : keyring_ok pad32 sample_keyring)
    by (apply (newKeyring_ok pad32 Hs (replicate 32 x01)); vm_compute; reflexivity).
  destruct (rotate_exact pad32 sample_keyring (replicate 32 x01 ++ replicate 32 x02) Hs Hk) as [Hiff _].
  apply Hiff. split; [vm_compute; reflexivity|]. exists 1%nat. split; [lia|]. split; [vm_compute; lia|].
  split; [|split; vm_compute; reflexivity].
  intros i Hi. assert (i = 0%nat) as -> by lia. exists (replicate 32 x01). vm_compute. reflexivity.
Defined.
