(* ===== verification/Envelope.v ===== *)
(** * pkg/smbcredentials/envelope.go: two-layer credential envelopes

    XChaCha20-Poly1305 and the UUID package are not part of the repository; they
    are parameters ([Aead], [Uuid]) with the documented behaviour the code relies
    on as laws. *)

From Stdlib Require Import Strings.Byte ZArith Lia String.
From stdpp Require Import base list strings sets gmap relations.
From S2P Require Import Prelude GoStd GoEncoding Keyring.

(** ** Interfaces to the packages the code calls *)

Definition NonceSizeX : Z := 24.
Definition Overhead : Z := 16.

(** [chacha20poly1305.NewX(key)] and its [Seal] and [Open]. *)
Class Aead := {
  aead_seal : bytes -> bytes -> bytes -> bytes -> bytes;         (* key nonce plaintext aad *)
  aead_open : bytes -> bytes -> bytes -> bytes -> option bytes   (* key nonce ciphertext aad *)
}.

Class AeadLaws `{Aead} := {
  aead_length key nonce pt aad : length (aead_seal key nonce pt aad) = (length pt + 16)%nat;
  aead_open_seal key nonce pt aad : aead_open key nonce (aead_seal key nonce pt aad) aad = Some pt
}.

(** [uuid.Parse], [UUID.String], [UUID.Version], [UUID.Variant() == RFC4122]. *)
Class Uuid := {
  uuid_parse : bytes -> option bytes;
  uuid_string : bytes -> bytes;
  uuid_version : bytes -> Z;
  uuid_rfc4122 : bytes -> bool
}.

(** A UUID is an array of 16 bytes. *)
Class UuidLaws `{Uuid} := {
  uuid_length s u : uuid_parse s = Some u -> length u = 16%nat
}.

(** ** Constants and data *)

Definition maxPasswordBytes : Z := 1024.
Definition maxDirectoriesBytes : Z := Z.shiftl 16 10.
Definition envelopeFixedSize : Z := 8 + 1 + 1 + 2 + keyIDSize + NonceSizeX + (keySize + Overhead) + NonceSizeX + 2.
Definition minEnvelopeBytes : Z := envelopeFixedSize + Overhead.
Definition maxEnvelopeBytes : Z := envelopeFixedSize + maxPasswordBytes + Overhead.
Definition envelopeAlgorithmV1 : Z := 1.
Definition envelopeVersionV1 : Z := 1.
Definition aadPurposeWrappedDEK : Z := 1.
Definition aadPurposePassword : Z := 2.
Definition envelopeMagic : bytes := bs "RCSMBENV".
Definition aadMagic : bytes := bs "RCSMBAAD".

Inductive envelope_error := ErrInvalidEnvelope | ErrUnknownKey | ErrAuthentication.

(** The credential a ciphertext is bound to. *)
Record CredentialContext := {
  CredentialID : bytes;
  Username : bytes;
  Host : bytes;
  Port : bytes;
  Directories : bytes
}.

Record parsedEnvelope := {
  envKeyID : bytes;
  wrapNonce : bytes;
  wrappedDEK : bytes;
  dataNonce : bytes;
  ciphertext : bytes
}.

Definition zeroKeyID : bytes := replicate 32 x00.

(** ** The wire format *)

Definition validEnvelopeLength (data : bytes) : bool :=
  (minEnvelopeBytes <=? Zlen data) && (Zlen data <=? maxEnvelopeBytes).

Definition marshalEnvelope (id wrapNonce wrappedDEK dataNonce ciphertext : bytes) : result envelope_error bytes :=
  fail_if negb (Zlen wrapNonce =? NonceSizeX) || negb (Zlen wrappedDEK =? keySize + Overhead)
          || negb (Zlen dataNonce =? NonceSizeX) || (Zlen ciphertext <? Overhead)
          || (maxPasswordBytes + Overhead <? Zlen ciphertext)
    with ErrInvalidEnvelope in
  Ok (envelopeMagic ++ [byte_of envelopeVersionV1; byte_of envelopeAlgorithmV1; x00; x00] ++ id ++ wrapNonce
      ++ wrappedDEK ++ dataNonce ++ be_put 2 (Zlen ciphertext) ++ ciphertext).

Definition parseEnvelope (data : bytes) : result envelope_error parsedEnvelope :=
  fail_if negb (validEnvelopeLength data) || negb (bool_decide (take 8 data = envelopeMagic))
          || negb (bool_decide (data !! 8%nat = Some (byte_of envelopeVersionV1)))
          || negb (bool_decide (data !! 9%nat = Some (byte_of envelopeAlgorithmV1)))
          || negb (bool_decide (data !! 10%nat = Some x00)) || negb (bool_decide (data !! 11%nat = Some x00))
    with ErrInvalidEnvelope in
  let ciphertextLength := be_get (slice 140 142 data) in
  fail_if (ciphertextLength <? Overhead) || (maxPasswordBytes + Overhead <? ciphertextLength)
          || negb (Zlen data =? 142 + ciphertextLength)
    with ErrInvalidEnvelope in
  Ok {| envKeyID := slice 12 44 data; wrapNonce := slice 44 68 data; wrappedDEK := slice 68 116 data;
        dataNonce := slice 116 140 data; ciphertext := drop 142 data |}.

Section envelope.
Context (sha256 : bytes -> bytes) `{Aead} `{Uuid}.

(** ** Additional authenticated data *)

Fixpoint append_values (result : bytes) (values : list bytes) : option bytes :=
  match values with
  | [] => Some result
  | value :: rest =>
      match appendUint16 result (Zlen value) with
      | None => None
      | Some result => append_values (result ++ value) rest
      end
  end.

Definition contextAAD (c : CredentialContext) (purpose : Z) (id : bytes) : result envelope_error bytes :=
  match uuid_parse (CredentialID c) with
  | None => Err ErrInvalidEnvelope
  | Some parsedID =>
      fail_if bool_decide (parsedID = replicate 16 x00) || negb (uuid_version parsedID =? 4)
              || negb (uuid_rfc4122 parsedID) || negb (bool_decide (uuid_string parsedID = CredentialID c))
              || bool_decide (Username c = []) || (255 <? Zlen (Username c))
              || bool_decide (Host c = []) || (255 <? Zlen (Host c)) || negb (bool_decide (Port c = bs "445"))
              || bool_decide (Directories c = []) || (maxDirectoriesBytes <? Zlen (Directories c))
        with ErrInvalidEnvelope in
      let values := [Username c; Host c; Port c; Directories c] in
      fail_if negb (forallb valid_string values) with ErrInvalidEnvelope in
      let result := aadMagic ++ [byte_of envelopeVersionV1; byte_of purpose] ++ parsedID in
      fail_if negb (purpose =? aadPurposeWrappedDEK) && negb (purpose =? aadPurposePassword) with ErrInvalidEnvelope in
      let result := if purpose =? aadPurposeWrappedDEK then result ++ id else result in
      match append_values result values with None => Err ErrInvalidEnvelope | Some r => Ok r end
  end.

(** ** Operations *)

(** [NewX] accepts 32-byte keys only. *)
Definition newX (key : bytes) : result envelope_error bytes :=
  fail_if negb (Zlen key =? keySize) with ErrInvalidEnvelope in Ok key.

Definition seal (k : keyringState) (c : CredentialContext) (password random : bytes) : result envelope_error bytes :=
  fail_if maxPasswordBytes <? Zlen password with ErrInvalidEnvelope in
  match read_full 32 random with
  | None => Err ErrInvalidEnvelope
  | Some (dek, random) =>
  match read_full 24 random with
  | None => Err ErrInvalidEnvelope
  | Some (wrapN, random) =>
  match read_full 24 random with
  | None => Err ErrInvalidEnvelope
  | Some (dataN, _) =>
  fail_if negb (validateLocked sha256 k) with ErrInvalidEnvelope in
  let! dataAAD := contextAAD c aadPurposePassword zeroKeyID in
  let! wrapAAD := contextAAD c aadPurposeWrappedDEK (active k) in
  let! dataKey := newX dek in
  let! wrapKey := newX (default zeroKeyID (keys k !! active k)) in
  let wrapped := aead_seal wrapKey wrapN dek wrapAAD in
  let ct := aead_seal dataKey dataN password dataAAD in
  marshalEnvelope (active k) wrapN wrapped dataN ct
  end end end.

(** The data-encryption key of an envelope. *)
Definition unwrapDEK (k : keyringState) (c : CredentialContext) (p : parsedEnvelope) : result envelope_error bytes :=
  match keys k !! envKeyID p with
  | None => Err ErrUnknownKey
  | Some key =>
      let! wrapAAD := contextAAD c aadPurposeWrappedDEK (envKeyID p) in
      let! wrapKey := newX key in
      match aead_open wrapKey (wrapNonce p) (wrappedDEK p) wrapAAD with
      | None => Err ErrAuthentication
      | Some dek => fail_if negb (Zlen dek =? keySize) with ErrAuthentication in Ok dek
      end
  end.

Definition openLocked (k : keyringState) (c : CredentialContext) (envelope : bytes) : result envelope_error bytes :=
  let! parsed := parseEnvelope envelope in
  let! dek := unwrapDEK k c parsed in
  let! dataKey := newX dek in
  let! dataAAD := contextAAD c aadPurposePassword zeroKeyID in
  match aead_open dataKey (dataNonce parsed) (ciphertext parsed) dataAAD with
  | None => Err ErrAuthentication
  | Some plaintext => fail_if maxPasswordBytes <? Zlen plaintext with ErrAuthentication in Ok plaintext
  end.

Definition Open (k : keyringState) (c : CredentialContext) (envelope : bytes) : result envelope_error bytes :=
  fail_if negb (validEnvelopeLength envelope) with ErrInvalidEnvelope in
  fail_if negb (validateLocked sha256 k) with ErrInvalidEnvelope in
  openLocked k c envelope.

(** [k2] is the shared keyring after the lock was released to read entropy: the
    same one, or a destroyed one. *)
Definition rewrap (k k2 : keyringState) (c : CredentialContext) (envelope random : bytes) : result envelope_error bytes :=
  fail_if negb (validEnvelopeLength envelope) with ErrInvalidEnvelope in
  let! parsed := parseEnvelope envelope in
  fail_if negb (validateLocked sha256 k) with ErrInvalidEnvelope in
  if bool_decide (envKeyID parsed = active k) then
    let! _ := openLocked k c envelope in Ok envelope
  else
    match read_full 24 random with
    | None => Err ErrInvalidEnvelope
    | Some (newNonce, _) =>
        fail_if negb (validateLocked sha256 k2) with ErrInvalidEnvelope in
        let! _ := openLocked k2 c envelope in
        let! dek := unwrapDEK k2 c parsed in
        let! newKey := newX (default zeroKeyID (keys k2 !! active k2)) in
        let! newAAD := contextAAD c aadPurposeWrappedDEK (active k2) in
        let wrapped := aead_seal newKey newNonce dek newAAD in
        marshalEnvelope (active k2) newNonce wrapped (dataNonce parsed) (ciphertext parsed)
    end.

Definition EnvelopeKeyID (k : keyringState) (c : CredentialContext) (envelope : bytes) : result envelope_error bytes :=
  fail_if negb (validEnvelopeLength envelope) with ErrInvalidEnvelope in
  let! _ := Open k c envelope in
  let! parsed := parseEnvelope envelope in
  Ok (encodeKeyID (envKeyID parsed)).
End envelope.

(** ** Lemmas: the wire format *)

Lemma slice_mid {A} (pre mid post : list A) lo hi :
  length pre = lo -> length mid = (hi - lo)%nat -> slice lo hi (pre ++ mid ++ post) = mid.
Proof.
  intros Hp Hm. unfold slice. rewrite drop_app_length' by done. by rewrite take_app_length'.
Qed.

Definition envelope_of (p : parsedEnvelope) : result envelope_error bytes :=
  marshalEnvelope (envKeyID p) (wrapNonce p) (wrappedDEK p) (dataNonce p) (ciphertext p).

Lemma marshalEnvelope_ok id wn wd dn ct data :
  marshalEnvelope id wn wd dn ct = Ok data <->
  (length wn = 24%nat /\ length wd = 48%nat /\ length dn = 24%nat /\ 16 <= Zlen ct <= 1040) /\
  data = (envelopeMagic ++ [byte_of 1; byte_of 1; x00; x00]) ++ id ++ wn ++ wd ++ dn ++ be_put 2 (Zlen ct) ++ ct.
Proof.
  unfold marshalEnvelope. change NonceSizeX with 24. change (keySize + Overhead) with 48. change Overhead with 16.
  change (maxPasswordBytes + 16) with 1040. split.
  - intros E. step_in E. simplify_eq. bools. unfold Zlen in *. split; [lia|]. reflexivity.
  - intros [(Hw & Hd & Hn & Hc) ->]. unfold Zlen at 1 2 3. rewrite Hw, Hd, Hn. cbn [Z.eqb negb orb Z.of_nat Pos.of_succ_nat].
    replace (Zlen ct <? 16) with false by (symmetry; apply Z.ltb_ge; lia).
    replace (1040 <? Zlen ct) with false by (symmetry; apply Z.ltb_ge; lia). reflexivity.
Qed.

Lemma parseEnvelope_fields id wn wd dn ct :
  length id = 32%nat -> length wn = 24%nat -> length wd = 48%nat -> length dn = 24%nat -> 16 <= Zlen ct <= 1040 ->
  parseEnvelope ((envelopeMagic ++ [byte_of 1; byte_of 1; x00; x00]) ++ id ++ wn ++ wd ++ dn ++ be_put 2 (Zlen ct) ++ ct)
  = Ok {| envKeyID := id; wrapNonce := wn; wrappedDEK := wd; dataNonce := dn; ciphertext := ct |}.
Proof.
  intros Hi Hw Hd Hn Hc. set (H12 := envelopeMagic ++ [byte_of 1; byte_of 1; x00; x00]).
  set (L := be_put 2 (Zlen ct)).
  assert (HL : length L = 2%nat) by apply length_be_put.
  set (data := H12 ++ id ++ wn ++ wd ++ dn ++ L ++ ct).
  assert (S1 : slice 12 44 data = id) by (apply slice_mid; done).
  assert (S2 : slice 44 68 data = wn).
  { unfold data. rewrite (app_assoc H12). apply slice_mid; [|done]. rewrite length_app, Hi. done. }
  assert (S3 : slice 68 116 data = wd).
  { unfold data. rewrite (app_assoc id wn), (app_assoc H12). apply slice_mid; [|done]. rewrite !length_app, Hi, Hw. done. }
  assert (S4 : slice 116 140 data = dn).
  { unfold data. rewrite (app_assoc wn wd), (app_assoc id), (app_assoc H12). apply slice_mid; [|done].
    rewrite !length_app, Hi, Hw, Hd. done. }
  assert (S5 : slice 140 142 data = L).
  { unfold data. rewrite (app_assoc wd dn), (app_assoc wn), (app_assoc id), (app_assoc H12). apply slice_mid; [|done].
    rewrite !length_app, Hi, Hw, Hd, Hn. done. }
  assert (S6 : drop 142 data = ct).
  { unfold data. rewrite (app_assoc dn L), (app_assoc wd), (app_assoc wn), (app_assoc id), (app_assoc H12).
    apply drop_app_length'. rewrite !length_app, Hi, Hw, Hd, Hn, HL. done. }
  assert (Hz : Zlen data = 142 + Zlen ct).
  { unfold data. rewrite !Zlen_app. unfold Zlen at 1 2 3 4 5 6. rewrite Hi, Hw, Hd, Hn, HL. cbn. lia. }
  unfold parseEnvelope, validEnvelopeLength. rewrite S1, S2, S3, S4, S5, S6, Hz.
  change minEnvelopeBytes with 158. change maxEnvelopeBytes with 1182. change Overhead with 16. change (maxPasswordBytes + 16) with 1040.
  replace (158 <=? 142 + Zlen ct) with true by (symmetry; apply Z.leb_le; lia).
  replace (142 + Zlen ct <=? 1182) with true by (symmetry; apply Z.leb_le; lia).
  rewrite !bool_decide_eq_true_2 by done. cbn [negb andb orb].
  unfold L. rewrite be_get_put_small by (cbn; lia).
  replace (Zlen ct <? 16) with false by (symmetry; apply Z.ltb_ge; lia).
  replace (1040 <? Zlen ct) with false by (symmetry; apply Z.ltb_ge; lia).
  by rewrite Z.eqb_refl.
Qed.

Lemma parseEnvelope_shape data p :
  parseEnvelope data = Ok p ->
  length (envKeyID p) = 32%nat /\ envelope_of p = Ok data.
Proof.
  unfold parseEnvelope, validEnvelopeLength. change minEnvelopeBytes with 158. change maxEnvelopeBytes with 1182.
  change Overhead with 16. change (maxPasswordBytes + 16) with 1040. change envelopeVersionV1 with 1. change envelopeAlgorithmV1 with 1.
  intros E. step_in E. step_in E. simplify_eq. bools. cbn [envKeyID].
  assert (Hlen : (158 <= length data)%nat) by (unfold Zlen in *; lia).
  split; [apply length_slice; lia|]. unfold envelope_of. cbn [envKeyID wrapNonce wrappedDEK dataNonce ciphertext].
  apply marshalEnvelope_ok. rewrite !length_slice by lia.
  assert (Hct : Zlen (drop 142 data) = be_get (slice 140 142 data)) by (unfold Zlen in *; rewrite length_drop; lia).
  split; [lia|]. rewrite Hct, be_put_get' by (rewrite length_slice; lia).
  rewrite <- !drop_slice by lia. rewrite <- (take_drop 8 data) at 1.
  match goal with Hm : take 8 data = _ |- _ => rewrite Hm end. rewrite <- app_assoc. f_equal.
  repeat (erewrite drop_S by eassumption; cbn [app]; f_equal).
Qed.

(** ** Lemmas: authenticated data *)

Definition value_bytes (v : bytes) : bytes := be_put 2 (Zlen v) ++ v.
Definition short (v : bytes) : Prop := Zlen v <= 65535.

Lemma append_values_spec values r out :
  append_values r values = Some out <-> Forall short values /\ out = r ++ flat_map value_bytes values.
Proof.
  revert r. induction values as [|v values IH]; intros r; cbn [append_values flat_map].
  - rewrite app_nil_r. split; [intros [= <-]; by split|by intros [_ ->]].
  - unfold appendUint16. pose proof (Zlen_nonneg v).
    replace (Zlen v <? 0) with false by (symmetry; apply Z.ltb_ge; lia). cbn [orb].
    rewrite Forall_cons. unfold short at 1. destruct (65535 <? Zlen v) eqn:E; bools.
    + split; [done|]. intros [[? _] _]. lia.
    + rewrite IH. unfold value_bytes at 2. rewrite <- !app_assoc. naive_solver lia.
Qed.

Lemma value_bytes_inj v v' r r' :
  short v -> short v' -> value_bytes v ++ r = value_bytes v' ++ r' -> v = v' /\ r = r'.
Proof.
  unfold short, value_bytes. intros Hv Hv' E. rewrite <- !app_assoc in E.
  apply app_inj_1 in E as [Hl E]; [|by rewrite !length_be_put].
  apply (f_equal be_get) in Hl. pose proof (Zlen_nonneg v). pose proof (Zlen_nonneg v').
  rewrite !be_get_put_small in Hl by (cbn; lia). unfold Zlen in Hl.
  by apply app_inj_1 in E; [|lia].
Qed.

Lemma values_inj l l' :
  length l = length l' -> Forall short l -> Forall short l' -> flat_map value_bytes l = flat_map value_bytes l' -> l = l'.
Proof.
  revert l'. induction l as [|v l IH]; intros [|v' l'] Hlen Hs Hs' E; try done. cbn [flat_map] in E.
  apply Forall_cons in Hs as [Hv Hs]. apply Forall_cons in Hs' as [Hv' Hs'].
  apply value_bytes_inj in E as [-> E]; [|done..]. f_equal. apply IH; [by injection Hlen|done..].
Qed.

Section facts.
Context (sha256 : bytes -> bytes) {A : Aead} {AL : AeadLaws} {U : Uuid} {UL : UuidLaws}.

Definition aad_purpose (purpose : Z) : Prop := purpose = aadPurposeWrappedDEK \/ purpose = aadPurposePassword.

Lemma contextAAD_shape c purpose id aad :
  contextAAD c purpose id = Ok aad ->
  exists u, uuid_parse (CredentialID c) = Some u /\ uuid_string u = CredentialID c /\ aad_purpose purpose /\
    Port c = bs "445" /\ Forall short [Username c; Host c; Port c; Directories c] /\
    aad = (aadMagic ++ [byte_of envelopeVersionV1; byte_of purpose]) ++ u ++
          (if purpose =? aadPurposeWrappedDEK then id else []) ++
          flat_map value_bytes [Username c; Host c; Port c; Directories c].
Proof.
  unfold contextAAD, aad_purpose. intros E. destruct (uuid_parse _) as [u|]; [|done]. exists u.
  step_in E. step_in E. step_in E. destruct (append_values _ _) as [r|] eqn:Ea; [|done]. simplify_eq.
  apply append_values_spec in Ea as [Hs ->]. bools.
  assert (Hp : purpose = aadPurposeWrappedDEK \/ purpose = aadPurposePassword).
  { destruct (purpose =? aadPurposeWrappedDEK) eqn:E1; bools; [by left|].
    destruct (purpose =? aadPurposePassword) eqn:E2; bools; [by right|done]. }
  split_and!; try done. destruct Hp as [-> | ->].
  - change (aadPurposeWrappedDEK =? aadPurposeWrappedDEK) with true. cbv iota. rewrite <- !app_assoc. reflexivity.
  - change (aadPurposePassword =? aadPurposeWrappedDEK) with false. cbv iota. rewrite <- !app_assoc. reflexivity.
Qed.

Lemma contextAAD_inj c p id c' p' id' aad :
  contextAAD c p id = Ok aad -> contextAAD c' p' id' = Ok aad -> length id = length id' ->
  c = c' /\ p = p' /\ (p = aadPurposeWrappedDEK -> id = id').
Proof using UL.
  intros (u & Hu & Hs & Hp & Hport & Hsh & ->)%contextAAD_shape (u' & Hu' & Hs' & Hp' & Hport' & Hsh' & E)%contextAAD_shape Hid.
  pose proof (uuid_length _ _ Hu) as Hl. pose proof (uuid_length _ _ Hu') as Hl'.
  apply app_inj_1 in E as [Ehd E]; [|done].
  assert (p = p') as <-.
  { destruct Hp as [-> | ->], Hp' as [-> | ->]; try done; vm_compute in Ehd; congruence. }
  apply app_inj_1 in E as [<- E]; [|lia].
  assert (Hids : (if p =? aadPurposeWrappedDEK then id else []) = (if p =? aadPurposeWrappedDEK then id' else []) /\
    flat_map value_bytes [Username c; Host c; Port c; Directories c] =
    flat_map value_bytes [Username c'; Host c'; Port c'; Directories c']).
  { apply app_inj_1 in E; [done|]. by destruct (p =? aadPurposeWrappedDEK). }
  destruct Hids as [Hids Hvals]. apply values_inj in Hvals; [|done..]. simplify_eq.
  split_and!; [|done|].
  - destruct c, c'. cbn in *. congruence.
  - intros ->. done.
Qed.

(** ** Lemmas: sealing and opening *)

Lemma newX_ok key : length key = 32%nat -> newX key = Ok key.
Proof. intros Hk. unfold newX, Zlen. by rewrite Hk. Qed.

Lemma validEnvelope_marshal id wn wd dn ct data :
  length id = 32%nat -> marshalEnvelope id wn wd dn ct = Ok data ->
  validEnvelopeLength data = true /\
  parseEnvelope data = Ok {| envKeyID := id; wrapNonce := wn; wrappedDEK := wd; dataNonce := dn; ciphertext := ct |}.
Proof.
  intros Hid ((Hw & Hd & Hn & Hc) & ->)%marshalEnvelope_ok.
  pose proof (parseEnvelope_fields id wn wd dn ct Hid Hw Hd Hn Hc) as Hp. split; [|done].
  unfold parseEnvelope in Hp. by destruct (validEnvelopeLength _).
Qed.

(** An envelope whose two layers were sealed with the given keys opens. *)
Lemma openLocked_sealed k c wn dek dn password key data wrapAAD dataAAD id :
  keys k !! id = Some key -> length key = 32%nat -> length id = 32%nat -> length dek = 32%nat ->
  Zlen password <= maxPasswordBytes ->
  contextAAD c aadPurposeWrappedDEK id = Ok wrapAAD -> contextAAD c aadPurposePassword zeroKeyID = Ok dataAAD ->
  marshalEnvelope id wn (aead_seal key wn dek wrapAAD) dn (aead_seal dek dn password dataAAD) = Ok data ->
  openLocked k c data = Ok password.
Proof using AL.
  intros Hk Hkl Hil Hdl Hpw Hwa Hda Hm. destruct (validEnvelope_marshal _ _ _ _ _ _ Hil Hm) as [_ Hp].
  unfold openLocked. rewrite Hp. unfold unwrapDEK. cbn [envKeyID wrapNonce wrappedDEK dataNonce ciphertext].
  rewrite Hk, Hwa, newX_ok, aead_open_seal by done. unfold Zlen at 1. rewrite Hdl. change (negb (Z.of_nat 32 =? keySize)) with false.
  cbv iota. rewrite newX_ok, Hda, aead_open_seal by done.
  by replace (maxPasswordBytes <? Zlen password) with false by (symmetry; apply Z.ltb_ge; lia).
Qed.

Lemma active_key k : keyring_ok sha256 k -> exists key, keys k !! active k = Some key /\ length key = 32%nat /\ length (active k) = 32%nat.
Proof.
  intros [[Ha Ht] (_ & [key Hk] & _)%validateLocked_spec]. exists key. split_and!; [done| |done]. by eapply Ht.
Qed.

Lemma seal_opens k c password random envelope :
  keyring_ok sha256 k -> seal sha256 k c password random = Ok envelope -> openLocked k c envelope = Ok password.
Proof using AL.
  intros Hk. destruct (active_key k Hk) as (key & Hkey & Hkl & Hal). unfold seal, read_full. intros E.
  step_in E. destruct (length random <? 32)%nat eqn:E1; [done|].
  destruct (length (drop 32 random) <? 24)%nat eqn:E2; [done|].
  destruct (length (drop 24 (drop 32 random)) <? 24)%nat eqn:E3; [done|].
  apply Nat.ltb_ge in E1. step_in E.
  destruct (contextAAD c aadPurposePassword _) as [dataAAD|] eqn:Ed; [|done].
  destruct (contextAAD c aadPurposeWrappedDEK _) as [wrapAAD|] eqn:Ew; [|done].
  assert (Hdek : length (take 32 random) = 32%nat) by (rewrite length_take; lia).
  rewrite Hkey in E. cbn [from_option id default] in E. rewrite !newX_ok in E by done. bools.
  eapply openLocked_sealed; try done.
Qed.

(** The checks of the context do not depend on the purpose or the key. *)
Lemma contextAAD_any c id id' aad :
  contextAAD c aadPurposePassword id = Ok aad -> exists aad', contextAAD c aadPurposeWrappedDEK id' = Ok aad'.
Proof.
  unfold contextAAD. destruct (uuid_parse _) as [u|]; [|done]. intros E. step_in E. step_in E.
  change (aadPurposePassword =? aadPurposePassword) with true in E.
  change (aadPurposePassword =? aadPurposeWrappedDEK) with false in E. cbn [negb andb] in E. cbv iota in E.
  destruct (append_values _ _) as [r|] eqn:Ea; [|done]. apply append_values_spec in Ea as [Hs _]. cbn [negb andb].
  change (aadPurposeWrappedDEK =? aadPurposeWrappedDEK) with true. cbn [negb andb]. cbv iota.
  rewrite (proj2 (append_values_spec _ _ _)) by (split; [exact Hs|reflexivity]). by eexists.
Qed.

(** Sealing succeeds exactly when the password is short enough, the context is
    valid and the entropy source delivers a key and two nonces. *)
Lemma seal_succeeds k c password random :
  keyring_ok sha256 k ->
  (exists envelope, seal sha256 k c password random = Ok envelope) <->
  Zlen password <= 1024 /\ 80 <= Zlen random /\ exists aad, contextAAD c aadPurposePassword zeroKeyID = Ok aad.
Proof using AL.
  intros Hk. destruct (active_key k Hk) as (key & Hkey & Hkl & Hal). destruct Hk as [_ Hv].
  unfold seal, read_full. rewrite Hv. cbn [negb]. change maxPasswordBytes with 1024. unfold Zlen. split.
  - intros [envelope E]. step_in E. bools.
    destruct (length random <? 32)%nat eqn:E1; [done|]. destruct (length (drop 32 random) <? 24)%nat eqn:E2; [done|].
    destruct (length (drop 24 (drop 32 random)) <? 24)%nat eqn:E3; [done|].
    rewrite Nat.ltb_ge, ?length_drop in *. destruct (contextAAD c aadPurposePassword _) as [aad|]; [|done].
    split_and!; [lia|lia|eauto].
  - intros (Hp & Hr & aad & Ha). destruct (contextAAD_any _ _ (active k) _ Ha) as [aad' Ha'].
    replace (1024 <? Z.of_nat (length password)) with false by (symmetry; apply Z.ltb_ge; lia).
    rewrite !(proj2 (Nat.ltb_ge _ _)) by (rewrite ?length_drop; lia). rewrite Ha, Ha', Hkey.
    cbn [from_option id default]. rewrite !newX_ok by (rewrite ?length_take; lia).
    eexists. apply marshalEnvelope_ok. split; [|reflexivity]. unfold Zlen.
    rewrite !aead_length, !length_take, ?length_drop. lia.
Qed.

(** A rotation, whatever the entropy. *)
Definition rotates (k k' : keyringState) : Prop := exists random, rotate sha256 k random = Ok k'.

Lemma rotations_keep k k' :
  (forall x, length (sha256 x) = 32%nat) -> rtc rotates k k' -> keyring_ok sha256 k ->
  keyring_ok sha256 k' /\ keys k ⊆ keys k'.
Proof.
  intros Hsha. induction 1 as [k|k k1 k2 [random E] _ IH]; intros Hk; [done|].
  destruct (rotate_loop_ok _ Hsha _ _ _ _ Hk E) as (Hk1 & Hsub & _).
  destruct (IH Hk1) as [? ?]. split; [done|by etrans].
Qed.

Lemma destroyed_invalid k : validateLocked sha256 (Destroy k) = false.
Proof. apply not_true_iff_false. intros ([Hs _] & _)%validateLocked_spec. cbn [Destroy keys] in Hs. rewrite map_size_empty in Hs. lia. Qed.

(** Opening in terms of the two layers. *)
Lemma openLocked_layers k c envelope p password :
  parseEnvelope envelope = Ok p ->
  openLocked k c envelope = Ok password <->
  exists dek dataAAD, unwrapDEK k c p = Ok dek /\ length dek = 32%nat /\
    contextAAD c aadPurposePassword zeroKeyID = Ok dataAAD /\
    aead_open dek (dataNonce p) (ciphertext p) dataAAD = Some password /\ Zlen password <= maxPasswordBytes.
Proof.
  intros Hp. unfold openLocked. rewrite Hp. split.
  - intros E. destruct (unwrapDEK k c p) as [dek|] eqn:Eu; [|done].
    assert (Hl : length dek = 32%nat).
    { unfold unwrapDEK in Eu. repeat step_in Eu. simplify_eq. bools. unfold Zlen, keySize in *. lia. }
    rewrite newX_ok in E by done. destruct (contextAAD _ _ _) as [dataAAD|]; [|done].
    destruct (aead_open _ _ _ _) as [pw|] eqn:Eo; [|done]. step_in E. simplify_eq. bools. eauto 10.
  - intros (dek & dataAAD & -> & Hl & -> & Ho & Hpw). rewrite newX_ok by done.
    rewrite Ho. by replace (maxPasswordBytes <? Zlen password) with false by (symmetry; apply Z.ltb_ge; lia).
Qed.

Lemma rewrap_facts k k2 c envelope random envelope' :
  keyring_ok sha256 k -> k2 = k \/ k2 = Destroy k -> rewrap sha256 k k2 c envelope random = Ok envelope' ->
  exists password p p', openLocked k c envelope = Ok password /\ openLocked k c envelope' = Ok password /\
    parseEnvelope envelope = Ok p /\ parseEnvelope envelope' = Ok p' /\ envKeyID p' = active k /\
    dataNonce p' = dataNonce p /\ ciphertext p' = ciphertext p /\ validEnvelopeLength envelope' = true.
Proof using AL.
  intros Hk Hk2 E. unfold rewrap in E. step_in E.
  destruct (parseEnvelope envelope) as [p|] eqn:Hp; [|done]. step_in E. bools.
  case_bool_decide as Hact.
  { destruct (openLocked k c envelope) as [password|] eqn:Eo; [|done]. simplify_eq. exists password, p, p. split_and!; done. }
  destruct (read_full 24 random) as [[newNonce rest]|]; [|done].
  destruct (validateLocked sha256 k2) eqn:Hv2; [|done]. cbn [negb] in E.
  destruct Hk2 as [-> | ->]; [|by rewrite destroyed_invalid in Hv2].
  destruct (openLocked k c envelope) as [password|] eqn:Eo; [|done].
  pose proof Eo as (dek & dataAAD & Hu & Hdl & Hda & Ho & Hpw)%(openLocked_layers k c _ _ _ Hp).
  rewrite Hu in E. destruct (active_key k Hk) as (key & Hkey & Hkl & Hal).
  rewrite Hkey in E. cbn [from_option id default] in E. rewrite newX_ok in E by done.
  destruct (contextAAD c aadPurposeWrappedDEK (active k)) as [newAAD|] eqn:Ew; [|done].
  destruct (validEnvelope_marshal _ _ _ _ _ _ Hal E) as [Hval Hp'].
  eexists password, p, _. split_and!; [done| |done|exact Hp'|done..].
  apply (openLocked_layers k c _ _ _ Hp'). exists dek, dataAAD. split_and!; try done.
  unfold unwrapDEK. cbn [envKeyID wrapNonce wrappedDEK]. rewrite Hkey, Ew, newX_ok, aead_open_seal by done.
  unfold Zlen. by rewrite Hdl.
Qed.
End facts.

(** ** Properties *)

(** C26. The envelope format is exact: bytes parse to an envelope if and only if
    its key ID has 32 bytes and marshalling its fields yields those very bytes. *)
Theorem envelope_format_exact data p :
  parseEnvelope data = Ok p <->
  length (envKeyID p) = 32%nat /\
  marshalEnvelope (envKeyID p) (wrapNonce p) (wrappedDEK p) (dataNonce p) (ciphertext p) = Ok data.
Proof.
  split; [apply parseEnvelope_shape|]. intros [Hid Hm].
  destruct (validEnvelope_marshal _ _ _ _ _ _ Hid Hm) as [_ ->]. by destruct p.
Qed.

(** C27. Ciphertexts are bound to their context: equal authenticated data means the
    same credential, user, host, port, directories and purpose, and for the
    wrapping purpose the same key. *)
Theorem contextAAD_binds `{UuidLaws} c p id c' p' id' aad :
  length id = 32%nat -> length id' = 32%nat ->
  contextAAD c p id = Ok aad -> contextAAD c' p' id' = Ok aad ->
  c = c' /\ p = p' /\ (p = aadPurposeWrappedDEK -> id = id').
Proof. intros Hl Hl' E E'. eapply contextAAD_inj; [exact E|exact E'|congruence]. Qed.

(** C28. What is sealed opens. Sealing with a valid keyring succeeds exactly when
    the password has at most 1024 bytes, the context is valid and the entropy
    source delivers 80 bytes; and the envelope opens to the same password under
    that keyring (a full one included) and under every keyring obtained from it by
    any number of rotations. *)
Theorem seal_open_roundtrip sha256 `{AeadLaws} `{UuidLaws} k k' c password random :
  (forall x, length (sha256 x) = 32%nat) -> keyring_ok sha256 k -> rtc (rotates sha256) k k' ->
  ((exists envelope, seal sha256 k c password random = Ok envelope) <->
   Zlen password <= 1024 /\ 80 <= Zlen random /\ exists aad, contextAAD c aadPurposePassword zeroKeyID = Ok aad) /\
  forall envelope, seal sha256 k c password random = Ok envelope -> Open sha256 k' c envelope = Ok password.
Proof.
  intros Hsha Hk Hrot. split; [by apply seal_succeeds|]. intros envelope E.
  destruct (rotations_keep _ _ _ Hsha Hrot Hk) as [[_ Hv'] Hsub].
  pose proof (seal_opens sha256 k c password random envelope Hk E) as Ho.
  assert (Hp : exists p, parseEnvelope envelope = Ok p).
  { unfold openLocked in Ho. destruct (parseEnvelope envelope); [by eexists|done]. }
  destruct Hp as [p Hp].
  assert (Hval : validEnvelopeLength envelope = true).
  { unfold parseEnvelope in Hp. by destruct (validEnvelopeLength envelope). }
  unfold Open. rewrite Hval, Hv'. cbn [negb].
  destruct (proj1 (openLocked_layers k c _ _ _ Hp) Ho) as (dek & dataAAD & Hu & Hrest).
  apply (openLocked_layers k' c _ _ _ Hp). exists dek, dataAAD. split; [|done].
  unfold unwrapDEK in *. destruct (keys k !! envKeyID p) as [key|] eqn:Ek; [|done].
  by rewrite (lookup_weaken _ _ _ _ Ek Hsub).
Qed.

(** C29. Rewrapping moves an envelope to the active key without touching the
    password: the new envelope opens to the same password, names the active key,
    and carries the old nonce and ciphertext of the password byte for byte; this
    also holds if the keyring may be destroyed while entropy is read. *)
Theorem rewrap_preserves_password sha256 `{AeadLaws} `{UuidLaws} k k2 c envelope random envelope' :
  keyring_ok sha256 k -> k2 = k \/ k2 = Destroy k -> rewrap sha256 k k2 c envelope random = Ok envelope' ->
  exists password p p', Open sha256 k c envelope = Ok password /\ Open sha256 k c envelope' = Ok password /\
    parseEnvelope envelope = Ok p /\ parseEnvelope envelope' = Ok p' /\ envKeyID p' = active k /\
    dataNonce p' = dataNonce p /\ ciphertext p' = ciphertext p.
Proof.
  intros Hk Hk2 E. destruct (rewrap_facts sha256 _ _ _ _ _ _ Hk Hk2 E) as (pw & p & p' & Ho & Ho' & Hp & Hp' & ? & ? & ? & Hval').
  exists pw, p, p'. assert (Hval : validEnvelopeLength envelope = true).
  { unfold parseEnvelope in Hp. by destruct (validEnvelopeLength envelope). }
  unfold Open. destruct Hk as [_ Hv]. rewrite Hval, Hval', Hv. cbn [negb]. split_and!; done.
Qed.

(** ** Concrete runs *)

(** A toy cipher that satisfies the laws: the plaintext and a tag of zeros. *)
#[local] Instance toy_aead : Aead := {
  aead_seal _ _ pt _ := pt ++ replicate 16 x00;
  aead_open _ _ ct _ := Some (take (length ct - 16) ct)
}.
#[local] Instance toy_aead_laws : AeadLaws.
Proof.
  split; intros; cbn [aead_seal aead_open toy_aead].
  - by rewrite length_app, length_replicate.
  - rewrite length_app, length_replicate. by rewrite take_app_length' by lia.
Defined.

Definition toy_id : bytes := bs "0123456789abcdef".
#[local] Instance toy_uuid : Uuid := {
  uuid_parse s := if (length s =? 16)%nat then Some s else None;
  uuid_string u := u;
  uuid_version _ := 4;
  uuid_rfc4122 _ := true
}.
#[local] Instance toy_uuid_laws : UuidLaws.
Proof. split. intros s u. cbn. destruct (length s =? 16)%nat eqn:E; intros [= <-]. by apply Nat.eqb_eq. Defined.

Definition toy_context : CredentialContext :=
  {| CredentialID := toy_id; Username := bs "alice"; Host := bs "nas"; Port := bs "445"; Directories := bs "docs" |}.

Definition toy_keyring : keyringState :=
  {| active := pad32 (replicate 32 x01); keys := {[ pad32 (replicate 32 x01) := replicate 32 x01 ]} |}.

Lemma pad32_length x : length (pad32 x) = 32%nat.
Proof. unfold pad32. rewrite length_take, length_app, length_replicate. lia. Qed.

Lemma toy_keyring_ok : keyring_ok pad32 toy_keyring.
Proof. apply (newKeyring_ok pad32 pad32_length (replicate 32 x01)). vm_compute. reflexivity. Qed.

Lemma contextAAD_binds_witness :
  match contextAAD toy_context aadPurposePassword zeroKeyID with
  | Ok aad => toy_context = toy_context /\ aadPurposePassword = aadPurposePassword
  | Err _ => False
  end.
Proof.
  destruct (contextAAD toy_context aadPurposePassword zeroKeyID) as [aad|] eqn:E; [|vm_compute in E; discriminate E].
  destruct (contextAAD_binds toy_context aadPurposePassword zeroKeyID toy_context aadPurposePassword zeroKeyID aad
    eq_refl eq_refl E E) as (Hc & Hp & _). split; [exact Hc|exact Hp].
Defined.

(** A keyring after two rotations. *)
Definition toy_rotated : keyringState :=
  match rotate pad32 toy_keyring (replicate 32 x02) with
  | Ok k => match rotate pad32 k (replicate 32 x03) with Ok k' => k' | Err _ => toy_keyring end
  | Err _ => toy_keyring
  end.

Lemma toy_rotations : rtc (rotates pad32) toy_keyring toy_rotated.
Proof.
  unfold toy_rotated. destruct (rotate pad32 toy_keyring (replicate 32 x02)) as [k|] eqn:E; [|apply rtc_refl].
  destruct (rotate pad32 k (replicate 32 x03)) as [k'|] eqn:E'; [|apply rtc_refl].
  eapply rtc_l; [by eexists|]. apply rtc_once. by eexists.
Qed.

Lemma toy_rotated_ok : keyring_ok pad32 toy_rotated.
Proof. exact (proj1 (rotations_keep pad32 _ _ pad32_length toy_rotations toy_keyring_ok)). Qed.

Lemma seal_open_roundtrip_witness :
  match seal pad32 toy_keyring toy_context (bs "secret") (replicate 80 x07) with
  | Ok envelope =>
      size (keys toy_rotated) = 3%nat /\ Open pad32 toy_rotated toy_context envelope = Ok (bs "secret")
  | Err _ => False
  end.
Proof.
  destruct (seal_open_roundtrip pad32 toy_keyring toy_rotated toy_context (bs "secret") (replicate 80 x07)
    pad32_length toy_keyring_ok toy_rotations) as [_ Ho].
  destruct (seal pad32 toy_keyring toy_context (bs "secret") (replicate 80 x07)) as [envelope|] eqn:E.
  - split; [vm_compute; reflexivity|]. exact (Ho envelope eq_refl).
  - vm_compute in E. discriminate E.
Defined.

(** The envelope was sealed before the rotations, so the key it names is not the active one. *)
Lemma rewrap_preserves_password_witness :
  match seal pad32 toy_keyring toy_context (bs "secret") (replicate 80 x07) with
  | Ok envelope =>
      match rewrap pad32 toy_rotated toy_rotated toy_context envelope (replicate 24 x09) with
      | Ok envelope' => envelope' <> envelope /\
          exists pw, Open pad32 toy_rotated toy_context envelope = Ok pw /\
                     Open pad32 toy_rotated toy_context envelope' = Ok pw
      | Err _ => False
      end
  | Err _ => False
  end.
Proof.
  destruct (seal pad32 toy_keyring toy_context (bs "secret") (replicate 80 x07)) as [envelope|] eqn:E;
    [|vm_compute in E; discriminate E].
  destruct (rewrap pad32 toy_rotated toy_rotated toy_context envelope (replicate 24 x09)) as [envelope'|] eqn:Er.
  - split.
    + vm_compute in E. apply Ok_inj in E. subst envelope. vm_compute in Er. apply Ok_inj in Er. subst envelope'. discriminate.
    + destruct (rewrap_preserves_password pad32 toy_rotated toy_rotated toy_context envelope _ envelope'
        toy_rotated_ok (or_introl eq_refl) Er) as (pw & p & p' & Ho & Ho' & _). exists pw. split; [exact Ho|exact Ho'].
  - vm_compute in E. apply Ok_inj in E. subst envelope. vm_compute in Er. discriminate Er.
Defined.
