(* ===== verification/OAuthState.v ===== *)
(** * pkg/oauthsecurity/state.go and pkce.go: single-use authorization states

    The store keeps only the SHA-256 digests of states. SHA-256 and the URL
    syntax check of redirect values (config.go, [ParsePublicHTTPSURL]) are
    parameters; the clock and the random source are inputs of each call. *)

From Stdlib Require Import Strings.Byte ZArith Lia String.
From stdpp Require Import base list strings sets gmap.
From S2P Require Import Prelude GoStd GoEncoding Keyring.

Definition DefaultStateTTL : Z := 10 * minute.
Definition DefaultMaxRecords : Z := 256.
Definition stateBytes : Z := 32.
Definition maxStateLength : Z := 128.
Definition maxProviderLen : Z := 32.
Definition codeVerifierBytes : Z := 32.
Definition MaxCodeVerifierLength : Z := 128.
Definition MinCodeVerifierLength : Z := 43.

Inductive oauth_error := ErrInvalidRequest | ErrInvalidState | ErrStoreFull | ErrInvalidPKCE.

Record Record_ := {
  Provider : bytes;
  PrincipalID : Z;
  RedirectURI : bytes;
  CreatedAt : Z;
  CodeVerifier : bytes
}.

Record Challenge := { State : bytes; ChVerifier : bytes; CodeChallenge : bytes }.

Record StoreOptions := { RedirectURIs : list bytes; TTL : Z; MaxRecords : Z }.

Record Store := {
  redirectURIs : gset bytes;
  ttl : Z;
  maxRecords : Z;
  records : gmap bytes Record_
}.

Definition with_records (m : gmap bytes Record_) (s : Store) : Store :=
  {| redirectURIs := redirectURIs s; ttl := ttl s; maxRecords := maxRecords s; records := m |}.

(** ** Alphabets *)

Definition ValidProviderName (provider : bytes) : bool :=
  negb ((Zlen provider <? 1) || (maxProviderLen <? Zlen provider))
  && forallb (fun c => is_lower c || is_digit c || bool_decide (c = "_"%byte) || bool_decide (c = "-"%byte)) provider
  && (negb (has_prefix (bs "-") provider) && negb (has_prefix (bs "_") provider)).

Definition state_char (c : byte) : bool :=
  is_upper c || is_lower c || is_digit c || bool_decide (c = "-"%byte) || bool_decide (c = "_"%byte).

Definition ValidCodeVerifier (verifier : bytes) : bool :=
  negb ((Zlen verifier <? MinCodeVerifierLength) || (MaxCodeVerifierLength <? Zlen verifier))
  && forallb (fun c => is_upper c || is_lower c || is_digit c || bool_decide (c = "-"%byte)
                       || bool_decide (c = "."%byte) || bool_decide (c = "_"%byte) || bool_decide (c = "~"%byte)) verifier.

(** ** Configuration *)

Fixpoint allow (parsePublicHTTPSURL : bytes -> bool) (l : list bytes) (allowlist : gset bytes) : option (gset bytes) :=
  match l with
  | [] => Some allowlist
  | redirect :: rest =>
      if negb (parsePublicHTTPSURL redirect) then None
      else if bool_decide (redirect ∈ allowlist) then None
      else allow parsePublicHTTPSURL rest (allowlist ∪ {[redirect]})
  end.

Definition NewStore (parsePublicHTTPSURL : bytes -> bool) (options : StoreOptions) : result oauth_error Store :=
  fail_if (Zlen (RedirectURIs options) =? 0) || (16 <? Zlen (RedirectURIs options)) with ErrInvalidRequest in
  match allow parsePublicHTTPSURL (RedirectURIs options) ∅ with
  | None => Err ErrInvalidRequest
  | Some allowlist =>
      let ttl := if TTL options =? 0 then DefaultStateTTL else TTL options in
      fail_if (ttl <? minute) || (hour <? ttl) with ErrInvalidRequest in
      let maxRecords := if MaxRecords options =? 0 then DefaultMaxRecords else MaxRecords options in
      fail_if (maxRecords <? 1) || (4096 <? maxRecords) with ErrInvalidRequest in
      Ok {| redirectURIs := allowlist; ttl := ttl; maxRecords := maxRecords; records := ∅ |}
  end.

Section oauth.
Context (sha256 : bytes -> bytes).

(** ** PKCE *)

Definition newCodeVerifier (random : bytes) : result oauth_error (bytes * bytes) :=
  match read_full 32 random with
  | None => Err ErrInvalidPKCE
  | Some (buffer, random) => Ok (b64_encode buffer, random)
  end.

Definition CodeChallengeS256 (verifier : bytes) : result oauth_error bytes :=
  fail_if negb (ValidCodeVerifier verifier) with ErrInvalidPKCE in
  Ok (b64_encode (sha256 verifier)).

(** ** The store *)

Definition stale (s : Store) (now : Z) (r : Record_) : bool :=
  (time_sub now (CreatedAt r) <? 0) || (ttl s <? time_sub now (CreatedAt r)).

Definition pruneLocked (now : Z) (s : Store) : Store :=
  with_records (filter (fun dr => stale s now dr.2 = false) (records s)) s.

(** [now] is read for the pruning, [created] when the record is made. *)
Definition Begin (provider : bytes) (principalID : Z) (redirectURI : bytes) (now created : Z) (random : bytes) (s : Store)
  : result oauth_error Challenge * Store :=
  if negb (ValidProviderName provider) || (principalID <? 1) then (Err ErrInvalidRequest, s)
  else if negb (bool_decide (redirectURI ∈ redirectURIs s)) then (Err ErrInvalidRequest, s)
  else
    let s := pruneLocked now s in
    if maxRecords s <=? Z.of_nat (size (records s)) then (Err ErrStoreFull, s)
    else match read_full 32 random with
    | None => (Err ErrInvalidRequest, s)
    | Some (stateBuffer, random) =>
        let state := b64_encode stateBuffer in
        match newCodeVerifier random with
        | Err _ => (Err ErrInvalidRequest, s)
        | Ok (verifier, _) =>
            match CodeChallengeS256 verifier with
            | Err _ => (Err ErrInvalidRequest, s)
            | Ok challenge =>
                (Ok {| State := state; ChVerifier := verifier; CodeChallenge := challenge |},
                 with_records (<[sha256 state := {| Provider := provider; PrincipalID := principalID;
                   RedirectURI := redirectURI; CreatedAt := created; CodeVerifier := verifier |}]> (records s)) s)
            end
        end
    end.

Definition well_formed_state (state : bytes) : bool :=
  negb ((Zlen state <? MinCodeVerifierLength) || (maxStateLength <? Zlen state)) && forallb state_char state.

Definition Consume (provider state : bytes) (now : Z) (s : Store) : result oauth_error Record_ * Store :=
  if negb (ValidProviderName provider) || negb (well_formed_state state) then (Err ErrInvalidState, s)
  else match records s !! sha256 state with
  | None => (Err ErrInvalidState, s)
  | Some record =>
      let s' := with_records (delete (sha256 state) (records s)) s in
      if stale s now record then (Err ErrInvalidState, s')
      else if negb (bool_decide (Provider record = provider)) then (Err ErrInvalidState, s')
      else (Ok record, s')
  end.

Definition Pending (s : Store) : Z := Z.of_nat (size (records s)).

(** ** Executions *)

Inductive oauth_op :=
| OpBegin (provider : bytes) (principalID : Z) (redirectURI : bytes) (now created : Z) (random : bytes)
| OpConsume (provider state : bytes) (now : Z).

Definition oauth_step (op : oauth_op) (s : Store) : Store :=
  match op with
  | OpBegin p id u now created random => (Begin p id u now created random s).2
  | OpConsume p st now => (Consume p st now s).2
  end.

(** The digest an operation registers, if any. *)
Definition issued (op : oauth_op) (s : Store) : option bytes :=
  match op with
  | OpBegin p id u now created random =>
      match (Begin p id u now created random s).1 with Ok c => Some (sha256 (State c)) | Err _ => None end
  | OpConsume _ _ _ => None
  end.

(** [s'] is reached from [s] by operations none of which registers digest [d]. *)
Inductive runs_without (d : bytes) : Store -> Store -> Prop :=
| run_nil s : runs_without d s s
| run_op s op s' : issued op s <> Some d -> runs_without d (oauth_step op s) s' -> runs_without d s s'.

(** ** Lemmas *)

Definition record_ok (s : Store) (r : Record_) : Prop :=
  ValidProviderName (Provider r) = true /\ 1 <= PrincipalID r /\ RedirectURI r ∈ redirectURIs s /\
  ValidCodeVerifier (CodeVerifier r) = true.

Definition store_ok (s : Store) : Prop :=
  1 <= maxRecords s <= 4096 /\ minute <= ttl s <= hour /\ Pending s <= maxRecords s /\
  forall d r, records s !! d = Some r -> record_ok s r.

Lemma prune_sub now s : records (pruneLocked now s) ⊆ records s.
Proof. apply map_filter_subseteq. Qed.

Lemma sub_store_ok m s : m ⊆ records s -> store_ok s -> store_ok (with_records m s).
Proof.
  intros Hm (H1 & H2 & H3 & H4). unfold store_ok, Pending in *. cbn. split_and!; try lia.
  - pose proof (map_subseteq_size _ _ Hm). lia.
  - intros d r Hr. apply (H4 d r). by eapply lookup_weaken.
Qed.

Lemma Begin_ok p id u now created random s :
  store_ok s -> store_ok (Begin p id u now created random s).2.
Proof.
  intros Hs. unfold Begin. destruct (negb (ValidProviderName p) || _) eqn:Ev; [done|].
  destruct (negb (bool_decide (u ∈ _))) eqn:Eu; [done|]. bools.
  assert (Hs' : store_ok (pruneLocked now s)) by (apply sub_store_ok; [apply prune_sub|done]).
  set (s1 := pruneLocked now s) in *. assert (Hu : u ∈ redirectURIs s1) by done. clearbody s1.
  destruct (maxRecords s1 <=? _) eqn:Em; [done|]. bools.
  destruct (read_full 32 random) as [[buffer random']|]; [|done].
  unfold newCodeVerifier. destruct (read_full 32 random') as [[vb ?]|]; [|done].
  unfold CodeChallengeS256. destruct (ValidCodeVerifier (b64_encode vb)) eqn:Ecv; [|done]. cbn [negb snd].
  destruct Hs' as (H1 & H2 & H3 & H4). unfold store_ok, Pending in *. cbn. split_and!; try lia.
  - rewrite map_size_insert. destruct (records s1 !! _); cbn; lia.
  - intros d r [[<- <-]|[_ Hr]]%lookup_insert_Some; [done|]. by apply (H4 d r).
Qed.

Lemma Consume_sub p st now s : records (Consume p st now s).2 ⊆ records s /\
  (Consume p st now s).2 = with_records (records (Consume p st now s).2) s.
Proof.
  assert (Hself : s = with_records (records s) s) by (by destruct s). unfold Consume.
  destruct (negb (ValidProviderName p) || _); [by split|].
  destruct (records s !! sha256 st) as [r|]; [|by split].
  destruct (stale s now r); [split; [apply delete_subseteq|done]|].
  destruct (negb _); (split; [apply delete_subseteq|done]).
Qed.

Lemma oauth_step_ok op s : store_ok s -> store_ok (oauth_step op s).
Proof.
  intros Hs. destruct op; cbn [oauth_step]; [by apply Begin_ok|].
  destruct (Consume_sub provider state now s) as [Hsub ->]. by apply sub_store_ok.
Qed.

(** A digest that is not registered stays unregistered. *)
Lemma step_absent d op s :
  records s !! d = None -> issued op s <> Some d -> records (oauth_step op s) !! d = None.
Proof.
  intros Hd Hi. destruct op as [p id u now created random|p st now]; cbn [oauth_step issued] in *.
  - revert Hi. unfold Begin. destruct (negb (ValidProviderName p) || _); [done|].
    destruct (negb _); [done|].
    assert (Hd1 : records (pruneLocked now s) !! d = None).
    { destruct (records (pruneLocked now s) !! d) eqn:E; [|done].
      rewrite (lookup_weaken _ _ _ _ E (prune_sub now s)) in Hd. done. }
    destruct (_ <=? _); [done|]. destruct (read_full 32 random) as [[buffer random']|]; [|done].
    destruct (newCodeVerifier random') as [[v ?]|]; [|done]. destruct (CodeChallengeS256 v); [|done].
    cbn [fst snd State with_records records]. intros Hi. rewrite lookup_insert_ne; [done|congruence].
  - destruct (Consume_sub p st now s) as [Hsub _].
    destruct (records (Consume p st now s).2 !! d) eqn:E; [|done].
    rewrite (lookup_weaken _ _ _ _ E Hsub) in Hd. done.
Qed.

Lemma runs_absent d s s' : runs_without d s s' -> records s !! d = None -> records s' !! d = None.
Proof. induction 1 as [|s op s' Hi _ IH]; intros Hd; [done|]. apply IH. by apply step_absent. Qed.

Lemma Consume_absent p st now s : records s !! sha256 st = None -> exists s', Consume p st now s = (Err ErrInvalidState, s').
Proof. intros Hd. unfold Consume. destruct (_ || _); [by eexists|]. rewrite Hd. by eexists. Qed.

(** Presenting a well-formed state spends it, whatever the outcome. *)
Lemma Consume_spends p st now s :
  ValidProviderName p = true -> well_formed_state st = true ->
  records (Consume p st now s).2 !! sha256 st = None.
Proof.
  intros Hp Hw. unfold Consume. rewrite Hp, Hw. cbn [negb orb].
  destruct (records s !! sha256 st) as [r|] eqn:E; [|done].
  destruct (stale s now r); [apply lookup_delete_eq|]. destruct (negb _); apply lookup_delete_eq.
Qed.

Lemma b64_state_chars l : forallb state_char (b64_encode l) = true.
Proof.
  enough (Hall : Forall (fun c => state_char c = true) (b64_encode l)).
  { apply forallb_forall. intros c Hc%list_elem_of_In. rewrite Forall_forall in Hall. auto. }
  assert (Hz : forall z, 0 <= z < 64 -> state_char (b64_char z) = true).
  { intros z Hz. exact (small_all (fun z => state_char (b64_char z)) 64 eq_refl z Hz). }
  induction l as [l IH] using list_len_ind.
  destruct l as [|a [|b [|c r]]]; cbn [b64_encode]; try pose proof (byte_val_range a) as Ha;
    try pose proof (byte_val_range b) as Hb; try pose proof (byte_val_range c) as Hc;
    repeat constructor; try (apply Hz; Z.to_euclidean_division_equations; lia). apply IH. simpl. lia.
Qed.

Lemma b64_state_ok l : length l = 32%nat -> well_formed_state (b64_encode l) = true.
Proof.
  intros Hl. unfold well_formed_state. rewrite b64_state_chars. unfold Zlen.
  by rewrite length_b64_encode_32.
Qed.

Lemma Begin_success p id u now created random s c s' :
  Begin p id u now created random s = (Ok c, s') ->
  ValidProviderName p = true /\ well_formed_state (State c) = true /\
  CodeChallenge c = b64_encode (sha256 (ChVerifier c)) /\ ValidCodeVerifier (ChVerifier c) = true /\
  redirectURIs s' = redirectURIs s /\ ttl s' = ttl s /\
  records s' !! sha256 (State c) = Some {| Provider := p; PrincipalID := id; RedirectURI := u;
    CreatedAt := created; CodeVerifier := ChVerifier c |}.
Proof.
  unfold Begin. intros E. destruct (ValidProviderName p) eqn:Hp; [|done]. cbn [negb orb] in E.
  step_in E. step_in E. step_in E.
  destruct (read_full 32 random) as [[buffer random']|] eqn:Er; [|done]. unfold newCodeVerifier in E.
  destruct (read_full 32 random') as [[vb rest]|]; [|done]. unfold CodeChallengeS256 in E.
  destruct (ValidCodeVerifier (b64_encode vb)) eqn:Ecv; [|done]. cbn [negb] in E. simplify_eq.
  cbn [State ChVerifier CodeChallenge with_records records redirectURIs ttl].
  split_and!; [done| |done|done|done|done|apply lookup_insert_eq].
  apply b64_state_ok. unfold read_full in Er. destruct (length random <? 32)%nat eqn:El; [done|].
  apply Nat.ltb_ge in El. simplify_eq. rewrite length_take. lia.
Qed.
End oauth.

(** ** Properties *)

(** C31. Whatever the sequence of calls, the store of a validated configuration
    never holds more records than its limit (at most 4096), and every record was
    made for a valid provider, an authenticated principal and an allow-listed
    redirect, with a valid verifier. *)
Theorem oauth_store_invariant sha256 url_ok options s ops :
  NewStore url_ok options = Ok s ->
  let s' := foldl (fun s op => oauth_step sha256 op s) s ops in
  Pending s' <= maxRecords s' <= 4096 /\ forall d r, records s' !! d = Some r -> record_ok s' r.
Proof.
  intros E. cbv zeta. assert (Hok : store_ok s).
  { unfold NewStore in E. repeat step_in E; simplify_eq; bools; unfold store_ok, Pending; cbn [records maxRecords ttl];
      rewrite map_size_empty; split_and!; try lia; done. }
  assert (Hok' : store_ok (foldl (fun s op => oauth_step sha256 op s) s ops)).
  { clear E. revert s Hok. induction ops as [|op ops IH]; intros s Hok; cbn [foldl]; [done|]. by apply IH, oauth_step_ok. }
  destruct Hok' as (H1 & _ & H3 & H4). split; [lia|done].
Qed.

(** C30. A state is single-use. Once a well-formed state was presented under a
    valid provider name (and whether it was accepted, expired or bound to another
    provider), every later presentation fails, for every provider, until a new
    authorization registers the same digest. A call with an invalid provider name
    or a malformed state fails and leaves the store as it was, so it spends
    nothing. *)
Theorem oauth_state_single_use sha256 p st now s :
  (ValidProviderName p = true -> well_formed_state st = true ->
   forall s' p' now', runs_without sha256 (sha256 st) (Consume sha256 p st now s).2 s' ->
     (Consume sha256 p' st now' s').1 = Err ErrInvalidState) /\
  (ValidProviderName p = false \/ well_formed_state st = false -> Consume sha256 p st now s = (Err ErrInvalidState, s)).
Proof.
  split.
  - intros Hp Hw s' p' now' Hr. pose proof (Consume_spends sha256 p st now s Hp Hw) as Hd.
    apply (runs_absent _ _ _ _ Hr) in Hd. by destruct (Consume_absent sha256 p' st now' s' Hd) as [? ->].
  - unfold Consume. intros [-> | ->]; [done|]. by rewrite orb_true_r.
Qed.

(** C32. An authorization completes: the state of a successful [Begin], presented
    for its provider within the lifetime, yields exactly the context it was
    begun with, and the challenge is the S256 challenge of the returned verifier. *)
Theorem oauth_begin_consume sha256 p id u now created random s c s' now' :
  Begin sha256 p id u now created random s = (Ok c, s') ->
  0 <= now' - created <= ttl s -> ttl s < 2 ^ 63 ->
  (Consume sha256 p (State c) now' s').1 =
    Ok {| Provider := p; PrincipalID := id; RedirectURI := u; CreatedAt := created; CodeVerifier := ChVerifier c |} /\
  CodeChallenge c = b64_encode (sha256 (ChVerifier c)) /\ ValidCodeVerifier (ChVerifier c) = true.
Proof.
  intros E Ht Hb. pose proof E as (Hp & Hw & Hc & Hv & _ & Httl & Hr)%Begin_success.
  split; [|done]. unfold Consume. rewrite Hp, Hw, Hr. cbn [negb orb].
  unfold stale, time_sub. cbn [CreatedAt Provider]. rewrite Httl.
  replace (Z.max (- 2 ^ 63) (Z.min (2 ^ 63 - 1) (now' - created))) with (now' - created) by lia.
  replace (now' - created <? 0) with false by (symmetry; apply Z.ltb_ge; lia).
  replace (ttl s <? now' - created) with false by (symmetry; apply Z.ltb_ge; lia).
  by rewrite bool_decide_eq_true_2.
Qed.

(** ** Concrete runs *)

Definition sample_options : StoreOptions :=
  {| RedirectURIs := [bs "https://nas.example/cb"]; TTL := 0; MaxRecords := 2 |}.
Definition sample_store : Store :=
  {| redirectURIs := {[bs "https://nas.example/cb"]}; ttl := DefaultStateTTL; maxRecords := 2; records := ∅ |}.
Definition sample_begin := Begin (fun b => b) (bs "drive") 1 (bs "https://nas.example/cb") 5 5 (replicate 64 x01) sample_store.

Lemma oauth_store_invariant_witness :
  let s' := foldl (fun s op => oauth_step (fun b => b) op s) sample_store
    [OpBegin (bs "drive") 1 (bs "https://nas.example/cb") 5 5 (replicate 64 x01)] in
  Pending s' <= maxRecords s' <= 4096.
Proof.
  assert (Hnew : NewStore (fun _ => true) sample_options = Ok sample_store) by (vm_compute; reflexivity).
  exact (proj1 (oauth_store_invariant (fun b => b) (fun _ => true) sample_options sample_store
    [OpBegin (bs "drive") 1 (bs "https://nas.example/cb") 5 5 (replicate 64 x01)] Hnew)).
Defined.

(** A registered state: a call with an invalid provider name leaves it pending, the
    next one accepts it, and after another authorization it is still spent. *)
Lemma oauth_state_single_use_witness :
  match sample_begin with
  | (Ok c, s) =>
      Consume (fun b => b) (bs "Drive") (State c) 6 s = (Err ErrInvalidState, s) /\
      is_ok (Consume (fun b => b) (bs "drive") (State c) 6 s).1 = true /\
      (Consume (fun b => b) (bs "drive") (State c) 8
         (oauth_step (fun b => b) (OpBegin (bs "drive") 1 (bs "https://nas.example/cb") 7 7 (replicate 64 x02))
            (Consume (fun b => b) (bs "drive") (State c) 6 s).2)).1 = Err ErrInvalidState
  | (Err _, _) => False
  end.
Proof.
  destruct sample_begin as [[c|e] s] eqn:E; [|vm_compute in E; discriminate E].
  assert (Hc : well_formed_state (State c) = true /\
    issued (fun b => b) (OpBegin (bs "drive") 1 (bs "https://nas.example/cb") 7 7 (replicate 64 x02))
      (Consume (fun b => b) (bs "drive") (State c) 6 s).2 <> Some (State c) /\
    is_ok (Consume (fun b => b) (bs "drive") (State c) 6 s).1 = true).
  { unfold sample_begin in E. vm_compute in E. injection E as Ec Es. rewrite <- Ec, <- Es.
    vm_compute. split; [reflexivity|]. split; [discriminate|reflexivity]. }
  destruct Hc as (Hw & Hi & Hok). split; [|split; [exact Hok|]].
  - apply (oauth_state_single_use (fun b => b) (bs "Drive") (State c) 6 s). left. vm_compute. reflexivity.
  - apply (oauth_state_single_use (fun b => b) (bs "drive") (State c) 6 s); [vm_compute; reflexivity|exact Hw|].
    eapply run_op; [exact Hi|apply run_nil].
Defined.

Lemma oauth_begin_consume_witness :
  match sample_begin with
  | (Ok c, s') => is_ok (Consume (fun b => b) (bs "drive") (State c) 9 s').1 = true
  | (Err _, _) => False
  end.
Proof.
  destruct sample_begin as [[c|e] s'] eqn:E; [|vm_compute in E; discriminate E].
  destruct (oauth_begin_consume (fun b => b) _ _ _ _ _ _ _ c s' 9 E) as [Hc _].
  - vm_compute. split; discriminate.
  - vm_compute. reflexivity.
  - rewrite Hc. reflexivity.
Defined.
