(* ===== verification/SyncMap.v ===== *)
(** * pkg/generic_sync/generic_sync.go: the two-level map

    [MapOf] keeps a read map and, while it has unpromoted keys, a dirty map;
    both hold pointers to shared entries. The model keeps the pointers and a heap
    of entry slots, so the sharing is the code's. Operations run without
    interference (no other goroutine acts between their steps), so the second look
    at the read map, taken under the lock, finds what the first one found and a
    compare-and-swap on a freshly loaded pointer succeeds. The order in which
    [range] visits a Go map is a parameter. The theorems relate the operations to
    a plain map. *)

From Stdlib Require Import ZArith Lia.
From stdpp Require Import base list sets gmap.
From S2P Require Import Prelude.

(** [entry.p]: nil, the [expunged] marker, or a pointer to a value. *)
Inductive slot (V : Type) := SNil | SExpunged | SVal (v : V).
Arguments SNil {V}.
Arguments SExpunged {V}.
Arguments SVal {V} v.

(** [entry.load] *)
Definition slot_load {V} (s : slot V) : option V := match s with SVal v => Some v | _ => None end.
Definition is_expunged {V} (s : slot V) : bool := match s with SExpunged => true | _ => false end.

(** What callers do with the map, and what they see. [MRange] is a [Range] whose
    callback notes the pairs it is called with and asks to go on as long as
    [go_on] holds. [Count] and [Empty] are not among them: see
    [Count_misses_promoted_keys]. *)
Inductive map_op (K V : Type) :=
| MLoad (k : K) | MHas (k : K) | MStore (k : K) (v : V) | MLoadOrStore (k : K) (v : V) | MDelete (k : K)
| MRange (go_on : K -> V -> bool) | MValues | MToMap | MClear.
Arguments MLoad {K V} k.
Arguments MHas {K V} k.
Arguments MStore {K V} k v.
Arguments MLoadOrStore {K V} k v.
Arguments MDelete {K V} k.
Arguments MRange {K V} go_on.
Arguments MValues {K V}.
Arguments MToMap {K V}.
Arguments MClear {K V}.

(** The elements a walk over [l] visits when it stops after the first that fails [f]. *)
Fixpoint visited {A} (f : A -> bool) (l : list A) : list A :=
  match l with
  | [] => []
  | x :: l => x :: if f x then visited f l else []
  end.

Section syncmap.
Context {K : Type} `{Countable K} {V : Type}.

Record MapOf := {
  read_m : gmap K nat;
  amended : bool;
  dirty : option (gmap K nat);
  misses : Z;
  heap : gmap nat (slot V);
  fresh : nat
}.

Inductive map_out :=
| OLoad (v : option V) | OHas (b : bool) | ODone | OLoadOrStore (actual : V) (loaded : bool)
| OPairs (l : list (K * V)) | OValues (l : list V) | OMap (g : gmap K V).

(** The zero [MapOf]. *)
Definition emptyMap : MapOf :=
  {| read_m := ∅; amended := false; dirty := None; misses := 0; heap := ∅; fresh := 0 |}.

Definition deref (m : MapOf) (e : nat) : slot V := default SNil (heap m !! e).
Definition assign (e : nat) (s : slot V) (m : MapOf) : MapOf :=
  {| read_m := read_m m; amended := amended m; dirty := dirty m; misses := misses m;
     heap := <[e := s]> (heap m); fresh := fresh m |}.

(** Lookups in a nil map find nothing, and its length is 0. *)
Definition dirty_map (m : MapOf) : gmap K nat := default ∅ (dirty m).
Definition set_dirty (d : option (gmap K nat)) (m : MapOf) : MapOf :=
  {| read_m := read_m m; amended := amended m; dirty := d; misses := misses m; heap := heap m; fresh := fresh m |}.
Definition dirty_put (key : K) (e : nat) (m : MapOf) : MapOf := set_dirty (Some (<[key := e]> (dirty_map m))) m.
Definition set_amended (m : MapOf) : MapOf :=
  {| read_m := read_m m; amended := true; dirty := dirty m; misses := misses m; heap := heap m; fresh := fresh m |}.

(** The order of a [range] over a map. *)
Variable order : gmap K nat -> list (K * nat).

(** The dirty map becomes the read map. *)
Definition promote (m : MapOf) : MapOf :=
  {| read_m := dirty_map m; amended := false; dirty := None; misses := 0; heap := heap m; fresh := fresh m |}.

Definition missLocked (m : MapOf) : MapOf :=
  let misses' := misses m + 1 in
  if misses' <? Z.of_nat (size (dirty_map m)) then
    {| read_m := read_m m; amended := amended m; dirty := dirty m; misses := misses'; heap := heap m; fresh := fresh m |}
  else promote m.

Definition Load (key : K) (m : MapOf) : option V * MapOf :=
  match read_m m !! key with
  | Some e => (slot_load (deref m e), m)
  | None =>
      if amended m then
        let found := dirty_map m !! key in
        let m := missLocked m in
        (match found with Some e => slot_load (deref m e) | None => None end, m)
      else (None, m)
  end.

Definition Has (key : K) (m : MapOf) : bool * MapOf :=
  let '(v, m) := Load key m in (bool_decide (is_Some v), m).

Definition tryExpungeLocked (e : nat) (m : MapOf) : bool * MapOf :=
  match deref m e with
  | SNil => (true, assign e SExpunged m)
  | SExpunged => (true, m)
  | SVal _ => (false, m)
  end.

(** The loop of [dirtyLocked]: deleted entries are marked expunged and left out. *)
Definition copy_entry (m : MapOf) (ke : K * nat) : MapOf :=
  let '(is_exp, m) := tryExpungeLocked ke.2 m in
  if is_exp then m else dirty_put ke.1 ke.2 m.

Definition dirtyLocked (m : MapOf) : MapOf :=
  match dirty m with
  | Some _ => m
  | None => foldl copy_entry (set_dirty (Some ∅) m) (order (read_m m))
  end.

(** [m.dirty[key] = newEntry(value)] *)
Definition putNewEntry (key : K) (value : V) (m : MapOf) : MapOf :=
  {| read_m := read_m m; amended := amended m; dirty := Some (<[key := fresh m]> (dirty_map m)); misses := misses m;
     heap := <[fresh m := SVal value]> (heap m); fresh := S (fresh m) |}.

(** Add a key that is in neither map: the last branch of [Store] and [LoadOrStore]. *)
Definition addEntry (key : K) (value : V) (m : MapOf) : MapOf :=
  let m := if negb (amended m) then set_amended (dirtyLocked m) else m in
  putNewEntry key value m.

Definition tryStore (e : nat) (value : V) (m : MapOf) : bool * MapOf :=
  if is_expunged (deref m e) then (false, m) else (true, assign e (SVal value) m).

Definition unexpungeLocked (e : nat) (m : MapOf) : bool * MapOf :=
  if is_expunged (deref m e) then (true, assign e SNil m) else (false, m).

Definition storeLocked (e : nat) (value : V) (m : MapOf) : MapOf := assign e (SVal value) m.

(** An expunged entry of the read map goes back into the dirty map. *)
Definition unexpunge (key : K) (e : nat) (m : MapOf) : MapOf :=
  let '(was, m) := unexpungeLocked e m in if was then dirty_put key e m else m.

(** The code's [Store]: the fast path, then the part under the lock. *)
Definition store_slow (key : K) (value : V) (m : MapOf) : MapOf :=
  match read_m m !! key with
  | Some e => storeLocked e value (unexpunge key e m)
  | None =>
      match dirty_map m !! key with
      | Some e => storeLocked e value m
      | None => addEntry key value m
      end
  end.

Definition Store_ (key : K) (value : V) (m : MapOf) : MapOf :=
  match read_m m !! key with
  | Some e => let '(stored, m') := tryStore e value m in if stored then m' else store_slow key value m
  | None => store_slow key value m
  end.

(** [None]: the entry is expunged. *)
Definition tryLoadOrStore (e : nat) (value : V) (m : MapOf) : option (V * bool) * MapOf :=
  match deref m e with
  | SExpunged => (None, m)
  | SVal v => (Some (v, true), m)
  | SNil => (Some (value, false), assign e (SVal value) m)
  end.

(** The results under the lock drop [ok]; [actual] is the zero value [zero] if it is false. *)
Definition loadOrStore_slow (zero : V) (key : K) (value : V) (m : MapOf) : V * bool * MapOf :=
  match read_m m !! key with
  | Some e =>
      let '(r, m) := tryLoadOrStore e value (unexpunge key e m) in
      let '(actual, loaded) := default (zero, false) r in (actual, loaded, m)
  | None =>
      match dirty_map m !! key with
      | Some e =>
          let '(r, m) := tryLoadOrStore e value m in
          let '(actual, loaded) := default (zero, false) r in (actual, loaded, missLocked m)
      | None => (value, false, addEntry key value m)
      end
  end.

Definition LoadOrStore (zero : V) (key : K) (value : V) (m : MapOf) : V * bool * MapOf :=
  match read_m m !! key with
  | Some e =>
      match tryLoadOrStore e value m with
      | (Some (actual, loaded), m') => (actual, loaded, m')
      | (None, _) => loadOrStore_slow zero key value m
      end
  | None => loadOrStore_slow zero key value m
  end.

(** [entry.delete] *)
Definition delete_entry (e : nat) (m : MapOf) : MapOf :=
  match deref m e with SVal _ => assign e SNil m | _ => m end.

Definition Delete (key : K) (m : MapOf) : MapOf :=
  match read_m m !! key with
  | Some e => delete_entry e m
  | None => if amended m then set_dirty (Some (delete key (dirty_map m))) m else m
  end.

(** [Range]: the callback may change the map, and its own captured state [A]. *)
Fixpoint range_loop {A} (f : K -> V -> A -> MapOf -> bool * A * MapOf) (l : list (K * nat)) (a : A) (m : MapOf) : A * MapOf :=
  match l with
  | [] => (a, m)
  | (k, e) :: l =>
      match slot_load (deref m e) with
      | None => range_loop f l a m
      | Some v => let '(go_on, a, m) := f k v a m in if go_on then range_loop f l a m else (a, m)
      end
  end.

Definition Range {A} (f : K -> V -> A -> MapOf -> bool * A * MapOf) (a : A) (m : MapOf) : A * MapOf :=
  let m := if amended m then promote m else m in
  range_loop f (order (read_m m)) a m.

Definition Values (m : MapOf) : list V * MapOf := Range (fun _ v values m => (true, values ++ [v], m)) [] m.
Definition ToMap (m : MapOf) : gmap K V * MapOf := Range (fun k v ans m => (true, <[k := v]> ans, m)) ∅ m.
Definition Clear (m : MapOf) : MapOf := (Range (fun k _ a m => (true, a, Delete k m)) tt m).2.

Definition Count (m : MapOf) : Z := Z.of_nat (size (dirty_map m)).
Definition Empty (m : MapOf) : bool := Count m =? 0.

(** One call, and a sequence of calls. *)
Definition map_step (zero : V) (op : map_op K V) (m : MapOf) : map_out * MapOf :=
  match op with
  | MLoad k => let '(v, m) := Load k m in (OLoad v, m)
  | MHas k => let '(b, m) := Has k m in (OHas b, m)
  | MStore k v => (ODone, Store_ k v m)
  | MLoadOrStore k v => let '(actual, loaded, m) := LoadOrStore zero k v m in (OLoadOrStore actual loaded, m)
  | MDelete k => (ODone, Delete k m)
  | MRange go_on =>
      let '(seen, m) := Range (fun k v seen m => (go_on k v, seen ++ [(k, v)], m)) [] m in (OPairs seen, m)
  | MValues => let '(l, m) := Values m in (OValues l, m)
  | MToMap => let '(g, m) := ToMap m in (OMap g, m)
  | MClear => (ODone, Clear m)
  end.

Fixpoint map_run (zero : V) (ops : list (map_op K V)) (m : MapOf) : list map_out * MapOf :=
  match ops with
  | [] => ([], m)
  | op :: ops => let '(o, m) := map_step zero op m in let '(os, m) := map_run zero ops m in (o :: os, m)
  end.

(** What a plain Go map promises for the same calls. *)
Definition plain_step (op : map_op K V) (g : gmap K V) (o : map_out) (g' : gmap K V) : Prop :=
  match op, o with
  | MLoad k, OLoad v => v = g !! k /\ g' = g
  | MHas k, OHas b => b = bool_decide (is_Some (g !! k)) /\ g' = g
  | MStore k v, ODone => g' = <[k := v]> g
  | MLoadOrStore k v, OLoadOrStore actual loaded =>
      match g !! k with
      | Some w => actual = w /\ loaded = true /\ g' = g
      | None => actual = v /\ loaded = false /\ g' = <[k := v]> g
      end
  | MDelete k, ODone => g' = delete k g
  | MRange go_on, OPairs seen =>
      g' = g /\ exists order, order ≡ₚ map_to_list g /\ seen = visited (fun kv => go_on kv.1 kv.2) order
  | MValues, OValues l => l ≡ₚ (map_to_list g).*2 /\ g' = g
  | MToMap, OMap a => a = g /\ g' = g
  | MClear, ODone => g' = ∅
  | _, _ => False
  end.

Inductive plain_trace : gmap K V -> list (map_op K V) -> list map_out -> gmap K V -> Prop :=
| plain_nil g : plain_trace g [] [] g
| plain_cons g op o g1 ops os g2 :
    plain_step op g o g1 -> plain_trace g1 ops os g2 -> plain_trace g (op :: ops) (o :: os) g2.

(** ** The map it stands for *)

Definition view (m : MapOf) (k : K) : option V :=
  match read_m m !! k with
  | Some e => slot_load (deref m e)
  | None => if amended m then match dirty_map m !! k with Some e => slot_load (deref m e) | None => None end else None
  end.

Definition points (m : MapOf) (k : K) (e : nat) : Prop :=
  read_m m !! k = Some e \/ dirty_map m !! k = Some e.

(** The invariants the comments of the source state: the read map is complete or
    the dirty map extends its live part; expunged entries are exactly those of the
    read map missing from the dirty map; no two keys share an entry. *)
Record map_ok (m : MapOf) : Prop := {
  ok_amended : amended m = true <-> is_Some (dirty m);
  ok_read k e : read_m m !! k = Some e ->
    match dirty m with
    | Some d => if is_expunged (deref m e) then d !! k = None else d !! k = Some e
    | None => is_expunged (deref m e) = false
    end;
  ok_dirty d k e : dirty m = Some d -> d !! k = Some e ->
    is_expunged (deref m e) = false /\ (read_m m !! k = None \/ read_m m !! k = Some e);
  ok_fresh k e : points m k e -> is_Some (heap m !! e) /\ (e < fresh m)%nat;
  ok_inj k k' e : points m k e -> points m k' e -> k = k'
}.

(** ** Lemmas *)

Lemma deref_assign e s m e' : deref (assign e s m) e' = if bool_decide (e = e') then s else deref m e'.
Proof.
  unfold deref, assign. cbn [heap]. case_bool_decide; [subst; by rewrite lookup_insert_eq|by rewrite lookup_insert_ne].
Qed.

Lemma assign_ok k e s m :
  map_ok m -> points m k e -> is_expunged (deref m e) = false -> is_expunged s = false -> map_ok (assign e s m).
Proof.
  intros Hm Hp Hd Hs.
  assert (Hexp : forall e', is_expunged (deref (assign e s m) e') = is_expunged (deref m e')).
  { intros e'. rewrite deref_assign. case_bool_decide; subst; congruence. }
  destruct Hm as [Ha Hr Hdy Hf Hi]. split.
  - exact Ha.
  - intros k' e' Hk'. rewrite Hexp. by apply Hr.
  - intros d k' e' Hdd Hk'. rewrite Hexp. by apply (Hdy d).
  - intros k' e' [? ?]%Hf. split; [|done]. cbn [assign heap].
    destruct (decide (e = e')) as [->|]; [rewrite lookup_insert_eq; by eexists|by rewrite lookup_insert_ne].
  - exact Hi.
Qed.

(** The entry a lookup of [k] ends at. *)
Definition entry_at (m : MapOf) (k : K) : option nat :=
  match read_m m !! k with
  | Some e => Some e
  | None => if amended m then dirty_map m !! k else None
  end.

Lemma view_entry m k : view m k = match entry_at m k with Some e => slot_load (deref m e) | None => None end.
Proof. unfold view, entry_at. destruct (read_m m !! k); [done|]. destruct (amended m); done. Qed.

Lemma entry_at_points m k e : entry_at m k = Some e -> points m k e.
Proof.
  unfold entry_at, points. destruct (read_m m !! k); [intros [= <-]; by left|].
  destruct (amended m); [by right|done].
Qed.

Lemma view_assign m k e s k' :
  map_ok m -> entry_at m k = Some e -> view (assign e s m) k' = if bool_decide (k' = k) then slot_load s else view m k'.
Proof.
  intros Hm He. rewrite !view_entry. change (entry_at (assign e s m) k') with (entry_at m k').
  case_bool_decide as Hk; [subst k'; rewrite He, deref_assign; by rewrite bool_decide_eq_true_2|].
  destruct (entry_at m k') as [e'|] eqn:He'; [|done]. rewrite deref_assign, bool_decide_eq_false_2; [done|].
  intros <-. apply Hk. eapply (ok_inj m Hm k' k e); by apply entry_at_points.
Qed.

Lemma unexpunge_facts k e m :
  map_ok m -> read_m m !! k = Some e ->
  map_ok (unexpunge k e m) /\ (forall k', view (unexpunge k e m) k' = view m k') /\
  read_m (unexpunge k e m) !! k = Some e /\ is_expunged (deref (unexpunge k e m) e) = false /\
  slot_load (deref (unexpunge k e m) e) = slot_load (deref m e).
Proof.
  intros Hm Hk. unfold unexpunge, unexpungeLocked. destruct (is_expunged (deref m e)) eqn:Ee; [|by split_and!].
  pose proof (ok_read m Hm k e Hk) as Hr. rewrite Ee in Hr. destruct (dirty m) as [d|] eqn:Ed; [|done].
  assert (Hdm : dirty_map m = d) by (unfold dirty_map; by rewrite Ed). 
  unfold dirty_put. change (dirty_map (assign e SNil m)) with (dirty_map m). rewrite Hdm.
  set (m' := set_dirty (Some (<[k := e]> d)) (assign e SNil m)).
  assert (Hderef : forall e', deref m' e' = if bool_decide (e = e') then SNil else deref m e').
  { intros e'. exact (deref_assign e SNil m e'). }
  assert (Hsl : forall e', slot_load (deref m' e') = slot_load (deref m e')).
  { intros e'. rewrite Hderef. case_bool_decide; [subst|done]. by destruct (deref m e'). }
  assert (Ham : amended m = true) by (apply (ok_amended m Hm); rewrite Ed; by eexists).
  assert (Hpts : forall k' e', points m' k' e' -> points m k' e').
  { intros k' e' [Hp|Hp]; [by left|]. cbn in Hp. apply lookup_insert_Some in Hp as [[<- <-]|[_ Hp]]; [by left|].
    right. by rewrite Hdm. }
  split_and!.
  - split.
    + cbn. rewrite Ham. split; [by eexists|done].
    + intros k' e' Hk'. change (read_m m' !! k') with (read_m m !! k') in Hk'. cbn [m' assign set_dirty dirty]. rewrite Hderef. destruct (decide (k' = k)) as [->|Hne].
      * rewrite Hk in Hk'. simplify_eq. rewrite bool_decide_eq_true_2 by done. cbn. apply lookup_insert_eq.
      * rewrite bool_decide_eq_false_2.
        2: { intros <-. apply Hne. apply (ok_inj m Hm k' k e); left; done. }
        rewrite lookup_insert_ne by done. pose proof (ok_read m Hm k' e' Hk') as Hr'. by rewrite Ed in Hr'.
    + intros d' k' e' [= <-] Hk'. rewrite Hderef. apply lookup_insert_Some in Hk' as [[<- <-]|[Hne Hk']].
      * rewrite bool_decide_eq_true_2 by done. split; [done|]. by right.
      * destruct (ok_dirty m Hm d k' e' Ed Hk') as [Hx Hy]. split; [|done]. case_bool_decide; [done|done].
    + intros k' e' Hp%Hpts. destruct (ok_fresh m Hm k' e' Hp) as [Hh Hlt]. split; [|done]. cbn.
      destruct (decide (e = e')) as [->|]; [rewrite lookup_insert_eq; by eexists|by rewrite lookup_insert_ne].
    + intros k1 k2 e' H1%Hpts H2%Hpts. by eapply (ok_inj m Hm).
  - intros k'. rewrite !view_entry. unfold entry_at. cbn [m' assign set_dirty read_m amended dirty_map dirty default from_option id].
    unfold dirty_map. cbn [m' assign set_dirty dirty]. rewrite Ed. cbn [from_option id].
    destruct (read_m m !! k') as [e'|] eqn:Hk'; [apply Hsl|]. rewrite Ham.
    rewrite lookup_insert_ne by congruence. destruct (d !! k'); [apply Hsl|done].
  - done.
  - rewrite Hderef. by rewrite bool_decide_eq_true_2.
  - apply Hsl.
Qed.

Lemma promote_facts m :
  map_ok m -> amended m = true ->
  map_ok (promote m) /\ (forall k, view (promote m) k = view m k).
Proof.
  intros Hm Ham. destruct (proj1 (ok_amended m Hm) Ham) as [d Ed].
  assert (Hdm : dirty_map m = d) by (unfold dirty_map; by rewrite Ed).
  assert (Hpts : forall k e, points (promote m) k e -> points m k e).
  { intros k e [Hp|Hp]; [by right|]. cbn in Hp. by rewrite lookup_empty in Hp. }
  split.
  - split.
    + cbn. split; [done|by intros [? ?]].
    + intros k e Hk. cbn in Hk |- *. rewrite Hdm in Hk. by destruct (ok_dirty m Hm d k e Ed Hk).
    + done.
    + intros k e Hp%Hpts. exact (ok_fresh m Hm k e Hp).
    + intros k k' e H1%Hpts H2%Hpts. by eapply (ok_inj m Hm).
  - intros k. unfold view. cbn [promote read_m amended]. change (deref (promote m)) with (deref m). rewrite Ham, Hdm.
    destruct (read_m m !! k) as [e|] eqn:Hk; [|by destruct (d !! k)].
    pose proof (ok_read m Hm k e Hk) as Hr. rewrite Ed in Hr.
    destruct (is_expunged (deref m e)) eqn:Ee; rewrite Hr; [by destruct (deref m e)|done].
Qed.

Lemma missLocked_facts m :
  map_ok m -> amended m = true ->
  map_ok (missLocked m) /\ (forall k, view (missLocked m) k = view m k).
Proof.
  intros Hm Ham. unfold missLocked. destruct (_ <? _); [|by apply promote_facts].
  split; [|done]. destruct Hm. by split.
Qed.

(** One turn of the copying loop. *)
Lemma copy_entry_facts k0 e0 m :
  read_m (copy_entry m (k0, e0)) = read_m m /\ amended (copy_entry m (k0, e0)) = amended m /\ fresh (copy_entry m (k0, e0)) = fresh m /\
  (is_Some (dirty m) -> is_Some (dirty (copy_entry m (k0, e0)))) /\ (forall e, is_Some (heap m !! e) -> is_Some (heap (copy_entry m (k0, e0)) !! e)) /\
  (forall e, deref (copy_entry m (k0, e0)) e = if bool_decide (e = e0) then match deref m e with SNil => SExpunged | x => x end else deref m e) /\
  (forall k, dirty_map (copy_entry m (k0, e0)) !! k = if bool_decide (k = k0 /\ slot_load (deref m e0) <> None) then Some e0 else dirty_map m !! k).
Proof.
  unfold copy_entry, tryExpungeLocked. cbn [fst snd]. destruct (deref m e0) as [| |v] eqn:E0; cbn [slot_load].
  - split_and!; try done.
    + intros e ?. cbn. destruct (decide (e0 = e)) as [->|]; [rewrite lookup_insert_eq; by eexists|by rewrite lookup_insert_ne].
    + intros e. rewrite deref_assign. case_bool_decide as Hx; case_bool_decide as Hy; subst; try done. by rewrite E0.
    + intros k. rewrite bool_decide_eq_false_2; [done|by intros [_ ?]].
  - split_and!; try done.
    + intros e. case_bool_decide; [subst; by rewrite E0|done].
    + intros k. rewrite bool_decide_eq_false_2; [done|by intros [_ ?]].
  - split_and!; try done.
    + intros e. change (deref (dirty_put k0 e0 m) e) with (deref m e). case_bool_decide; [subst; by rewrite E0|done].
    + intros k. change (dirty_map (dirty_put k0 e0 m)) with (<[k0 := e0]> (dirty_map m)).
      case_bool_decide as Hx; [destruct Hx as [-> _]; apply lookup_insert_eq|].
      apply lookup_insert_ne. intros <-. by apply Hx.
Qed.

(** The copying loop, over entries that are pairwise distinct. *)
Lemma copy_entries_facts (l : list (K * nat)) m :
  NoDup l.*1 -> NoDup l.*2 ->
  let m' := foldl copy_entry m l in
  read_m m' = read_m m /\ amended m' = amended m /\ fresh m' = fresh m /\
  (is_Some (dirty m) -> is_Some (dirty m')) /\
  (forall e, is_Some (heap m !! e) -> is_Some (heap m' !! e)) /\
  (forall e, deref m' e = if bool_decide (e ∈ l.*2) then match deref m e with SNil => SExpunged | x => x end else deref m e) /\
  (forall k e, dirty_map m' !! k = Some e <->
     ((k, e) ∈ l /\ slot_load (deref m e) <> None) \/
     (dirty_map m !! k = Some e /\ (forall e', (k, e') ∈ l -> slot_load (deref m e') = None))).
Proof.
  revert m. induction l as [|[k0 e0] l IH]; intros m Hk He; cbn [foldl].
  - split_and!; try done. intros k e. split; [intros ?; right; split; [done|]; by intros ? []%not_elem_of_nil|].
    intros [[[]%not_elem_of_nil _]|[? _]]; done.
  - cbn in Hk, He. apply NoDup_cons in Hk as [Hk0 Hk]. apply NoDup_cons in He as [He0 He].
    set (m1 := copy_entry m (k0, e0)). specialize (IH m1 Hk He). cbn zeta in IH.
    destruct IH as (Hr & Ha & Hf & Hd & Hh & Hde & Hdi). cbn zeta.
    pose proof (copy_entry_facts k0 e0 m) as H1. fold m1 in H1.
    destruct H1 as (Hr1 & Ha1 & Hf1 & Hd1 & Hh1 & Hde1 & Hdi1).
    split_and!; try congruence; [by auto|by auto| |].
    + intros e. rewrite Hde, Hde1. cbn. destruct (decide (e = e0)) as [->|Hne].
      * rewrite bool_decide_eq_false_2 by done. rewrite bool_decide_eq_true_2 by done.
        by rewrite bool_decide_eq_true_2 by (by left).
      * rewrite (bool_decide_eq_false_2 (e = e0)) by done.
        rewrite (bool_decide_ext (e ∈ e0 :: l.*2) (e ∈ l.*2)); [done|]. rewrite elem_of_cons. naive_solver.
    + assert (Hload : forall k e, (k, e) ∈ l -> slot_load (deref m1 e) = slot_load (deref m e)).
      { intros k e Hin. rewrite Hde1, bool_decide_eq_false_2; [done|]. intros ->. apply He0. by apply (list_elem_of_fmap_2 snd _ _ Hin). }
      assert (Hkey : forall e, (k0, e) ∈ l -> False).
      { intros e Hin. apply Hk0. by apply (list_elem_of_fmap_2 fst _ _ Hin). }
      intros k e. rewrite Hdi, Hdi1. rewrite elem_of_cons.
      destruct (decide (k = k0)) as [->|Hne].
      * destruct (decide (slot_load (deref m e0) = None)) as [Hn|Hn].
        -- rewrite bool_decide_eq_false_2 by (by intros [_ ?]). split.
           ++ intros [[?%Hkey _]|[Hx _]]; [done|]. right. split; [done|].
              intros e' [[= ->]|?%Hkey]%elem_of_cons; done.
           ++ intros [[[[= ->]|?%Hkey] ?]|[? _]]; [done|done|]. right. split; [done|]. by intros e' ?%Hkey.
        -- rewrite bool_decide_eq_true_2 by done. split.
           ++ intros [[?%Hkey _]|[[= <-] _]]; [done|]. left. split; [by left|done].
           ++ intros [[[[= ->]|?%Hkey] ?]|[? Hall]]; [|done|].
              ** right. split; [done|]. by intros e' ?%Hkey.
              ** exfalso. apply Hn, Hall. by left.
      * rewrite bool_decide_eq_false_2 by (by intros [? _]). split.
        -- intros [[Hin ?]|[? Hall]]; [left; split; [by right|by rewrite <- (Hload k e)]|].
           right. split; [done|]. intros e' [[= -> ->]|Hin]%elem_of_cons; [done|]. rewrite <- (Hload k e' Hin). by apply Hall.
        -- intros [[[[= -> ->]|Hin] ?]|[? Hall]]; [done| |].
           ++ left. split; [done|]. by rewrite (Hload k e).
           ++ right. split; [done|]. intros e' Hin. rewrite (Hload k e' Hin). apply Hall. by right.
Qed.

Hypothesis order_ok : forall g, order g ≡ₚ map_to_list g.

Lemma elem_of_order g k e : (k, e) ∈ order g <-> g !! k = Some e.
Proof. rewrite (order_ok g). apply elem_of_map_to_list. Qed.

Lemma order_keys g : NoDup (order g).*1.
Proof. rewrite (order_ok g). apply NoDup_fst_map_to_list. Qed.

Lemma order_entries m : map_ok m -> NoDup (order (read_m m)).*2.
Proof.
  intros Hm. apply NoDup_fmap_2_strong; [|rewrite (order_ok _); apply NoDup_map_to_list].
  intros [k e] [k' e'] Hx%elem_of_order Hy%elem_of_order. cbn. intros <-. f_equal.
  apply (ok_inj m Hm k k' e); by left.
Qed.

(** Between [dirtyLocked] and the new key, with the read map marked incomplete. *)
Lemma begin_dirty_facts m :
  map_ok m -> amended m = false ->
  map_ok (set_amended (dirtyLocked m)) /\ (forall k, view (set_amended (dirtyLocked m)) k = view m k) /\
  read_m (dirtyLocked m) = read_m m /\ (forall k, read_m m !! k = None -> dirty_map (dirtyLocked m) !! k = None).
Proof.
  intros Hm Ham. assert (Ed : dirty m = None).
  { destruct (dirty m) eqn:E; [|done]. assert (amended m = true) by (apply (ok_amended m Hm); rewrite E; by eexists). congruence. }
  unfold dirtyLocked. rewrite Ed.
  destruct (copy_entries_facts (order (read_m m)) (set_dirty (Some ∅) m) (order_keys _) (order_entries m Hm))
    as (Hr & _ & Hf & Hds & Hh & Hde & Hdi).
  set (m1 := foldl _ _ _) in *. cbn [set_dirty read_m fresh heap] in Hr, Hf, Hh.
  change (deref (set_dirty (Some ∅) m)) with (deref m) in Hde, Hdi.
  change (dirty_map (set_dirty (Some ∅) m)) with (∅ : gmap K nat) in Hdi.
  destruct Hds as [d Hd1]; [by eexists|]. assert (Hdm : dirty_map m1 = d) by (unfold dirty_map; by rewrite Hd1).
  assert (Hin : forall k e, read_m m !! k = Some e -> deref m1 e = match deref m e with SNil => SExpunged | x => x end).
  { intros k e Hk. rewrite Hde, bool_decide_eq_true_2; [done|]. apply list_elem_of_fmap. exists (k, e). split; [done|].
    by apply elem_of_order. }
  assert (Hdl : forall k e, d !! k = Some e <-> read_m m !! k = Some e /\ slot_load (deref m e) <> None).
  { intros k e. rewrite <- Hdm, Hdi, elem_of_order, lookup_empty. naive_solver. }
  assert (Hpts : forall k e, points (set_amended m1) k e -> read_m m !! k = Some e).
  { intros k e [Hp|Hp]; [cbn in Hp; by rewrite Hr in Hp|].
    change (dirty_map m1 !! k = Some e) in Hp. rewrite Hdm in Hp. by apply Hdl in Hp as [? _]. }
  split_and!; [|by intros k; unfold view; cbn [set_amended read_m amended];
    change (deref (set_amended m1)) with (deref m1); change (dirty_map (set_amended m1)) with (dirty_map m1);
    rewrite Hr, Hdm, Ham; destruct (read_m m !! k) as [e|] eqn:Hk;
    [rewrite (Hin k e Hk); by destruct (deref m e)|destruct (d !! k) as [e|] eqn:Hd; [apply Hdl in Hd as [? _]; congruence|done]]|done|].
  - split.
    + cbn. rewrite Hd1. split; [by eexists|done].
    + intros k e Hk. cbn [set_amended read_m] in Hk. rewrite Hr in Hk. cbn [set_amended dirty]. rewrite Hd1.
      change (deref (set_amended m1) e) with (deref m1 e). rewrite (Hin k e Hk).
      pose proof (ok_read m Hm k e Hk) as Hre. rewrite Ed in Hre.
      destruct (deref m e) as [| |v] eqn:Es; [|done|].
      * cbn. destruct (d !! k) as [e'|] eqn:Hd; [|done]. apply Hdl in Hd as [Hd Hne]. rewrite Hk in Hd. simplify_eq.
        by rewrite Es in Hne.
      * cbn. apply Hdl. by rewrite Es.
    + intros d' k e Hd' Hk. cbn [set_amended dirty] in Hd'. rewrite Hd1 in Hd'. simplify_eq. apply Hdl in Hk as [Hk Hne].
      change (deref (set_amended m1) e) with (deref m1 e). rewrite (Hin k e Hk).
      cbn [set_amended read_m]. rewrite Hr. split; [|by right]. by destruct (deref m e).
    + intros k e Hp%Hpts. destruct (ok_fresh m Hm k e (or_introl Hp)) as [Hx Hlt]. cbn [set_amended heap fresh].
      rewrite Hf. split; [by apply Hh|done].
    + intros k k' e H1%Hpts H2%Hpts. apply (ok_inj m Hm k k' e); by left.
  - intros k Hk. rewrite Hdm. destruct (d !! k) as [e|] eqn:Hd; [|done]. apply Hdl in Hd as [? _]. congruence.
Qed.

(** The entry of a new key is in no other place. *)
Lemma putNewEntry_facts key v m :
  map_ok m -> amended m = true -> read_m m !! key = None -> dirty_map m !! key = None ->
  map_ok (putNewEntry key v m) /\
  (forall k, view (putNewEntry key v m) k = if bool_decide (k = key) then Some v else view m k).
Proof.
  intros Hm Ham Hrk Hdk. destruct (proj1 (ok_amended m Hm) Ham) as [d Ed].
  assert (Hdm : dirty_map m = d) by (unfold dirty_map; by rewrite Ed). rewrite Hdm in Hdk.
  set (m' := putNewEntry key v m).
  assert (Hold : forall k e, points m k e -> deref m' e = deref m e).
  { intros k e Hp. destruct (ok_fresh m Hm k e Hp) as [_ Hlt]. unfold deref. cbn [m' putNewEntry heap].
    rewrite lookup_insert_ne by lia. done. }
  assert (Hnew : deref m' (fresh m) = SVal v) by (unfold deref; cbn [m' putNewEntry heap]; by rewrite lookup_insert_eq).
  assert (Hd' : dirty m' = Some (<[key := fresh m]> d)) by (cbn; by rewrite Hdm).
  assert (Hpts : forall k e, points m' k e -> (k = key /\ e = fresh m) \/ points m k e).
  { intros k e [Hp|Hp]; [by right; left|]. unfold dirty_map in Hp. rewrite Hd' in Hp. cbn in Hp.
    apply lookup_insert_Some in Hp as [[<- <-]|[_ Hp]]; [by left|]. right. right. by rewrite Hdm. }
  split.
  - split.
    + cbn. rewrite Ham. split; [by eexists|done].
    + intros k e Hk. change (read_m m !! k = Some e) in Hk. rewrite Hd', (Hold k e) by (by left).
      pose proof (ok_read m Hm k e Hk) as Hr. rewrite Ed in Hr. by rewrite lookup_insert_ne by congruence.
    + intros d' k e Hd'' Hk. rewrite Hd' in Hd''. injection Hd'' as <-. change (read_m m') with (read_m m).
      apply lookup_insert_Some in Hk as [[<- <-]|[Hne Hk]]; [rewrite Hnew; split; [done|by left]|].
      rewrite (Hold k e) by (right; by rewrite Hdm). by apply (ok_dirty m Hm d).
    + intros k e [[-> ->]|Hp]%Hpts; cbn [m' putNewEntry heap fresh]; [rewrite lookup_insert_eq; split; [by eexists|lia]|].
      destruct (ok_fresh m Hm k e Hp) as [Hx Hlt]. rewrite lookup_insert_ne by lia. split; [done|lia].
    + intros k k' e [[-> ->]|H1]%Hpts [[-> H2e]|H2]%Hpts; [done| | |by eapply (ok_inj m Hm)].
      * destruct (ok_fresh m Hm _ _ H2). lia.
      * subst e. destruct (ok_fresh m Hm _ _ H1). lia.
  - intros k. unfold view. change (read_m m') with (read_m m). change (amended m') with (amended m).
    unfold dirty_map. rewrite Hd', Ham, Ed. cbn [from_option id].
    case_bool_decide as Hk; [subst k; by rewrite Hrk, lookup_insert_eq, Hnew|].
    rewrite lookup_insert_ne by done. destruct (read_m m !! k) as [e|] eqn:Hr; [by rewrite (Hold k e) by (by left)|].
    destruct (d !! k) as [e|] eqn:Hd; [|done]. rewrite (Hold k e); [done|]. right. by rewrite Hdm.
Qed.

(** ** Every operation, against the map it stands for *)

(** [m'] is the map [m] with [k] set to [x]. *)
Definition updates (m m' : MapOf) (k : K) (x : option V) : Prop :=
  map_ok m' /\ forall k', view m' k' = if bool_decide (k' = k) then x else view m k'.

Lemma read_dirty_none m k : map_ok m -> read_m m !! k = None -> amended m = false -> dirty_map m !! k = None.
Proof.
  intros Hm Hk Ha. unfold dirty_map. destruct (dirty m) as [d|] eqn:E; [|done].
  assert (amended m = true) by (apply (ok_amended m Hm); rewrite E; by eexists). congruence.
Qed.

Lemma addEntry_updates k v m :
  map_ok m -> read_m m !! k = None -> dirty_map m !! k = None -> updates m (addEntry k v m) k (Some v).
Proof.
  intros Hm Hr Hd. unfold addEntry. destruct (amended m) eqn:Ha; cbn [negb]; [by apply putNewEntry_facts|].
  destruct (begin_dirty_facts m Hm Ha) as (Hm1 & Hv & Hr1 & Hd1).
  destruct (putNewEntry_facts k v _ Hm1) as [Hm2 Hv2]; [done|cbn; by rewrite Hr1|by apply Hd1|].
  split; [done|]. intros k'. by rewrite Hv2, Hv.
Qed.

Lemma assign_updates m k e s :
  map_ok m -> entry_at m k = Some e -> is_expunged (deref m e) = false -> is_expunged s = false ->
  updates m (assign e s m) k (slot_load s).
Proof.
  intros Hm He Hd Hs. split; [apply (assign_ok k); [done|by apply entry_at_points|done|done]|]. intros k'. by apply view_assign.
Qed.

Lemma entry_read m k e : read_m m !! k = Some e -> entry_at m k = Some e.
Proof. unfold entry_at. by intros ->. Qed.

Lemma entry_dirty m k e :
  map_ok m -> read_m m !! k = None -> dirty_map m !! k = Some e ->
  amended m = true /\ entry_at m k = Some e /\ is_expunged (deref m e) = false.
Proof.
  intros Hm Hr Hd. unfold entry_at. rewrite Hr. destruct (amended m) eqn:Ha.
  - split_and!; [done..|]. destruct (proj1 (ok_amended m Hm) Ha) as [d Ed]. unfold dirty_map in Hd. rewrite Ed in Hd.
    by apply (ok_dirty m Hm d k e).
  - by rewrite (read_dirty_none m k) in Hd.
Qed.

Lemma updates_trans m m1 m2 k x :
  (forall k', view m1 k' = view m k') -> updates m1 m2 k x -> updates m m2 k x.
Proof. intros Hv [Hm Hu]. split; [done|]. intros k'. by rewrite Hu, Hv. Qed.

Lemma store_slow_updates k v m : map_ok m -> updates m (store_slow k v m) k (Some v).
Proof.
  intros Hm. unfold store_slow, storeLocked. destruct (read_m m !! k) as [e|] eqn:Hr.
  - destruct (unexpunge_facts k e m Hm Hr) as (Hm1 & Hv & Hr1 & Hx & _).
    eapply updates_trans; [exact Hv|]. by apply assign_updates; [|apply entry_read| |].
  - destruct (dirty_map m !! k) as [e|] eqn:Hd; [|by apply addEntry_updates].
    destruct (entry_dirty m k e Hm Hr Hd) as (_ & He & Hx). by apply assign_updates.
Qed.

Lemma Store_updates k v m : map_ok m -> updates m (Store_ k v m) k (Some v).
Proof.
  intros Hm. unfold Store_, tryStore. destruct (read_m m !! k) as [e|] eqn:Hr; [|by apply store_slow_updates].
  destruct (is_expunged (deref m e)) eqn:Hx; [by apply store_slow_updates|].
  by apply assign_updates; [|apply entry_read| |].
Qed.

Lemma Load_facts k m : map_ok m ->
  (Load k m).1 = view m k /\ map_ok (Load k m).2 /\ forall k', view (Load k m).2 k' = view m k'.
Proof.
  intros Hm. unfold Load, view at 1. destruct (read_m m !! k) as [e|] eqn:Hr; [done|].
  destruct (amended m) eqn:Ha; [|done]. cbn [fst snd].
  destruct (missLocked_facts m Hm Ha) as [Hm1 Hv]. split_and!; [|done|done].
  destruct (dirty_map m !! k) as [e|]; [|done]. unfold missLocked. by destruct (_ <? _).
Qed.

(** On an entry that is not expunged. *)
Lemma tryLoadOrStore_facts m k e v :
  map_ok m -> entry_at m k = Some e -> is_expunged (deref m e) = false ->
  match view m k with
  | Some w => tryLoadOrStore e v m = (Some (w, true), m)
  | None => exists m', tryLoadOrStore e v m = (Some (v, false), m') /\ updates m m' k (Some v) /\
      amended m' = amended m
  end.
Proof.
  intros Hm He Hx. rewrite view_entry, He. unfold tryLoadOrStore. destruct (deref m e) as [| |w] eqn:Ed; cbn [slot_load]; [|done|done].
  eexists. split_and!; [done| |done]. apply assign_updates; try done. by rewrite Ed.
Qed.

(** What [LoadOrStore] promises. *)
Definition los_spec (m : MapOf) (k : K) (v : V) (r : V * bool * MapOf) : Prop :=
  match view m k with
  | Some w => r.1 = (w, true) /\ map_ok r.2 /\ forall k', view r.2 k' = view m k'
  | None => r.1 = (v, false) /\ updates m r.2 k (Some v)
  end.

Lemma loadOrStore_slow_facts zero k v m : map_ok m -> los_spec m k v (loadOrStore_slow zero k v m).
Proof.
  intros Hm. unfold los_spec, loadOrStore_slow. destruct (read_m m !! k) as [e|] eqn:Hr.
  - destruct (unexpunge_facts k e m Hm Hr) as (Hm1 & Hv & Hr1 & Hx & _).
    pose proof (tryLoadOrStore_facts _ k e v Hm1 (entry_read _ _ _ Hr1) Hx) as Ht. rewrite Hv in Ht.
    destruct (view m k) as [w|]; [rewrite Ht; cbn; by split_and!|].
    destruct Ht as (m' & -> & Hu & _). cbn. split; [done|]. by eapply updates_trans.
  - destruct (dirty_map m !! k) as [e|] eqn:Hd.
    + destruct (entry_dirty m k e Hm Hr Hd) as (Ha & He & Hx).
      pose proof (tryLoadOrStore_facts m k e v Hm He Hx) as Ht.
      destruct (view m k) as [w|]; [rewrite Ht; cbn; destruct (missLocked_facts m Hm Ha); by split_and!|].
      destruct Ht as (m' & -> & [Hm' Hu] & Ha'). cbn. split; [done|].
      destruct (missLocked_facts m' Hm') as [Hm2 Hv2]; [congruence|]. split; [done|]. intros k'. by rewrite Hv2.
    + replace (view m k) with (None : option V).
      2: { unfold view. rewrite Hr, Hd. by destruct (amended m). }
      split; [done|]. by apply addEntry_updates.
Qed.

Lemma LoadOrStore_facts zero k v m : map_ok m -> los_spec m k v (LoadOrStore zero k v m).
Proof.
  intros Hm. unfold LoadOrStore. destruct (read_m m !! k) as [e|] eqn:Hr; [|by apply loadOrStore_slow_facts].
  destruct (is_expunged (deref m e)) eqn:Hx.
  { unfold tryLoadOrStore. destruct (deref m e); try done. by apply loadOrStore_slow_facts. }
  pose proof (tryLoadOrStore_facts m k e v Hm (entry_read _ _ _ Hr) Hx) as Ht. unfold los_spec.
  destruct (view m k) as [w|]; [rewrite Ht; cbn; by split_and!|].
  destruct Ht as (m' & -> & Hu & _). by split.
Qed.

(** A key of the read map is deleted in place. *)
Lemma Delete_read k e m : map_ok m -> read_m m !! k = Some e ->
  updates m (Delete k m) k None /\ read_m (Delete k m) = read_m m /\ amended (Delete k m) = amended m.
Proof.
  intros Hm Hr. unfold Delete, delete_entry. rewrite Hr.
  assert (Hid : slot_load (deref m e) = None -> updates m m k None).
  { intros Hn. split; [done|]. intros k'. case_bool_decide; [subst|done]. unfold view. by rewrite Hr. }
  destruct (deref m e) as [| |w] eqn:Ed; [split_and!; [by apply Hid|done|done]..|].
  split_and!; [|done|done]. apply (assign_updates m k e SNil); try done; [by apply entry_read|by rewrite Ed].
Qed.

Lemma Delete_updates k m : map_ok m -> updates m (Delete k m) k None.
Proof.
  intros Hm. destruct (read_m m !! k) as [e|] eqn:Hr; [by apply (Delete_read k e)|]. unfold Delete. rewrite Hr.
  destruct (amended m) eqn:Ha.
  2: { split; [done|]. intros k'. case_bool_decide; [subst|done]. unfold view. by rewrite Hr, Ha. }
  destruct (proj1 (ok_amended m Hm) Ha) as [d Ed].
  assert (Hdm : dirty_map m = d) by (unfold dirty_map; by rewrite Ed). rewrite Hdm.
  set (m' := set_dirty (Some (delete k d)) m).
  assert (Hpts : forall k' e, points m' k' e -> points m k' e).
  { intros k' e [Hp|Hp]; [by left|]. right. rewrite Hdm. change (delete k d !! k' = Some e) in Hp. by apply lookup_delete_Some in Hp as [_ ?]. }
  split.
  - split.
    + cbn. rewrite Ha. split; [by eexists|done].
    + intros k' e Hk. change (read_m m !! k' = Some e) in Hk. change (deref m' e) with (deref m e). cbn [m' set_dirty dirty].
      pose proof (ok_read m Hm k' e Hk) as Hre. rewrite Ed in Hre. by rewrite lookup_delete_ne by congruence.
    + intros d' k' e [= <-] [_ Hk]%lookup_delete_Some. exact (ok_dirty m Hm d k' e Ed Hk).
    + intros k' e Hp%Hpts. exact (ok_fresh m Hm k' e Hp).
    + intros k1 k2 e H1%Hpts H2%Hpts. by eapply (ok_inj m Hm).
  - intros k'. unfold view. change (deref m') with (deref m). cbn [m' set_dirty read_m amended dirty_map dirty].
    change (dirty_map m') with (delete k d). rewrite Hdm, Ha.
    case_bool_decide; [subst; by rewrite Hr, lookup_delete_eq|by rewrite lookup_delete_ne].
Qed.

(** The map [Range] walks over: all of it is in the read map. *)
Definition settled (m : MapOf) : MapOf := if amended m then promote m else m.

Lemma settled_facts m :
  map_ok m -> map_ok (settled m) /\ amended (settled m) = false /\ forall k, view (settled m) k = view m k.
Proof.
  intros Hm. unfold settled. destruct (amended m) eqn:Ha; [|by split_and!].
  destruct (promote_facts m Hm Ha). by split_and!.
Qed.

(** The pairs a callback that leaves the map alone is called with. *)
Definition live (m : MapOf) (l : list (K * nat)) : list (K * V) :=
  omap (fun ke => pair ke.1 <$> slot_load (deref m ke.2)) l.

Lemma range_loop_pure {A} (g : K -> V -> A -> A) l a m :
  range_loop (fun k v a m => (true, g k v a, m)) l a m = (foldl (fun a kv => g kv.1 kv.2 a) a (live m l), m).
Proof.
  revert a. induction l as [|[k e] l IH]; intros a; [done|]. cbn. by destruct (slot_load (deref m e)).
Qed.

Lemma range_loop_visited (go_on : K -> V -> bool) l a m :
  range_loop (fun k v seen m => (go_on k v, seen ++ [(k, v)], m)) l a m =
  (a ++ visited (fun kv => go_on kv.1 kv.2) (live m l), m).
Proof.
  revert a. induction l as [|[k e] l IH]; intros a; cbn; [by rewrite app_nil_r|].
  destruct (slot_load (deref m e)) as [v|]; cbn; [|apply IH].
  destruct (go_on k v); [|done]. rewrite IH. by rewrite <- app_assoc.
Qed.

Lemma live_spec m : amended m = false ->
  forall k v, (k, v) ∈ live m (order (read_m m)) <-> view m k = Some v.
Proof.
  intros Ha k v. unfold live. rewrite list_elem_of_omap. unfold view. split.
  - intros ([k' e] & Hin%elem_of_order & Hl). cbn in Hl. destruct (slot_load (deref m e)) eqn:E; [|done].
    cbn in Hl. simplify_eq. by rewrite Hin.
  - destruct (read_m m !! k) as [e|] eqn:Hr; [|by rewrite Ha]. intros Hl. exists (k, e).
    split; [by apply elem_of_order|]. cbn. by rewrite Hl.
Qed.

Lemma live_keys m l : NoDup l.*1 -> NoDup (live m l).*1.
Proof.
  induction l as [|[k e] l IH]; [constructor|]. cbn. intros [Hk Hl]%NoDup_cons. specialize (IH Hl).
  destruct (slot_load (deref m e)); [|done]. cbn. constructor; [|done]. intros ([k' v'] & -> & Hin)%list_elem_of_fmap.
  apply Hk. unfold live in Hin. apply list_elem_of_omap in Hin as ([k2 e2] & Hin & Hx). cbn in Hx.
  destruct (slot_load (deref m e2)); [|done]. cbn in Hx. simplify_eq. by apply (list_elem_of_fmap_2 fst _ _ Hin).
Qed.

Lemma live_perm m (g : gmap K V) : amended m = false -> (forall k, view m k = g !! k) ->
  live m (order (read_m m)) ≡ₚ map_to_list g.
Proof.
  intros Ha Hv. apply NoDup_Permutation; [|apply NoDup_map_to_list|].
  - eapply NoDup_fmap_1, live_keys, order_keys.
  - intros [k v]. by rewrite live_spec, Hv, elem_of_map_to_list.
Qed.

Lemma foldl_values (l : list (K * V)) a : foldl (fun a kv => a ++ [kv.2]) a l = a ++ l.*2.
Proof.
  revert a. induction l as [|[k v] l IH]; intros a; cbn; [by rewrite app_nil_r|]. rewrite IH. by rewrite <- app_assoc.
Qed.

Lemma foldl_inserts (l : list (K * V)) (a : gmap K V) :
  NoDup l.*1 -> foldl (fun a kv => <[kv.1 := kv.2]> a) a l = list_to_map l ∪ a.
Proof.
  revert a. induction l as [|[k v] l IH]; intros a; cbn; [by rewrite (left_id_L ∅ (∪))|].
  intros [Hk Hl]%NoDup_cons. rewrite IH by done. rewrite <- insert_union_r by (by apply not_elem_of_list_to_map_1).
  by rewrite insert_union_l.
Qed.

Lemma clear_loop_facts l m :
  map_ok m -> amended m = false -> (forall k e, (k, e) ∈ l -> read_m m !! k = Some e) ->
  (forall k v, view m k = Some v -> k ∈ l.*1) ->
  let m' := (range_loop (fun k _ a m => (true, a, Delete k m)) l tt m).2 in
  map_ok m' /\ forall k, view m' k = None.
Proof.
  revert m. induction l as [|[k e] l IH]; intros m Hm Ha Hl Hall; cbn [range_loop].
  { split; [done|]. intros k. destruct (view m k) eqn:E; [|done]. apply Hall in E. by apply not_elem_of_nil in E. }
  assert (Hk : read_m m !! k = Some e) by (apply Hl; by left).
  assert (Hstep : forall m', updates m m' k None -> amended m' = amended m -> read_m m' = read_m m ->
    let m2 := (range_loop (fun k _ a m => (true, a, Delete k m)) l tt m').2 in map_ok m2 /\ forall k, view m2 k = None).
  { intros m' [Hm' Hu] Ha' Hr'. apply IH; [done|congruence| |].
    - intros k' e' Hin. rewrite Hr'. apply Hl. by right.
    - intros k' v. rewrite Hu. case_bool_decide as Hne; [done|]. intros [?|?]%Hall%elem_of_cons; done. }
  destruct (slot_load (deref m e)) eqn:E.
  - destruct (Delete_read k e m Hm Hk) as (Hu & Hr & Ha'). by apply Hstep.
  - apply Hstep; [|done|done]. split; [done|]. intros k'. case_bool_decide; [subst|done]. unfold view. by rewrite Hk.
Qed.

Lemma Clear_facts m : map_ok m -> map_ok (Clear m) /\ forall k, view (Clear m) k = None.
Proof.
  intros Hm. destruct (settled_facts m Hm) as (Hm1 & Ha & _). unfold Clear, Range. fold (settled m).
  apply clear_loop_facts; [done|done|by intros k e ?%elem_of_order|].
  intros k v Hv%live_spec; [|done]. unfold live in Hv. apply list_elem_of_omap in Hv as ([k2 e2] & Hin & Hx).
  cbn in Hx. destruct (slot_load _); [|done]. cbn in Hx. simplify_eq. by apply (list_elem_of_fmap_2 fst _ _ Hin).
Qed.

(** ** Refinement of a plain map *)

Definition represents (m : MapOf) (g : gmap K V) : Prop := map_ok m /\ forall k, view m k = g !! k.

Lemma emptyMap_represents : represents emptyMap ∅.
Proof.
  assert (Hp : forall k e, ~ points emptyMap k e).
  { intros k e [Hp|Hp]; cbn in Hp; by rewrite lookup_empty in Hp. }
  split; [|done]. split.
  - cbn. split; [done|by intros [? ?]].
  - done.
  - done.
  - intros k e []%Hp.
  - intros k k' e []%Hp.
Qed.

Lemma updates_represents m m' k x g :
  represents m g -> updates m m' k x -> represents m' (partial_alter (const x) k g).
Proof.
  intros [_ Hv] [Hm' Hu]. split; [done|]. intros k'. rewrite Hu. case_bool_decide as Hk.
  - subst. by rewrite lookup_partial_alter_eq.
  - by rewrite lookup_partial_alter_ne, Hv.
Qed.

Lemma map_step_represents zero op m g :
  represents m g -> exists g', plain_step op g (map_step zero op m).1 g' /\ represents (map_step zero op m).2 g'.
Proof.
  intros HR. pose proof HR as [Hm Hv]. destruct op as [k|k|k v|k v|k|go_on| | |]; cbn [map_step].
  - destruct (Load_facts k m Hm) as (H1 & H2 & H3). destruct (Load k m) as [v m']. cbn in *. exists g.
    split; [by rewrite H1, Hv|]. split; [done|]. intros k'. by rewrite H3.
  - destruct (Load_facts k m Hm) as (H1 & H2 & H3). unfold Has. destruct (Load k m) as [v m']. cbn in *. exists g.
    split; [by rewrite H1, Hv|]. split; [done|]. intros k'. by rewrite H3.
  - eexists. split; [done|]. exact (updates_represents _ _ _ _ _ HR (Store_updates k v m Hm)).
  - pose proof (LoadOrStore_facts zero k v m Hm) as Hs. unfold los_spec in Hs. rewrite Hv in Hs.
    destruct (LoadOrStore zero k v m) as [[actual loaded] m']. cbn in *. destruct (g !! k) as [w|].
    + destruct Hs as ([= -> ->] & Hm' & Hv'). exists g. split; [done|]. split; [done|]. intros k'. by rewrite Hv'.
    + destruct Hs as ([= -> ->] & Hu). eexists. split; [done|]. exact (updates_represents _ _ _ _ _ HR Hu).
  - eexists. split; [done|]. exact (updates_represents _ _ _ _ _ HR (Delete_updates k m Hm)).
  - destruct (settled_facts m Hm) as (Hm1 & Ha & Hv1). unfold Range. fold (settled m).
    rewrite range_loop_visited. exists g. split; [split; [done|]|split; [done|]].
    + exists (live (settled m) (order (read_m (settled m)))). split; [|done].
      apply live_perm; [done|]. intros k. by rewrite Hv1.
    + intros k. by rewrite Hv1.
  - destruct (settled_facts m Hm) as (Hm1 & Ha & Hv1). unfold Values, Range. fold (settled m).
    rewrite (range_loop_pure (fun _ v a => a ++ [v])). cbn. rewrite foldl_values. exists g. split; [split; [|done]|split; [done|]].
    + cbn. by rewrite (live_perm _ g Ha) by (intros k; by rewrite Hv1).
    + intros k. by rewrite Hv1.
  - destruct (settled_facts m Hm) as (Hm1 & Ha & Hv1). unfold ToMap, Range. fold (settled m).
    rewrite (range_loop_pure (fun k v a => <[k := v]> a)). cbn. exists g. split; [split; [|done]|split; [done|]].
    + rewrite foldl_inserts by (apply live_keys, order_keys). rewrite (right_id_L ∅ (∪)).
      rewrite (list_to_map_proper _ (map_to_list g)); [apply list_to_map_to_list|apply live_keys, order_keys|].
      apply live_perm; [done|]. intros k. by rewrite Hv1.
    + intros k. by rewrite Hv1.
  - exists ∅. split; [done|]. apply Clear_facts in Hm as [? Hc]. split; [done|]. intros k. by rewrite Hc.
Qed.

Lemma map_run_represents zero ops m g :
  represents m g -> exists g', plain_trace g ops (map_run zero ops m).1 g' /\ represents (map_run zero ops m).2 g'.
Proof.
  revert m g. induction ops as [|op ops IH]; intros m g HR; [exists g; split; [constructor|done]|].
  destruct (map_step_represents zero op m g HR) as (g1 & Hs & HR1). cbn [map_run].
  destruct (map_step zero op m) as [o m1]. cbn in Hs, HR1. destruct (IH m1 g1 HR1) as (g2 & Ht & HR2).
  destruct (map_run zero ops m1) as [os m2]. cbn in *. exists g2. split; [by econstructor|done].
Qed.

(** C33. The two-level map is a map: whatever sequence of [Load], [Has], [Store],
    [LoadOrStore], [Delete], [Range] (with a callback that leaves the map alone),
    [Values], [ToMap] and [Clear] calls is made on a zero [MapOf], every result is
    the one a plain Go map gives for the same calls, whichever order [range] takes,
    and however the promotions of the dirty map and the expunging of deleted
    entries fall between them. [Count] and [Empty] are not covered. *)
Theorem sync_map_refines zero ops :
  exists g, plain_trace ∅ ops (map_run zero ops emptyMap).1 g /\ represents (map_run zero ops emptyMap).2 g.
Proof. apply map_run_represents, emptyMap_represents. Qed.
End syncmap.
Arguments MapOf K {_ _} V.

(** A run through promotion, deletion, expunging and revival of a key. *)
Definition sample_ops : list (map_op Z Z) :=
  [MStore 1 10; MStore 2 20; MToMap; MDelete 1; MStore 3 30; MLoad 1; MStore 1 11; MLoadOrStore 2 0; MLoad 4; MLoad 3; MRange (fun k _ => k =? 4); MToMap].

Lemma sync_map_refines_witness :
  (forall g : gmap Z nat, map_to_list g ≡ₚ map_to_list g) /\
  exists g, plain_trace ∅ sample_ops (map_run map_to_list 0 sample_ops emptyMap).1 g /\
    represents (map_run map_to_list 0 sample_ops emptyMap).2 g.
Proof. split; [done|]. apply (sync_map_refines map_to_list). done. Defined.

Example sample_outputs :
  (map_run map_to_list 0 sample_ops emptyMap).1 =
  [ODone; ODone; OMap (<[1 := 10]> {[2 := 20]}); ODone; ODone; OLoad None; ODone; OLoadOrStore 20 true; OLoad None;
   OLoad (Some 30); OPairs [(3, 30)]; OMap (<[1 := 11]> (<[2 := 20]> {[3 := 30]}))].
Proof. vm_compute. reflexivity. Qed.

(** [Count] is not the number of keys: it is the length of the dirty map, so
    after two stores and one [ToMap] (which promotes the dirty map) the map still
    returns both values, while [Count] answers 0 and [Empty] true. *)
Theorem Count_misses_promoted_keys :
  exists ops : list (map_op Z Z),
    let m := (map_run map_to_list 0 ops emptyMap).2 in
    (ToMap map_to_list m).1 = <[1 := 10]> {[2 := 20]} /\ Count m = 0 /\ Empty m = true.
Proof. exists [MStore 1 10; MStore 2 20; MToMap]. vm_compute. done. Qed.
