(* ===== verification/DownloadServer.v ===== *)
(** * pkg/publicfiles/server.go: progress-bounded downloads

    The writer that serves file responses under a progress-aware deadline. Times
    are nanoseconds (0 is the zero [time.Time]); the clock, the connection's
    deadline control and the underlying response writer are an interface,
    [ResponseWorld], whose answers are arbitrary. The writer keeps a log of what
    reaches the connection, in order. *)

From Stdlib Require Import Strings.Byte ZArith Lia String.
From stdpp Require Import base list strings sets gmap.
From S2P Require Import Prelude GoStd GoEncoding GoWeb PublicPaths WorkerProtocol Verifier Portal.

Definition second : Z := 1000000000.
Definition DefaultReadHeaderTimeout : Z := 5 * second.
Definition DefaultReadTimeout : Z := 15 * second.
Definition DefaultDownloadWriteIdleTimeout : Z := 30 * second.
Definition DefaultDownloadMinimumRateGrace : Z := 30 * second.
Definition DefaultDownloadMinimumBytesPerSec : Z := Z.shiftl 64 10.
Definition DefaultConnectionIdleTimeout : Z := 30 * second.
Definition DefaultMaxHeaderBytes : Z := Z.shiftl 32 10.
Definition maxDownloadDeadlineCreditBytes : Z := Z.shiftl 64 10.
Definition MaxInt64 : Z := 2 ^ 63 - 1.

Record httpServerConfig := {
  readHeaderTimeout : Z;
  readTimeout : Z;
  baseWriteTimeout : Z;
  connectionIdleTimeout : Z;
  maxHeaderBytes : Z;
  downloadWriteIdleTimeout : Z;
  downloadMinimumRateGrace : Z;
  downloadMinimumRate : Z
}.

Definition defaultHTTPServerConfig : httpServerConfig := {|
  readHeaderTimeout := DefaultReadHeaderTimeout;
  readTimeout := DefaultReadTimeout;
  baseWriteTimeout := DefaultDownloadWriteIdleTimeout;
  connectionIdleTimeout := DefaultConnectionIdleTimeout;
  maxHeaderBytes := DefaultMaxHeaderBytes;
  downloadWriteIdleTimeout := DefaultDownloadWriteIdleTimeout;
  downloadMinimumRateGrace := DefaultDownloadMinimumRateGrace;
  downloadMinimumRate := DefaultDownloadMinimumBytesPerSec |}.

(** The limits of the server a configuration yields; [None] is the panic. *)
Record server_limits := { ReadHeaderTimeout : Z; ReadTimeout : Z; WriteTimeout : Z; IdleTimeout : Z; MaxHeaderBytes : Z }.

Definition newHTTPServer (config : httpServerConfig) : option server_limits :=
  if (readHeaderTimeout config <=? 0) || (readTimeout config <=? 0) || (baseWriteTimeout config <=? 0)
     || (connectionIdleTimeout config <=? 0) || (maxHeaderBytes config <=? 0)
     || (downloadWriteIdleTimeout config <=? 0) || (downloadMinimumRateGrace config <=? 0)
     || (downloadMinimumRate config <=? 0)
  then None
  else Some {| ReadHeaderTimeout := readHeaderTimeout config; ReadTimeout := readTimeout config;
               WriteTimeout := baseWriteTimeout config; IdleTimeout := connectionIdleTimeout config;
               MaxHeaderBytes := maxHeaderBytes config |}.

(** [rateAllowance]: [bits.Mul64] and [bits.Div64] on unsigned words. *)
Definition rateAllowance (byteCount bytesPerSecond : Z) : Z :=
  if (byteCount <=? 0) || (bytesPerSecond <=? 0) then 0
  else
    let product := u64 byteCount * u64 second in
    let high := product / 2 ^ 64 in
    let divisor := u64 bytesPerSecond in
    if divisor <=? high then MaxInt64
    else
      let quotient := product / divisor in
      let remainder := product mod divisor in
      if negb (remainder =? 0) then
        if quotient =? MaxInt64 then MaxInt64
        else
          let quotient := u64 (quotient + 1) in
          if MaxInt64 <? quotient then MaxInt64 else quotient
      else if MaxInt64 <? quotient then MaxInt64 else quotient.

(** ** The writer *)

Inductive write_error :=
| errDownloadDeadlineUnavailable (cause : bytes)
| errDownloadWriteIdleExceeded
| writeFailed (cause : bytes).

(** What the writer asks of the clock and of the wrapped response writer. *)
Class ResponseWorld (W : Type) := {
  rw_now : W -> Z * W;
  rw_setWriteDeadline : W -> Z -> option bytes * W;
  rw_write : W -> bytes -> Z * option bytes * W
}.

(** The log of a response: a deadline handed to the connection (when, which, whether
    it was set), an idle check that failed (when), a header, a payload (how much of
    it was written, the last progress after it). *)
Inductive wire_event :=
| WDeadline (at_ deadline : Z) (set : bool)
| WIdle (at_ : Z)
| WHeader (status : Z) (h : header)
| WPayload (payload : bytes) (written : Z) (progress : Z) (ok : bool).

Record progressBoundedWriter := {
  started : Z;
  idleTimeout : Z;
  minimumGrace : Z;
  minimumRate : Z;
  bodyBytes : Z;
  lastProgress : Z;
  wroteHeader : bool;
  writeErr : option write_error;
  headers : header;
  wire : list wire_event
}.

Definition set_progress (bytes_ last : Z) (w : progressBoundedWriter) : progressBoundedWriter :=
  {| started := started w; idleTimeout := idleTimeout w; minimumGrace := minimumGrace w; minimumRate := minimumRate w;
     bodyBytes := bytes_; lastProgress := last; wroteHeader := wroteHeader w; writeErr := writeErr w;
     headers := headers w; wire := wire w |}.
Definition set_error (e : option write_error) (w : progressBoundedWriter) : progressBoundedWriter :=
  {| started := started w; idleTimeout := idleTimeout w; minimumGrace := minimumGrace w; minimumRate := minimumRate w;
     bodyBytes := bodyBytes w; lastProgress := lastProgress w; wroteHeader := wroteHeader w; writeErr := e;
     headers := headers w; wire := wire w |}.
Definition set_headers (wrote : bool) (h : header) (w : progressBoundedWriter) : progressBoundedWriter :=
  {| started := started w; idleTimeout := idleTimeout w; minimumGrace := minimumGrace w; minimumRate := minimumRate w;
     bodyBytes := bodyBytes w; lastProgress := lastProgress w; wroteHeader := wrote; writeErr := writeErr w;
     headers := h; wire := wire w |}.
Definition emit (e : wire_event) (w : progressBoundedWriter) : progressBoundedWriter :=
  {| started := started w; idleTimeout := idleTimeout w; minimumGrace := minimumGrace w; minimumRate := minimumRate w;
     bodyBytes := bodyBytes w; lastProgress := lastProgress w; wroteHeader := wroteHeader w; writeErr := writeErr w;
     headers := headers w; wire := wire w ++ [e] |}.

Definition is_download (path method : bytes) : bool :=
  bool_decide (path = BasePath ++ bs "/api/file") && (bool_decide (method = MethodGet) || bool_decide (method = MethodHead)).

Definition saturated_add (a b : Z) : Z := if MaxInt64 - a <? b then MaxInt64 else a + b.

Definition representationHeaders : list bytes :=
  [bs "Accept-Ranges"; bs "Content-Disposition"; bs "Content-Encoding"; bs "Content-Location"; bs "Content-Length";
   bs "Content-Range"; bs "Content-Type"; bs "Etag"; bs "Last-Modified"; bs "Trailer"; bs "Transfer-Encoding"].

Definition clearDownloadRepresentationHeaders (h : header) : header :=
  foldl (fun h name => delete name h) h representationHeaders.

Section writer.
Context {W : Type} `{ResponseWorld W}.

(** [progressBoundedDownloadHandler]: downloads get a bounded writer, other
    requests ([None]) the plain one. *)
Definition progressBoundedDownloadHandler (config : httpServerConfig) (path method : bytes) (h : header) (w : W)
  : option progressBoundedWriter * W :=
  if negb (is_download path method) then (None, w)
  else
    let '(now, w) := rw_now w in
    (Some {| started := now; idleTimeout := downloadWriteIdleTimeout config;
             minimumGrace := downloadMinimumRateGrace config; minimumRate := downloadMinimumRate config;
             bodyBytes := 0; lastProgress := now; wroteHeader := false; writeErr := None; headers := h; wire := [] |}, w).

Definition setDeadline (nextBytes : Z) (b : progressBoundedWriter) (w : W)
  : option write_error * progressBoundedWriter * W :=
  let '(now, w) := rw_now w in
  let b := if is_zero_time (lastProgress b) then set_progress (bodyBytes b) (started b) b else b in
  if negb (now <? lastProgress b + idleTimeout b) then (Some errDownloadWriteIdleExceeded, emit (WIdle now) b, w)
  else
    let deadline := now + idleTimeout b in
    let accounted :=
      if 0 <? nextBytes then
        saturated_add (bodyBytes b)
          (if maxDownloadDeadlineCreditBytes <? nextBytes then maxDownloadDeadlineCreditBytes else nextBytes)
      else bodyBytes b in
    let rateDeadline := started b + minimumGrace b + rateAllowance accounted (minimumRate b) in
    let deadline := if rateDeadline <? deadline then rateDeadline else deadline in
    let '(err, w) := rw_setWriteDeadline w deadline in
    match err with
    | Some e => (Some (errDownloadDeadlineUnavailable e), emit (WDeadline now deadline false) b, w)
    | None => (None, emit (WDeadline now deadline true) b, w)
    end.

Definition WriteHeader (status : Z) (b : progressBoundedWriter) (w : W) : progressBoundedWriter * W :=
  if wroteHeader b then (b, w)
  else
    let b := set_headers true (headers b) b in
    let '(err, b, w) := setDeadline 0 b w in
    match err with
    | Some e =>
        let b := set_error (Some e) b in
        let h := clearDownloadRepresentationHeaders (headers b) in
        let h := header_set (bs "Content-Length") (bs "0") h in
        let h := header_set (bs "Connection") (bs "close") h in
        (emit (WHeader 500 h) (set_headers true h b), w)
    | None => (emit (WHeader status (headers b)) b, w)
    end.

Definition Write (payload : bytes) (b : progressBoundedWriter) (w : W)
  : (Z * option write_error) * progressBoundedWriter * W :=
  let '(b, w) := if wroteHeader b then (b, w) else WriteHeader 200 b w in
  match writeErr b with
  | Some e => ((0, Some e), b, w)
  | None =>
      let '(err, b, w) := setDeadline (Zlen payload) b w in
      match err with
      | Some e => ((0, Some e), set_error (Some e) b, w)
      | None =>
          let '(written, err, w) := rw_write w payload in
          let '(b, w) :=
            if 0 <? written then
              let '(now, w) := rw_now w in (set_progress (saturated_add (bodyBytes b) written) now b, w)
            else (b, w) in
          let b := emit (WPayload payload written (lastProgress b) (bool_decide (err = None))) b in
          match err with
          | Some e => ((written, Some (writeFailed e)), set_error (Some (writeFailed e)) b, w)
          | None => ((written, None), b, w)
          end
      end
  end.

(** What a handler does with its response writer. *)
Inductive writer_call := CallHeader (status : Z) | CallWrite (payload : bytes) | CallSetHeader (h : header).

Definition writer_step (c : writer_call) (b : progressBoundedWriter) (w : W) : progressBoundedWriter * W :=
  match c with
  | CallHeader status => WriteHeader status b w
  | CallWrite payload => let '(_, b, w) := Write payload b w in (b, w)
  | CallSetHeader h => (set_headers (wroteHeader b) h b, w)
  end.

Fixpoint writer_run (calls : list writer_call) (b : progressBoundedWriter) (w : W) : progressBoundedWriter * W :=
  match calls with
  | [] => (b, w)
  | c :: calls => let '(b, w) := writer_step c b w in writer_run calls b w
  end.
End writer.

(** ** The rate budget *)

(** Nanoseconds for [b] bytes at [r] bytes per second, rounded up. *)
Definition rate_ns (b r : Z) : Z := (b * second + r - 1) / r.

Lemma rate_ns_div b r : 0 < r ->
  rate_ns b r = (b * second) / r + (if (b * second) mod r =? 0 then 0 else 1).
Proof.
  intros Hr. unfold rate_ns. set (p := b * second).
  pose proof (Z.div_mod p r ltac:(lia)) as Hp. pose proof (Z.mod_pos_bound p r Hr).
  destruct (Z.eqb_spec (p mod r) 0); symmetry; eapply Z.div_unique_pos.
  - instantiate (1 := r - 1). lia.
  - lia.
  - instantiate (1 := p mod r - 1). lia.
  - lia.
Qed.

(** The quotient is incremented in an unsigned word: the one value at which that wraps is excluded. *)
Lemma rateAllowance_no_wrap b r :
  in_s 64 b -> 0 < r < 2 ^ 63 -> (b * second) / r <> 2 ^ 64 - 1 \/ (b * second) mod r = 0 ->
  rateAllowance b r = if b <=? 0 then 0 else Z.min MaxInt64 (rate_ns b r).
Proof.
  intros Hb Hr Hq. unfold rateAllowance. unfold in_s in Hb. change (64 - 1) with 63 in Hb.
  destruct (Z.leb_spec b 0) as [|Hpos]; [done|]. destruct (Z.leb_spec r 0); [lia|]. cbn [orb].
  rewrite (wrap_u_id 64 b), (wrap_u_id 64 r), (wrap_u_id 64 second) by (unfold in_u, second; lia).
  rewrite rate_ns_div by lia. set (p := b * second) in *. unfold MaxInt64.
  assert (Hp : 0 < p) by (unfold p, second; lia).
  pose proof (Z.div_mod p r ltac:(lia)). pose proof (Z.mod_pos_bound p r ltac:(lia)).
  destruct (Z.leb_spec r (p / 2 ^ 64)) as [Hhigh|Hhigh].
  - assert (2 ^ 64 <= p / r).
    { apply Z.div_le_lower_bound; [lia|]. pose proof (Z.mul_div_le p (2 ^ 64) ltac:(lia)). nia. }
    destruct (p mod r =? 0); lia.
  - assert (p / r < 2 ^ 64).
    { apply Z.div_lt_upper_bound; [lia|]. pose proof (Z.mod_pos_bound p (2 ^ 64) ltac:(lia)).
      pose proof (Z.div_mod p (2 ^ 64) ltac:(lia)). nia. }
    assert (0 <= p / r) by (apply Z.div_pos; lia).
    destruct (Z.eqb_spec (p mod r) 0) as [E|E]; cbn [negb].
    + destruct (Z.ltb_spec (2 ^ 63 - 1) (p / r)); lia.
    + destruct (Z.eqb_spec (p / r) (2 ^ 63 - 1)); [lia|].
      rewrite (wrap_u_id 64) by (unfold in_u; lia).
      destruct (Z.ltb_spec (2 ^ 63 - 1) (p / r + 1)); lia.
Qed.

(** C35. At the server's default rate of 64 KiB per second, [rateAllowance] is the
    exact time the bytes take at that rate, rounded up to the next nanosecond and
    capped at the largest [time.Duration], for every byte count: the 128-bit
    product and the rounding increment never wrap. *)
Theorem rateAllowance_default_exact b :
  in_s 64 b ->
  rateAllowance b DefaultDownloadMinimumBytesPerSec =
  if b <=? 0 then 0 else Z.min MaxInt64 (rate_ns b DefaultDownloadMinimumBytesPerSec).
Proof.
  intros Hb. apply rateAllowance_no_wrap; [done|by vm_compute|].
  change DefaultDownloadMinimumBytesPerSec with 65536. unfold second.
  destruct (Z.eq_dec ((b * 1000000000) mod 65536) 0) as [|Hne]; [by right|left].
  pose proof (Z.div_mod (b * 1000000000) 65536 ltac:(lia)).
  pose proof (Z.mod_pos_bound (b * 1000000000) 65536 ltac:(lia)). lia.
Qed.

Lemma rateAllowance_default_exact_witness :
  in_s 64 (10 ^ 6) /\ rateAllowance (10 ^ 6) DefaultDownloadMinimumBytesPerSec = 15258789063.
Proof.
  assert (Hb : in_s 64 (10 ^ 6)) by (unfold in_s; lia). split; [done|].
  rewrite (rateAllowance_default_exact _ Hb). vm_compute. reflexivity.
Defined.

(** With other rates the increment can wrap: about 866 TB at 46924 bytes per
    second are allowed no time at all, although the true time exceeds every
    representable duration. *)
Theorem rateAllowance_wraps :
  rateAllowance 865595018914747 46924 = 0 /\ MaxInt64 < rate_ns 865595018914747 46924.
Proof. vm_compute. done. Qed.

(** ** What reaches the connection *)

(** Bytes the wrapped writer reported, as far as they count. *)
Definition event_bytes (e : wire_event) : Z := match e with WPayload _ n _ _ => Z.max 0 n | _ => 0 end.
Definition sent_bytes (l : list wire_event) : Z := foldr (fun e n => event_bytes e + n) 0 l.

Definition event_ok (e : wire_event) : bool :=
  match e with WDeadline _ _ set => set | WIdle _ => false | WHeader _ _ => true | WPayload _ _ _ ok => ok end.

(** The last time progress was seen; the zero time stands for the start. *)
Definition or_start (start t : Z) : Z := if t =? 0 then start else t.
Definition progress_at (start : Z) (l : list wire_event) : Z :=
  foldl (fun t e => match e with WPayload _ _ p _ => p | _ => t end) start l.

(** A payload is preceded at once by a deadline that was set, and that is bounded
    by the idle timeout and by the rate budget for what was sent before. *)
Definition payload_guarded (config : httpServerConfig) (start : Z) (pre : list wire_event) (payload : bytes) : Prop :=
  exists pre' now d,
    pre = pre' ++ [WDeadline now d true] /\ forallb event_ok pre = true /\
    now < or_start start (progress_at start pre) + downloadWriteIdleTimeout config /\
    d <= now + downloadWriteIdleTimeout config /\
    d <= start + downloadMinimumRateGrace config +
         rateAllowance (Z.min MaxInt64 (sent_bytes pre + Z.min (Zlen payload) maxDownloadDeadlineCreditBytes))
           (downloadMinimumRate config).

Definition wire_guarded (config : httpServerConfig) (start : Z) : list wire_event -> Prop :=
  each_after (fun pre e => match e with WPayload payload _ _ _ => payload_guarded config start pre payload | _ => True end).

Lemma sent_bytes_app l1 l2 : sent_bytes (l1 ++ l2) = sent_bytes l1 + sent_bytes l2.
Proof.
  induction l1 as [|e l1 IH]; [done|]. unfold sent_bytes in *. cbn [app foldr]. rewrite IH. lia.
Qed.

Lemma sent_bytes_nonneg l : 0 <= sent_bytes l.
Proof. induction l as [|e l IH]; cbn; [lia|]. fold (sent_bytes l). destruct e; cbn; lia. Qed.

Lemma saturated_add_min s k : 0 <= s -> 0 <= k -> saturated_add (Z.min MaxInt64 s) k = Z.min MaxInt64 (s + k).
Proof. intros. unfold saturated_add. destruct (Z.ltb_spec (MaxInt64 - Z.min MaxInt64 s) k); lia. Qed.

(** What the writer's fields say about its log. *)
Record writer_ok (config : httpServerConfig) (start : Z) (b : progressBoundedWriter) : Prop := {
  wo_started : started b = start;
  wo_idle : idleTimeout b = downloadWriteIdleTimeout config;
  wo_grace : minimumGrace b = downloadMinimumRateGrace config;
  wo_rate : minimumRate b = downloadMinimumRate config;
  wo_bytes : bodyBytes b = Z.min MaxInt64 (sent_bytes (wire b));
  wo_progress : or_start start (lastProgress b) = or_start start (progress_at start (wire b));
  wo_clean : writeErr b = None -> forallb event_ok (wire b) = true;
  wo_guarded : wire_guarded config start (wire b)
}.

(** Changes that do not touch the log, and events that carry no payload. *)
Lemma writer_ok_set_error config start b e : writer_ok config start b -> writer_ok config start (set_error (Some e) b).
Proof. intros []. by split. Qed.

Lemma writer_ok_set_headers config start b x h : writer_ok config start b -> writer_ok config start (set_headers x h b).
Proof. intros []. by split. Qed.

Lemma writer_ok_emit config start b e :
  writer_ok config start b -> (forall pl n p ok, e <> WPayload pl n p ok) ->
  (writeErr b = None -> event_ok e = true) -> writer_ok config start (emit e b).
Proof.
  intros [? ? ? ? Hb Hp Hc Hg] He Hok. split; try done; cbn [emit bodyBytes lastProgress wire writeErr].
  - rewrite sent_bytes_app, Hb. f_equal. destruct e; cbn; try lia. by edestruct He.
  - unfold progress_at. rewrite foldl_app. destruct e; cbn; try done. by edestruct He.
  - intros Hn. rewrite forallb_app, Hc by done. cbn. by rewrite Hok.
  - apply each_after_snoc; [done|]. destruct e; try done. by edestruct He.
Qed.

Lemma set_error_none b : writeErr b = None -> set_error None b = b.
Proof. destruct b; cbn. by intros ->. Qed.

Lemma set_progress_same b : set_progress (bodyBytes b) (lastProgress b) b = b.
Proof. by destruct b. Qed.

Section guarded.
Context {W : Type} `{ResponseWorld W} (config : httpServerConfig) (start : Z).

(** A deadline that was set is in the log, within both budgets. *)
Definition deadline_set (n : Z) (b b' : progressBoundedWriter) : Prop :=
  exists now d, wire b' = wire b ++ [WDeadline now d true] /\
    now < or_start start (progress_at start (wire b')) + downloadWriteIdleTimeout config /\
    d <= now + downloadWriteIdleTimeout config /\
    d <= start + downloadMinimumRateGrace config +
         rateAllowance (Z.min MaxInt64 (sent_bytes (wire b') + Z.min n maxDownloadDeadlineCreditBytes)) (downloadMinimumRate config).

Lemma setDeadline_facts n b w :
  writer_ok config start b -> 0 <= n ->
  let '(err, b', w') := setDeadline n b w in
  match err with
  | Some e => writer_ok config start (set_error (Some e) b')
  | None => writer_ok config start b' /\ writeErr b' = writeErr b /\ deadline_set n b b'
  end.
Proof.
  intros Hok Hn. unfold setDeadline. destruct (rw_now w) as [now w1].
  set (b1 := if is_zero_time (lastProgress b) then _ else _).
  assert (Hb1 : writer_ok config start b1 /\ writeErr b1 = writeErr b /\ wire b1 = wire b /\
                lastProgress b1 = or_start start (lastProgress b1)).
  { unfold b1, is_zero_time. destruct Hok as [Hs ? ? ? ? Hp ? ?]. destruct (Z.eqb_spec (lastProgress b) 0) as [E|E].
    - split_and!; [|done|done|cbn; rewrite Hs; unfold or_start; by destruct (_ =? _)].
      split; try done. cbn [set_progress lastProgress wire]. rewrite <- Hp, E, Hs. unfold or_start. by destruct (start =? 0).
    - split_and!; [done..|]. unfold or_start. by destruct (Z.eqb_spec (lastProgress b) 0). }
  clearbody b1. destruct Hb1 as (Hok1 & He & Hw & Hlast). pose proof Hok1 as [Hs Hi Hgr Hra Hby Hpr _ _].
  rewrite Hi. destruct (Z.ltb_spec now (lastProgress b1 + downloadWriteIdleTimeout config)) as [Hidle|]; cbn [negb].
  2: { change (writer_ok config start (emit (WIdle now) (set_error (Some errDownloadWriteIdleExceeded) b1))).
       apply writer_ok_emit; [|done|done]. by apply writer_ok_set_error. }
  assert (Hacc : (if 0 <? n then saturated_add (bodyBytes b1)
      (if maxDownloadDeadlineCreditBytes <? n then maxDownloadDeadlineCreditBytes else n) else bodyBytes b1) =
    Z.min MaxInt64 (sent_bytes (wire b1) + Z.min n maxDownloadDeadlineCreditBytes)).
  { pose proof (sent_bytes_nonneg (wire b1)). change maxDownloadDeadlineCreditBytes with 65536.
    rewrite Hby. destruct (Z.ltb_spec 0 n); [|f_equal; lia].
    rewrite saturated_add_min; destruct (Z.ltb_spec 65536 n); f_equal; lia. }
  rewrite Hacc, Hs, Hgr, Hra. set (limit := start + downloadMinimumRateGrace config + _).
  set (d := if limit <? _ then _ else _).
  assert (d <= now + downloadWriteIdleTimeout config /\ d <= limit) as [Hd1 Hd2].
  { unfold d. destruct (Z.ltb_spec limit (now + downloadWriteIdleTimeout config)); lia. }
  clearbody d. destruct (rw_setWriteDeadline w1 d) as [[e|] w2].
  - set (x := errDownloadDeadlineUnavailable e). change (writer_ok config start (emit (WDeadline now d false) (set_error (Some x) b1))).
    apply writer_ok_emit; [|done|done]. by apply writer_ok_set_error.
  - split_and!; [by apply writer_ok_emit|done|]. exists now, d. cbn [emit wire]. rewrite Hw.
    unfold progress_at. rewrite foldl_app, sent_bytes_app. cbn [foldl]. fold (progress_at start (wire b)).
    rewrite <- Hw, <- Hpr, <- Hlast. change (sent_bytes [WDeadline now d true]) with 0. rewrite Z.add_0_r. done.
Qed.

Lemma WriteHeader_ok status b w : writer_ok config start b -> writer_ok config start (WriteHeader status b w).1.
Proof.
  intros Hok. unfold WriteHeader. destruct (wroteHeader b); [done|].
  pose proof (setDeadline_facts 0 (set_headers true (headers b) b) w (writer_ok_set_headers _ _ _ _ _ Hok) ltac:(lia)) as Hd.
  destruct (setDeadline 0 _ w) as [[[e|] b'] w']; cbn [fst].
  - apply writer_ok_emit; [|done|done]. by apply writer_ok_set_headers.
  - destruct Hd as (Hok' & _). by apply writer_ok_emit.
Qed.

Lemma write_payload_ok payload written progress err b b' :
  writer_ok config start b' -> writeErr b' = None -> deadline_set (Zlen payload) b b' ->
  writer_ok config start (set_error err
    (emit (WPayload payload written progress (bool_decide (err = None)))
       (set_progress (if 0 <? written then saturated_add (bodyBytes b') written else bodyBytes b') progress b'))).
Proof.
  intros Hok He (now & d & Hw & Hidle & Hd1 & Hd2). pose proof Hok as [? ? ? ? Hb _ Hc Hg].
  split; try done; cbn [set_error emit set_progress bodyBytes lastProgress wire writeErr].
  - rewrite sent_bytes_app, Hb. cbn [sent_bytes foldr event_bytes]. pose proof (sent_bytes_nonneg (wire b')).
    destruct (Z.ltb_spec 0 written); [rewrite saturated_add_min by lia; f_equal; lia|f_equal; lia].
  - unfold progress_at. by rewrite foldl_app.
  - intros ->. rewrite forallb_app, Hc by done. done.
  - apply each_after_snoc; [done|]. exists (wire b), now, d. by rewrite Hc.
Qed.

Lemma Write_ok payload b w : writer_ok config start b -> writer_ok config start (Write payload b w).1.2.
Proof.
  intros Hok. unfold Write. set (bw := if wroteHeader b then _ else _).
  assert (Hbw : writer_ok config start bw.1) by (unfold bw; destruct (wroteHeader b); [done|by apply WriteHeader_ok]).
  destruct bw as [b1 w1]. cbn [fst] in Hbw. destruct (writeErr b1) eqn:Ee; [done|].
  pose proof (setDeadline_facts (Zlen payload) b1 w1 Hbw ltac:(unfold Zlen; lia)) as Hd.
  destruct (setDeadline (Zlen payload) b1 w1) as [[[e|] b2] w2]; [done|]. destruct Hd as (Hok2 & He2 & Hset).
  rewrite Ee in He2. destruct (rw_write w2 payload) as [[written err] w3].
  assert (forall progress err', bool_decide (err = None) = bool_decide (err' = None) -> writer_ok config start (set_error err'
    (emit (WPayload payload written progress (bool_decide (err = None)))
       (set_progress (if 0 <? written then saturated_add (bodyBytes b2) written else bodyBytes b2) progress b2)))) as Hfin.
  { intros progress err' ->. by eapply write_payload_ok. }
  destruct (0 <? written).
  - destruct (rw_now w3) as [now w4]. destruct err as [e|]; cbn [fst snd]; [by apply (Hfin now (Some (writeFailed e)))|].
    specialize (Hfin now None eq_refl). by rewrite set_error_none in Hfin.
  - specialize (Hfin (lastProgress b2)). rewrite set_progress_same in Hfin. destruct err as [e|]; cbn [fst snd]; [by apply (Hfin (Some (writeFailed e)))|].
    specialize (Hfin None eq_refl). by rewrite set_error_none in Hfin.
Qed.

Lemma writer_run_ok calls b w : writer_ok config start b -> writer_ok config start (writer_run calls b w).1.
Proof.
  revert b w. induction calls as [|c calls IH]; intros b w Hok; [done|]. cbn [writer_run].
  assert (Hs : writer_ok config start (writer_step c b w).1).
  { destruct c; cbn [writer_step]; [by apply WriteHeader_ok| |by apply writer_ok_set_headers].
    pose proof (Write_ok payload b w Hok). by destruct (Write payload b w) as [[? ?] ?]. }
  destruct (writer_step c b w). by apply IH.
Qed.
End guarded.

(** C34. Downloads make progress or end: whatever the handler writes through the
    bounded writer, and whatever the clock and the connection answer, every
    payload that is handed to the connection comes right after a write deadline
    that was set for it; no earlier deadline, idle check or write had failed; less than the
    idle timeout has passed since the last progress; and the deadline is at most
    the idle timeout away and never beyond the start plus the grace period plus
    the time the bytes sent so far (and at most 64 KiB of credit) take at the
    minimum rate. *)
Theorem download_writes_guarded {W} `{ResponseWorld W} config path method h calls (w w' : W) b :
  progressBoundedDownloadHandler config path method h w = (Some b, w') ->
  wire_guarded config (started b) (wire (writer_run calls b w').1).
Proof.
  unfold progressBoundedDownloadHandler. destruct (is_download path method); [|done]. cbn [negb].
  destruct (rw_now w) as [now w1]. intros [= <- <-]. apply (writer_run_ok config now). split; try done.
  apply each_after_nil.
Qed.

(** A clock that advances one second per reading, and a connection that takes
    everything until the deadline cannot be set any more. *)
#[local] Instance sample_world : ResponseWorld Z := {|
  rw_now t := (t + second, t + second);
  rw_setWriteDeadline t d := (if t <? 9 * second then None else Some (bs "closed"), t);
  rw_write t payload := (Zlen payload, None, t) |}.

Definition sample_writer : progressBoundedWriter :=
  {| started := second; idleTimeout := DefaultDownloadWriteIdleTimeout; minimumGrace := DefaultDownloadMinimumRateGrace;
     minimumRate := DefaultDownloadMinimumBytesPerSec; bodyBytes := 0; lastProgress := second; wroteHeader := false;
     writeErr := None; headers := ∅; wire := [] |}.

Definition sample_calls : list writer_call :=
  [CallWrite (replicate 10 x00); CallWrite (replicate 5 x01); CallWrite (replicate 7 x02); CallWrite []; CallWrite [x03]].

Example sample_wire :
  wire (writer_run sample_calls sample_writer second).1 =
  [WDeadline (2 * second) (2 * second + 29 * second) true; WHeader 200 ∅;
   WDeadline (3 * second) (31 * second + 152588) true; WPayload (replicate 10 x00) 10 (4 * second) true;
   WDeadline (5 * second) (31 * second + 228882) true; WPayload (replicate 5 x01) 5 (6 * second) true;
   WDeadline (7 * second) (31 * second + 335694) true; WPayload (replicate 7 x02) 7 (8 * second) true;
   WDeadline (9 * second) (31 * second + 335694) false].
Proof. vm_compute. reflexivity. Qed.

Lemma download_writes_guarded_witness :
  progressBoundedDownloadHandler defaultHTTPServerConfig (bs "/public-files/api/file") MethodGet ∅ 0 =
    (Some sample_writer, second) /\
  wire_guarded defaultHTTPServerConfig second (wire (writer_run sample_calls sample_writer second).1).
Proof.
  assert (Hb : progressBoundedDownloadHandler defaultHTTPServerConfig (bs "/public-files/api/file") MethodGet ∅ 0 =
    (Some sample_writer, second)) by (vm_compute; reflexivity).
  split; [exact Hb|]. exact (download_writes_guarded _ _ _ _ sample_calls _ _ _ Hb).
Defined.
