(* ===== verification/SambaMount.v ===== *)
(** * service/connections_validation.go and connections_linux.go: SMB mounts

    What a client may put into a Samba connection, how persisted connections are
    read back, which mount call the service makes, and when an entry of the mount
    table counts as the service's own. The mount system call and the reading of
    the mount table are the environment's: [MountSmaba] yields the call it makes,
    [ValidateSambaMount] takes the table it read. *)

From Stdlib Require Import Strings.Byte ZArith Lia String.
From stdpp Require Import base list strings sets gmap.
From S2P Require Import Prelude GoStd GoPath FileSecurity.

(** The errors of both files; which offending field the loop over the field map
    names depends on the map's order, so the name is not part of the value. *)
Inductive samba_error :=
| SambaLength
| SambaComponent (e : fs_error)
| SambaHost
| SambaField
| SambaPort
| SambaDirectory
| SambaHidden
| SambaDirectoryCount
| SambaDuplicate
| SambaNoDirectories
| SambaIncompleteIdentity
| SambaMultipleMounts
| SambaUnexpectedMount
| SambaMountID
| SambaMountIDMismatch
| SambaDescriptor
| SambaMountTable.

Definition component_check (value : bytes) : result samba_error unit :=
  match ValidatePathComponent value with Err e => Err (SambaComponent e) | Ok _ => Ok tt end.

(** [strings.ContainsAny] for a set of ASCII characters. *)
Definition contains_any (chars s : bytes) : bool := existsb (fun b => bool_decide (b ∈ chars)) s.

Definition has_control (s : bytes) : bool := existsb (fun rn => is_control rn.1) (runes s).

Definition host_rune (character : Z) : bool :=
  negb (127 <? character) &&
  (((97 <=? character) && (character <=? 122)) || ((65 <=? character) && (character <=? 90))
   || ((48 <=? character) && (character <=? 57)) || bool_decide (character ∈ [46; 45; 95])).

Definition validateSambaHost (host : bytes) : result samba_error unit :=
  fail_if has_prefix dot host || has_suffix dot host || contains_sub dotdot host with SambaHost in
  fail_if negb (forallb (fun rn => host_rune rn.1) (runes host)) with SambaHost in
  Ok tt.

Definition validateSambaPort (port : bytes) : result samba_error unit :=
  fail_if negb (bool_decide (port = bs "445")) with SambaPort in Ok tt.

Definition bad_field (value : bytes) : bool :=
  negb (valid_string value) || contains_any (bs "," ++ [x00; x0d; x0a]) value || has_control value.

Definition ValidateSambaConnectionFields (username password host port : bytes) : result samba_error unit :=
  fail_if bool_decide (username = []) || (255 <? Zlen username) || (1024 <? Zlen password) || (255 <? Zlen host)
    with SambaLength in
  let! _ := component_check host in
  let! _ := validateSambaHost host in
  fail_if existsb bad_field [username; password; host] with SambaField in
  validateSambaPort port.

(** ** Share names *)

Definition validateSambaDirectoryName (directory : bytes) (allowHidden : bool) : result samba_error unit :=
  let! _ := component_check directory in
  fail_if negb (valid_string directory) || negb (bool_decide (trim_space directory = directory))
          || contains_any (bs ",\" ++ [x00; x0d; x0a]) directory with SambaDirectory in
  fail_if negb allowHidden && has_suffix (bs "$") directory with SambaHidden in
  fail_if has_control directory with SambaDirectory in
  Ok tt.

Definition validateSambaDirectory (directory : bytes) : result samba_error unit :=
  validateSambaDirectoryName directory false.

(** The loop over the names, with the names seen so far. *)
Fixpoint check_directories (allowHidden : bool) (directories seen : list bytes) : result samba_error unit :=
  match directories with
  | [] => Ok tt
  | directory :: rest =>
      let! _ := validateSambaDirectoryName directory allowHidden in
      fail_if bool_decide (directory ∈ seen) with SambaDuplicate in
      check_directories allowHidden rest (directory :: seen)
  end.

Definition ValidateSambaDirectories (directories : list bytes) (limit : Z) : result samba_error unit :=
  fail_if (Zlen directories =? 0) || (limit <? Zlen directories) with SambaDirectoryCount in
  check_directories false directories [].

Definition ParseSambaDirectories (value : bytes) (limit : Z) : result samba_error (list bytes) :=
  fail_if bool_decide (value = []) with SambaNoDirectories in
  let directories := split_on "," value in
  fail_if (Zlen directories =? 0) || (limit <? Zlen directories) with SambaDirectoryCount in
  let! _ := ValidateSambaDirectories directories limit in
  Ok directories.

Definition parseLegacySambaDirectories (value : bytes) (limit : Z) : result samba_error (list bytes) :=
  fail_if bool_decide (value = []) with SambaNoDirectories in
  let directories := split_on "," value in
  fail_if (Zlen directories =? 0) || (limit <? Zlen directories) with SambaDirectoryCount in
  let! _ := check_directories true directories [] in
  Ok directories.

Fixpoint filter_shares (directories filtered : list bytes) (limit : Z) : result samba_error (list bytes) :=
  match directories with
  | [] => Ok filtered
  | directory :: rest =>
      if has_suffix (bs "$") directory then filter_shares rest filtered limit
      else
        let filtered := filtered ++ [directory] in
        fail_if limit <? Zlen filtered with SambaDirectoryCount in
        filter_shares rest filtered limit
  end.

Definition FilterSambaMountableShares (directories : list bytes) (limit : Z) : result samba_error (list bytes) :=
  let! filtered := filter_shares directories [] limit in
  let! _ := ValidateSambaDirectories filtered limit in
  Ok filtered.

(** ** Persisted connections *)

Record persisted := { directories : list bytes; allDirectories : list bytes; normalizedPort : bytes; legacy : bool }.

Definition ParsePersistedSambaConnection (directoriesValue port bootID mountIDsValue : bytes) (limit : Z)
  : result samba_error persisted :=
  fail_if negb (Bool.eqb (bool_decide (bootID = [])) (bool_decide (mountIDsValue = []))) with SambaIncompleteIdentity in
  if negb (bool_decide (bootID = [])) then
    let! _ := validateSambaPort port in
    let! l := ParseSambaDirectories directoriesValue limit in
    Ok {| directories := l; allDirectories := l; normalizedPort := port; legacy := false |}
  else
    let! l := parseLegacySambaDirectories directoriesValue limit in
    let normalized := if bool_decide (port = []) then bs "445" else port in
    Ok {| directories := filter (fun d => has_suffix (bs "$") d = false) l; allDirectories := l;
          normalizedPort := normalized; legacy := true |}.

Definition ValidateLegacySambaHost (host : bytes) : result samba_error unit :=
  fail_if (Zlen host =? 0) || (255 <? Zlen host) with SambaLength in
  let! _ := component_check host in
  validateSambaHost host.

Definition ValidateLegacySambaDirectory (directory : bytes) : result samba_error unit :=
  validateSambaDirectoryName directory true.

(** ** The mount call *)

Inductive mount_flag := MS_NOATIME | MS_NODEV | MS_NOSUID | MS_NOEXEC.
Record mount_call := { mc_source : bytes; mc_target : bytes; mc_fstype : bytes; mc_flags : list mount_flag; mc_data : bytes }.

(** An open descriptor: its number and whether [Stat] says it is a directory. *)
Record descriptor := { fd : Z; statIsDir : result unit bool }.

Definition sambaMountOptions (username password port : bytes) : bytes :=
  bs "username=" ++ username ++ bs ",password=" ++ password ++ bs ",port=" ++ port ++ bs ",sec=ntlmsspi,sign".

Definition MountSmaba (username host directory port : bytes) (mountDirectory : option descriptor) (password : bytes)
  : result samba_error mount_call :=
  let! _ := ValidateSambaConnectionFields username password host port in
  let! _ := validateSambaDirectory directory in
  match mountDirectory with
  | None => Err SambaDescriptor
  | Some d =>
      match statIsDir d with
      | Ok true =>
          Ok {| mc_source := bs "//" ++ host ++ bs "/" ++ directory; mc_target := bs "/proc/self/fd/" ++ itoa (fd d);
                mc_fstype := bs "cifs"; mc_flags := [MS_NOATIME; MS_NODEV; MS_NOSUID; MS_NOEXEC];
                mc_data := sambaMountOptions username password port |}
      | _ => Err SambaDescriptor
      end
  end.

(** The path [unix.Unmount] is called with. *)
Definition UnmountSmaba (parentDirectory : option descriptor) (child : bytes) : result samba_error bytes :=
  match parentDirectory with
  | None => Err SambaDescriptor
  | Some d =>
      let! _ := component_check child in
      match statIsDir d with
      | Ok true => Ok (bs "/proc/self/fd/" ++ itoa (fd d) ++ bs "/" ++ child)
      | _ => Err SambaDescriptor
      end
  end.

(** ** The mount table *)

(** [mountinfo.Info], the fields the code reads. *)
Record mount_info := { mi_id : Z; mi_mountpoint : bytes; mi_fstype : bytes; mi_source : bytes }.
Record SambaMountIdentity := { MountID : Z; Mountpoint : bytes; FSType : bytes; Source : bytes }.

Definition at_mount_point (mountPoint : bytes) (mounts : list (option mount_info)) : list mount_info :=
  omap (fun m => match m with
                 | Some i => if bool_decide (mi_mountpoint i = mountPoint) then Some i else None
                 | None => None
                 end) mounts.

(** [Ok None]: nothing is mounted there. *)
Definition inspectSambaMountEntries (mountPoint host directory : bytes) (mounts : list (option mount_info))
  : result samba_error (option SambaMountIdentity) :=
  match at_mount_point mountPoint mounts with
  | [] => Ok None
  | [mounted] =>
      let expectedSource := bs "//" ++ host ++ bs "/" ++ directory in
      fail_if negb (bool_decide (mi_fstype mounted = bs "cifs")) || negb (bool_decide (mi_source mounted = expectedSource))
        with SambaUnexpectedMount in
      fail_if mi_id mounted <=? 0 with SambaMountID in
      Ok (Some {| MountID := u64 (mi_id mounted); Mountpoint := mi_mountpoint mounted; FSType := mi_fstype mounted;
                  Source := mi_source mounted |})
  | _ => Err SambaMultipleMounts
  end.

Definition validateSambaMountEntries (mountPoint host directory : bytes) (expectedMountID : Z)
    (mounts : list (option mount_info)) : result samba_error bool :=
  match inspectSambaMountEntries mountPoint host directory mounts with
  | Err e => Err e
  | Ok None => Ok false
  | Ok (Some identity) =>
      fail_if (expectedMountID =? 0) || negb (MountID identity =? expectedMountID) with SambaMountIDMismatch in
      Ok true
  end.

(** The table as it was read, or the error of reading it. *)
Definition InspectSambaMount (mountPoint host directory : bytes) (mounts : result unit (list (option mount_info)))
  : result samba_error (option SambaMountIdentity) :=
  let! _ := component_check host in
  let! _ := validateSambaDirectory directory in
  match mounts with
  | Err _ => Err SambaMountTable
  | Ok mounts => inspectSambaMountEntries mountPoint host directory mounts
  end.

Definition ValidateSambaMount (mountPoint host directory : bytes) (expectedMountID : Z)
    (mounts : result unit (list (option mount_info))) : result samba_error bool :=
  let! _ := component_check host in
  let! _ := validateSambaDirectory directory in
  match mounts with
  | Err _ => Err SambaMountTable
  | Ok mounts => validateSambaMountEntries mountPoint host directory expectedMountID mounts
  end.

(** ** Lemmas *)

Lemma contains_any_false chars s : contains_any chars s = false <-> forall b, b ∈ s -> b ∉ chars.
Proof.
  unfold contains_any. rewrite <- not_true_iff_false, existsb_exists. split.
  - intros Hn b Hb Hin. apply Hn. exists b. split; [by apply list_elem_of_In|by apply bool_decide_eq_true_2].
  - intros Hall (b & Hb%list_elem_of_In & Hin%bool_decide_eq_true). by eapply Hall.
Qed.

Lemma component_check_ok value : component_check value = Ok tt <-> normal value /\ Zlen value <= 255 /\ (x00 ∉ value).
Proof.
  rewrite <- ValidatePathComponent_exact. unfold component_check.
  destruct (ValidatePathComponent value) as [[]|]; split; try done; congruence.
Qed.

(** What an accepted share name is. *)
Record share_name (allowHidden : bool) (d : bytes) : Prop := {
  sn_component : normal d /\ Zlen d <= 255 /\ (x00 ∉ d);
  sn_text : valid_string d = true /\ trim_space d = d /\ has_control d = false;
  sn_chars : forall b, b ∈ d -> b ∉ bs ",\" ++ [x00; x0d; x0a];
  sn_visible : allowHidden = false -> has_suffix (bs "$") d = false
}.

Lemma validateSambaDirectoryName_ok d hidden : validateSambaDirectoryName d hidden = Ok tt <-> share_name hidden d.
Proof.
  unfold validateSambaDirectoryName. split.
  - destruct (component_check d) as [[]|] eqn:Hc; [|done]. apply component_check_ok in Hc. intros H.
    destruct (negb (valid_string d) || _ || _) eqn:E1 in H; [done|]. destruct (negb hidden && _) eqn:E2 in H; [done|].
    destruct (has_control d) eqn:E3 in H; [done|]. bools. split; try done.
    + by apply contains_any_false.
    + intros ->. done.
  - intros [Hc%component_check_ok (Hv & Ht & Hctl) Hch%contains_any_false Hvis]. rewrite Hc, Hv, Hctl, Hch.
    rewrite bool_decide_eq_true_2 by done. destruct hidden; cbn [negb orb andb]; [done|]. by rewrite Hvis.
Qed.

Lemma check_directories_ok hidden l seen :
  check_directories hidden l seen = Ok tt <-> Forall (share_name hidden) l /\ NoDup l /\ (forall d, d ∈ l -> d ∉ seen).
Proof.
  revert seen. induction l as [|d l IH]; intros seen; cbn [check_directories].
  { split; [|done]. intros _. split_and!; [constructor|constructor|]. by intros d ?%not_elem_of_nil. }
  rewrite Forall_cons, NoDup_cons, <- validateSambaDirectoryName_ok.
  destruct (validateSambaDirectoryName d hidden) as [[]|]; [|split; [done|by intros [[? _] _]]].
  case_bool_decide as Hs; [split; [done|]; intros (_ & _ & Hall); by destruct (Hall d); [left|]|].
  rewrite IH. split.
  - intros (Hf & Hn & Hall). split_and!; try done.
    + intros Hin. eapply Hall; [exact Hin|by left].
    + intros x [->|Hin]%elem_of_cons; [done|]. intros Hx. eapply Hall; [exact Hin|by right].
  - intros ([_ Hf] & [Hd Hn] & Hall). split_and!; try done.
    intros x Hin [->|Hx]%elem_of_cons; [done|]. eapply Hall; [by right|exact Hx].
Qed.

(** An accepted list of share names. *)
Definition shares_ok (allowHidden : bool) (l : list bytes) (limit : Z) : Prop :=
  l <> [] /\ Zlen l <= limit /\ NoDup l /\ Forall (share_name allowHidden) l.

Lemma count_check_false {A} (l : list A) limit :
  (Zlen l =? 0) || (limit <? Zlen l) = false <-> l <> [] /\ Zlen l <= limit.
Proof.
  rewrite orb_false_iff, Z.eqb_neq, Z.ltb_ge. unfold Zlen. split; intros [? ?]; (split; [|lia]).
  - intros ->. done.
  - destruct l; [done|]. cbn. lia.
Qed.

Lemma check_directories_shares hidden l limit :
  (Zlen l =? 0) || (limit <? Zlen l) = false -> check_directories hidden l [] = Ok tt <-> shares_ok hidden l limit.
Proof.
  intros Hc%count_check_false. rewrite check_directories_ok. unfold shares_ok. split.
  - intros (? & ? & _). destruct Hc. by split_and!.
  - intros (_ & _ & ? & ?). split_and!; try done. by intros d _ ?%not_elem_of_nil.
Qed.

Lemma ValidateSambaDirectories_ok l limit : ValidateSambaDirectories l limit = Ok tt <-> shares_ok false l limit.
Proof.
  unfold ValidateSambaDirectories. destruct ((Zlen l =? 0) || (limit <? Zlen l)) eqn:E.
  - split; [done|]. intros (? & ? & _). by rewrite (proj2 (count_check_false l limit)) in E.
  - by apply check_directories_shares.
Qed.

Lemma share_no_comma hidden l : Forall (share_name hidden) l -> Forall (fun d => ","%byte ∉ d) l.
Proof. intros Hl. eapply Forall_impl; [exact Hl|]. intros d [_ _ Hc _] Hin. apply (Hc _ Hin). by left. Qed.

(** Both readers of a comma-separated setting: the value is the names joined. *)
Lemma shares_split hidden value l limit :
  shares_ok hidden l limit -> value = join_with "," l -> value <> [] /\ split_on "," value = l.
Proof.
  intros (Hne & _ & _ & Hf) ->. rewrite split_join by (eauto using share_no_comma). split; [|done].
  destruct Hf as [|d l [(Hd & _) _ _ _] _]; [done|]. destruct Hd as (Hd & _). destruct l; cbn; [done|]. by destruct d.
Qed.

Lemma ParseSambaDirectories_ok value l limit :
  ParseSambaDirectories value limit = Ok l <-> shares_ok false l limit /\ value = join_with "," l.
Proof.
  unfold ParseSambaDirectories. split.
  - intros Hp. destruct (bool_decide (value = [])); [done|]. destruct (_ || _) eqn:Ec in Hp; [done|].
    destruct (ValidateSambaDirectories _ limit) as [[]|] eqn:Hv; [|done]. injection Hp as <-.
    apply ValidateSambaDirectories_ok in Hv. by rewrite join_split.
  - intros [Hs Hv]. destruct (shares_split _ _ _ _ Hs Hv) as [Hne ->]. rewrite bool_decide_eq_false_2 by done.
    pose proof Hs as Hs'%ValidateSambaDirectories_ok. destruct Hs as (? & ? & _).
    by rewrite (proj2 (count_check_false l limit)), Hs'.
Qed.

Lemma parseLegacySambaDirectories_ok value l limit :
  parseLegacySambaDirectories value limit = Ok l <-> shares_ok true l limit /\ value = join_with "," l.
Proof.
  unfold parseLegacySambaDirectories. split.
  - intros Hp. destruct (bool_decide (value = [])); [done|]. destruct (_ || _) eqn:Ec in Hp; [done|].
    destruct (check_directories true _ []) as [[]|] eqn:Hv; [|done]. injection Hp as <-.
    apply (check_directories_shares true _ _ Ec) in Hv. by rewrite join_split.
  - intros [Hs Hv]. destruct (shares_split _ _ _ _ Hs Hv) as [Hne ->]. rewrite bool_decide_eq_false_2 by done.
    assert (Ec : (Zlen l =? 0) || (limit <? Zlen l) = false) by (destruct Hs as (? & ? & _); by apply count_check_false).
    apply (check_directories_shares true _ _ Ec) in Hs. by rewrite Ec, Hs.
Qed.

Lemma filter_shares_ok ds acc limit :
  filter_shares ds acc limit =
  (if Zlen acc <=? limit then
     if Zlen (acc ++ filter (fun d => has_suffix (bs "$") d = false) ds) <=? limit
     then Ok (acc ++ filter (fun d => has_suffix (bs "$") d = false) ds) else Err SambaDirectoryCount
   else filter_shares ds acc limit).
Proof.
  revert acc. induction ds as [|d ds IH]; intros acc; destruct (Z.leb_spec (Zlen acc) limit) as [Hl|]; try done.
  - cbn. rewrite app_nil_r. by rewrite (proj2 (Z.leb_le _ _) Hl).
  - cbn [filter_shares]. rewrite filter_cons. destruct (has_suffix (bs "$") d) eqn:E.
    + rewrite decide_False by congruence. rewrite IH, (proj2 (Z.leb_le _ _) Hl). done.
    + rewrite decide_True by done. destruct (Z.ltb_spec limit (Zlen (acc ++ [d]))) as [Hx|Hx].
      * destruct (Z.leb_spec (Zlen (acc ++ d :: filter (fun d => has_suffix (bs "$") d = false) ds)) limit) as [Hy|]; [|done].
        unfold Zlen in *. rewrite !length_app in *. cbn in *. lia.
      * rewrite IH, (proj2 (Z.leb_le _ _) Hx). by rewrite <- app_assoc.
Qed.

(** Filtering keeps exactly the non-administrative shares, in order, or fails. *)
Lemma FilterSambaMountableShares_ok ds l limit :
  FilterSambaMountableShares ds limit = Ok l <->
  l = filter (fun d => has_suffix (bs "$") d = false) ds /\ shares_ok false l limit.
Proof.
  unfold FilterSambaMountableShares. set (f := filter _ ds).
  destruct (Z.leb_spec 0 limit) as [Hl|Hl].
  - rewrite filter_shares_ok. change (Zlen []) with 0. rewrite (proj2 (Z.leb_le _ _) Hl). cbn [app]. fold f.
    destruct (Z.leb_spec (Zlen f) limit).
    + destruct (ValidateSambaDirectories f limit) as [[]|] eqn:Hv.
      * apply ValidateSambaDirectories_ok in Hv. split; [intros [= <-]; done|by intros [-> _]].
      * split; [done|]. intros [-> Hs%ValidateSambaDirectories_ok]. congruence.
    + split; [done|]. intros [-> (_ & ? & _)]. lia.
  - split; [|intros (_ & _ & ? & _); unfold Zlen in *; lia].
    destruct (filter_shares ds [] limit); [|done]. destruct (ValidateSambaDirectories a limit) as [[]|] eqn:Hv; [|done].
    apply ValidateSambaDirectories_ok in Hv as (_ & Hv & _). unfold Zlen in Hv. lia.
Qed.

(** C37. Persisted connections are read back exactly: a row with an ownership
    identity (boot ID and mount IDs) parses if and only if its port is 445 and
    its directory list is the comma-joined text of a bounded list of distinct
    acceptable, non-administrative share names; a row without one is legacy and
    parses with administrative names allowed in the full list but left out of
    the mountable one; a row with half an identity never parses. *)
Theorem ParsePersistedSambaConnection_exact value port bootID mountIDs limit p :
  ParsePersistedSambaConnection value port bootID mountIDs limit = Ok p <->
  (bootID <> [] /\ mountIDs <> [] /\ port = bs "445" /\ shares_ok false (directories p) limit /\
   value = join_with "," (directories p) /\ allDirectories p = directories p /\ normalizedPort p = port /\ legacy p = false) \/
  (bootID = [] /\ mountIDs = [] /\ shares_ok true (allDirectories p) limit /\ value = join_with "," (allDirectories p) /\
   directories p = filter (fun d => has_suffix (bs "$") d = false) (allDirectories p) /\
   normalizedPort p = (if bool_decide (port = []) then bs "445" else port) /\ legacy p = true).
Proof.
  unfold ParsePersistedSambaConnection, validateSambaPort. destruct p as [ds all np leg]; cbn [directories allDirectories normalizedPort legacy].
  destruct (decide (bootID = [])) as [Hb|Hb], (decide (mountIDs = [])) as [Hm|Hm].
  - rewrite !bool_decide_eq_true_2 by done. cbn [Bool.eqb negb].
    destruct (parseLegacySambaDirectories value limit) as [l|] eqn:Hl.
    + apply parseLegacySambaDirectories_ok in Hl as [Hs Hv]. split; [intros [= <- <- <- <-]; right; by split_and!|].
      intros [(? & _)|(_ & _ & Hs' & Hv' & -> & -> & ->)]; [done|].
      destruct (shares_split _ _ _ _ Hs Hv) as [_ <-], (shares_split _ _ _ _ Hs' Hv') as [_ <-]. done.
    + split; [done|]. intros [(? & _)|(_ & _ & Hs' & Hv' & _)]; [done|].
      pose proof (proj2 (parseLegacySambaDirectories_ok value all limit) (conj Hs' Hv')). congruence.
  - rewrite (bool_decide_eq_true_2 _ Hb), (bool_decide_eq_false_2 _ Hm). cbn. naive_solver.
  - rewrite (bool_decide_eq_false_2 _ Hb), (bool_decide_eq_true_2 _ Hm). cbn. naive_solver.
  - rewrite (bool_decide_eq_false_2 _ Hb), (bool_decide_eq_false_2 _ Hm). cbn [Bool.eqb negb].
    case_bool_decide as Hp; cbn [negb]; [|naive_solver].
    destruct (ParseSambaDirectories value limit) as [l|] eqn:Hl.
    + apply ParseSambaDirectories_ok in Hl as [Hs Hv]. split; [intros [= <- <- <- <-]; left; by split_and!|].
      intros [(_ & _ & _ & Hs' & Hv' & -> & -> & ->)|(? & _)]; [|done].
      destruct (shares_split _ _ _ _ Hs Hv) as [_ <-], (shares_split _ _ _ _ Hs' Hv') as [_ <-]. done.
    + split; [done|]. intros [(_ & _ & _ & Hs' & Hv' & _)|(? & _)]; [|done].
      pose proof (proj2 (ParseSambaDirectories_ok value ds limit) (conj Hs' Hv')). congruence.
Qed.

(** ** The mount call cannot be steered *)

Lemma fields_ok username password host port :
  ValidateSambaConnectionFields username password host port = Ok tt ->
  username <> [] /\ port = bs "445" /\ normal host /\
  (forall v b, v ∈ [username; password; host] -> b ∈ v -> b ∉ bs "," ++ [x00; x0d; x0a]).
Proof.
  unfold ValidateSambaConnectionFields, validateSambaPort. intros Hf.
  destruct (_ || _ || _ || _) eqn:E1 in Hf; [done|]. destruct (component_check host) as [[]|] eqn:Hc; [|done].
  destruct (validateSambaHost host) as [[]|]; [|done]. destruct (existsb bad_field _) eqn:E2 in Hf; [done|].
  case_bool_decide as Hp; [|done]. apply component_check_ok in Hc as [Hn _]. bools. split_and!; try done.
  intros v b Hv. apply contains_any_false. apply not_true_iff_false. intros Hany.
  apply not_true_iff_false in E2. apply E2, existsb_exists. exists v. split; [by apply list_elem_of_In|].
  unfold bad_field. rewrite Hany. by rewrite orb_true_r.
Qed.

(** C36. Client-supplied fields cannot add, drop or change mount options: whenever
    [MountSmaba] calls [mount], the data string splits at its commas into exactly
    the five intended options, signing included, the source splits at its slashes
    into exactly host and share, neither contains a NUL byte, the target is the
    pinned descriptor, and the flags are the four hardening flags. *)
Theorem MountSmaba_call_exact username host directory port mountDirectory password call :
  MountSmaba username host directory port mountDirectory password = Ok call ->
  exists d, mountDirectory = Some d /\ statIsDir d = Ok true /\
    split_on "," (mc_data call) =
      [bs "username=" ++ username; bs "password=" ++ password; bs "port=445"; bs "sec=ntlmsspi"; bs "sign"] /\
    split_on "/" (mc_source call) = [[]; []; host; directory] /\
    (x00 ∉ mc_data call) /\ (x00 ∉ mc_source call) /\
    mc_target call = bs "/proc/self/fd/" ++ itoa (fd d) /\ mc_fstype call = bs "cifs" /\
    mc_flags call = [MS_NOATIME; MS_NODEV; MS_NOSUID; MS_NOEXEC].
Proof.
  unfold MountSmaba. intros Hm. destruct (ValidateSambaConnectionFields username password host port) as [[]|] eqn:Hf; [|done].
  destruct (validateSambaDirectory directory) as [[]|] eqn:Hd; [|done].
  apply fields_ok in Hf as (_ & -> & Hh & Hch). apply validateSambaDirectoryName_ok in Hd as [[Hdn [_ Hd0]] _ _ _].
  destruct mountDirectory as [d|]; [|done]. destruct (statIsDir d) as [[]|] eqn:Hs; try done. injection Hm as <-.
  assert (Hno : forall v b, v ∈ [username; password; host] -> b ∈ bs "," ++ [x00; x0d; x0a] -> b ∉ v).
  { intros v b Hv Hb Hin. by apply (Hch v b). }
  exists d. cbn [mc_data mc_source mc_target mc_fstype mc_flags]. split_and!; try done.
  - replace (sambaMountOptions username password (bs "445")) with (join_with ","
      [bs "username=" ++ username; bs "password=" ++ password; bs "port=445"; bs "sec=ntlmsspi"; bs "sign"]).
    2: { unfold sambaMountOptions. cbn [join_with]. rewrite <- !app_assoc. done. }
    apply split_join; [done|]. repeat constructor; try (vm_compute; set_solver);
      (rewrite not_elem_of_app; split; [vm_compute; set_solver|apply Hno; set_solver]).
  - change (split_on "/" (join_with "/" [[]; []; host; directory]) = [[]; []; host; directory]).
    apply split_join; [done|]. destruct Hh as (_ & _ & _ & ?), Hdn as (_ & _ & _ & ?).
    repeat constructor; try done; set_solver.
  - unfold sambaMountOptions. rewrite !not_elem_of_app. split_and!; try (vm_compute; set_solver); apply Hno; set_solver.
  - change (x00 ∉ bs "//" ++ host ++ bs "/" ++ directory). rewrite !not_elem_of_app.
    split_and!; [vm_compute; set_solver|apply Hno; set_solver|vm_compute; set_solver|done].
Qed.

Definition sample_descriptor : descriptor := {| fd := 12; statIsDir := Ok true |}.

Lemma MountSmaba_call_exact_witness :
  exists call,
    MountSmaba (bs "alice") (bs "nas.local") (bs "My Share") (bs "445") (Some sample_descriptor) (bs "s3cret=x") = Ok call /\
    split_on "," (mc_data call) =
      [bs "username=alice"; bs "password=s3cret=x"; bs "port=445"; bs "sec=ntlmsspi"; bs "sign"] /\
    mc_target call = bs "/proc/self/fd/12".
Proof.
  destruct (MountSmaba (bs "alice") (bs "nas.local") (bs "My Share") (bs "445") (Some sample_descriptor) (bs "s3cret=x"))
    as [call|] eqn:E; [|vm_compute in E; discriminate].
  destruct (MountSmaba_call_exact _ _ _ _ _ _ _ E) as (d & [= <-] & _ & Ho & _ & _ & _ & Ht & _).
  exists call. split; [done|]. split; [exact Ho|]. rewrite Ht. vm_compute. reflexivity.
Defined.

Example smuggled_option_refused :
  MountSmaba (bs "alice,guest") (bs "nas.local") (bs "docs") (bs "445") (Some sample_descriptor) (bs "x") = Err SambaField.
Proof. vm_compute. reflexivity. Qed.

(** ** The mount table *)

Lemma at_mount_point_spec mountPoint mounts i :
  i ∈ at_mount_point mountPoint mounts <-> Some i ∈ mounts /\ mi_mountpoint i = mountPoint.
Proof.
  unfold at_mount_point. rewrite list_elem_of_omap. split.
  - intros ([x|] & Hin & Hx); [|done]. case_bool_decide; [|done]. by simplify_eq.
  - intros [Hin Hm]. exists (Some i). split; [done|]. by rewrite bool_decide_eq_true_2.
Qed.

(** C38. A mount point is accepted as the service's own only with certainty: the
    host and share name are acceptable, the mount table was read, it has exactly
    one entry at the mount point, and that entry is a CIFS mount of exactly this
    host and share whose positive ID is the persisted, non-zero one. Nothing is
    reported as not mounted while the table has an entry at the mount point. *)
Theorem ValidateSambaMount_exact mountPoint host directory expected mounts answer :
  ValidateSambaMount mountPoint host directory expected mounts = Ok answer <->
  component_check host = Ok tt /\ validateSambaDirectory directory = Ok tt /\
  exists table, mounts = Ok table /\
    (if answer
     then exists i, at_mount_point mountPoint table = [i] /\ mi_fstype i = bs "cifs" /\
            mi_source i = bs "//" ++ host ++ bs "/" ++ directory /\ 0 < mi_id i /\ expected <> 0 /\ u64 (mi_id i) = expected
     else forall i, Some i ∈ table -> mi_mountpoint i <> mountPoint).
Proof.
  unfold ValidateSambaMount. destruct (component_check host) as [[]|]; [|naive_solver].
  destruct (validateSambaDirectory directory) as [[]|]; [|naive_solver].
  destruct mounts as [table|]; [|naive_solver].
  unfold validateSambaMountEntries, inspectSambaMountEntries.
  destruct (at_mount_point mountPoint table) as [|i [|j l]] eqn:Ha.
  - split.
    + intros [= <-]. split_and!; try done. exists table. split; [done|]. intros i Hi Hm.
      assert (Hin : i ∈ at_mount_point mountPoint table) by (by apply at_mount_point_spec). rewrite Ha in Hin. set_solver.
    + intros (_ & _ & t & [= <-] & Hx). destruct answer; [|done]. destruct Hx as (i & Hx & _). congruence.
  - assert (Hin : i ∈ at_mount_point mountPoint table) by (rewrite Ha; by left). apply at_mount_point_spec in Hin as [Hin Hmp].
    split.
    + intros H. destruct (_ || _) eqn:E1 in H; [done|]. destruct (Z.leb_spec (mi_id i) 0); [done|].
      cbn [MountID] in H. destruct ((expected =? 0) || _) eqn:E2 in H; [done|]. injection H as <-.
      apply orb_false_iff in E2 as [Hne%Z.eqb_neq Hid%negb_false_iff%Z.eqb_eq]. bools. split_and!; try done. exists table. split; [done|]. exists i. by split_and!.
    + intros (_ & _ & t & [= <-] & Hx). destruct answer; [|by destruct (Hx i Hin)].
      destruct Hx as (j & Hj & Hf & Hsrc & Hpos & Hne & Hid). rewrite Ha in Hj. injection Hj as <-.
      rewrite (bool_decide_eq_true_2 _ Hf), (bool_decide_eq_true_2 _ Hsrc). cbn [negb orb].
      destruct (Z.leb_spec (mi_id i) 0); [lia|]. cbn [MountID]. rewrite (proj2 (Z.eqb_neq _ _) Hne), Hid, Z.eqb_refl. done.
  - split; [done|]. intros (_ & _ & t & [= <-] & Hx). destruct answer.
    + destruct Hx as (k & Hx & _). congruence.
    + assert (Hin : i ∈ at_mount_point mountPoint table) by (rewrite Ha; by left).
      apply at_mount_point_spec in Hin as [Hin Hmp]. by destruct (Hx i Hin).
Qed.
