(* ===== verification/SambaAccounts.v ===== *)
(** * service/samba_user.go: share accounts

    The operations create, re-key, remove and list system accounts by running
    account tools. What the tools answer is the environment's ([AccountWorld]);
    the state keeps a history of every tool run with its answer, so that the
    theorems can say which runs an operation may cause and after what. *)

From Stdlib Require Import Strings.Byte ZArith Lia String.
From stdpp Require Import base list strings sets gmap.
From S2P Require Import Prelude GoStd GoPath.

Definition sambaAccountComment : bytes := bs "CasaOS share account".

Inductive tool_error := ToolExit (code : Z) | ToolTimeout | ToolFailure (message : bytes).

Inductive account_error :=
| ErrSambaUsernameInvalid
| ErrSambaPasswordEmpty
| ErrSambaPasswordInvalid
| ErrSambaUserExists
| ErrSambaUserNotManaged
| ErrSambaNologinMissing
| LookupFailed (e : tool_error)
| MalformedEntry
| ListFailed (e : tool_error)
| CreateFailed (e : tool_error) (output : bytes)
| PasswordFailed (e : tool_error) (output : bytes)
| RemoveSambaFailed (e : tool_error) (output : bytes)
| RemoveSystemFailed (e : tool_error) (output : bytes)
| RollbackFailed (cause : account_error) (e : tool_error) (output : bytes).

(** [sambaUsernamePattern]: a lower-case letter or underscore, then at most 30
    lower-case letters, digits, underscores and hyphens. *)
Definition name_start (b : byte) : bool := is_lower b || bool_decide (b = "_"%byte).
Definition name_rest (b : byte) : bool := is_lower b || is_digit b || bool_decide (b = "_"%byte) || bool_decide (b = "-"%byte).
Definition sambaUsernamePattern (name : bytes) : bool :=
  match name with
  | [] => false
  | b :: rest => name_start b && forallb name_rest rest && (Zlen rest <=? 30)
  end.

Definition ValidateSambaUsername (name : bytes) : result account_error unit :=
  fail_if negb (sambaUsernamePattern name) with ErrSambaUsernameInvalid in Ok tt.

Definition validateSambaPassword (password : bytes) : result account_error unit :=
  fail_if bool_decide (password = []) with ErrSambaPasswordEmpty in
  fail_if existsb (fun b => bool_decide (b ∈ [x0d; x0a; x00])) password with ErrSambaPasswordInvalid in
  Ok tt.

(** [boundedCommandOutput.Write]: keep what fits, report everything written. *)
Definition bounded_write (limit : Z) (buffer data : bytes) : bytes :=
  let remaining := limit - Zlen buffer in
  if 0 <? remaining then buffer ++ (if remaining <? Zlen data then take (Z.to_nat remaining) data else data)
  else buffer.

Definition toolOutputLimit : Z := Z.shiftl 8 10.

(** What a tool run yields: the pieces it writes and how it ends. *)
Class AccountWorld (W : Type) := {
  aw_run : W -> bytes -> bytes -> list bytes -> list bytes * option tool_error * W;
  aw_isRegular : W -> bytes -> bool * W;
  aw_lookPath : W -> bytes -> option bytes * W
}.

Record tool_run := {
  run_stdin : bytes;
  run_name : bytes;
  run_args : list bytes;
  run_output : bytes;
  run_err : option tool_error
}.

Record accounts (W : Type) := { world : W; history : list tool_run }.
Arguments world {W}.
Arguments history {W}.

Definition sambaNologinCandidates : list bytes :=
  [bs "/usr/sbin/nologin"; bs "/sbin/nologin"; bs "/usr/bin/nologin"; bs "/run/current-system/sw/bin/nologin"].

Definition isSambaShareAccountEntry (fields : list bytes) : bool :=
  (7 <=? Zlen fields) &&
  match fields !! 4%nat, fields !! 6%nat with
  | Some comment, Some shell => bool_decide (comment = sambaAccountComment) && bool_decide (path_base shell = bs "nologin")
  | _, _ => false
  end.

(** The lines [bufio.Scanner] yields; every use trims them. *)
Definition scan_lines (output : bytes) : list bytes :=
  let lines := split_on x0a output in
  match last lines with Some [] => removelast lines | _ => lines end.

(** How [sambaPasswdEntry] reads the answer of getent; [Ok None]: no such account. *)
Definition passwd_answer (username output : bytes) (err : option tool_error) : result account_error (option (list bytes)) :=
  match err with
  | Some (ToolExit 2) => Ok None
  | Some e => Err (LookupFailed e)
  | None =>
      let fields := split_on ":" (trim_space output) in
      fail_if (Zlen fields <? 7) || negb (bool_decide (head fields = Some username)) with MalformedEntry in
      Ok (Some fields)
  end.

Section operations.
Context {W : Type} `{AccountWorld W}.

Definition runAccountTool (stdin name : bytes) (args : list bytes) (s : accounts W) : bytes * option tool_error * accounts W :=
  let '(pieces, err, w) := aw_run (world s) stdin name args in
  let output := foldl (bounded_write toolOutputLimit) [] pieces in
  (output, err, {| world := w;
                   history := history s ++ [{| run_stdin := stdin; run_name := name; run_args := args;
                                               run_output := output; run_err := err |}] |}).

Fixpoint first_regular (candidates : list bytes) (w : W) : option bytes * W :=
  match candidates with
  | [] => (None, w)
  | candidate :: rest =>
      let '(regular, w) := aw_isRegular w candidate in
      if regular : bool then (Some candidate, w) else first_regular rest w
  end.

Definition sambaNologinShell (s : accounts W) : result account_error bytes * accounts W :=
  let '(found, w) := first_regular sambaNologinCandidates (world s) in
  match found with
  | Some candidate => (Ok candidate, {| world := w; history := history s |})
  | None =>
      let '(path, w) := aw_lookPath w (bs "nologin") in
      (match path with Some p => Ok p | None => Err ErrSambaNologinMissing end, {| world := w; history := history s |})
  end.

Definition sambaPasswdEntry (username : bytes) (s : accounts W) : result account_error (option (list bytes)) * accounts W :=
  let '(output, err, s) := runAccountTool [] (bs "getent") [bs "passwd"; username] s in
  (passwd_answer username output err, s).

Definition IsSambaShareAccount (username : bytes) (s : accounts W) : result account_error bool * accounts W :=
  match ValidateSambaUsername username with
  | Err e => (Err e, s)
  | Ok _ =>
      let '(r, s) := sambaPasswdEntry username s in
      (match r with
       | Err e => Err e
       | Ok None => Ok false
       | Ok (Some fields) => Ok (isSambaShareAccountEntry fields)
       end, s)
  end.

Definition ListSambaUsers (s : accounts W) : result account_error (list bytes) * accounts W :=
  let '(output, err, s) := runAccountTool [] (bs "getent") [bs "passwd"] s in
  match err with
  | Some e => (Err (ListFailed e), s)
  | None =>
      (Ok (omap (fun line =>
             let fields := split_on ":" (trim_space line) in
             if isSambaShareAccountEntry fields
             then match head fields with Some name => if sambaUsernamePattern name then Some name else None | None => None end
             else None) (scan_lines output)), s)
  end.

Definition SetSambaPassword (username password : bytes) (s : accounts W) : option account_error * accounts W :=
  match validateSambaPassword password with
  | Err e => (Some e, s)
  | Ok _ =>
      let '(managed, s) := IsSambaShareAccount username s in
      match managed with
      | Err e => (Some e, s)
      | Ok false => (Some ErrSambaUserNotManaged, s)
      | Ok true =>
          let '(output, err, s) :=
            runAccountTool (password ++ [x0a] ++ password ++ [x0a]) (bs "smbpasswd") [bs "-s"; bs "-a"; username] s in
          (match err with Some e => Some (PasswordFailed e (trim_space output)) | None => None end, s)
      end
  end.

Definition CreateSambaUser (username password : bytes) (s : accounts W) : option account_error * accounts W :=
  match ValidateSambaUsername username with
  | Err e => (Some e, s)
  | Ok _ =>
  match validateSambaPassword password with
  | Err e => (Some e, s)
  | Ok _ =>
      let '(found, s) := sambaPasswdEntry username s in
      match found with
      | Err e => (Some e, s)
      | Ok (Some _) => (Some ErrSambaUserExists, s)
      | Ok None =>
          let '(shell, s) := sambaNologinShell s in
          match shell with
          | Err e => (Some e, s)
          | Ok shell =>
              let '(output, err, s) :=
                runAccountTool [] (bs "useradd")
                  [bs "--system"; bs "--no-create-home"; bs "--shell"; shell; bs "--comment"; sambaAccountComment; username] s in
              match err with
              | Some e => (Some (CreateFailed e (trim_space output)), s)
              | None =>
                  let '(err, s) := SetSambaPassword username password s in
                  match err with
                  | None => (None, s)
                  | Some cause =>
                      let '(output, delErr, s) := runAccountTool [] (bs "userdel") [username] s in
                      match delErr with
                      | Some e => (Some (RollbackFailed cause e (trim_space output)), s)
                      | None => (Some cause, s)
                      end
                  end
              end
          end
      end
  end end.

Definition DeleteSambaUser (username : bytes) (s : accounts W) : option account_error * accounts W :=
  match ValidateSambaUsername username with
  | Err e => (Some e, s)
  | Ok _ =>
      let '(found, s) := sambaPasswdEntry username s in
      match found with
      | Err e => (Some e, s)
      | Ok None => (None, s)
      | Ok (Some fields) =>
          if negb (isSambaShareAccountEntry fields) then (Some ErrSambaUserNotManaged, s)
          else
            let '(output, err, s) := runAccountTool [] (bs "smbpasswd") [bs "-x"; username] s in
            match err with
            | Some e => (Some (RemoveSambaFailed e (trim_space output)), s)
            | None =>
                let '(output, err, s) := runAccountTool [] (bs "userdel") [username] s in
                (match err with Some e => Some (RemoveSystemFailed e (trim_space output)) | None => None end, s)
            end
      end
  end.

(** The requests of the API, one after the other. *)
Inductive account_op :=
| OpCreate (username password : bytes)
| OpPassword (username password : bytes)
| OpDelete (username : bytes)
| OpList
| OpIs (username : bytes).

Definition account_step (op : account_op) (s : accounts W) : accounts W :=
  match op with
  | OpCreate u p => (CreateSambaUser u p s).2
  | OpPassword u p => (SetSambaPassword u p s).2
  | OpDelete u => (DeleteSambaUser u s).2
  | OpList => (ListSambaUsers s).2
  | OpIs u => (IsSambaShareAccount u s).2
  end.
End operations.

(** ** Which tool runs are allowed, and after what *)

(** A finished lookup of [u] with this answer. *)
Definition looked_up (u : bytes) (answer : option (list bytes)) (q : tool_run) : Prop :=
  run_name q = bs "getent" /\ run_args q = [bs "passwd"; u] /\ run_stdin q = [] /\
  passwd_answer u (run_output q) (run_err q) = Ok answer.

Definition managed (u : bytes) (q : tool_run) : Prop :=
  exists fields, looked_up u (Some fields) q /\ isSambaShareAccountEntry fields = true.

Definition is_run (name stdin : bytes) (args : list bytes) (r : tool_run) : Prop :=
  run_name r = name /\ run_stdin r = stdin /\ run_args r = args.

Definition useradd_of (u : bytes) (r : tool_run) : Prop :=
  exists shell, is_run (bs "useradd") []
    [bs "--system"; bs "--no-create-home"; bs "--shell"; shell; bs "--comment"; sambaAccountComment; u] r.

Definition smbpasswd_set (u : bytes) (r : tool_run) : Prop :=
  exists p, p <> [] /\ (forall b, b ∈ p -> b ∉ [x0d; x0a; x00]) /\
    is_run (bs "smbpasswd") (p ++ [x0a] ++ p ++ [x0a]) [bs "-s"; bs "-a"; u] r.

(** The runs of a password step that failed: the lookup did not show a share
    account, or it did and setting the password failed. *)
Definition password_failed (u : bytes) (rest : list tool_run) : Prop :=
  (exists q, rest = [q] /\ is_run (bs "getent") [] [bs "passwd"; u] q /\ ~ managed u q) \/
  (exists q r, rest = [q; r] /\ managed u q /\ smbpasswd_set u r /\ run_err r <> None).

Inductive justified (pre : list tool_run) (r : tool_run) : Prop :=
| jf_list : is_run (bs "getent") [] [bs "passwd"] r -> justified pre r
| jf_lookup u : sambaUsernamePattern u = true -> is_run (bs "getent") [] [bs "passwd"; u] r -> justified pre r
| jf_create u pre' q : sambaUsernamePattern u = true -> pre = pre' ++ [q] -> looked_up u None q ->
    useradd_of u r -> justified pre r
| jf_password u pre' q : sambaUsernamePattern u = true -> pre = pre' ++ [q] -> managed u q ->
    smbpasswd_set u r -> justified pre r
| jf_disable u pre' q : sambaUsernamePattern u = true -> pre = pre' ++ [q] -> managed u q ->
    is_run (bs "smbpasswd") [] [bs "-x"; u] r -> justified pre r
| jf_remove u pre' q x : sambaUsernamePattern u = true -> pre = pre' ++ [q; x] -> managed u q ->
    is_run (bs "smbpasswd") [] [bs "-x"; u] x -> run_err x = None ->
    is_run (bs "userdel") [] [u] r -> justified pre r
| jf_rollback u pre' q x rest : sambaUsernamePattern u = true -> pre = pre' ++ q :: x :: rest -> looked_up u None q ->
    useradd_of u x -> run_err x = None -> password_failed u rest ->
    is_run (bs "userdel") [] [u] r -> justified pre r.

#[export] Hint Constructors justified : history.

Lemma validateSambaPassword_ok p :
  validateSambaPassword p = Ok tt -> p <> [] /\ (forall b, b ∈ p -> b ∉ [x0d; x0a; x00]).
Proof.
  unfold validateSambaPassword. case_bool_decide; [done|]. destruct (existsb _ p) eqn:E; [done|]. intros _. split; [done|].
  intros b Hb Hin. apply not_true_iff_false in E. apply E, existsb_exists. exists b.
  split; [by apply list_elem_of_In|by apply bool_decide_eq_true_2].
Qed.

Lemma ValidateSambaUsername_ok u : ValidateSambaUsername u = Ok tt -> sambaUsernamePattern u = true.
Proof. unfold ValidateSambaUsername. by destruct (sambaUsernamePattern u). Qed.

Section justification.
Context {W : Type} `{AccountWorld W}.

Definition history_ok (s : accounts W) : Prop := each_after justified (history s).

(** A run that is justified when it starts. *)
Lemma run_ok stdin name args (s : accounts W) :
  history_ok s -> (forall r, is_run name stdin args r -> justified (history s) r) ->
  let '(output, err, s') := runAccountTool stdin name args s in
  history_ok s' /\ exists r, history s' = history s ++ [r] /\ is_run name stdin args r /\
    run_output r = output /\ run_err r = err.
Proof.
  intros Hs Hj. unfold runAccountTool. destruct (aw_run (world s) stdin name args) as [[pieces err] w].
  split; [apply each_after_snoc; [done|by apply Hj]|]. by eexists.
Qed.

Lemma sambaPasswdEntry_ok u (s : accounts W) :
  history_ok s -> sambaUsernamePattern u = true ->
  let '(answer, s') := sambaPasswdEntry u s in
  history_ok s' /\ exists q, history s' = history s ++ [q] /\ is_run (bs "getent") [] [bs "passwd"; u] q /\
    answer = passwd_answer u (run_output q) (run_err q).
Proof.
  intros Hs Hu. unfold sambaPasswdEntry.
  pose proof (run_ok [] (bs "getent") [bs "passwd"; u] s Hs ltac:(eauto with history)) as Hr.
  destruct (runAccountTool _ _ _ s) as [[output err] s']. destruct Hr as (Hs' & q & Hh & Hrun & Ho & He).
  split; [done|]. exists q. by rewrite Ho, He.
Qed.

Lemma lookup_done u q a :
  is_run (bs "getent") [] [bs "passwd"; u] q -> passwd_answer u (run_output q) (run_err q) = Ok a -> looked_up u a q.
Proof. intros (? & ? & ?) ?. by split_and!. Qed.

Lemma IsSambaShareAccount_ok u (s : accounts W) :
  history_ok s ->
  let '(answer, s') := IsSambaShareAccount u s in
  history_ok s' /\
  (answer = Ok true -> sambaUsernamePattern u = true) /\
  (sambaUsernamePattern u = true -> exists q, history s' = history s ++ [q] /\
     is_run (bs "getent") [] [bs "passwd"; u] q /\ (answer = Ok true <-> managed u q)).
Proof.
  intros Hs. unfold IsSambaShareAccount. destruct (ValidateSambaUsername u) as [[]|e] eqn:Hu.
  2: { split_and!; [done|done|]. intros Hp. unfold ValidateSambaUsername in Hu. by rewrite Hp in Hu. }
  apply ValidateSambaUsername_ok in Hu. pose proof (sambaPasswdEntry_ok u s Hs Hu) as Hp.
  destruct (sambaPasswdEntry u s) as [answer s']. destruct Hp as (Hs' & q & Hh & Hrun & Ha).
  split_and!; [done|done|]. intros _. exists q. split_and!; [done|done|]. split.
  - destruct answer as [[fields|]|]; try done. intros [= Hm]. exists fields. split; [|done]. by apply lookup_done.
  - intros (fields & (_ & _ & _ & Hans) & Hm). rewrite <- Ha in Hans. rewrite Hans. by rewrite Hm.
Qed.

Lemma SetSambaPassword_ok u p (s : accounts W) :
  history_ok s ->
  history_ok (SetSambaPassword u p s).2 /\
  (sambaUsernamePattern u = true -> validateSambaPassword p = Ok tt -> (SetSambaPassword u p s).1 <> None ->
   exists rest, history (SetSambaPassword u p s).2 = history s ++ rest /\ password_failed u rest).
Proof.
  intros Hs. unfold SetSambaPassword. destruct (validateSambaPassword p) as [[]|] eqn:Hp; [|by split].
  apply validateSambaPassword_ok in Hp as [Hne Hch].
  pose proof (IsSambaShareAccount_ok u s Hs) as Hi. destruct (IsSambaShareAccount u s) as [answer s1].
  destruct Hi as (Hs1 & Hu & Hm).
  assert (Hstop : answer <> Ok true -> sambaUsernamePattern u = true ->
    exists rest, history s1 = history s ++ rest /\ password_failed u rest).
  { intros Hna Hv. destruct (Hm Hv) as (q & Hq & Hrun & Hiff). exists [q]. split; [done|]. left. exists q.
    split_and!; [done|done|]. by rewrite <- Hiff. }
  destruct answer as [[]|]; cbn [fst snd]; [|split; [done|]; intros Hv _ _; by apply Hstop..].
  specialize (Hu eq_refl). destruct (Hm Hu) as (q & Hq & _ & Hiff). pose proof (proj1 Hiff eq_refl) as Hman.
  pose proof (run_ok (p ++ [x0a] ++ p ++ [x0a]) (bs "smbpasswd") [bs "-s"; bs "-a"; u] s1 Hs1) as Hr.
  destruct (runAccountTool _ _ _ s1) as [[output err] s2]. destruct Hr as (Hs2 & r & Hh & Hrun & _ & He).
  { intros r Hr. eapply jf_password; [done|exact Hq|done|]. by exists p. }
  cbn [fst snd]. split; [done|]. intros _ _ Hfail. exists [q; r]. rewrite Hh, Hq, <- app_assoc. split; [done|].
  right. exists q, r. split_and!; [done|done|by exists p|]. rewrite He. by destruct err.
Qed.

Lemma sambaNologinShell_history (s : accounts W) : history (sambaNologinShell s).2 = history s.
Proof.
  unfold sambaNologinShell. destruct (first_regular _ (world s)) as [[c|] w]; [done|]. by destruct (aw_lookPath w _).
Qed.

Lemma CreateSambaUser_ok u p (s : accounts W) : history_ok s -> history_ok (CreateSambaUser u p s).2.
Proof.
  intros Hs. unfold CreateSambaUser. destruct (ValidateSambaUsername u) as [[]|] eqn:Hu; [|done].
  apply ValidateSambaUsername_ok in Hu. destruct (validateSambaPassword p) as [[]|] eqn:Hpw; [|done].
  pose proof (sambaPasswdEntry_ok u s Hs Hu) as Hp. destruct (sambaPasswdEntry u s) as [answer s1].
  destruct Hp as (Hs1 & q & Hq & Hlook & Ha). destruct answer as [[]|]; [done| |done].
  apply eq_sym, (lookup_done _ _ _ Hlook) in Ha.
  pose proof (sambaNologinShell_history s1) as Hsh. destruct (sambaNologinShell s1) as [shell s2]. cbn [snd] in Hsh.
  assert (Hs2 : history_ok s2) by (unfold history_ok; by rewrite Hsh).
  destruct shell as [shell|]; [|done].
  pose proof (run_ok [] (bs "useradd") [bs "--system"; bs "--no-create-home"; bs "--shell"; shell; bs "--comment";
    sambaAccountComment; u] s2 Hs2) as Hr.
  destruct (runAccountTool _ _ _ s2) as [[output err] s3]. destruct Hr as (Hs3 & x & Hx & Hrun & _ & He).
  { intros r Hr. eapply jf_create; [done|by rewrite Hsh|done|]. by exists shell. }
  destruct err as [e|]; [done|]. destruct (SetSambaPassword_ok u p s3 Hs3) as (Hs4 & Hfail).
  destruct (SetSambaPassword u p s3) as [[cause|] s4]; [|done]. cbn [fst snd] in Hs4, Hfail.
  destruct (Hfail Hu Hpw ltac:(done)) as (l & Hl & Hpf).
  pose proof (run_ok [] (bs "userdel") [u] s4 Hs4) as Hr.
  destruct (runAccountTool _ _ _ s4) as [[output' err'] s5]. destruct Hr as (Hs5 & _); [|by destruct err'].
  intros r Hr. eapply (jf_rollback _ _ u (history s) q x l); try done; [|by exists shell].
  rewrite Hl, Hx, Hsh, Hq, <- !app_assoc. done.
Qed.

Lemma DeleteSambaUser_ok u (s : accounts W) : history_ok s -> history_ok (DeleteSambaUser u s).2.
Proof.
  intros Hs. unfold DeleteSambaUser. destruct (ValidateSambaUsername u) as [[]|] eqn:Hu; [|done].
  apply ValidateSambaUsername_ok in Hu. pose proof (sambaPasswdEntry_ok u s Hs Hu) as Hp.
  destruct (sambaPasswdEntry u s) as [answer s1]. destruct Hp as (Hs1 & q & Hq & Hlook & Ha).
  destruct answer as [[fields|]|]; try done. apply eq_sym, (lookup_done _ _ _ Hlook) in Ha.
  destruct (isSambaShareAccountEntry fields) eqn:Hm; [|done]. cbn [negb].
  assert (Hman : managed u q) by (by exists fields).
  pose proof (run_ok [] (bs "smbpasswd") [bs "-x"; u] s1 Hs1) as Hr.
  destruct (runAccountTool _ _ _ s1) as [[output err] s2]. destruct Hr as (Hs2 & x & Hx & Hrun & _ & He).
  { intros r Hr. by eapply jf_disable. }
  destruct err as [e|]; [done|]. pose proof (run_ok [] (bs "userdel") [u] s2 Hs2) as Hr.
  destruct (runAccountTool _ _ _ s2) as [[output' err'] s3]. destruct Hr as (Hs3 & _); [|by destruct err'].
  intros r Hr. eapply (jf_remove _ _ u (history s) q x); try done. by rewrite Hx, Hq, <- app_assoc.
Qed.

Lemma account_step_ok op (s : accounts W) : history_ok s -> history_ok (account_step op s).
Proof.
  intros Hs. destruct op as [u p|u p|u| |u]; cbn [account_step].
  - by apply CreateSambaUser_ok.
  - by apply SetSambaPassword_ok.
  - by apply DeleteSambaUser_ok.
  - unfold ListSambaUsers. pose proof (run_ok [] (bs "getent") [bs "passwd"] s Hs ltac:(eauto with history)) as Hr.
    destruct (runAccountTool _ _ _ s) as [[output err] s']. destruct Hr as (Hs' & _). by destruct err.
  - pose proof (IsSambaShareAccount_ok u s Hs) as Hi. by destruct (IsSambaShareAccount u s); destruct Hi.
Qed.
End justification.

(** C39. Only share accounts are ever touched: however many requests are made one
    after the other, and whatever the account tools answer, every tool run is a
    lookup or concerns an account name of the restricted form and is justified by
    what ran just before. An account is added only right after a lookup said it
    does not exist; its Samba password is set (to a text without line breaks, over
    standard input) or its Samba entry removed only right after a lookup returned
    an entry with the share-account comment and a nologin shell; a system account
    is deleted only after its Samba entry was removed, or, as the one exception,
    to undo an addition that succeeded in the same request when the password step
    that followed it failed. *)
Theorem account_tools_justified {W} `{AccountWorld W} ops (w : W) :
  each_after justified (history (foldl (fun s op => account_step op s) {| world := w; history := [] |} ops)).
Proof.
  set (s := {| world := w; history := [] |}).
  assert (Hs : history_ok s) by apply each_after_nil. clearbody s. revert s Hs.
  induction ops as [|op ops IH]; intros s Hs; [done|]. cbn [foldl]. apply IH. by apply account_step_ok.
Qed.

(** ** A machine with many accounts *)

Definition ordinary_line : bytes := bs "user:x:1000:1000:An ordinary user:/home/user:/bin/bash" ++ [x0a].
Definition share_line : bytes := bs "nas:x:998:998:CasaOS share account:/home/nas:/usr/sbin/nologin" ++ [x0a].

(** A passwd database of [n] ordinary accounts and, after them, the share account. *)
Definition machine (n : nat) : AccountWorld unit := {|
  aw_run _ _ _ args := (if bool_decide (args = [bs "passwd"]) then replicate n ordinary_line ++ [share_line] else [share_line], None, tt);
  aw_isRegular _ _ := (true, tt);
  aw_lookPath _ _ := (None, tt) |}.

Definition no_history : accounts unit := {| world := tt; history := [] |}.

Example list_on_small_machine :
  (@ListSambaUsers unit (machine 100) no_history).1 = Ok [bs "nas"].
Proof. vm_compute. reflexivity. Qed.

(** The output bound of 8 KiB cuts the listing silently: with 200 ordinary
    accounts before it, a share account that [IsSambaShareAccount] recognizes is
    missing from the answer of [ListSambaUsers], which reports success. *)
Theorem ListSambaUsers_truncated :
  (@ListSambaUsers unit (machine 200) no_history).1 = Ok [] /\
  (@IsSambaShareAccount unit (machine 200) (bs "nas") no_history).1 = Ok true.
Proof. vm_compute. done. Qed.
